(** * cmft image core: a shallow embedding of [src/cmft/image.cpp]

    The development follows the C++ source function by function.

    - Unsigned machine integers are [Z] with the wrap-around written out
      ([u8], [u16], [u32]).
    - [float] is IEEE binary32, modelled by the Standard Library's
      executable specification [SpecFloat] at precision 24 and maximal
      exponent 128; [half] is binary16 (precision 11, exponent 16).
      Where a lemma speaks of the number a float stands for, that number
      is a rational ([value]).
    - A pixel buffer is a list of bytes.  Reads and writes are bounds
      checked: an access outside the buffer makes the run [Stuck].
    - A [FILE*] is a list of bytes with a read position.
    - Functions that the source writes as [bool f(Image& _dst, ...)] take
      the destination image and return it together with the flag.

    Part I holds the definitions, Part II the lemmas and theorems, Part III
    further properties of the code: the utilities, the offset tables, the
    row flip, the face lists, the 8-bit codecs and the round trips through
    the DDS, KTX, HDR and TGA writers and loaders.  C10 comes last: an
    image that is not RGBA32F is converted around the resize, and the
    theorem rests on the lemmas on [imageToRgba32f] and
    [imageFromRgba32f]. *)

From Stdlib Require Import ZArith List Bool Lia.
From Stdlib Require Import SpecFloat.
From Stdlib Require Import QArith Qround Qpower Lqa.
Import ListNotations.
Open Scope Z_scope.

(* ===================================================================== *)
(** * Part I. The model                                                    *)
(* ===================================================================== *)

(** ** Outcomes of a run *)

(** Why a run has no defined result. *)
Inductive fault : Type :=
| OutOfBounds   (* a read or write outside an allocated buffer, or a short file read *)
| CheckFailed   (* a DEBUG_CHECK of the source does not hold *)
| Undefined     (* a conversion or shift the C++ standard leaves undefined *)
| NoReturn.     (* a loop whose counter wraps around before reaching its bound *)

Inductive outcome (A : Type) : Type :=
| Done (a : A)
| Stuck (f : fault).

Arguments Done {A} a.
Arguments Stuck {A} f.

Definition bind {A B : Type} (c : outcome A) (k : A -> outcome B) : outcome B :=
  match c with
  | Done a => k a
  | Stuck f => Stuck f
  end.

Notation "x <- c ;; k" := (bind c (fun x => k))
  (at level 61, c at next level, right associativity).
Notation "' p <- c ;; k" := (bind c (fun x => let p := x in k))
  (at level 61, p pattern, c at next level, right associativity).

(** [DEBUG_CHECK(b, ...)]. *)
Definition ensure (b : bool) : outcome unit :=
  if b then Done tt else Stuck CheckFailed.

Definition defined {A : Type} (o : option A) : outcome A :=
  match o with
  | Some a => Done a
  | None => Stuck Undefined
  end.

(** [for (i = start; i < start + n; ++i) body], threading the state [s]. *)
Fixpoint loop {S : Type} (n : nat) (i : Z) (body : Z -> S -> outcome S) (s : S)
  : outcome S :=
  match n with
  | O => Done s
  | Datatypes.S n' => s' <- body i s ;; loop n' (i + 1) body s'
  end.

Definition for_upto {S : Type} (count : Z) (body : Z -> S -> outcome S) (s : S)
  : outcome S :=
  loop (Z.to_nat count) 0 body s.

(** The indices [0 .. n-1], for loops that only accumulate a number. *)
Definition upto (n : Z) : list Z := map Z.of_nat (seq 0 (Z.to_nat n)).

(** ** Machine integers *)

Definition u8 (x : Z) : Z := x mod 256.
Definition u16 (x : Z) : Z := x mod 65536.
Definition u32 (x : Z) : Z := x mod 4294967296.

(** [(int32_t)x] of a [uint32_t]. *)
Definition i32 (x : Z) : Z :=
  let y := u32 x in if y <? 2147483648 then y else y - 4294967296.

(** [cmft::max] and [cmft::min] of base/utils.h. *)
Definition max (a b : Z) : Z := if a >? b then a else b.
Definition min (a b : Z) : Z := if a >? b then b else a.

(** [align] of base/utils.h. *)
Definition align (_val _alignPow2 : Z) : Z :=
  let mask := u32 (_alignPow2 - 1) in
  Z.land (u32 (_val + mask)) (u32 (Z.lnot mask)).

(** ** Bytes and buffers *)

Definition bytes : Type := list Z.

Definition len (b : bytes) : Z := Z.of_nat (List.length b).

Definition slice (b : bytes) (off n : Z) : bytes :=
  firstn (Z.to_nat n) (skipn (Z.to_nat off) b).

(** Read [n] bytes at [off]. *)
Definition peek (buf : bytes) (off n : Z) : outcome bytes :=
  if (0 <=? off) && (0 <=? n) && (off + n <=? len buf)
  then Done (slice buf off n)
  else Stuck OutOfBounds.

(** Overwrite the bytes at [off] with [src]. *)
Definition poke (buf : bytes) (off : Z) (src : bytes) : outcome bytes :=
  if (0 <=? off) && (off + len src <=? len buf)
  then Done (firstn (Z.to_nat off) buf ++ src ++ skipn (Z.to_nat (off + len src)) buf)
  else Stuck OutOfBounds.

(** [memcpy(dst + doff, src + soff, n)]. *)
Definition memcpy (dst : bytes) (doff : Z) (src : bytes) (soff n : Z)
  : outcome bytes :=
  chunk <- peek src soff n ;; poke dst doff chunk.

(** [cmft_swap(buf + a, buf + b, n)] of base/utils.h. *)
Definition cmft_swap (buf : bytes) (a b n : Z) : outcome bytes :=
  c <- peek buf a n ;;
  buf1 <- memcpy buf a buf b n ;;
  poke buf1 b c.

(** [malloc(n)]: the content of fresh memory is whatever [junk] says. *)
Definition malloc (junk : Z -> Z) (n : Z) : bytes := map junk (upto n).

(** Little-endian integers. *)
Fixpoint le_decode (b : bytes) : Z :=
  match b with
  | [] => 0
  | x :: r => x + 256 * le_decode r
  end.

Fixpoint le_encode (n : nat) (x : Z) : bytes :=
  match n with
  | O => []
  | Datatypes.S n' => (x mod 256) :: le_encode n' (x / 256)
  end.

Definition byte_at (b : bytes) (i : Z) : Z := nth (Z.to_nat i) b 0.
Definition u16_at (b : bytes) (i : Z) : Z := le_decode (slice b (2 * i) 2).
Definition u32_at (b : bytes) (i : Z) : Z := le_decode (slice b (4 * i) 4).

(** ** IEEE binary32 and binary16 *)

Module F32.

Definition float : Type := spec_float.

Definition add : float -> float -> float := SFadd 24 128.
Definition sub : float -> float -> float := SFsub 24 128.
Definition mul : float -> float -> float := SFmul 24 128.
Definition div : float -> float -> float := SFdiv 24 128.
Definition ltb : float -> float -> bool := SFltb.
Definition gtb (x y : float) : bool := SFltb y x.

(** [float(z)] of an integer. *)
Definition of_Z (z : Z) : float := binary_normalize 24 128 z 0 false.

Definition zero : float := S754_zero false.
Definition one : float := S754_finite false 8388608 (-23).

(** A decimal literal [n/d] such as [0.0001f]: the nearest binary32. *)
Definition literal (n d : Z) : float := div (of_Z n) (of_Z d).

(** [ldexp(x, e)]. *)
Definition ldexp (x : float) (e : Z) : float := SFldexp 24 128 x e.

(** [fabsf]. *)
Definition fabsf (x : float) : float := SFabs x.

(** [cmft::max], [cmft::min] and [cmft::clamp] at type [float]. *)
Definition max (a b : float) : float := if gtb a b then a else b.
Definition min (a b : float) : float := if gtb a b then b else a.
Definition clamp (v lo hi : float) : float :=
  if gtb v hi then hi else if ltb v lo then lo else v.

(** Truncation toward zero, the first step of a float-to-integer
    conversion. *)
Definition trunc (x : float) : option Z :=
  match x with
  | S754_zero _ => Some 0
  | S754_finite s m e =>
      let mag := if 0 <=? e then Zpos m * 2 ^ e else Zpos m / 2 ^ (- e) in
      Some (if s then - mag else mag)
  | S754_infinity _ | S754_nan => None
  end.

(** [uintN_t(x)]: undefined unless the truncated value fits. *)
Definition to_unsigned (bits : Z) (x : float) : option Z :=
  match trunc x with
  | Some z => if (0 <=? z) && (z <? 2 ^ bits) then Some z else None
  | None => None
  end.

Definition to_u8 : float -> option Z := to_unsigned 8.
Definition to_u16 : float -> option Z := to_unsigned 16.
Definition to_u32 : float -> option Z := to_unsigned 32.

(** [int(x)]. *)
Definition to_int (x : float) : option Z :=
  match trunc x with
  | Some z => if (-2147483648 <=? z) && (z <? 2147483648) then Some z else None
  | None => None
  end.

(** [ceilf]. *)
Definition ceilf (x : float) : float :=
  match x with
  | S754_finite s m e =>
      if 0 <=? e then x
      else
        let q := Zpos m / 2 ^ (- e) in
        if s then binary_normalize 24 128 (- q) 0 true
        else if Zpos m mod 2 ^ (- e) =? 0
             then binary_normalize 24 128 q 0 false
             else binary_normalize 24 128 (q + 1) 0 false
  | _ => x
  end.

(** [floor(log2(m * 2^e))]: the [k] with [2^k <= m * 2^e < 2^(k+1)]. *)
Definition floor_log2 (m : positive) (e : Z) : Z := Zpos (digits2_pos m) - 1 + e.

(** [log2f] is the C library's; the model takes it to round to the
    nearest binary32, as glibc's does.  For [x = 2^k * (1 + f)] with
    [0 <= f < 1] the logarithm is [k + log2(1 + f)], and [log2(1 + f)] is
    [1.4427 * f] for a small [f].  Where that is less than half the
    distance from [k] to the binary32 number above it, [log2f(x)] is
    [k] itself.  That distance is [2^-21] for [4 <= k < 8], and doubles
    with each binade of [k]; for a negative [k] it is the distance above
    [k] towards zero, which puts [-k - 1] in the place of [k].
    [log2f_flat k] is the number of binary32 steps of [x] above [2^k]
    (steps of [2^(k-23)]) up to which [log2f(x)] is [k]: with [1.4427]
    per step, 1 step stays below 2 (half of [2^-21], in units of
    [2^-23]), 2 below 4, 5 below 8, 11 below 16, 22 below 32 and 44
    below 64. *)
Definition log2f_flat (k : Z) : Z :=
  let q := if 0 <=? k then k else - k - 1 in
  if q <? 4 then 0
  else if q <? 8 then 1
  else if q <? 16 then 2
  else if q <? 32 then 5
  else if q <? 64 then 11
  else if q <? 128 then 22
  else 44.

(** [ceilf(log2f(m * 2^e))] as an integer: [k + 1] for
    [k = floor(log2(m * 2^e))], and [k] on the power of two and on the
    numbers just above it that [log2f] sends to [k]. *)
Definition ceil_log2f (m : positive) (e : Z) : Z :=
  let k := floor_log2 m e in
  let lead := 2 ^ (Zpos (digits2_pos m) - 1) in
  if (Zpos m - lead) * 8388608 <=? log2f_flat k * lead then k else k + 1.

(** [ceilf(log2f(x))]. *)
Definition ceilf_log2f (x : float) : float :=
  match x with
  | S754_nan => S754_nan
  | S754_zero _ => S754_infinity true
  | S754_infinity false => x
  | S754_infinity true => S754_nan
  | S754_finite true _ _ => S754_nan
  | S754_finite false m e => of_Z (ceil_log2f m e)
  end.

(** The object representation: 32 bits, little-endian in memory.  NaN
    payloads are not tracked; every NaN is stored as [0x7FC00000]. *)
Definition of_bits (w : Z) : float :=
  let s := Z.testbit w 31 in
  let e := Z.land (Z.shiftr w 23) 255 in
  let f := Z.land w 8388607 in
  if e =? 0 then
    match f with
    | Zpos p => S754_finite s p (-149)
    | _ => S754_zero s
    end
  else if e =? 255 then
    (if f =? 0 then S754_infinity s else S754_nan)
  else S754_finite s (Z.to_pos (f + 8388608)) (e - 150).

Definition sign_bit (s : bool) : Z := if s then 2147483648 else 0.

Definition to_bits (x : float) : Z :=
  match x with
  | S754_zero s => sign_bit s
  | S754_infinity s => sign_bit s + 2139095040
  | S754_nan => 2143289344
  | S754_finite s m e =>
      if Zpos m <? 8388608 then sign_bit s + Zpos m
      else sign_bit s + (e + 150) * 8388608 + (Zpos m - 8388608)
  end.

Definition load (b : bytes) : float := of_bits (le_decode b).
Definition store (x : float) : bytes := le_encode 4 (to_bits x).

End F32.

Module Half.

(** Modelled from the spec: [bx::halfToFloat] and [bx::halfFromFloat]
    come from the bx library, which is not under src/.  The spec asks
    for IEEE binary16 with round-to-nearest-even. *)

Definition of_bits (w : Z) : spec_float :=
  let s := Z.testbit w 15 in
  let e := Z.land (Z.shiftr w 10) 31 in
  let f := Z.land w 1023 in
  if e =? 0 then
    match f with
    | Zpos p => S754_finite s p (-24)
    | _ => S754_zero s
    end
  else if e =? 31 then
    (if f =? 0 then S754_infinity s else S754_nan)
  else S754_finite s (Z.to_pos (f + 1024)) (e - 25).

Definition sign_bit (s : bool) : Z := if s then 32768 else 0.

Definition to_bits (x : spec_float) : Z :=
  match x with
  | S754_zero s => sign_bit s
  | S754_infinity s => sign_bit s + 31744
  | S754_nan => 32256
  | S754_finite s m e =>
      if Zpos m <? 1024 then sign_bit s + Zpos m
      else sign_bit s + (e + 25) * 1024 + (Zpos m - 1024)
  end.

(** Re-round a finite value of one format into another. *)
Definition reround (prec emax : Z) (x : spec_float) : spec_float :=
  match x with
  | S754_finite s m e => binary_round prec emax s m e
  | _ => x
  end.

Definition halfToFloat (h : Z) : F32.float := reround 24 128 (of_bits h).
Definition halfFromFloat (x : F32.float) : Z := to_bits (reround 11 16 x).

End Half.

(** ** Texture formats *)

Module TextureFormat.

(** The enumeration, in the order of [s_textureFormatStr]. *)
Inductive Enum : Type :=
| BGR8 | RGB8 | RGB16 | RGB16F | RGB32F | RGBE
| BGRA8 | RGBA8 | RGBA16 | RGBA16F | RGBA32F
| Unknown.

Definition eqb (a b : Enum) : bool :=
  match a, b with
  | BGR8, BGR8 | RGB8, RGB8 | RGB16, RGB16 | RGB16F, RGB16F
  | RGB32F, RGB32F | RGBE, RGBE | BGRA8, BGRA8 | RGBA8, RGBA8
  | RGBA16, RGBA16 | RGBA16F, RGBA16F | RGBA32F, RGBA32F
  | Unknown, Unknown => true
  | _, _ => false
  end.

(** [TextureFormat::Enum(ii)]. *)
Definition of_Z (i : Z) : Enum :=
  nth (Z.to_nat i)
      [BGR8; RGB8; RGB16; RGB16F; RGB32F; RGBE;
       BGRA8; RGBA8; RGBA16; RGBA16F; RGBA32F] Unknown.

End TextureFormat.

Module PixelDataType.
Inductive Enum : Type := UINT8 | UINT16 | UINT32 | HALF_FLOAT | FLOAT.
End PixelDataType.

Record ImageDataInfo : Type := {
  m_bytesPerPixel : Z;
  m_numChanels : Z;
  m_hasAlpha : Z;
  m_pixelType : PixelDataType.Enum
}.

(** [s_imageDataInfo]. *)
Definition getImageDataInfo (_format : TextureFormat.Enum) : ImageDataInfo :=
  match _format with
  | TextureFormat.BGR8    => Build_ImageDataInfo  3 3 0 PixelDataType.UINT8
  | TextureFormat.RGB8    => Build_ImageDataInfo  3 3 0 PixelDataType.UINT8
  | TextureFormat.RGB16   => Build_ImageDataInfo  6 3 0 PixelDataType.UINT16
  | TextureFormat.RGB16F  => Build_ImageDataInfo  6 3 0 PixelDataType.HALF_FLOAT
  | TextureFormat.RGB32F  => Build_ImageDataInfo 12 3 0 PixelDataType.FLOAT
  | TextureFormat.RGBE    => Build_ImageDataInfo  4 4 0 PixelDataType.UINT8
  | TextureFormat.BGRA8   => Build_ImageDataInfo  4 4 1 PixelDataType.UINT8
  | TextureFormat.RGBA8   => Build_ImageDataInfo  4 4 1 PixelDataType.UINT8
  | TextureFormat.RGBA16  => Build_ImageDataInfo  8 4 1 PixelDataType.UINT16
  | TextureFormat.RGBA16F => Build_ImageDataInfo  8 4 1 PixelDataType.HALF_FLOAT
  | TextureFormat.RGBA32F => Build_ImageDataInfo 16 4 1 PixelDataType.FLOAT
  | TextureFormat.Unknown => Build_ImageDataInfo  0 0 0 PixelDataType.UINT8
  end.

Definition bpp (_format : TextureFormat.Enum) : Z :=
  m_bytesPerPixel (getImageDataInfo _format).

Module ImageFileType.
Inductive Enum : Type := DDS | KTX | TGA | HDR.
End ImageFileType.

Definition s_ddsValidFormats : list TextureFormat.Enum :=
  [TextureFormat.BGR8; TextureFormat.BGRA8; TextureFormat.RGBA16;
   TextureFormat.RGBA16F; TextureFormat.RGBA32F].

Definition s_ktxValidFormats : list TextureFormat.Enum :=
  [TextureFormat.RGB8; TextureFormat.RGB16; TextureFormat.RGB16F;
   TextureFormat.RGB32F; TextureFormat.RGBA8; TextureFormat.RGBA16;
   TextureFormat.RGBA16F; TextureFormat.RGBA32F].

Definition s_tgaValidFormats : list TextureFormat.Enum :=
  [TextureFormat.BGR8; TextureFormat.BGRA8].

Definition s_hdrValidFormats : list TextureFormat.Enum := [TextureFormat.RGBE].

Definition contains (_format : TextureFormat.Enum)
    (_formatList : list TextureFormat.Enum) : bool :=
  existsb (TextureFormat.eqb _format) _formatList.

Definition checkValidInternalFormat (_fileType : ImageFileType.Enum)
    (_internalFormat : TextureFormat.Enum) : bool :=
  match _fileType with
  | ImageFileType.DDS => contains _internalFormat s_ddsValidFormats
  | ImageFileType.KTX => contains _internalFormat s_ktxValidFormats
  | ImageFileType.TGA => contains _internalFormat s_tgaValidFormats
  | ImageFileType.HDR => contains _internalFormat s_hdrValidFormats
  end.

(** ** Images *)

(** [struct Image] of image.h: [m_width], [m_height] and [m_dataSize] are
    [uint32_t], [m_numMips] and [m_numFaces] are [uint8_t]. *)
Record Image : Type := {
  m_data : bytes;
  m_width : Z;
  m_height : Z;
  m_dataSize : Z;
  m_format : TextureFormat.Enum;
  m_numMips : Z;
  m_numFaces : Z
}.

(** A default-constructed [Image]. *)
Definition emptyImage : Image :=
  Build_Image [] 0 0 0 TextureFormat.Unknown 0 0.

(** [max(UINT32_C(1), size >> mip)].  The shift of a [uint32_t] is
    defined for [mip < 32]; an image has at most [MAX_MIP_NUM = 16]
    levels, and the theorems on the levels of an image ask for that. *)
Definition mipDim (size mip : Z) : Z := max 1 (Z.shiftr size mip).

(** [width * height * bytesPerPixel] of one mip level, in [uint32_t]. *)
Definition mipBytes (width height bytesPerPixel mip : Z) : Z :=
  u32 (u32 (mipDim width mip * mipDim height mip) * bytesPerPixel).

Definition imageUnload (_image : Image) : Image :=
  Build_Image [] (m_width _image) (m_height _image) (m_dataSize _image)
              (m_format _image) (m_numMips _image) (m_numFaces _image).

(** [imageRef]: the destination aliases the source's bytes. *)
Definition imageRef (_src : Image) : Image := _src.

(** [imageMove(_dst, _src)]: the value [_dst] holds afterwards. *)
Definition imageMove (_src : Image) : Image := _src.

(** [imageCopy]: [m_dataSize] bytes are copied out of the source. *)
Definition imageCopy (_src : Image) : outcome Image :=
  data <- peek (m_data _src) 0 (m_dataSize _src) ;;
  Done (Build_Image data (m_width _src) (m_height _src) (m_dataSize _src)
                    (m_format _src) (m_numMips _src) (m_numFaces _src)).

Definition imageGetNumPixels (_image : Image) : outcome Z :=
  _ <- ensure (negb (m_numMips _image =? 0)) ;;
  let count :=
    fold_left
      (fun count mip =>
         u32 (count + u32 (mipDim (m_width _image) mip * mipDim (m_height _image) mip)))
      (upto (m_numMips _image)) 0 in
  Done (u32 (count * m_numFaces _image)).

(** The running offset of [imageGetMipOffsets] after [n] (face, mip)
    steps of its two loops. *)
Definition mipOffsetAfter (_image : Image) (faces : Z) : Z :=
  fold_left
    (fun offset _ =>
       fold_left
         (fun offset mip =>
            u32 (offset + mipBytes (m_width _image) (m_height _image)
                                   (bpp (m_format _image)) mip))
         (upto (m_numMips _image)) offset)
    (upto faces) 0.

(** [imageGetMipOffsets]: the entry [_offsets[face][mip]].  The source
    fills a [uint32_t[CUBE_FACE_NUM][MAX_MIP_NUM]]: the entry exists for
    [face < m_numFaces <= 6] and [mip < m_numMips <= 16], and the
    theorems on the table ask for that. *)
Definition imageGetMipOffsets (_image : Image) (face mip : Z) : Z :=
  fold_left
    (fun offset mip =>
       u32 (offset + mipBytes (m_width _image) (m_height _image)
                              (bpp (m_format _image)) mip))
    (upto mip) (mipOffsetAfter _image face).

(** [imageGetFaceOffsets]: the entry [_faceOffsets[face]] of a
    [uint32_t[CUBE_FACE_NUM]], for [face < m_numFaces <= 6]. *)
Definition imageGetFaceOffsets (_image : Image) (face : Z) : Z :=
  mipOffsetAfter _image face.

(** ** Pixel conversions to and from RGBA32F *)

(** A [float[4]]. *)
Record rgba32f : Type := Rgba { px0 : F32.float; px1 : F32.float;
                                px2 : F32.float; px3 : F32.float }.

(** [1.0f/255.0f] and [1.0f/65535.0f]. *)
Definition inv255 : F32.float := F32.div F32.one (F32.of_Z 255).
Definition inv65535 : F32.float := F32.div F32.one (F32.of_Z 65535).

Definition u8ToFloat (b : Z) : F32.float := F32.mul (F32.of_Z b) inv255.
Definition u16ToFloat (w : Z) : F32.float := F32.mul (F32.of_Z w) inv65535.

Definition bgr8ToRgba32f (_bgr8 : bytes) : rgba32f :=
  Rgba (u8ToFloat (byte_at _bgr8 2)) (u8ToFloat (byte_at _bgr8 1))
       (u8ToFloat (byte_at _bgr8 0)) F32.one.

Definition bgra8ToRgba32f (_bgra8 : bytes) : rgba32f :=
  Rgba (u8ToFloat (byte_at _bgra8 2)) (u8ToFloat (byte_at _bgra8 1))
       (u8ToFloat (byte_at _bgra8 0)) (u8ToFloat (byte_at _bgra8 3)).

Definition rgb8ToRgba32f (_rgb8 : bytes) : rgba32f :=
  Rgba (u8ToFloat (byte_at _rgb8 0)) (u8ToFloat (byte_at _rgb8 1))
       (u8ToFloat (byte_at _rgb8 2)) F32.one.

Definition rgba8ToRgba32f (_rgba8 : bytes) : rgba32f :=
  Rgba (u8ToFloat (byte_at _rgba8 0)) (u8ToFloat (byte_at _rgba8 1))
       (u8ToFloat (byte_at _rgba8 2)) (u8ToFloat (byte_at _rgba8 3)).

Definition rgb16ToRgba32f (_rgb16 : bytes) : rgba32f :=
  Rgba (u16ToFloat (u16_at _rgb16 0)) (u16ToFloat (u16_at _rgb16 1))
       (u16ToFloat (u16_at _rgb16 2)) F32.one.

Definition rgba16ToRgba32f (_rgba16 : bytes) : rgba32f :=
  Rgba (u16ToFloat (u16_at _rgba16 0)) (u16ToFloat (u16_at _rgba16 1))
       (u16ToFloat (u16_at _rgba16 2)) (u16ToFloat (u16_at _rgba16 3)).

Definition rgb16fToRgba32f (_rgb16f : bytes) : rgba32f :=
  Rgba (Half.halfToFloat (u16_at _rgb16f 0)) (Half.halfToFloat (u16_at _rgb16f 1))
       (Half.halfToFloat (u16_at _rgb16f 2)) F32.one.

Definition rgba16fToRgba32f (_rgba16f : bytes) : rgba32f :=
  Rgba (Half.halfToFloat (u16_at _rgba16f 0)) (Half.halfToFloat (u16_at _rgba16f 1))
       (Half.halfToFloat (u16_at _rgba16f 2)) (Half.halfToFloat (u16_at _rgba16f 3)).

Definition f32_at (b : bytes) (i : Z) : F32.float := F32.load (slice b (4 * i) 4).

Definition rgb32fToRgba32f (_rgb32f : bytes) : rgba32f :=
  Rgba (f32_at _rgb32f 0) (f32_at _rgb32f 1) (f32_at _rgb32f 2) F32.one.

Definition rgba32fToRgba32f (_src : bytes) : rgba32f :=
  Rgba (f32_at _src 0) (f32_at _src 1) (f32_at _src 2) (f32_at _src 3).

Definition rgbeToRgba32f (_rgbe : bytes) : rgba32f :=
  if negb (byte_at _rgbe 3 =? 0) then
    let exp := F32.ldexp F32.one (byte_at _rgbe 3 - (128 + 8)) in
    Rgba (F32.mul (F32.of_Z (byte_at _rgbe 0)) exp)
         (F32.mul (F32.of_Z (byte_at _rgbe 1)) exp)
         (F32.mul (F32.of_Z (byte_at _rgbe 2)) exp)
         F32.one
  else Rgba F32.zero F32.zero F32.zero F32.one.

(** [toRgba32f]; the pixel's bytes start at [_src]. *)
Definition toRgba32f (_srcFormat : TextureFormat.Enum) (_src : bytes)
  : outcome rgba32f :=
  match _srcFormat with
  | TextureFormat.BGR8    => Done (bgr8ToRgba32f _src)
  | TextureFormat.RGB8    => Done (rgb8ToRgba32f _src)
  | TextureFormat.RGB16   => Done (rgb16ToRgba32f _src)
  | TextureFormat.RGB16F  => Done (rgb16fToRgba32f _src)
  | TextureFormat.RGB32F  => Done (rgb32fToRgba32f _src)
  | TextureFormat.RGBE    => Done (rgbeToRgba32f _src)
  | TextureFormat.BGRA8   => Done (bgra8ToRgba32f _src)
  | TextureFormat.RGBA8   => Done (rgba8ToRgba32f _src)
  | TextureFormat.RGBA16  => Done (rgba16ToRgba32f _src)
  | TextureFormat.RGBA16F => Done (rgba16fToRgba32f _src)
  | TextureFormat.RGBA32F => Done (rgba32fToRgba32f _src)
  | TextureFormat.Unknown => Stuck CheckFailed
  end.

(** [uint8_t(clamp(x, 0.0f, 1.0f) * 255.0f)]. *)
Definition floatToU8 (x : F32.float) : option Z :=
  F32.to_u8 (F32.mul (F32.clamp x F32.zero F32.one) (F32.of_Z 255)).

(** [uint16_t(clamp(x, 0.0f, 1.0f) * 65535.0f)]. *)
Definition floatToU16 (x : F32.float) : option Z :=
  F32.to_u16 (F32.mul (F32.clamp x F32.zero F32.one) (F32.of_Z 65535)).

Definition opt_bind {A B : Type} (o : option A) (k : A -> option B) : option B :=
  match o with
  | Some a => k a
  | None => None
  end.

Notation "x <-? o ;; k" := (opt_bind o (fun x => k))
  (at level 61, o at next level, right associativity).
Notation "' p <-? o ;; k" := (opt_bind o (fun x => let p := x in k))
  (at level 61, p pattern, o at next level, right associativity).

(** The encoders return the bytes they write, starting at the pixel. *)

Definition bgr8FromRgba32f (p : rgba32f) : option bytes :=
  b2 <-? floatToU8 (px0 p) ;; b1 <-? floatToU8 (px1 p) ;;
  b0 <-? floatToU8 (px2 p) ;; Some [b0; b1; b2].

Definition bgra8FromRgba32f (p : rgba32f) : option bytes :=
  b2 <-? floatToU8 (px0 p) ;; b1 <-? floatToU8 (px1 p) ;;
  b0 <-? floatToU8 (px2 p) ;; b3 <-? floatToU8 (px3 p) ;;
  Some [b0; b1; b2; b3].

Definition rgb8FromRgba32f (p : rgba32f) : option bytes :=
  b0 <-? floatToU8 (px0 p) ;; b1 <-? floatToU8 (px1 p) ;;
  b2 <-? floatToU8 (px2 p) ;; Some [b0; b1; b2].

Definition rgba8FromRgba32f (p : rgba32f) : option bytes :=
  b0 <-? floatToU8 (px0 p) ;; b1 <-? floatToU8 (px1 p) ;;
  b2 <-? floatToU8 (px2 p) ;; b3 <-? floatToU8 (px3 p) ;;
  Some [b0; b1; b2; b3].

Definition rgb16FromRgba32f (p : rgba32f) : option bytes :=
  w0 <-? floatToU16 (px0 p) ;; w1 <-? floatToU16 (px1 p) ;;
  w2 <-? floatToU16 (px2 p) ;;
  Some (le_encode 2 w0 ++ le_encode 2 w1 ++ le_encode 2 w2).

Definition rgba16FromRgba32f (p : rgba32f) : option bytes :=
  w0 <-? floatToU16 (px0 p) ;; w1 <-? floatToU16 (px1 p) ;;
  w2 <-? floatToU16 (px2 p) ;; w3 <-? floatToU16 (px3 p) ;;
  Some (le_encode 2 w0 ++ le_encode 2 w1 ++ le_encode 2 w2 ++ le_encode 2 w3).

(** The source stores [_rgb16f[3]] as well: eight bytes are written at a
    six-byte pixel. *)
Definition rgb16fFromRgba32f (p : rgba32f) : option bytes :=
  Some (le_encode 2 (Half.halfFromFloat (px0 p))
        ++ le_encode 2 (Half.halfFromFloat (px1 p))
        ++ le_encode 2 (Half.halfFromFloat (px2 p))
        ++ le_encode 2 (Half.halfFromFloat (px3 p))).

Definition rgba16fFromRgba32f (p : rgba32f) : option bytes :=
  Some (le_encode 2 (Half.halfFromFloat (px0 p))
        ++ le_encode 2 (Half.halfFromFloat (px1 p))
        ++ le_encode 2 (Half.halfFromFloat (px2 p))
        ++ le_encode 2 (Half.halfFromFloat (px3 p))).

Definition rgb32fFromRgba32f (p : rgba32f) : option bytes :=
  Some (F32.store (px0 p) ++ F32.store (px1 p) ++ F32.store (px2 p)).

Definition rgba32fFromRgba32f (p : rgba32f) : option bytes :=
  Some (F32.store (px0 p) ++ F32.store (px1 p) ++ F32.store (px2 p)
        ++ F32.store (px3 p)).

Definition rgbeFromRgba32f (p : rgba32f) : option bytes :=
  let maxVal := F32.max (px0 p) (F32.max (px1 p) (px2 p)) in
  let exp := F32.ceilf_log2f maxVal in
  e <-? F32.to_int exp ;;
  let toRgb8 := F32.div (F32.mul (F32.of_Z 255) F32.one) (F32.ldexp F32.one e) in
  b0 <-? F32.to_u8 (F32.mul (px0 p) toRgb8) ;;
  b1 <-? F32.to_u8 (F32.mul (px1 p) toRgb8) ;;
  b2 <-? F32.to_u8 (F32.mul (px2 p) toRgb8) ;;
  b3 <-? F32.to_u8 (F32.add exp (F32.of_Z 128)) ;;
  Some [b0; b1; b2; b3].

(** [fromRgba32f]. *)
Definition fromRgba32f (_format : TextureFormat.Enum) (p : rgba32f)
  : outcome bytes :=
  match _format with
  | TextureFormat.BGR8    => defined (bgr8FromRgba32f p)
  | TextureFormat.RGB8    => defined (rgb8FromRgba32f p)
  | TextureFormat.RGB16   => defined (rgb16FromRgba32f p)
  | TextureFormat.RGB16F  => defined (rgb16fFromRgba32f p)
  | TextureFormat.RGB32F  => defined (rgb32fFromRgba32f p)
  | TextureFormat.RGBE    => defined (rgbeFromRgba32f p)
  | TextureFormat.BGRA8   => defined (bgra8FromRgba32f p)
  | TextureFormat.RGBA8   => defined (rgba8FromRgba32f p)
  | TextureFormat.RGBA16  => defined (rgba16FromRgba32f p)
  | TextureFormat.RGBA16F => defined (rgba16fFromRgba32f p)
  | TextureFormat.RGBA32F => defined (rgba32fFromRgba32f p)
  | TextureFormat.Unknown => Stuck CheckFailed
  end.

(** ** Whole-image conversions *)

Section Heap.

(** What [malloc] returns before it is written: the byte at each
    offset of a fresh block.  Every allocating function takes it as
    its first argument once the section is closed. *)
Variable junk : Z -> Z.

Definition storePixel (p : rgba32f) : bytes :=
  F32.store (px0 p) ++ F32.store (px1 p) ++ F32.store (px2 p)
  ++ F32.store (px3 p).

(** [imageToRgba32f(_dst, _src)]: the image moved into [_dst]. *)
Definition imageToRgba32f (_src : Image) : outcome Image :=
  pixelCount <- imageGetNumPixels _src ;;
  let dstBytesPerPixel := bpp TextureFormat.RGBA32F in
  let dataSize := u32 (pixelCount * dstBytesPerPixel) in
  let data := malloc junk dataSize in
  let numChannelsPerPixel := m_numChanels (getImageDataInfo TextureFormat.RGBA32F) in
  let totalNumChannels := u32 (pixelCount * numChannelsPerPixel) in
  data' <-
    match m_format _src with
    | TextureFormat.RGBA32F => memcpy data 0 (m_data _src) 0 dataSize
    | TextureFormat.Unknown => Stuck CheckFailed
    | f =>
        for_upto ((totalNumChannels + 3) / 4)
          (fun i data =>
             src <- peek (m_data _src) (i * bpp f) (bpp f) ;;
             p <- toRgba32f f src ;;
             poke data (i * 16) (storePixel p))
          data
    end ;;
  Done (Build_Image data' (m_width _src) (m_height _src) dataSize
                    TextureFormat.RGBA32F (m_numMips _src) (m_numFaces _src)).

(** [imageFromRgba32f(_dst, _dstFormat, _src)]. *)
Definition imageFromRgba32f (_dstFormat : TextureFormat.Enum) (_src : Image)
  : outcome Image :=
  _ <- ensure (TextureFormat.eqb TextureFormat.RGBA32F (m_format _src)) ;;
  pixelCount <- imageGetNumPixels _src ;;
  let dstBytesPerPixel := bpp _dstFormat in
  let dstDataSize := u32 (pixelCount * dstBytesPerPixel) in
  let dstData := malloc junk dstDataSize in
  let srcNumChannels := m_numChanels (getImageDataInfo (m_format _src)) in
  let totalNumChannels := u32 (pixelCount * srcNumChannels) in
  dstData' <-
    match _dstFormat with
    | TextureFormat.Unknown => Stuck CheckFailed
    | TextureFormat.RGBA32F =>
        for_upto ((totalNumChannels + 3) / 4)
          (fun i dst => memcpy dst (i * 16) (m_data _src) (i * 16) 16)
          dstData
    | f =>
        for_upto ((totalNumChannels + 3) / 4)
          (fun i dst =>
             src <- peek (m_data _src) (i * 16) 16 ;;
             out <- fromRgba32f f (rgba32fToRgba32f src) ;;
             poke dst (i * bpp f) out)
          dstData
    end ;;
  Done (Build_Image dstData' (m_width _src) (m_height _src) dstDataSize
                    _dstFormat (m_numMips _src) (m_numFaces _src)).

(** [imageConvert(_dst, _dstFormat, _src)]. *)
Definition imageConvert (_dstFormat : TextureFormat.Enum) (_src : Image)
  : outcome Image :=
  imageRgba32f <-
    (if TextureFormat.eqb TextureFormat.RGBA32F (m_format _src)
     then Done (imageRef _src)
     else imageToRgba32f _src) ;;
  if TextureFormat.eqb TextureFormat.RGBA32F _dstFormat
  then imageCopy imageRgba32f
  else imageFromRgba32f _dstFormat imageRgba32f.

(** [imageConvert(_image, _format)], in place. *)
Definition imageConvertInPlace (_image : Image) (_format : TextureFormat.Enum)
  : outcome Image :=
  if negb (TextureFormat.eqb _format (m_format _image))
  then tmp <- imageConvert _format _image ;; Done (imageMove tmp)
  else Done _image.

(** [imageRefOrConvert]: the flag tells whether [_dst] is a reference. *)
Definition imageRefOrConvert (_format : TextureFormat.Enum) (_src : Image)
  : outcome (bool * Image) :=
  if TextureFormat.eqb _format (m_format _src)
  then Done (true, imageRef _src)
  else dst <- imageConvert _format _src ;; Done (false, dst).

(** ** [imageGetPixel] *)

(** The offset the two nested loops of [imageGetPixel] arrive at. *)
Definition getPixelOffset (_mip _face : Z) (_image : Image) : Z :=
  fold_left
    (fun offset _ =>
       fold_left
         (fun offset mip =>
            u32 (offset + mipBytes (m_width _image) (m_height _image)
                                   (bpp (m_format _image)) mip))
         (upto _mip) offset)
    (upto _face) 0.

(** [imageGetPixel]: the bytes written to [_out]. *)
Definition imageGetPixel (_format : TextureFormat.Enum) (_x _y _mip _face : Z)
    (_image : Image) : outcome bytes :=
  _ <- ensure (_x <? m_width _image) ;;
  _ <- ensure (_y <? m_height _image) ;;
  _ <- ensure (_face <? m_numFaces _image) ;;
  _ <- ensure (_mip <? m_numMips _image) ;;
  let bytesPerPixel := bpp (m_format _image) in
  let pitch := u32 (m_width _image * bytesPerPixel) in
  let offset := getPixelOffset _mip _face _image in
  let src := offset + u32 (_y * pitch) + u32 (_x * bytesPerPixel) in
  if TextureFormat.eqb (m_format _image) _format then
    peek (m_data _image) src bytesPerPixel
  else if TextureFormat.eqb (m_format _image) TextureFormat.RGBA32F then
    px <- peek (m_data _image) src 16 ;;
    fromRgba32f _format (rgba32fToRgba32f px)
  else
    px <- peek (m_data _image) src bytesPerPixel ;;
    buf <- toRgba32f (m_format _image) px ;;
    fromRgba32f _format buf.

(** ** [imageResize] *)

(** One colour sample: [color[0..2] += srcColumnData[0..2]; weight++]. *)
Definition accumulate (acc : F32.float * F32.float * F32.float * Z) (px : bytes)
  : F32.float * F32.float * F32.float * Z :=
  let '(c0, c1, c2, weight) := acc in
  (F32.add c0 (f32_at px 0), F32.add c1 (f32_at px 1),
   F32.add c2 (f32_at px 2), u32 (weight + 1)).

(** [for (; i < iEnd; ++i)] from [i = start]. *)
Definition for_range {S : Type} (start iEnd : Z) (body : Z -> S -> outcome S)
    (s : S) : outcome S :=
  loop (Z.to_nat (iEnd - start)) start body s.

(** The destination pixel [(xDst, yDst)] of one face of [imageResize]. *)
Definition resizePixel (srcData : bytes) (srcFaceOffset srcPitch : Z)
    (dstToSrcRatioX dstToSrcRatioY : F32.float) (xDst yDst : Z)
  : outcome bytes :=
  let bytesPerPixel := 16 in
  ySrc <- defined (F32.to_u32 (F32.mul (F32.of_Z yDst) dstToSrcRatioY)) ;;
  ky <- defined (F32.to_u32 dstToSrcRatioY) ;;
  let ySrcEnd := u32 (ySrc + max 1 ky) in
  acc <-
    for_range ySrc ySrcEnd
      (fun ySrc acc =>
         let srcRowData := srcFaceOffset + u32 (ySrc * srcPitch) in
         xSrc <- defined (F32.to_u32 (F32.mul (F32.of_Z xDst) dstToSrcRatioX)) ;;
         kx <- defined (F32.to_u32 dstToSrcRatioX) ;;
         let xSrcEnd := u32 (xSrc + max 1 kx) in
         for_range xSrc xSrcEnd
           (fun xSrc acc =>
              px <- peek srcData (srcRowData + u32 (xSrc * bytesPerPixel)) 12 ;;
              Done (accumulate acc px))
           acc)
      (F32.zero, F32.zero, F32.zero, 0) ;;
  let '(c0, c1, c2, weight) := acc in
  let invWeight := F32.div F32.one (F32.of_Z (max weight 1)) in
  Done (storePixel (Rgba (F32.mul c0 invWeight) (F32.mul c1 invWeight)
                         (F32.mul c2 invWeight) F32.one)).

(** The RGBA32F buffer [imageResize] fills before converting back. *)
Definition resizeData (imageRgba32f : Image) (_width _height : Z)
  : outcome bytes :=
  let bytesPerPixel := 16 in
  let dstPitch := u32 (_width * bytesPerPixel) in
  let dstFaceDataSize := u32 (dstPitch * _height) in
  let dstDataSize := u32 (dstFaceDataSize * m_numFaces imageRgba32f) in
  let dstData := malloc junk dstDataSize in
  let srcPitch := u32 (m_width imageRgba32f * bytesPerPixel) in
  let dstToSrcRatioX :=
    F32.div (F32.of_Z (i32 (m_width imageRgba32f))) (F32.of_Z (i32 _width)) in
  let dstToSrcRatioY :=
    F32.div (F32.of_Z (i32 (m_height imageRgba32f))) (F32.of_Z (i32 _height)) in
  for_upto (m_numFaces imageRgba32f)
    (fun face dstData =>
       let dstFaceData := u32 (face * dstFaceDataSize) in
       let srcFaceOffset := imageGetFaceOffsets imageRgba32f face in
       for_upto _height
         (fun yDst dstData =>
            let dstFaceRow := dstFaceData + u32 (yDst * dstPitch) in
            for_upto _width
              (fun xDst dstData =>
                 px <- resizePixel (m_data imageRgba32f) srcFaceOffset srcPitch
                                   dstToSrcRatioX dstToSrcRatioY xDst yDst ;;
                 poke dstData (dstFaceRow + u32 (xDst * bytesPerPixel)) px)
              dstData)
         dstData)
    dstData.

(** [imageResize(_dst, _width, _height, _src)]. *)
Definition imageResize (_width _height : Z) (_src : Image) : outcome Image :=
  '(imageIsRef, imageRgba32f) <- imageRefOrConvert TextureFormat.RGBA32F _src ;;
  dstData <- resizeData imageRgba32f _width _height ;;
  let dstDataSize :=
    u32 (u32 (u32 (_width * 16) * _height) * m_numFaces imageRgba32f) in
  let result :=
    Build_Image dstData _width _height dstDataSize TextureFormat.RGBA32F 1
                (m_numFaces imageRgba32f) in
  if TextureFormat.eqb TextureFormat.RGBA32F (m_format _src)
  then Done (imageMove result)
  else imageConvert (m_format _src) result.

(** ** [imageTransform] *)

(** One argument of the [imageTransform] macro: a face and a set of
    operations.  The bit values of [IMAGE_OP_*] and [IMAGE_FACE_*] are
    in image.h, which is not under src/; the argument is kept decoded. *)
Record transformOp : Type := {
  imageFace : Z;
  opRot90 : bool;
  opRot180 : bool;
  opRot270 : bool;
  opFlipX : bool;
  opFlipY : bool
}.

Definition forEachMip (_image : Image)
    (body : Z -> Z -> Z -> bytes -> outcome bytes) (data : bytes)
  : outcome bytes :=
  for_upto (m_numMips _image)
    (fun mip data =>
       body mip (mipDim (m_width _image) mip) (mipDim (m_height _image) mip) data)
    data.

Definition transformRot90 (_image : Image) (face : Z) (data : bytes)
  : outcome bytes :=
  let bytesPerPixel := bpp (m_format _image) in
  forEachMip _image
    (fun mip width height data =>
       let pitch := u32 (width * bytesPerPixel) in
       let facePtr := imageGetMipOffsets _image face mip in
       for_upto height
         (fun yy data =>
            let yyEnd := u32 (height - 1 - yy) in
            let rowPtr := facePtr + u32 (yy * pitch) in
            let columnPtr := facePtr + u32 (yyEnd * bytesPerPixel) in
            for_upto width
              (fun xx data =>
                 let xxEnd := u32 (width - 1 - xx) in
                 if xx <? yyEnd
                 then cmft_swap data (rowPtr + u32 (xx * bytesPerPixel))
                                (columnPtr + u32 (xxEnd * pitch)) bytesPerPixel
                 else Done data)
              data)
         data)
    data.

Definition transformRot180 (_image : Image) (face : Z) (data : bytes)
  : outcome bytes :=
  let bytesPerPixel := bpp (m_format _image) in
  forEachMip _image
    (fun mip width height data =>
       let pitch := u32 (width * bytesPerPixel) in
       let facePtr := imageGetMipOffsets _image face mip in
       data <-
         for_upto (height / 2)
           (fun yy data =>
              let yyEnd := height - 1 - yy in
              let rowPtr := facePtr + u32 (pitch * yy) in
              let rowPtrEnd := facePtr + u32 (pitch * yyEnd) in
              for_upto width
                (fun xx data =>
                   let xxEnd := u32 (width - 1 - xx) in
                   cmft_swap data (rowPtr + u32 (bytesPerPixel * xx))
                                  (rowPtrEnd + u32 (bytesPerPixel * xxEnd))
                                  bytesPerPixel)
                data)
           data ;;
       if Z.odd height then
         let yy := height / 2 in
         let rowPtr := facePtr + u32 (pitch * yy) in
         for_upto (width / 2)
           (fun xx data =>
              let xxEnd := width - 1 - xx in
              cmft_swap data (rowPtr + u32 (bytesPerPixel * xx))
                             (rowPtr + u32 (bytesPerPixel * xxEnd)) bytesPerPixel)
           data
       else Done data)
    data.

Definition transformRot270 (_image : Image) (face : Z) (data : bytes)
  : outcome bytes :=
  let bytesPerPixel := bpp (m_format _image) in
  forEachMip _image
    (fun mip width height data =>
       let pitch := u32 (width * bytesPerPixel) in
       let facePtr := imageGetMipOffsets _image face mip in
       for_upto height
         (fun yy data =>
            let rowPtr := facePtr + u32 (yy * pitch) in
            let columnPtr := facePtr + u32 (yy * bytesPerPixel) in
            for_upto width
              (fun xx data =>
                 if xx >? yy
                 then cmft_swap data (rowPtr + u32 (xx * bytesPerPixel))
                                (columnPtr + u32 (xx * pitch)) bytesPerPixel
                 else Done data)
              data)
         data)
    data.

Definition transformFlipX (_image : Image) (face : Z) (data : bytes)
  : outcome bytes :=
  let bytesPerPixel := bpp (m_format _image) in
  forEachMip _image
    (fun mip width height data =>
       let pitch := u32 (width * bytesPerPixel) in
       let facePtr := imageGetMipOffsets _image face mip in
       for_upto (height / 2)
         (fun yy data =>
            let yyEnd := height - 1 - yy in
            cmft_swap data (facePtr + u32 (pitch * yy))
                           (facePtr + u32 (pitch * yyEnd)) pitch)
         data)
    data.

Definition transformFlipY (_image : Image) (face : Z) (data : bytes)
  : outcome bytes :=
  let bytesPerPixel := bpp (m_format _image) in
  forEachMip _image
    (fun mip width height data =>
       let pitch := u32 (width * bytesPerPixel) in
       let facePtr := imageGetMipOffsets _image face mip in
       for_upto height
         (fun yy data =>
            let rowPtr := facePtr + u32 (pitch * yy) in
            for_upto (width / 2)
              (fun xx data =>
                 let xxEnd := width - 1 - xx in
                 cmft_swap data (rowPtr + u32 (bytesPerPixel * xx))
                                (rowPtr + u32 (bytesPerPixel * xxEnd))
                                bytesPerPixel)
              data)
         data)
    data.

Definition when (b : bool) (f : bytes -> outcome bytes) (data : bytes)
  : outcome bytes :=
  if b then f data else Done data.

(** One turn of the argument loop of [imageTransformUseMacroInstead].
    The offsets table has entries for the image's own faces only. *)
Definition transformStep (_image : Image) (op : transformOp) (data : bytes)
  : outcome bytes :=
  let square := m_width _image =? m_height _image in
  let face := imageFace op in
  if (0 <=? face) && (face <? m_numFaces _image) then
    data <- when (opRot90 op && square) (transformRot90 _image face) data ;;
    data <- when (opRot180 op && square) (transformRot180 _image face) data ;;
    data <- when (opRot270 op && square) (transformRot270 _image face) data ;;
    data <- when (opFlipX op) (transformFlipX _image face) data ;;
    when (opFlipY op) (transformFlipY _image face) data
  else if opRot90 op && square || opRot180 op && square || opRot270 op && square
          || opFlipX op || opFlipY op
  then Stuck Undefined
  else Done data.

(** [imageTransform(_image, op, ...)]. *)
Definition imageTransform (_image : Image) (ops : list transformOp)
  : outcome Image :=
  data <-
    fold_left (fun acc op => data <- acc ;; transformStep _image op data)
              ops (Done (m_data _image)) ;;
  Done (Build_Image data (m_width _image) (m_height _image)
                    (m_dataSize _image) (m_format _image)
                    (m_numMips _image) (m_numFaces _image)).

(** ** [imageGenerateMipMapChain] *)

Definition MAX_MIP_NUM : Z := 16.
Definition CUBE_FACE_NUM : Z := 6.

(** The inner loop that sizes one face:
    [for (mipCount = 0; (mipCount < maxMipNum) && (width != 1) && (height != 1); ++mipCount)].
    The state is [(mipCount, width, height, dstDataSize, offsets of the face)]. *)
Fixpoint mipChainLoop (fuel : nat) (imgWidth imgHeight maxMipNum : Z)
    (st : Z * Z * Z * Z * list Z) : Z * Z * Z * Z * list Z :=
  let '(mipCount, width, height, dstDataSize, offsets) := st in
  match fuel with
  | O => st
  | Datatypes.S fuel' =>
      if (mipCount <? maxMipNum) && negb (width =? 1) && negb (height =? 1)
      then
        let width' := mipDim imgWidth mipCount in
        let height' := mipDim imgHeight mipCount in
        mipChainLoop fuel' imgWidth imgHeight maxMipNum
          (u8 (mipCount + 1), width', height',
           u32 (dstDataSize + u32 (u32 (width' * height') * 16)),
           offsets ++ [dstDataSize])
      else st
  end.

(** The two sizing loops: [(mipCount, dstDataSize, dstOffsets)].  The
    source's [dstOffsets] is a [uint32_t[CUBE_FACE_NUM][MAX_MIP_NUM]]: the
    table is the source's for an image of at most six faces. *)
Definition mipChainLayout (imageRgba32f : Image) (_numMips : Z)
  : Z * Z * list (list Z) :=
  let maxMipNum := min _numMips (u8 MAX_MIP_NUM) in
  fold_left
    (fun '(mipCount, dstDataSize, dstOffsets) face =>
       let '(mipCount', _, _, dstDataSize', offsets) :=
         mipChainLoop (Z.to_nat maxMipNum) (m_width imageRgba32f)
                      (m_height imageRgba32f) maxMipNum
                      (0, 0, 0, dstDataSize, []) in
       (mipCount', dstDataSize', dstOffsets ++ [offsets]))
    (upto (m_numFaces imageRgba32f)) (0, 0, []).

Definition tableAt (t : list (list Z)) (face mip : Z) : outcome Z :=
  match nth_error (nth (Z.to_nat face) t []) (Z.to_nat mip) with
  | Some v => if (0 <=? face) && (0 <=? mip) then Done v else Stuck Undefined
  | None => Stuck Undefined
  end.

Definition addPixel (color : rgba32f) (px : bytes) : rgba32f :=
  Rgba (F32.add (px0 color) (f32_at px 0)) (F32.add (px1 color) (f32_at px 1))
       (F32.add (px2 color) (f32_at px 2)) (F32.add (px3 color) (f32_at px 3)).

(** One generated texel: the 2x2 box over the parent level, read from
    the destination buffer. *)
Definition boxFilter (dstData : bytes) (parentMipData parentPitch xx yy : Z)
  : outcome bytes :=
  color <-
    for_range (u32 (yy * 2)) (u32 (u32 (yy * 2) + 2))
      (fun yParent color =>
         let parentRowData := parentMipData + u32 (parentPitch * yParent) in
         for_range (u32 (xx * 2)) (u32 (u32 (xx * 2) + 2))
           (fun xParent color =>
              px <- peek dstData (parentRowData + u32 (xParent * 16)) 16 ;;
              Done (addPixel color px))
           color)
      (Rgba F32.zero F32.zero F32.zero F32.zero) ;;
  let quarter := F32.literal 1 4 in
  Done (storePixel (Rgba (F32.mul (px0 color) quarter) (F32.mul (px1 color) quarter)
                         (F32.mul (px2 color) quarter) (F32.mul (px3 color) quarter))).

Definition imageGenerateMipMapChain (_image : Image) (_numMips : Z)
  : outcome Image :=
  '(imageIsRef, imageRgba32f) <- imageRefOrConvert TextureFormat.RGBA32F _image ;;
  let '(mipCount, dstDataSize, dstOffsets) := mipChainLayout imageRgba32f _numMips in
  let bytesPerPixel := 16 in
  let dstData := malloc junk dstDataSize in
  dstData <-
    for_upto (m_numFaces imageRgba32f)
      (fun face dstData =>
         for_upto mipCount
           (fun mip dstData =>
              let width := mipDim (m_width imageRgba32f) mip in
              let height := mipDim (m_height imageRgba32f) mip in
              let pitch := u32 (width * bytesPerPixel) in
              dstMipData <- tableAt dstOffsets face mip ;;
              let srcMipData := imageGetMipOffsets imageRgba32f face mip in
              if mip <? m_numMips imageRgba32f then
                for_upto height
                  (fun yy dstData =>
                     memcpy dstData (dstMipData + u32 (yy * pitch))
                            (m_data imageRgba32f) (srcMipData + u32 (yy * pitch))
                            pitch)
                  dstData
              else
                let parentMip := u8 (mip - 1) in
                let parentWidth := mipDim (m_width imageRgba32f) parentMip in
                let parentPitch := u32 (parentWidth * bytesPerPixel) in
                parentMipData <- tableAt dstOffsets face parentMip ;;
                for_upto height
                  (fun yy dstData =>
                     let dstRowData := dstMipData + u32 (pitch * yy) in
                     for_upto width
                       (fun xx dstData =>
                          px <- boxFilter dstData parentMipData parentPitch xx yy ;;
                          poke dstData (dstRowData + u32 (xx * bytesPerPixel)) px)
                       dstData)
                  dstData)
           dstData)
      dstData ;;
  let result :=
    Build_Image dstData (m_width imageRgba32f) (m_height imageRgba32f)
                dstDataSize (m_format imageRgba32f) mipCount
                (m_numFaces imageRgba32f) in
  if TextureFormat.eqb TextureFormat.RGBA32F (m_format _image)
  then Done (imageMove result)
  else imageConvert (m_format _image) result.

(** ** Shape predicates *)

Definition imageIsCubemap (_image : Image) : bool :=
  (6 =? m_numFaces _image) && (m_width _image =? m_height _image).

Definition imageIsLatLong (_image : Image) : bool :=
  let aspect :=
    F32.div (F32.of_Z (i32 (m_width _image))) (F32.of_Z (i32 (m_height _image))) in
  F32.gtb (F32.literal 1 100000) (F32.fabsf (F32.sub aspect (F32.of_Z 2))).

Definition imageIsHStrip (_image : Image) : bool :=
  m_width _image =? u32 (6 * m_height _image).

Definition imageValidCubemapFaceList (_faceList : list Image) : bool :=
  let first := nth 0 _faceList emptyImage in
  let size := m_width first in
  let numMips := m_numMips first in
  forallb
    (fun face =>
       let f := nth (Z.to_nat face) _faceList emptyImage in
       negb (negb (m_width f =? m_height f)
             || negb (size =? m_width f)
             || negb (numMips =? m_numMips f)))
    (upto 6).

(** ** Cube map from cross *)

(** [IMAGE_FACE_NEGATIVEZ | IMAGE_OP_FLIP_X | IMAGE_OP_FLIP_Y]; the
    faces are numbered +X, -X, +Y, -Y, +Z, -Z. *)
Definition flipNegativeZ : transformOp :=
  Build_transformOp 5 false false false true true.

(** The layout of the six faces inside a cross. *)
Definition crossFaceOffsets (vertical : bool) (rowDataSize facePitch : Z)
  : list Z :=
  [ u32 (rowDataSize + u32 (2 * facePitch));
    rowDataSize;
    facePitch;
    u32 (u32 (2 * rowDataSize) + facePitch);
    u32 (rowDataSize + facePitch);
    if vertical then u32 (u32 (3 * rowDataSize) + facePitch)
    else u32 (rowDataSize + u32 (3 * facePitch)) ].

(** [imageCubemapFromCross(_dst, _src)]: the flag and what [_dst] holds
    afterwards. *)
Definition imageCubemapFromCross (_dst _src : Image) : outcome (bool * Image) :=
  let aspect :=
    F32.div (F32.of_Z (i32 (m_width _src))) (F32.of_Z (i32 (m_height _src))) in
  let isVertical :=
    F32.ltb (F32.sub aspect (F32.literal 3 4)) (F32.literal 1 10000) in
  let isHorizontal :=
    F32.ltb (F32.sub aspect (F32.literal 3 4)) (F32.literal 1 10000) in
  if negb isVertical && negb isHorizontal then Done (false, _dst)
  else
    let srcBytesPerPixel := bpp (m_format _src) in
    let imagePitch := u32 (m_width _src * srcBytesPerPixel) in
    let faceSize :=
      if isVertical then u32 (m_width _src + 2) / 3 else u32 (m_width _src + 3) / 4 in
    let facePitch := u32 (faceSize * srcBytesPerPixel) in
    let faceDataSize := u32 (facePitch * faceSize) in
    let rowDataSize := u32 (imagePitch * faceSize) in
    let dstDataSize := u32 (faceDataSize * CUBE_FACE_NUM) in
    let data := malloc junk dstDataSize in
    let faceOffsets := crossFaceOffsets isVertical rowDataSize facePitch in
    data <-
      for_upto 6
        (fun face data =>
           let srcFaceData := nth (Z.to_nat face) faceOffsets 0 in
           let dstFaceData := u32 (faceDataSize * face) in
           for_upto faceSize
             (fun yy data =>
                memcpy data (dstFaceData + u32 (facePitch * yy))
                       (m_data _src) (srcFaceData + u32 (imagePitch * yy))
                       facePitch)
             data)
        data ;;
    let result :=
      Build_Image data faceSize faceSize dstDataSize (m_format _src) 1 6 in
    result <- (if isVertical then imageTransform result [flipNegativeZ]
               else Done result) ;;
    Done (true, imageMove result).

(** ** Horizontal strip *)

(** The running size after the mips [0 .. n-1] of a [w] by [h] image. *)
Definition mipOffsets (w h bytesPerPixel n : Z) : Z :=
  fold_left (fun size mip => u32 (size + mipBytes w h bytesPerPixel mip))
            (upto n) 0.

Definition imageHStripFromCubemap (_dst _src : Image) : outcome (bool * Image) :=
  if negb (imageIsCubemap _src) then Done (false, _dst)
  else
    let dstWidth := u32 (m_width _src * 6) in
    let dstHeight := m_width _src in
    let bytesPerPixel := bpp (m_format _src) in
    let dstMipOffsets := mipOffsets dstWidth dstHeight bytesPerPixel in
    let dstDataSize := dstMipOffsets (m_numMips _src) in
    let dstData := malloc junk dstDataSize in
    dstData <-
      for_upto 6
        (fun face dstData =>
           for_upto (m_numMips _src)
             (fun mip dstData =>
                let srcFaceData := imageGetMipOffsets _src face mip in
                let dstMipData := dstMipOffsets mip in
                let srcMipSize := mipDim (m_width _src) mip in
                let srcMipPitch := u32 (srcMipSize * bytesPerPixel) in
                let dstFaceData := dstMipData + u32 (srcMipPitch * face) in
                let dstMipPitch := u32 (srcMipPitch * 6) in
                for_upto srcMipSize
                  (fun yy dstData =>
                     memcpy dstData (dstFaceData + u32 (yy * dstMipPitch))
                            (m_data _src) (srcFaceData + u32 (yy * srcMipPitch))
                            srcMipPitch)
                  dstData)
             dstData)
        dstData ;;
    let result :=
      Build_Image dstData dstWidth dstHeight dstDataSize (m_format _src)
                  (m_numMips _src) 1 in
    Done (true, imageMove result).

Definition imageCubemapFromHStrip (_dst _src : Image) : outcome (bool * Image) :=
  if negb (imageIsHStrip _src) then Done (false, _dst)
  else
    let dstSize := m_height _src in
    let bytesPerPixel := bpp (m_format _src) in
    let shape :=
      Build_Image [] dstSize dstSize 0 (m_format _src) (m_numMips _src) 6 in
    let dstOffsets := imageGetMipOffsets shape in
    let dstDataSize := mipOffsetAfter shape 6 in
    let dstData := malloc junk dstDataSize in
    dstData <-
      for_upto 6
        (fun face dstData =>
           for_upto (m_numMips _src)
             (fun mip dstData =>
                let dstFaceData := dstOffsets face mip in
                let srcMipData := imageGetMipOffsets _src 0 mip in
                let dstMipSize := mipDim dstSize mip in
                let dstMipPitch := u32 (dstMipSize * bytesPerPixel) in
                let srcFaceData := srcMipData + u32 (dstMipPitch * face) in
                let srcMipPitch := u32 (dstMipPitch * 6) in
                for_upto dstMipSize
                  (fun yy dstData =>
                     memcpy dstData (dstFaceData + u32 (yy * dstMipPitch))
                            (m_data _src) (srcFaceData + u32 (yy * srcMipPitch))
                            dstMipPitch)
                  dstData)
             dstData)
        dstData ;;
    let result :=
      Build_Image dstData dstSize dstSize dstDataSize (m_format _src)
                  (m_numMips _src) 6 in
    Done (true, imageMove result).

(** ** Face lists *)

(** [imageFaceListFromCubemap]: the flag and the six destination images. *)
Definition imageFaceListFromCubemap (_faceList : list Image) (_cubemap : Image)
  : outcome (bool * list Image) :=
  if negb (imageIsCubemap _cubemap) then Done (false, _faceList)
  else
    let bytesPerPixel := u8 (bpp (m_format _cubemap)) in
    let dstMipOffsets :=
      mipOffsets (m_width _cubemap) (m_width _cubemap) bytesPerPixel in
    let dstDataSize := dstMipOffsets (m_numMips _cubemap) in
    faces <-
      for_upto 6
        (fun face faces =>
           let dstData := malloc junk dstDataSize in
           dstData <-
             for_upto (m_numMips _cubemap)
               (fun mip dstData =>
                  let srcFaceData := imageGetMipOffsets _cubemap face mip in
                  let dstFaceData := dstMipOffsets mip in
                  let mipFaceSize := mipDim (m_width _cubemap) mip in
                  let mipPitch := u32 (mipFaceSize * bytesPerPixel) in
                  for_upto mipFaceSize
                    (fun yy dstData =>
                       memcpy dstData (dstFaceData + u32 (yy * mipPitch))
                              (m_data _cubemap) (srcFaceData + u32 (yy * mipPitch))
                              mipPitch)
                    dstData)
               dstData ;;
           let result :=
             Build_Image dstData (m_width _cubemap) (m_height _cubemap)
                         dstDataSize (m_format _cubemap) (m_numMips _cubemap) 1 in
           Done (faces ++ [imageMove result]))
        [] ;;
    Done (true, faces).

Definition imageCubemapFromFaceList (_cubemap : Image) (_faceList : list Image)
  : outcome (bool * Image) :=
  if negb (imageValidCubemapFaceList _faceList) then Done (false, _cubemap)
  else
    let first := nth 0 _faceList emptyImage in
    let dstDataSize := u32 (m_dataSize first * 6) in
    let dstData := malloc junk dstDataSize in
    let bytesPerPixel := bpp (m_format first) in
    '(dstData, _) <-
      for_upto 6
        (fun face st =>
           let srcFaceData := m_data (nth (Z.to_nat face) _faceList emptyImage) in
           for_upto (m_numMips first)
             (fun mip '(dstData, destinationOffset) =>
                let srcMipData := imageGetMipOffsets first 0 mip in
                let dstMipData := destinationOffset in
                let mipFaceSize := mipDim (m_width first) mip in
                let mipPitch := u32 (mipFaceSize * bytesPerPixel) in
                let mipFaceDataSize := u32 (mipPitch * mipFaceSize) in
                dstData <-
                  for_upto mipFaceSize
                    (fun yy dstData =>
                       memcpy dstData (dstMipData + u32 (yy * mipPitch))
                              srcFaceData (srcMipData + u32 (yy * mipPitch))
                              mipPitch)
                    dstData ;;
                Done (dstData, u32 (destinationOffset + mipFaceDataSize)))
             st)
        (dstData, 0) ;;
    let result :=
      Build_Image dstData (m_width first) (m_height first) dstDataSize
                  (m_format first) (m_numMips first) 6 in
    Done (true, imageMove result).

(** ** Cross from cube map *)

Definition imageCrossFromCubemap (_dst _src : Image) (_vertical : bool)
  : outcome (bool * Image) :=
  if negb (imageIsCubemap _src) then Done (false, _dst)
  else
    srcCpy <- imageCopy _src ;;
    srcCpy <- (if _vertical then imageTransform srcCpy [flipNegativeZ]
               else Done srcCpy) ;;
    let dstWidth := u32 ((if _vertical then 3 else 4) * m_width srcCpy) in
    let dstHeight := u32 ((if _vertical then 4 else 3) * m_width srcCpy) in
    let bytesPerPixel := bpp (m_format srcCpy) in
    let dstMipOffsets := mipOffsets dstWidth dstHeight bytesPerPixel in
    let dstDataSize := dstMipOffsets (m_numMips srcCpy) in
    let dstData := malloc junk dstDataSize in
    written <- fromRgba32f (m_format srcCpy)
                           (Rgba F32.zero F32.zero F32.zero F32.one) ;;
    blackPixel <- poke (malloc junk bytesPerPixel) 0 written ;;
    dstData <-
      for_upto (m_numMips srcCpy)
        (fun mip dstData =>
           let mipWidth := mipDim dstWidth mip in
           let mipHeight := mipDim dstHeight mip in
           let mipPitch := u32 (mipWidth * bytesPerPixel) in
           let dstMipData := dstMipOffsets mip in
           for_upto mipHeight
             (fun yy dstData =>
                let dstRowData := dstMipData + u32 (yy * mipPitch) in
                for_upto mipWidth
                  (fun xx dstData =>
                     memcpy dstData (dstRowData + u32 (xx * bytesPerPixel))
                            blackPixel 0 bytesPerPixel)
                  dstData)
             dstData)
        dstData ;;
    dstData <-
      for_upto (m_numMips srcCpy)
        (fun mip dstData =>
           let srcWidth := mipDim (m_width srcCpy) mip in
           let srcPitch := u32 (srcWidth * bytesPerPixel) in
           let mipWidth := mipDim dstWidth mip in
           let mipPitch := u32 (mipWidth * bytesPerPixel) in
           let faceSize := mipWidth / (if _vertical then 3 else 4) in
           let facePitch := u32 (faceSize * bytesPerPixel) in
           let rowDataSize := u32 (mipPitch * faceSize) in
           let faceOffsets := crossFaceOffsets _vertical rowDataSize facePitch in
           let dstMipData := dstMipOffsets mip in
           for_upto 6
             (fun face dstData =>
                let dstFaceData := dstMipData + nth (Z.to_nat face) faceOffsets 0 in
                let srcFaceData := imageGetMipOffsets srcCpy face mip in
                for_upto faceSize
                  (fun yy dstData =>
                     memcpy dstData (dstFaceData + u32 (yy * mipPitch))
                            (m_data srcCpy) (srcFaceData + u32 (yy * srcPitch))
                            facePitch)
                  dstData)
             dstData)
        dstData ;;
    let result :=
      Build_Image dstData dstWidth dstHeight dstDataSize (m_format srcCpy)
                  (m_numMips srcCpy) 1 in
    Done (true, imageMove result).

(** ** Lat-long remaps *)

Section Geometry.

(** The vector helpers of cubemaputils.h, which is not under src/;
    they use [sqrtf], [atan2f] and [acosf] and are kept abstract.
    A vector is three floats. *)
Definition vec3 : Type := (F32.float * F32.float * F32.float)%type.

Variable texelCoordToVec : F32.float -> F32.float -> Z -> Z -> vec3.
Variable latLongFromVec : vec3 -> F32.float * F32.float.
Variable vecFromLatLong : F32.float -> F32.float -> vec3.
Variable vecToTexelCoord : vec3 -> F32.float * F32.float * Z.

(** Modelled from the spec: [vec3Mul] of cubemaputils.h scales the
    three colour channels by a weight. *)
Definition vec3Mul (px : bytes) (s : F32.float) : vec3 :=
  (F32.mul (f32_at px 0) s, F32.mul (f32_at px 1) s, F32.mul (f32_at px 2) s).

(** The sample of the RGBA32F level starting at [base]. *)
Definition sampleTexel (srcData : bytes) (base srcPitch maxX maxY : Z)
    (xSrc ySrc : F32.float) (_useBilinearInterpolation : bool)
  : outcome bytes :=
  let bytesPerPixel := 16 in
  if _useBilinearInterpolation then
    x0 <- defined (F32.to_u32 xSrc) ;;
    y0 <- defined (F32.to_u32 ySrc) ;;
    let x1 := min (u32 (x0 + 1)) maxX in
    let y1 := min (u32 (y0 + 1)) maxY in
    src0 <- peek srcData (base + u32 (y0 * srcPitch) + u32 (x0 * bytesPerPixel)) 12 ;;
    src1 <- peek srcData (base + u32 (y0 * srcPitch) + u32 (x1 * bytesPerPixel)) 12 ;;
    src2 <- peek srcData (base + u32 (y1 * srcPitch) + u32 (x0 * bytesPerPixel)) 12 ;;
    src3 <- peek srcData (base + u32 (y1 * srcPitch) + u32 (x1 * bytesPerPixel)) 12 ;;
    let tx := F32.sub xSrc (F32.of_Z (i32 x0)) in
    let ty := F32.sub ySrc (F32.of_Z (i32 y0)) in
    let invTx := F32.sub F32.one tx in
    let invTy := F32.sub F32.one ty in
    let '(r0, g0, b0) := vec3Mul src0 (F32.mul invTx invTy) in
    let '(r1, g1, b1) := vec3Mul src1 (F32.mul tx invTy) in
    let '(r2, g2, b2) := vec3Mul src2 (F32.mul invTx ty) in
    let '(r3, g3, b3) := vec3Mul src3 (F32.mul tx ty) in
    let rr := F32.add (F32.add (F32.add r0 r1) r2) r3 in
    let gg := F32.add (F32.add (F32.add g0 g1) g2) g3 in
    let bb := F32.add (F32.add (F32.add b0 b1) b2) b3 in
    Done (storePixel (Rgba rr gg bb F32.one))
  else
    xx <- defined (F32.to_u32 xSrc) ;;
    yy <- defined (F32.to_u32 ySrc) ;;
    src <- peek srcData (base + u32 (yy * srcPitch) + u32 (xx * bytesPerPixel)) 12 ;;
    Done (src ++ F32.store F32.one).

Definition imageCubemapFromLatLong (_dst _src : Image)
    (_useBilinearInterpolation : bool) : outcome (bool * Image) :=
  if negb (imageIsLatLong _src) then Done (false, _dst)
  else
    '(imageIsRef, imageRgba32f) <- imageRefOrConvert TextureFormat.RGBA32F _src ;;
    let bytesPerPixel := 16 in
    let dstFaceSize := u32 (m_height imageRgba32f + 1) / 2 in
    let dstPitch := u32 (dstFaceSize * bytesPerPixel) in
    let dstFaceDataSize := u32 (dstPitch * dstFaceSize) in
    let dstDataSize := u32 (dstFaceDataSize * CUBE_FACE_NUM) in
    let dstData := malloc junk dstDataSize in
    let srcWidthf := F32.of_Z (i32 (m_width imageRgba32f)) in
    let srcHeightf := F32.of_Z (i32 (m_height imageRgba32f)) in
    let srcPitch := u32 (m_width imageRgba32f * bytesPerPixel) in
    let invDstFaceSizef := F32.div F32.one (F32.of_Z dstFaceSize) in
    dstData <-
      for_upto 6
        (fun face dstData =>
           let dstFaceData := u32 (face * dstFaceDataSize) in
           for_upto dstFaceSize
             (fun yy dstData =>
                let dstRowData := dstFaceData + u32 (yy * dstPitch) in
                for_upto dstFaceSize
                  (fun xx dstData =>
                     let uu :=
                       F32.sub (F32.mul (F32.mul (F32.of_Z 2) (F32.of_Z xx))
                                        invDstFaceSizef) F32.one in
                     let vv :=
                       F32.sub (F32.mul (F32.mul (F32.of_Z 2) (F32.of_Z yy))
                                        invDstFaceSizef) F32.one in
                     let vec := texelCoordToVec uu vv face dstFaceSize in
                     let '(xSrc, ySrc) := latLongFromVec vec in
                     let xSrc := F32.mul xSrc (F32.sub srcWidthf F32.one) in
                     let ySrc := F32.mul ySrc (F32.sub srcHeightf F32.one) in
                     px <- sampleTexel (m_data imageRgba32f) 0 srcPitch
                                       (u32 (m_width imageRgba32f - 1))
                                       (u32 (m_height imageRgba32f - 1))
                                       xSrc ySrc _useBilinearInterpolation ;;
                     poke dstData (dstRowData + u32 (xx * bytesPerPixel)) px)
                  dstData)
             dstData)
        dstData ;;
    let result :=
      Build_Image dstData dstFaceSize dstFaceSize dstDataSize
                  TextureFormat.RGBA32F 1 6 in
    if TextureFormat.eqb TextureFormat.RGBA32F (m_format _src)
    then Done (true, imageMove result)
    else dst <- imageConvert (m_format _src) result ;; Done (true, dst).

Definition imageLatLongFromCubemap (_dst _src : Image)
    (_useBilinearInterpolation : bool) : outcome (bool * Image) :=
  if negb (imageIsCubemap _src) then Done (false, _dst)
  else
    '(imageIsRef, imageRgba32f) <- imageRefOrConvert TextureFormat.RGBA32F _src ;;
    let bytesPerPixel := 16 in
    let dstHeight := u32 (m_height imageRgba32f * 2) in
    let dstWidth := u32 (m_height imageRgba32f * 4) in
    let dstMipOffsets := mipOffsets dstWidth dstHeight bytesPerPixel in
    let dstDataSize := dstMipOffsets (m_numMips imageRgba32f) in
    let dstData := malloc junk dstDataSize in
    dstData <-
      for_upto (m_numMips imageRgba32f)
        (fun mip dstData =>
           let dstMipWidth := mipDim dstWidth mip in
           let dstMipHeight := mipDim dstHeight mip in
           let dstMipPitch := u32 (dstMipWidth * bytesPerPixel) in
           let invDstWidthf := F32.div F32.one (F32.of_Z (u32 (dstMipWidth - 1))) in
           let invDstHeightf := F32.div F32.one (F32.of_Z (u32 (dstMipHeight - 1))) in
           let srcMipWidth := mipDim (m_width imageRgba32f) mip in
           let srcMipHeight := mipDim (m_height imageRgba32f) mip in
           let srcPitch := u32 (srcMipWidth * bytesPerPixel) in
           let srcWidthf := F32.of_Z (i32 srcMipWidth) in
           let srcHeightf := F32.of_Z (i32 srcMipHeight) in
           let dstMipData := dstMipOffsets mip in
           for_upto dstMipHeight
             (fun yy dstData =>
                let dstRowData := dstMipData + u32 (yy * dstMipPitch) in
                for_upto dstMipWidth
                  (fun xx dstData =>
                     let xDst := F32.mul (F32.of_Z xx) invDstWidthf in
                     let yDst := F32.mul (F32.of_Z yy) invDstHeightf in
                     let vec := vecFromLatLong xDst yDst in
                     let '(xSrc, ySrc, faceIdx) := vecToTexelCoord vec in
                     let xSrc := F32.mul xSrc srcWidthf in
                     let ySrc := F32.mul ySrc srcHeightf in
                     px <- sampleTexel (m_data imageRgba32f)
                                       (imageGetMipOffsets imageRgba32f faceIdx mip)
                                       srcPitch (u32 (srcMipWidth - 1))
                                       (u32 (srcMipHeight - 1))
                                       xSrc ySrc _useBilinearInterpolation ;;
                     poke dstData (dstRowData + u32 (xx * bytesPerPixel)) px)
                  dstData)
             dstData)
        dstData ;;
    let result :=
      Build_Image dstData dstWidth dstHeight dstDataSize
                  TextureFormat.RGBA32F (m_numMips imageRgba32f) 1 in
    if TextureFormat.eqb TextureFormat.RGBA32F (m_format _src)
    then Done (true, imageMove result)
    else dst <- imageConvert (m_format _src) result ;; Done (true, dst).

End Geometry.

(** ** Files *)

(** A [FILE*] opened on a byte sequence. *)
Record FILE : Type := { content : bytes; pos : Z }.

Definition fopen (b : bytes) : FILE := {| content := b; pos := 0 |}.

(** [fread] of [n] bytes followed by the source's check that all of
    them arrived. *)
Definition fread (fp : FILE) (n : Z) : outcome (bytes * FILE) :=
  b <- peek (content fp) (pos fp) n ;;
  Done (b, {| content := content fp; pos := pos fp + n |}).

(** [fread(ptr, size, 1, fp)] with the check [read == 1], for a size
    that is not a constant: of an item of no bytes the C library reads
    nothing and returns 0, and the check fails. *)
Definition fread_item (fp : FILE) (size : Z) : outcome (bytes * FILE) :=
  _ <- ensure (negb (size =? 0)) ;;
  fread fp size.

Definition fread_u32 (fp : FILE) : outcome (Z * FILE) :=
  '(b, fp) <- fread fp 4 ;; Done (le_decode b, fp).

Definition fread_u16 (fp : FILE) : outcome (Z * FILE) :=
  '(b, fp) <- fread fp 2 ;; Done (le_decode b, fp).

Definition fread_u8 (fp : FILE) : outcome (Z * FILE) :=
  '(b, fp) <- fread fp 1 ;; Done (le_decode b, fp).

(** [fseek(fp, off, SEEK_CUR)] with the check [0 == seek]. *)
Definition fseek_cur (fp : FILE) (off : Z) : outcome FILE :=
  _ <- ensure (0 <=? pos fp + off) ;;
  Done {| content := content fp; pos := pos fp + off |}.

Definition fseek_set (fp : FILE) (p : Z) : FILE :=
  {| content := content fp; pos := p |}.

Definition ftell (fp : FILE) : Z := pos fp.

(** [n] little-endian 32-bit words, as [fread] delivers them one by one. *)
Fixpoint fread_words (n : nat) (fp : FILE) : outcome (list Z * FILE) :=
  match n with
  | O => Done ([], fp)
  | Datatypes.S n' =>
      '(w, fp) <- fread_u32 fp ;;
      '(ws, fp) <- fread_words n' fp ;;
      Done (w :: ws, fp)
  end.

Definition word (ws : list Z) (i : nat) : Z := nth i ws 0.

(** Modelled from the spec: [CMFT_MAKEFOURCC] of base/macros.h packs
    four characters little-endian (['DDS '] is [0x20534444]). *)
Definition CMFT_MAKEFOURCC (a b c d : Z) : Z :=
  Z.lor (Z.lor a (Z.shiftl b 8)) (Z.lor (Z.shiftl c 16) (Z.shiftl d 24)).

(** ** DDS *)

Definition DDS_MAGIC : Z := CMFT_MAKEFOURCC 68 68 83 32.
Definition DDS_HEADER_SIZE : Z := 124.
Definition DDS_DX10_HEADER_SIZE : Z := 20.
Definition DDS_DX10 : Z := CMFT_MAKEFOURCC 68 88 49 48.

Definition D3DFMT_R8G8B8 : Z := 20.
Definition D3DFMT_A8R8G8B8 : Z := 21.
Definition D3DFMT_A8B8G8R8 : Z := 32.
Definition D3DFMT_A16B16G16R16 : Z := 36.
Definition D3DFMT_A16B16G16R16F : Z := 113.
Definition D3DFMT_A32B32G32R32F : Z := 116.

Definition DDSD_CAPS : Z := 1.
Definition DDSD_HEIGHT : Z := 2.
Definition DDSD_WIDTH : Z := 4.
Definition DDSD_PITCH : Z := 8.
Definition DDSD_PIXELFORMAT : Z := 4096.
Definition DDSD_MIPMAPCOUNT : Z := 131072.

Definition DDPF_ALPHAPIXELS : Z := 1.
Definition DDPF_FOURCC : Z := 4.
Definition DDPF_RGB : Z := 64.
Definition DDPF_RGBA : Z := Z.lor DDPF_RGB DDPF_ALPHAPIXELS.
Definition DDS_PF_BC_24 : Z := 1048576.
Definition DDS_PF_BC_32 : Z := 2097152.
Definition DDS_PF_BC_48 : Z := 4194304.

Definition DDSCAPS_COMPLEX : Z := 8.
Definition DDSCAPS_TEXTURE : Z := 4096.
Definition DDSCAPS_MIPMAP : Z := 4194304.

Definition DDSCAPS2_CUBEMAP : Z := 512.
Definition DDS_CUBEMAP_ALLFACES : Z := 1024 + 2048 + 4096 + 8192 + 16384 + 32768.

Definition DXGI_FORMAT_UNKNOWN : Z := 0.
Definition DXGI_FORMAT_R32G32B32A32_FLOAT : Z := 2.
Definition DXGI_FORMAT_R16G16B16A16_FLOAT : Z := 10.
Definition DXGI_FORMAT_R16G16B16A16_UINT : Z := 12.

Definition DDS_DIMENSION_TEXTURE2D : Z := 3.
Definition D3D10_RESOURCE_MISC_TEXTURECUBE : Z := 4.

Record DdsPixelFormat : Type := {
  pf_size : Z; pf_flags : Z; pf_fourcc : Z; pf_rgbBitCount : Z;
  pf_rBitMask : Z; pf_gBitMask : Z; pf_bBitMask : Z; pf_aBitMask : Z
}.

Record DdsHeader : Type := {
  dds_size : Z; dds_flags : Z; dds_height : Z; dds_width : Z;
  dds_pitchOrLinearSize : Z; dds_depth : Z; dds_mipMapCount : Z;
  dds_reserved1 : list Z;
  dds_pixelFormat : DdsPixelFormat;
  dds_caps : Z; dds_caps2 : Z; dds_caps3 : Z; dds_caps4 : Z;
  dds_reserved2 : Z
}.

Record DdsHeaderDxt10 : Type := {
  dxt10_dxgiFormat : Z; dxt10_resourceDimension : Z; dxt10_miscFlags : Z;
  dxt10_arraySize : Z; dxt10_miscFlags2 : Z
}.

(** [s_ddsPixelFormat], indexed as [getDdsPixelFormat] does. *)
Definition getDdsPixelFormat (_format : TextureFormat.Enum)
  : outcome DdsPixelFormat :=
  _ <- ensure (checkValidInternalFormat ImageFileType.DDS _format) ;;
  Done
    match _format with
    | TextureFormat.BGR8 =>
        Build_DdsPixelFormat 32 DDPF_RGB D3DFMT_R8G8B8 24
                             16711680 65280 255 0
    | TextureFormat.BGRA8 =>
        Build_DdsPixelFormat 32 DDPF_RGBA D3DFMT_A8B8G8R8 32
                             16711680 65280 255 4278190080
    | TextureFormat.RGBA16 =>
        Build_DdsPixelFormat 32 DDPF_FOURCC DDS_DX10 64
                             16711680 65280 255 4278190080
    | TextureFormat.RGBA16F =>
        Build_DdsPixelFormat 32 DDPF_FOURCC DDS_DX10 64
                             16711680 65280 255 4278190080
    | _ =>
        Build_DdsPixelFormat 32 DDPF_FOURCC DDS_DX10 128
                             16711680 65280 255 4278190080
    end.

Definition getDdsDxgiFormat (_format : TextureFormat.Enum) : Z :=
  match _format with
  | TextureFormat.RGBA16 => DXGI_FORMAT_R16G16B16A16_UINT
  | TextureFormat.RGBA16F => DXGI_FORMAT_R16G16B16A16_FLOAT
  | TextureFormat.RGBA32F => DXGI_FORMAT_R32G32B32A32_FLOAT
  | _ => DXGI_FORMAT_UNKNOWN
  end.

Definition s_translateDdsPfBitCount : list (Z * Z) :=
  [(24, DDS_PF_BC_24); (32, DDS_PF_BC_32); (48, DDS_PF_BC_48)].

Definition s_translateDdsFormat : list (Z * TextureFormat.Enum) :=
  [(D3DFMT_R8G8B8, TextureFormat.BGR8);
   (D3DFMT_A8R8G8B8, TextureFormat.BGRA8);
   (D3DFMT_A16B16G16R16, TextureFormat.RGBA16);
   (D3DFMT_A16B16G16R16F, TextureFormat.RGBA16F);
   (D3DFMT_A32B32G32R32F, TextureFormat.RGBA32F);
   (Z.lor DDS_PF_BC_24 DDPF_RGB, TextureFormat.BGR8);
   (Z.lor DDS_PF_BC_32 DDPF_RGBA, TextureFormat.BGRA8);
   (Z.lor DDS_PF_BC_48 DDPF_RGB, TextureFormat.RGB16)].

Definition s_translateDdsDxgiFormat : list (Z * TextureFormat.Enum) :=
  [(DXGI_FORMAT_R16G16B16A16_UINT, TextureFormat.RGBA16);
   (DXGI_FORMAT_R16G16B16A16_FLOAT, TextureFormat.RGBA16F);
   (DXGI_FORMAT_R32G32B32A32_FLOAT, TextureFormat.RGBA32F)].

(** The first entry whose key is [k]: a table walk that breaks on the
    first hit. *)
Fixpoint lookup {V : Type} (k : Z) (table : list (Z * V)) (default : V) : V :=
  match table with
  | [] => default
  | (k', v) :: rest => if k' =? k then v else lookup k rest default
  end.

(** [ddsHeaderFromImage], called with a non-null [_ddsHeaderDxt10]. *)
Definition ddsHeaderFromImage (_image : Image)
  : outcome (DdsHeader * DdsHeaderDxt10) :=
  ddsPixelFormat <- getDdsPixelFormat (m_format _image) ;;
  let bytesPerPixel := bpp (m_format _image) in
  let hasMipMaps := m_numMips _image >? 1 in
  let hasMultipleFaces := m_numFaces _image >? 0 in
  let isCubemap := m_numFaces _image =? 6 in
  dxt10 <-
    (if DDS_DX10 =? pf_fourcc ddsPixelFormat then
       let dxgi := getDdsDxgiFormat (m_format _image) in
       _ <- ensure (negb (0 =? dxgi)) ;;
       Done (Build_DdsHeaderDxt10 dxgi DDS_DIMENSION_TEXTURE2D
               (if isCubemap then D3D10_RESOURCE_MISC_TEXTURECUBE else 0) 1 0)
     else Done (Build_DdsHeaderDxt10 0 0 0 0 0)) ;;
  Done
    ({| dds_size := DDS_HEADER_SIZE;
        dds_flags :=
          Z.lor (Z.lor (Z.lor DDSD_CAPS DDSD_HEIGHT) (Z.lor DDSD_WIDTH DDSD_PIXELFORMAT))
                (Z.lor (if hasMipMaps then DDSD_MIPMAPCOUNT else 0) DDSD_PITCH);
        dds_height := m_height _image;
        dds_width := m_width _image;
        dds_pitchOrLinearSize := u32 (m_width _image * bytesPerPixel);
        dds_depth := 0;
        dds_mipMapCount := m_numMips _image;
        dds_reserved1 := repeat 0 11;
        dds_pixelFormat := ddsPixelFormat;
        dds_caps :=
          Z.lor (Z.lor DDSCAPS_TEXTURE (if hasMipMaps then DDSCAPS_MIPMAP else 0))
                (if hasMipMaps || hasMultipleFaces then DDSCAPS_COMPLEX else 0);
        dds_caps2 :=
          if isCubemap then Z.lor DDSCAPS2_CUBEMAP DDS_CUBEMAP_ALLFACES else 0;
        dds_caps3 := 0; dds_caps4 := 0; dds_reserved2 := 0 |},
     dxt10).

Definition fwrite_u32 (x : Z) : bytes := le_encode 4 x.

(** [imageSaveDds]: the bytes written to the file (which the model
    takes to open). *)
Definition imageSaveDds (_image : Image) : outcome bytes :=
  '(ddsHeader, ddsHeaderDxt10) <- ddsHeaderFromImage _image ;;
  let pf := dds_pixelFormat ddsHeader in
  let header :=
    fwrite_u32 (dds_size ddsHeader) ++ fwrite_u32 (dds_flags ddsHeader)
    ++ fwrite_u32 (dds_height ddsHeader) ++ fwrite_u32 (dds_width ddsHeader)
    ++ fwrite_u32 (dds_pitchOrLinearSize ddsHeader)
    ++ fwrite_u32 (dds_depth ddsHeader) ++ fwrite_u32 (dds_mipMapCount ddsHeader)
    ++ flat_map fwrite_u32 (dds_reserved1 ddsHeader)
    ++ fwrite_u32 (pf_size pf) ++ fwrite_u32 (pf_flags pf)
    ++ fwrite_u32 (pf_fourcc pf) ++ fwrite_u32 (pf_rgbBitCount pf)
    ++ fwrite_u32 (pf_rBitMask pf) ++ fwrite_u32 (pf_gBitMask pf)
    ++ fwrite_u32 (pf_bBitMask pf) ++ fwrite_u32 (pf_aBitMask pf)
    ++ fwrite_u32 (dds_caps ddsHeader) ++ fwrite_u32 (dds_caps2 ddsHeader)
    ++ fwrite_u32 (dds_caps3 ddsHeader) ++ fwrite_u32 (dds_caps4 ddsHeader)
    ++ fwrite_u32 (dds_reserved2 ddsHeader) in
  let dxt10 :=
    if DDS_DX10 =? pf_fourcc pf then
      fwrite_u32 (dxt10_dxgiFormat ddsHeaderDxt10)
      ++ fwrite_u32 (dxt10_resourceDimension ddsHeaderDxt10)
      ++ fwrite_u32 (dxt10_miscFlags ddsHeaderDxt10)
      ++ fwrite_u32 (dxt10_arraySize ddsHeaderDxt10)
      ++ fwrite_u32 (dxt10_miscFlags2 ddsHeaderDxt10)
    else [] in
  data <- peek (m_data _image) 0 (m_dataSize _image) ;;
  Done (fwrite_u32 DDS_MAGIC ++ header ++ dxt10 ++ data).

(** The size loops of the loaders run a [uint8_t] counter against a
    32-bit bound read from the file: above 255 they never end. *)
Definition counted (bound : Z) : outcome unit :=
  if bound <=? 255 then Done tt else Stuck NoReturn.

(** [imageLoadDds(_image, _fp)]: the flag and what [_image] holds
    afterwards. *)
Definition imageLoadDds (_image : Image) (_fp : FILE) : outcome (bool * Image) :=
  '(magic, _fp) <- fread_u32 _fp ;;
  if negb (DDS_MAGIC =? magic) then Done (false, _image)
  else
    '(h, _fp) <- fread_words 31 _fp ;;
    let m_size := word h 0 in
    let m_flags := word h 1 in
    let m_height := word h 2 in
    let m_width := word h 3 in
    let m_mipMapCount := word h 6 in
    let pf_flags := word h 19 in
    let pf_fourcc := word h 20 in
    let pf_rgbBitCount := word h 21 in
    let m_caps := word h 26 in
    let m_caps2 := word h 27 in
    let hasDdsDxt10 :=
      (DDS_DX10 =? pf_fourcc) && negb (Z.land m_flags DDPF_FOURCC =? 0) in
    '(dxt10, _fp) <-
      (if hasDdsDxt10 then fread_words 5 _fp else Done (repeat 0 5, _fp)) ;;
    let dxgiFormat := word dxt10 0 in
    let required :=
      Z.lor (Z.lor DDSD_CAPS DDSD_HEIGHT) (Z.lor DDSD_WIDTH DDSD_PIXELFORMAT) in
    if negb (DDS_HEADER_SIZE =? m_size) then Done (false, _image)
    else if negb (Z.land m_flags required =? required) then Done (false, _image)
    else if 0 =? Z.land m_caps DDSCAPS_TEXTURE then Done (false, _image)
    else
      let m_mipMapCount := if 0 =? m_mipMapCount then 1 else m_mipMapCount in
      let isCubemap := negb (0 =? Z.land m_caps2 DDSCAPS2_CUBEMAP) in
      if isCubemap
         && negb (DDS_CUBEMAP_ALLFACES =? Z.land m_caps2 DDS_CUBEMAP_ALLFACES)
      then Done (false, _image)
      else
        let format :=
          if hasDdsDxt10 then
            lookup dxgiFormat s_translateDdsDxgiFormat TextureFormat.Unknown
          else
            let ddsBcFlag := lookup pf_rgbBitCount s_translateDdsPfBitCount 0 in
            let ddsFormat :=
              if negb (Z.land pf_flags DDPF_FOURCC =? 0) then pf_fourcc
              else Z.lor pf_flags ddsBcFlag in
            lookup ddsFormat s_translateDdsFormat TextureFormat.Unknown in
        (* The guessing loop runs over all six entries of
           [s_ddsValidFormats], the terminating [TEXTURE_FORMAT_NULL]
           included, for which [getImageDataInfo] has no entry. *)
        _ <- (if TextureFormat.eqb TextureFormat.Unknown format
              then Stuck CheckFailed else Done tt) ;;
        let numFaces := if isCubemap then 6 else 1 in
        let bytesPerPixel := bpp format in
        _ <- counted m_mipMapCount ;;
        let shape :=
          Build_Image [] m_width m_height 0 format m_mipMapCount numFaces in
        let dataSize := mipOffsetAfter shape numFaces in
        let fpCurrentPos := ftell _fp in
        let fpRemaining := len (content _fp) - fpCurrentPos in
        let _fp :=
          fseek_set _fp
            (fpCurrentPos
             - DDS_DX10_HEADER_SIZE
               * (if fpRemaining =? dataSize - DDS_DX10_HEADER_SIZE then 1 else 0)) in
        '(data, _fp) <- fread _fp dataSize ;;
        let result :=
          Build_Image data m_width m_height dataSize format
                      (u8 m_mipMapCount) numFaces in
        Done (true, imageMove result).

(** ** KTX *)

Definition KTX_MAGIC : bytes :=
  [171; 75; 84; 88; 32; 49; 49; 187; 13; 10; 26; 10].
Definition KTX_MAGIC_SHORT : Z := 1481919403.
Definition KTX_MAGIC_LEN : Z := 12.
Definition KTX_ENDIAN_REF : Z := 67305985.
Definition KTX_HEADER_SIZE : Z := 52.
Definition KTX_UNPACK_ALIGNMENT : Z := 4.

Definition GL_UNSIGNED_BYTE : Z := 5121.
Definition GL_UNSIGNED_SHORT : Z := 5123.
Definition GL_UNSIGNED_INT : Z := 5125.
Definition GL_FLOAT : Z := 5126.
Definition GL_HALF_FLOAT : Z := 5131.
Definition GL_RGB : Z := 6407.
Definition GL_RGBA : Z := 6408.
Definition GL_RGBA32F : Z := 34836.
Definition GL_RGB32F : Z := 34837.
Definition GL_RGBA16F : Z := 34842.
Definition GL_RGB16F : Z := 34843.
Definition GL_RGBA16UI : Z := 36214.
Definition GL_RGB16UI : Z := 36215.
Definition GL_RGBA8UI : Z := 36220.
Definition GL_RGB8UI : Z := 36221.

Record KtxHeader : Type := {
  ktx_endianness : Z; ktx_glType : Z; ktx_glTypeSize : Z; ktx_glFormat : Z;
  ktx_glInternalFormat : Z; ktx_glBaseInternalFormat : Z;
  ktx_pixelWidth : Z; ktx_pixelHeight : Z; ktx_pixelDepth : Z;
  ktx_numArrayElements : Z; ktx_numFaces : Z; ktx_numMips : Z;
  ktx_bytesKeyValue : Z
}.

(** [s_glSizedInternalFormats]: [(m_glInternalFormat, m_glFormat)]. *)
Definition getGlSizedInternalFormat (_format : TextureFormat.Enum) : Z * Z :=
  match _format with
  | TextureFormat.RGB8    => (GL_RGB8UI, GL_RGB)
  | TextureFormat.RGB16   => (GL_RGB16UI, GL_RGB)
  | TextureFormat.RGB16F  => (GL_RGB16F, GL_RGB)
  | TextureFormat.RGB32F  => (GL_RGB32F, GL_RGB)
  | TextureFormat.RGBA8   => (GL_RGBA8UI, GL_RGBA)
  | TextureFormat.RGBA16  => (GL_RGBA16UI, GL_RGBA)
  | TextureFormat.RGBA16F => (GL_RGBA16F, GL_RGBA)
  | TextureFormat.RGBA32F => (GL_RGBA32F, GL_RGBA)
  | _ => (0, 0)
  end.

Definition pixelDataTypeToGlType (_pdt : PixelDataType.Enum) : Z :=
  match _pdt with
  | PixelDataType.UINT8 => GL_UNSIGNED_BYTE
  | PixelDataType.UINT16 => GL_UNSIGNED_SHORT
  | PixelDataType.UINT32 => GL_UNSIGNED_INT
  | PixelDataType.HALF_FLOAT => GL_HALF_FLOAT
  | PixelDataType.FLOAT => GL_FLOAT
  end.

Definition s_translateKtxFormat : list (Z * TextureFormat.Enum) :=
  [(GL_RGB, TextureFormat.RGB8);
   (GL_RGB8UI, TextureFormat.RGB8);
   (GL_RGB16UI, TextureFormat.RGB16);
   (GL_RGB16F, TextureFormat.RGB16F);
   (GL_RGB32F, TextureFormat.RGB32F);
   (GL_RGBA, TextureFormat.RGBA8);
   (GL_RGBA8UI, TextureFormat.RGBA8);
   (GL_RGBA16UI, TextureFormat.RGBA16);
   (GL_RGBA16F, TextureFormat.RGBA16F);
   (GL_RGBA32F, TextureFormat.RGBA32F)].

Definition ktxHeaderFromImage (_image : Image) : outcome KtxHeader :=
  let imageDataInfo := getImageDataInfo (m_format _image) in
  _ <- (if m_numChanels imageDataInfo =? 0 then Stuck Undefined else Done tt) ;;
  let glTypeSize := m_bytesPerPixel imageDataInfo / m_numChanels imageDataInfo in
  let glFormat := snd (getGlSizedInternalFormat (m_format _image)) in
  _ <- ensure ((glTypeSize =? 1) || (glTypeSize =? 2) || (glTypeSize =? 4)) ;;
  _ <- ensure (negb (0 =? m_numMips _image)) ;;
  Done {| ktx_endianness := KTX_ENDIAN_REF;
          ktx_glType := pixelDataTypeToGlType (m_pixelType imageDataInfo);
          ktx_glTypeSize := glTypeSize;
          ktx_glFormat := glFormat;
          ktx_glInternalFormat := fst (getGlSizedInternalFormat (m_format _image));
          ktx_glBaseInternalFormat := glFormat;
          ktx_pixelWidth := m_width _image;
          ktx_pixelHeight := m_height _image;
          ktx_pixelDepth := 0;
          ktx_numArrayElements := 0;
          ktx_numFaces := m_numFaces _image;
          ktx_numMips := m_numMips _image;
          ktx_bytesKeyValue := 0 |}.

(** [(KTX_UNPACK_ALIGNMENT-1)-((size + KTX_UNPACK_ALIGNMENT-1)&(KTX_UNPACK_ALIGNMENT-1))]. *)
Definition ktxRounding (size : Z) : Z :=
  u32 ((KTX_UNPACK_ALIGNMENT - 1)
       - Z.land (u32 (size + KTX_UNPACK_ALIGNMENT - 1)) (KTX_UNPACK_ALIGNMENT - 1)).

(** [imageSaveKtx]: the bytes written to the file. *)
Definition imageSaveKtx (_image : Image) : outcome bytes :=
  ktxHeader <- ktxHeaderFromImage _image ;;
  let header :=
    flat_map fwrite_u32
      [ktx_endianness ktxHeader; ktx_glType ktxHeader; ktx_glTypeSize ktxHeader;
       ktx_glFormat ktxHeader; ktx_glInternalFormat ktxHeader;
       ktx_glBaseInternalFormat ktxHeader; ktx_pixelWidth ktxHeader;
       ktx_pixelHeight ktxHeader; ktx_pixelDepth ktxHeader;
       ktx_numArrayElements ktxHeader; ktx_numFaces ktxHeader;
       ktx_numMips ktxHeader; ktx_bytesKeyValue ktxHeader] in
  let bytesPerPixel := bpp (m_format _image) in
  let pad := [0; 0; 0; 0] in
  out <-
    for_upto (m_numMips _image)
      (fun mip out =>
         let width := mipDim (m_width _image) mip in
         let height := mipDim (m_height _image) mip in
         let pitch := u32 (width * bytesPerPixel) in
         let faceSize := u32 (pitch * height) in
         let mipSize := u32 (faceSize * m_numFaces _image) in
         let pitchRounding := ktxRounding pitch in
         let faceRounding := ktxRounding faceSize in
         let mipRounding := ktxRounding mipSize in
         let out := out ++ fwrite_u32 faceSize in
         out <-
           for_upto (m_numFaces _image)
             (fun face out =>
                let faceData := imageGetMipOffsets _image face mip in
                out <-
                  (if 0 =? pitchRounding then
                     b <- peek (m_data _image) faceData faceSize ;;
                     Done (out ++ b)
                   else
                     for_upto height
                       (fun yy out =>
                          b <- peek (m_data _image) (faceData + u32 (yy * pitch)) pitch ;;
                          p <- peek pad 0 pitchRounding ;;
                          Done (out ++ b ++ p))
                       out) ;;
                if negb (faceRounding =? 0)
                then p <- peek pad 0 faceRounding ;; Done (out ++ p)
                else Done out)
             out ;;
         if negb (mipRounding =? 0)
         then p <- peek pad 0 mipRounding ;; Done (out ++ p)
         else Done out)
      (KTX_MAGIC ++ header) ;;
  Done out.

(** [imageLoadKtx(_image, _fp)]. *)
Definition imageLoadKtx (_image : Image) (_fp : FILE) : outcome (bool * Image) :=
  '(magic, _fp) <- fread _fp KTX_MAGIC_LEN ;;
  if negb (forallb (fun '(a, b) => a =? b) (combine magic KTX_MAGIC))
  then Done (false, _image)
  else
    '(h, _fp) <- fread_words 13 _fp ;;
    let m_glInternalFormat := word h 4 in
    let m_pixelWidth := word h 6 in
    let m_pixelHeight := word h 7 in
    let m_numFaces := word h 10 in
    let m_numMips := if 0 =? word h 11 then 1 else word h 11 in
    let m_bytesKeyValue := word h 12 in
    let format := lookup m_glInternalFormat s_translateKtxFormat TextureFormat.Unknown in
    if TextureFormat.eqb TextureFormat.Unknown format then Done (false, _image)
    else
      let bytesPerPixel := bpp format in
      _ <- counted m_numFaces ;;
      _ <- counted m_numMips ;;
      (* [offsets[MAX_MIP_NUM][CUBE_FACE_NUM]] is a local array. *)
      _ <- (if (m_numFaces <=? CUBE_FACE_NUM) && (m_numMips <=? MAX_MIP_NUM)
            then Done tt else Stuck OutOfBounds) ;;
      let shape :=
        Build_Image [] m_pixelWidth m_pixelHeight 0 format m_numMips m_numFaces in
      let offsets := fun mip face => imageGetMipOffsets shape face mip in
      let dataSize := mipOffsetAfter shape m_numFaces in
      let data := malloc junk dataSize in
      _fp <- fseek_cur _fp m_bytesKeyValue ;;
      '(data, _fp) <-
        for_upto m_numMips
          (fun mip '(data, _fp) =>
             let width := mipDim m_pixelWidth mip in
             let height := mipDim m_pixelHeight mip in
             let pitch := u32 (width * bytesPerPixel) in
             '(faceSize, _fp) <- fread_u32 _fp ;;
             let mipSize := u32 (faceSize * m_numFaces) in
             let pitchRounding := ktxRounding pitch in
             let faceRounding := ktxRounding faceSize in
             let mipRounding := ktxRounding mipSize in
             '(data, _fp) <-
               for_upto m_numFaces
                 (fun face '(data, _fp) =>
                    let faceData := offsets mip face in
                    '(data, _fp) <-
                      (if 0 =? pitchRounding then
                         '(b, _fp) <- fread _fp faceSize ;;
                         data <- poke data faceData b ;;
                         Done (data, _fp)
                       else
                         for_upto m_pixelHeight
                           (fun yy '(data, _fp) =>
                              '(b, _fp) <- fread _fp pitch ;;
                              data <- poke data (faceData + u32 (yy * pitch)) b ;;
                              _fp <- fseek_cur _fp pitchRounding ;;
                              Done (data, _fp))
                           (data, _fp)) ;;
                    _fp <- fseek_cur _fp faceRounding ;;
                    Done (data, _fp))
                 (data, _fp) ;;
             _fp <- fseek_cur _fp mipRounding ;;
             Done (data, _fp))
          (data, _fp) ;;
      let result :=
        Build_Image data m_pixelWidth m_pixelHeight dataSize format
                    (u8 m_numMips) (u8 m_numFaces) in
      Done (true, imageMove result).

(** ** Radiance HDR *)

Definition HDR_MAGIC : Z := CMFT_MAKEFOURCC 35 63 82 65.
(** ["#?RADIANCE"]. *)
Definition HDR_MAGIC_FULL : bytes := [35; 63; 82; 65; 68; 73; 65; 78; 67; 69].
Definition HDR_MAGIC_LEN : Z := 10.

(** The line [fgets] delivers from the bytes ahead: at most [n]
    characters, ending after the first newline. *)
Fixpoint takeLine (n : nat) (ahead : bytes) : bytes :=
  match n, ahead with
  | Datatypes.S n', c :: rest => if c =? 10 then [c] else c :: takeLine n' rest
  | _, _ => []
  end.

(** [fgets(buf, 128, fp)] with the check that it did not return NULL. *)
Definition fgets (fp : FILE) : outcome (bytes * FILE) :=
  _ <- ensure (0 <=? pos fp) ;;
  let line := takeLine 127 (skipn (Z.to_nat (pos fp)) (content fp)) in
  _ <- ensure (negb (len line =? 0)) ;;
  Done (line, {| content := content fp; pos := pos fp + len line |}).

(** The C string held in a buffer: the bytes before the first NUL. *)
Fixpoint cstr (buf : bytes) : bytes :=
  match buf with
  | [] => []
  | c :: rest => if c =? 0 then [] else c :: cstr rest
  end.

Definition bytes_eqb (a b : bytes) : bool :=
  (len a =? len b) && forallb (fun '(x, y) => x =? y) (combine a b).

Definition isSpace (c : Z) : bool :=
  (c =? 32) || ((9 <=? c) && (c <=? 13)).

Fixpoint skipSpace (s : bytes) : bytes :=
  match s with
  | c :: rest => if isSpace c then skipSpace rest else s
  | [] => []
  end.

Definition isDigit (c : Z) : bool := (48 <=? c) && (c <=? 57).

Fixpoint scanDigits (s : bytes) (acc : Z) : Z * bytes :=
  match s with
  | c :: rest => if isDigit c then scanDigits rest (10 * acc + (c - 48)) else (acc, s)
  | [] => (acc, [])
  end.

(** The [%d] directive of [sscanf]: white space, an optional sign, at
    least one digit.  A value outside [int32_t] is left undefined. *)
Definition scanInt (s : bytes) : option (Z * bytes) :=
  let s := skipSpace s in
  let '(neg, s) :=
    match s with
    | 45 :: rest => (true, rest)
    | 43 :: rest => (false, rest)
    | _ => (false, s)
    end in
  match s with
  | c :: _ =>
      if isDigit c then
        let '(v, rest) := scanDigits s 0 in
        let v := if neg then - v else v in
        if (-2147483648 <=? v) && (v <=? 2147483647) then Some (v, rest) else None
      else None
  | [] => None
  end.

(** An ordinary character of a [sscanf] format. *)
Definition scanChar (c : Z) (s : bytes) : option bytes :=
  match s with
  | c' :: rest => if c' =? c then Some rest else None
  | [] => None
  end.

(** [sscanf(buf, "-Y %d +X %d", &height, &width)] with the check that
    both numbers were read: [(height, width)]. *)
Definition scanSize (buf : bytes) : option (Z * Z) :=
  s <-? scanChar 45 (cstr buf) ;;
  s <-? scanChar 89 s ;;
  '(height, s) <-? scanInt (skipSpace s) ;;
  s <-? scanChar 43 (skipSpace s) ;;
  s <-? scanChar 88 s ;;
  '(width, _) <-? scanInt (skipSpace s) ;;
  Some (height, width).

(** The header loop: up to twenty lines, stopping after a line that
    starts with NUL or a newline.  What [GAMMA=] and [EXPOSURE=] lines
    set is not used by the loader. *)
Fixpoint hdrSkipHeader (n : nat) (fp : FILE) : outcome FILE :=
  match n with
  | O => Done fp
  | Datatypes.S n' =>
      '(buf, fp) <- fgets fp ;;
      if (byte_at buf 0 =? 0) || (byte_at buf 0 =? 10) then Done fp
      else hdrSkipHeader n' fp
  end.

(** The [while (ptr < ptrEnd)] loop that fills one channel plane of
    the scanline buffer. *)
Fixpoint hdrReadPlane (fuel : nat) (ptrEnd : Z) (st : bytes * Z * FILE)
  : outcome (bytes * Z * FILE) :=
  let '(scanline, ptr, fp) := st in
  if negb (ptr <? ptrEnd) then Done st
  else
    match fuel with
    | O => Stuck NoReturn
    | Datatypes.S fuel' =>
        '(rle, fp) <- fread fp 2 ;;
        let rle0 := byte_at rle 0 in
        let rle1 := byte_at rle 1 in
        if rle0 >? 128 then
          let count := rle0 - 128 in
          _ <- ensure (negb (count =? 0) && (count <=? ptrEnd - ptr)) ;;
          scanline <- poke scanline ptr (repeat rle1 (Z.to_nat count)) ;;
          hdrReadPlane fuel' ptrEnd (scanline, ptr + count, fp)
        else
          let count := rle0 in
          _ <- ensure (negb (count =? 0) && (count <=? ptrEnd - ptr)) ;;
          scanline <- poke scanline ptr [rle1] ;;
          if count - 1 >? 0 then
            '(b, fp) <- fread fp (count - 1) ;;
            scanline <- poke scanline (ptr + 1) b ;;
            hdrReadPlane fuel' ptrEnd (scanline, ptr + 1 + (count - 1), fp)
          else hdrReadPlane fuel' ptrEnd (scanline, ptr + 1, fp)
    end.

(** One turn of the scanline loop; [rgbe] is the scanline's four-byte
    prefix, read before the turn. *)
Definition hdrScanline (width : Z) (rgbe : bytes) (st : bytes * Z * FILE)
  : outcome (bytes * Z * FILE) :=
  let '(data, dataPtr, fp) := st in
  _ <- ensure (Z.lor (Z.shiftl (byte_at rgbe 2) 8) (Z.land (byte_at rgbe 3) 255)
               =? width) ;;
  '(scanline, _, fp) <-
    for_upto 4
      (fun ii st => hdrReadPlane (Z.to_nat width) (width * (ii + 1)) st)
      (malloc junk (width * 4), 0, fp) ;;
  '(data, dataPtr) <-
    for_upto width
      (fun ii '(data, dataPtr) =>
         data <- poke data dataPtr
                   [byte_at scanline ii; byte_at scanline (ii + width);
                    byte_at scanline (ii + 2 * width);
                    byte_at scanline (ii + 3 * width)] ;;
         Done (data, dataPtr + 4))
      (data, dataPtr) ;;
  Done (data, dataPtr, fp).

(** The [for (;;)] loop over scanlines: [remaining] turns are left
    after this one. *)
Fixpoint hdrScanlines (remaining : nat) (width : Z) (rgbe : bytes)
    (st : bytes * Z * FILE) : outcome (bytes * Z * FILE) :=
  st <- hdrScanline width rgbe st ;;
  match remaining with
  | O => Done st
  | Datatypes.S remaining' =>
      let '(data, dataPtr, fp) := st in
      '(rgbe, fp) <- fread fp 4 ;;
      hdrScanlines remaining' width rgbe (data, dataPtr, fp)
  end.

(** [imageLoadHdr(_image, _fp)]. *)
Definition imageLoadHdr (_image : Image) (_fp : FILE) : outcome (bool * Image) :=
  '(buf, _fp) <- fgets _fp ;;
  if negb (bytes_eqb (firstn 10 (cstr buf)) HDR_MAGIC_FULL)
  then Done (false, _image)
  else
    _fp <- hdrSkipHeader 20 _fp ;;
    '(buf, _fp) <- fgets _fp ;;
    '(height, width) <- (match scanSize buf with
                         | Some hw => Done hw
                         | None => Stuck CheckFailed
                         end) ;;
    (* [width * height * 4] is a product of [int32_t]. *)
    _ <- (if (-2147483648 <=? width * height * 4) && (width * height * 4 <? 2147483648)
          then Done tt else Stuck Undefined) ;;
    let dataSize := u32 (width * height * 4) in
    let data := malloc junk dataSize in
    '(rgbe, _fp) <- fread _fp 4 ;;
    '(data, _fp) <-
      (if (width <? 8) || (width >? 32767)
          || negb (byte_at rgbe 0 =? 2) || negb (byte_at rgbe 1 =? 2)
          || negb (Z.land (byte_at rgbe 2) 128 =? 0)
       then
         data <- poke data 0 rgbe ;;
         let remaningDataSize := u32 (dataSize - 4) in
         '(rest, _fp) <- fread_item _fp remaningDataSize ;;
         data <- poke data 4 rest ;;
         Done (data, _fp)
       else
         let numScanlines := u32 (height - 1) in
         '(data, _, _fp) <-
           hdrScanlines (Z.to_nat numScanlines) width rgbe (data, 0, _fp) ;;
         Done (data, _fp)) ;;
    let result :=
      Build_Image data (u32 width) (u32 height) dataSize TextureFormat.RGBE 1 1 in
    Done (true, imageMove result).

(** ** TGA *)

Definition TGA_IT_RGB : Z := 2.
Definition TGA_IT_RLE : Z := 8.
Definition TGA_DESC_HORIZONTAL : Z := 16.
Definition TGA_DESC_VERTICAL : Z := 32.

(** [(int16_t)x]. *)
Definition i16 (x : Z) : Z := if x <? 32768 then x else x - 65536.

(** The [while (n < numPixels)] loop of the run-length decoder. *)
Fixpoint tgaReadPackets (fuel : nat) (numPixels numBytesPerPixel : Z)
    (st : bytes * Z * Z * FILE) : outcome (bytes * Z * Z * FILE) :=
  let '(data, dataPtr, n, fp) := st in
  if negb (n <? numPixels) then Done st
  else
    match fuel with
    | O => Stuck NoReturn
    | Datatypes.S fuel' =>
        '(buf, fp) <- fread fp (numBytesPerPixel + 1) ;;
        let count := Z.land (byte_at buf 0) 127 in
        let pixel := slice buf 1 numBytesPerPixel in
        data <- poke data dataPtr pixel ;;
        let dataPtr := dataPtr + numBytesPerPixel in
        let n := u32 (n + 1) in
        st <-
          (if negb (Z.land (byte_at buf 0) 128 =? 0) then
             for_upto count
               (fun _ '(data, dataPtr, n, fp) =>
                  data <- poke data dataPtr pixel ;;
                  Done (data, dataPtr + numBytesPerPixel, u32 (n + 1), fp))
               (data, dataPtr, n, fp)
           else
             for_upto count
               (fun _ '(data, dataPtr, n, fp) =>
                  '(buf, fp) <- fread fp numBytesPerPixel ;;
                  data <- poke data dataPtr buf ;;
                  Done (data, dataPtr + numBytesPerPixel, u32 (n + 1), fp))
               (data, dataPtr, n, fp)) ;;
        tgaReadPackets fuel' numPixels numBytesPerPixel st
    end.

(** [imageLoadTga(_image, _fp)]. *)
Definition imageLoadTga (_image : Image) (_fp : FILE) : outcome (bool * Image) :=
  '(m_idLength, _fp) <- fread_u8 _fp ;;
  '(m_colorMapType, _fp) <- fread_u8 _fp ;;
  '(m_imageType, _fp) <- fread_u8 _fp ;;
  '(m_colorMapOrigin, _fp) <- fread_u16 _fp ;;
  '(m_colorMapLength, _fp) <- fread_u16 _fp ;;
  '(m_colorMapDepth, _fp) <- fread_u8 _fp ;;
  '(m_xOrigin, _fp) <- fread_u16 _fp ;;
  '(m_yOrigin, _fp) <- fread_u16 _fp ;;
  '(tga_width, _fp) <- fread_u16 _fp ;;
  '(tga_height, _fp) <- fread_u16 _fp ;;
  '(m_bitsPerPixel, _fp) <- fread_u8 _fp ;;
  '(m_imageDescriptor, _fp) <- fread_u8 _fp ;;
  if 0 =? Z.land TGA_IT_RGB m_imageType then Done (false, _image)
  else if negb ((24 =? m_bitsPerPixel) || (32 =? m_bitsPerPixel))
  then Done (false, _image)
  else
    _ <- ensure (if 24 =? m_bitsPerPixel
                 then 0 =? Z.land m_imageDescriptor 15
                 else 8 =? Z.land m_imageDescriptor 15) ;;
    let format :=
      if 24 =? m_bitsPerPixel then TextureFormat.BGR8 else TextureFormat.BGRA8 in
    let numBytesPerPixel := m_bitsPerPixel / 8 in
    (* The two [uint16_t] are multiplied as [int]. *)
    _ <- (if tga_width * tga_height <? 2147483648 then Done tt else Stuck Undefined) ;;
    let numPixels := u32 (tga_width * tga_height) in
    let dataSize := u32 (numPixels * numBytesPerPixel) in
    let data := malloc junk dataSize in
    let skip :=
      u32 (m_idLength + Z.land m_colorMapType 1 * i16 m_colorMapLength) in
    _fp <- fseek_cur _fp skip ;;
    let bCompressed := negb (0 =? Z.land m_imageType TGA_IT_RLE) in
    '(data, _fp) <-
      (if bCompressed then
         '(data, _, _, _fp) <-
           tgaReadPackets (Z.to_nat numPixels) numPixels numBytesPerPixel
                          (data, 0, 0, _fp) ;;
         Done (data, _fp)
       else
         '(b, _fp) <- fread_item _fp dataSize ;;
         data <- poke data 0 b ;;
         Done (data, _fp)) ;;
    let result :=
      Build_Image data tga_width tga_height dataSize format 1 1 in
    let flipY := negb (Z.land m_imageDescriptor TGA_DESC_HORIZONTAL =? 0) in
    let flipX := Z.land m_imageDescriptor TGA_DESC_VERTICAL =? 0 in
    result <-
      (if flipY || flipX
       then imageTransform result [Build_transformOp 0 false false false flipX flipY]
       else Done result) ;;
    Done (true, imageMove result).

(** ** Loading by file type *)

Definition isTga (_magic : Z) : bool :=
  let colorMapType := u8 (Z.land (Z.shiftr _magic 8) 255) in
  let imageType := u8 (Z.land (Z.shiftr _magic 16) 255) in
  if (imageType =? 1) || (imageType =? 9) then 1 =? colorMapType
  else if (imageType =? 2) || (imageType =? 3) || (imageType =? 10)
          || (imageType =? 11)
  then 0 =? colorMapType
  else false.

(** [imageLoad(_image, _filePath, _convertTo)]; [file] is what is
    stored under the path, [None] when it cannot be opened. *)
Definition imageLoad (_image : Image) (file : option bytes)
    (_convertTo : TextureFormat.Enum) : outcome (bool * Image) :=
  match file with
  | None => Done (false, _image)
  | Some b =>
      let fp := fopen b in
      '(magic, fp) <- fread_u32 fp ;;
      let fp := fseek_set fp 0 in
      '(loaded, _image) <-
        (if DDS_MAGIC =? magic then imageLoadDds _image fp
         else if HDR_MAGIC =? magic then imageLoadHdr _image fp
         else if KTX_MAGIC_SHORT =? magic then imageLoadKtx _image fp
         else if isTga magic then imageLoadTga _image fp
         else Done (false, _image)) ;;
      if negb loaded then Done (false, _image)
      else if negb (TextureFormat.eqb TextureFormat.Unknown _convertTo)
              && negb (TextureFormat.eqb (m_format _image) _convertTo)
      then img <- imageConvertInPlace _image _convertTo ;; Done (true, img)
      else Done (true, _image)
  end.

End Heap.

(** ** What the specification says, for comparison with the code *)

(** The byte offset of pixel [(x, y)] of mip [m] of face [f] in the
    face-major, mip-minor, row-major layout: the full mip chains of the
    faces before [f], the mips before [m] of face [f], the rows above
    [y] and the pixels left of [x]. *)
Definition specMipChainBytes (img : Image) (n : Z) : Z :=
  fold_left
    (fun acc mip =>
       acc + mipDim (m_width img) mip * mipDim (m_height img) mip * bpp (m_format img))
    (upto n) 0.

Definition specPixelOffset (img : Image) (x y m f : Z) : Z :=
  f * specMipChainBytes img (m_numMips img)
  + specMipChainBytes img m
  + y * (mipDim (m_width img) m * bpp (m_format img))
  + x * bpp (m_format img).

(** The pixel the specification's [get_pixel] returns when the caller
    asks for the image's own format. *)
Definition specGetPixelSameFormat (img : Image) (x y m f : Z) : outcome bytes :=
  peek (m_data img) (specPixelOffset img x y m f) (bpp (m_format img)).

(** The number of levels from [w] by [h] down to 1 by 1, the base level
    included. *)
Fixpoint naturalMipCountFrom (fuel : nat) (w h : Z) : Z :=
  match fuel with
  | O => 1
  | Datatypes.S fuel' =>
      if (w <=? 1) && (h <=? 1) then 1
      else 1 + naturalMipCountFrom fuel' (Z.max 1 (w / 2)) (Z.max 1 (h / 2))
  end.

Definition naturalMipCount (w h : Z) : Z := naturalMipCountFrom 32 w h.

Definition specMipCount (desired w h : Z) : Z :=
  Z.min desired (Z.min MAX_MIP_NUM (naturalMipCount w h)).

(** ** Images used in the scenarios *)

Definition noJunk : Z -> Z := fun _ => 0.

(** Six 1x1 RGBA8 faces, one mip; face [k] holds the bytes [4k .. 4k+3]. *)
Definition sixTexels : Image :=
  Build_Image (upto 24) 1 1 24 TextureFormat.RGBA8 1 6.

(** An 8x2 RGB8 image with one mip. *)
Definition wide8x2 : Image :=
  Build_Image (upto 48) 8 2 48 TextureFormat.RGB8 1 1.

(** A single RGBE pixel [(128, 128, 128, 128)], which decodes to 0.5. *)
Definition rgbeHalf : Image :=
  Build_Image [128; 128; 128; 128] 1 1 4 TextureFormat.RGBE 1 1.

(** A 1x1 cube map that carries two mip levels. *)
Definition tinyCubeTwoMips : Image :=
  Build_Image (upto 48) 1 1 48 TextureFormat.RGBA8 2 6.

(** Scenario E1: 64x64 RGBA16F, six faces, one mip, face [k] filled with
    the pixel [(k/5, 0, 0, 1)]. *)
Definition e1Pixel (k : Z) : bytes :=
  le_encode 2 (Half.halfFromFloat (F32.literal k 5)) ++ [0; 0] ++ [0; 0]
  ++ le_encode 2 (Half.halfFromFloat F32.one).

Definition e1Data : bytes :=
  flat_map (fun k => concat (repeat (e1Pixel k) (64 * 64))) (upto 6).

Definition e1Image : Image :=
  Build_Image e1Data 64 64 196608 TextureFormat.RGBA16F 1 6.

(** Save as DDS, then load the written bytes into [dst]. *)
Definition ddsRoundTrip (dst img : Image) : outcome (bool * Image) :=
  file <- imageSaveDds img ;; imageLoadDds dst (fopen file).

(** Scenario E6: a 3x1 RGB8 image. *)
Definition e6Image (payload : bytes) : Image :=
  Build_Image payload 3 1 9 TextureFormat.RGB8 1 1.

(** The 52-byte KTX header of [e6Image]. *)
Definition e6Header : bytes :=
  flat_map fwrite_u32
    [KTX_ENDIAN_REF; GL_UNSIGNED_BYTE; 1; GL_RGB; GL_RGB8UI; GL_RGB;
     3; 1; 0; 0; 1; 1; 0].

(** The operations that write their result through an [Image&]
    destination and report success by a [bool]. *)
Inductive outputOp : Type :=
| LoadDds (fp : FILE)
| LoadKtx (junk : Z -> Z) (fp : FILE)
| LoadHdr (junk : Z -> Z) (fp : FILE)
| LoadTga (junk : Z -> Z) (fp : FILE)
| Load (junk : Z -> Z) (file : option bytes) (convertTo : TextureFormat.Enum)
| CubemapFromCross (junk : Z -> Z) (src : Image)
| CubemapFromLatLong (junk : Z -> Z)
    (texelCoordToVec : F32.float -> F32.float -> Z -> Z -> vec3)
    (latLongFromVec : vec3 -> F32.float * F32.float)
    (src : Image) (bilinear : bool)
| LatLongFromCubemap (junk : Z -> Z)
    (vecFromLatLong : F32.float -> F32.float -> vec3)
    (vecToTexelCoord : vec3 -> F32.float * F32.float * Z)
    (src : Image) (bilinear : bool)
| HStripFromCubemap (junk : Z -> Z) (src : Image)
| CubemapFromHStrip (junk : Z -> Z) (src : Image)
| CubemapFromFaceList (junk : Z -> Z) (faces : list Image)
| CrossFromCubemap (junk : Z -> Z) (src : Image) (vertical : bool).

Definition runOp (op : outputOp) (dst : Image) : outcome (bool * Image) :=
  match op with
  | LoadDds fp => imageLoadDds dst fp
  | LoadKtx junk fp => imageLoadKtx junk dst fp
  | LoadHdr junk fp => imageLoadHdr junk dst fp
  | LoadTga junk fp => imageLoadTga junk dst fp
  | Load junk file convertTo => imageLoad junk dst file convertTo
  | CubemapFromCross junk src => imageCubemapFromCross junk dst src
  | CubemapFromLatLong junk t l src bilinear =>
      imageCubemapFromLatLong junk t l dst src bilinear
  | LatLongFromCubemap junk v t src bilinear =>
      imageLatLongFromCubemap junk v t dst src bilinear
  | HStripFromCubemap junk src => imageHStripFromCubemap junk dst src
  | CubemapFromHStrip junk src => imageCubemapFromHStrip junk dst src
  | CubemapFromFaceList junk faces => imageCubemapFromFaceList junk dst faces
  | CrossFromCubemap junk src vertical => imageCrossFromCubemap junk dst src vertical
  end.

(** Decidable equality, for statements settled by evaluation. *)
Fixpoint bytes_beq (a b : bytes) : bool :=
  match a, b with
  | [], [] => true
  | x :: a', y :: b' => (x =? y) && bytes_beq a' b'
  | _, _ => false
  end.

Definition image_beq (a b : Image) : bool :=
  bytes_beq (m_data a) (m_data b)
  && (m_width a =? m_width b) && (m_height a =? m_height b)
  && (m_dataSize a =? m_dataSize b)
  && TextureFormat.eqb (m_format a) (m_format b)
  && (m_numMips a =? m_numMips b) && (m_numFaces a =? m_numFaces b).

Definition loaded_beq (o : outcome (bool * Image)) (flag : bool) (img : Image)
  : bool :=
  match o with
  | Done (f, i) => Bool.eqb f flag && image_beq i img
  | Stuck _ => false
  end.

(** ** Layouts, for the strip and cube remaps *)

(** The sum of [g] over [0 .. n-1]. *)
Definition sumUpto (g : Z -> Z) (n : Z) : Z :=
  fold_left (fun acc k => acc + g k) (upto n) 0.

(** The bytes of mip [m] of one face, and of one face's whole chain. *)
Definition levelBytes (img : Image) (m : Z) : Z :=
  mipDim (m_width img) m * mipDim (m_height img) m * bpp (m_format img).

Definition chainBytes (img : Image) : Z := sumUpto (levelBytes img) (m_numMips img).

(** The strip that [imageHStripFromCubemap] lays out for the cube [c]. *)
Definition stripShape (c : Image) : Image :=
  Build_Image [] (6 * m_width c) (m_width c) 0 (m_format c) (m_numMips c) 1.

Definition rowPitch (c : Image) (m : Z) : Z := mipDim (m_width c) m * bpp (m_format c).

(** Where row [y] of mip [m] of face [f] starts, in the strip and in the cube. *)
Definition stripRow (c : Image) (f m y : Z) : Z :=
  sumUpto (levelBytes (stripShape c)) m + (6 * y + f) * rowPitch c m.

Definition cubeRow (c : Image) (f m y : Z) : Z :=
  f * chainBytes c + sumUpto (levelBytes c) m + y * rowPitch c m.

Section NestShape.

(** Three nested loops that write one block per cell: [n1] faces, [n2]
    levels or rows, [n3 m] cells in level [m]. *)
Variables n1 n2 : Z.
Variable n3 : Z -> Z.
Variable gen : Z -> Z -> Z -> outcome bytes.
Variable blk : Z -> Z -> Z -> bytes.
Variable D : Z -> Z -> Z -> Z.
Variable L : Z.

Definition validCell (f m y : Z) : Prop :=
  0 <= f < n1 /\ 0 <= m < n2 /\ 0 <= y < n3 m.

Definition fillNest (dst0 : bytes) : outcome bytes :=
  for_upto n1
    (fun f dst =>
       for_upto n2
         (fun m dst =>
            for_upto (n3 m)
              (fun y dst => b <- gen f m y ;; poke dst (D f m y) b)
              dst)
         dst)
    dst0.

(** The cells written before the loops reach [(f, m, y)]. *)
Definition cellBefore (f m y f' m' y' : Z) : Prop :=
  f' < f \/ (f' = f /\ (m' < m \/ (m' = m /\ y' < y))).

Definition filled (f m y : Z) (dst : bytes) : Prop :=
  len dst = L
  /\ forall f' m' y',
       validCell f' m' y' -> cellBefore f m y f' m' y' ->
       forall j, 0 <= j < len (blk f' m' y') ->
                 byte_at dst (D f' m' y' + j) = byte_at (blk f' m' y') j.

End NestShape.

(** The shape shared by the strip and cube remaps: for each of six
    faces, each mip and each row, one [memcpy] of a row. *)
Definition validRow (mips : Z) (rows : Z -> Z) (f m y : Z) : Prop :=
  0 <= f < 6 /\ 0 <= m < mips /\ 0 <= y < rows m.

Definition copyNest (src : bytes) (mips : Z) (rows pitch : Z -> Z)
    (D S : Z -> Z -> Z -> Z) (dst0 : bytes) : outcome bytes :=
  for_upto 6
    (fun f dst =>
       for_upto mips
         (fun m dst =>
            for_upto (rows m)
              (fun y dst => memcpy dst (D f m y) src (S f m y) (pitch m))
              dst)
         dst)
    dst0.

(** ** Rounding, for the lemmas on float arithmetic *)

(** [locates N B r]: the record [r] is [N / B] together with the place of
    the remainder between 0, [B / 2] and [B]. *)
Definition locates (N B : Z) (r : shr_record) : Prop :=
  0 < B /\ 0 <= N /\ shr_m r = N / B
  /\ (shr_r r = true <-> B <= 2 * (N mod B))
  /\ (shr_s r = true <-> N mod B <> 0 /\ 2 * (N mod B) <> B).

(** [nearest N B m]: [m] is [N / B] rounded to a nearest integer. *)
Definition nearest (N B m : Z) : Prop :=
  (m = N / B /\ 2 * (N mod B) <= B) \/ (m = N / B + 1 /\ B <= 2 * (N mod B)).

(** A mantissa of at most 25 bits at exponent [e], as a binary32:
    [2^24] is renormalised, and an exponent above 104 overflows. *)
Definition packed (s : bool) (m e : Z) : spec_float :=
  match m with
  | Zpos p =>
      if m =? 16777216
      then (if e + 1 <=? 104 then S754_finite s 8388608 (e + 1) else S754_infinity s)
      else (if e <=? 104 then S754_finite s p e else S754_infinity s)
  | _ => S754_zero s
  end.

(** The rational number a binary float stands for; 0 for infinities and
    NaN, which the lemmas below exclude. *)
Definition value (x : spec_float) : Q :=
  match x with
  | S754_finite s m e =>
      ((if s then - inject_Z (Zpos m) else inject_Z (Zpos m)) * 2 ^ e)%Q
  | _ => 0%Q
  end.

(** The unit round-off and the smallest spacing of binary32. *)
Definition unitRoundoff : Q := (2 ^ (-24))%Q.
Definition halfSubnormal : Q := (2 ^ (-150))%Q.

(** The exponent [binary_round_aux] gives to a mantissa [q] that comes at
    exponent [E]: the format's exponent for that magnitude, if larger. *)
Definition roundedExponent (q E : Z) : Z :=
  E + Z.max 0 (fexp 24 128 (Zdigits2 q + E) - E).

(** [0.0f + x]: the number itself, a negative zero made positive. *)
Definition plusZero (x : spec_float) : spec_float :=
  match x with
  | S754_zero _ => S754_zero false
  | _ => x
  end.

(** Zeros and positive finite numbers. *)
Definition finite_nonneg (x : spec_float) : Prop :=
  match x with
  | S754_zero _ | S754_finite false _ _ => True
  | _ => False
  end.

(** The same as a test, together with the bounds of the binary32 format:
    24 bits at most, the exponent between -149 and 104, normal numbers
    with a full mantissa. *)
Definition binary32_nonneg (x : spec_float) : bool :=
  match x with
  | S754_zero _ => true
  | S754_finite false m e => bounded 24 128 m e
  | _ => false
  end.

(** Structural equality of floats, for checks that run. *)
Definition float_eqb (x y : spec_float) : bool :=
  match x, y with
  | S754_zero s, S754_zero t => Bool.eqb s t
  | S754_infinity s, S754_infinity t => Bool.eqb s t
  | S754_nan, S754_nan => true
  | S754_finite s m e, S754_finite t n f => Bool.eqb s t && Pos.eqb m n && (e =? f)
  | _, _ => false
  end.

(** ** The RGBE encoder, as the specification has it and as amended *)

(** [255 / 2^e]: the factor [toRgb8] of [rgbeFromRgba32f], which is exact
    in binary32 for every exponent [e] from -120 to 127. *)
Definition rgbeScale (e : Z) : F32.float := S754_finite false 16711680 (- e - 16).

(** The three steps of [rgbeFromRgba32f] that depend on the exponent
    alone: [int(exp)], the factor [255.0f * 1.0f / ldexp(1.0f, int(exp))]
    and the byte [uint8_t(exp + 128.0f)]. *)
Definition rgbeExponentOk (e : Z) : bool :=
  match F32.to_int (F32.of_Z e), F32.to_u8 (F32.add (F32.of_Z e) (F32.of_Z 128)) with
  | Some z, Some b =>
      (z =? e) && (b =? e + 128)
      && float_eqb (F32.div (F32.mul (F32.of_Z 255) F32.one) (F32.ldexp F32.one e))
                   (rgbeScale e)
  | _, _ => false
  end.

(** The exponent [ceilf(log2f(m))] of the encoder for a maximum [m] with
    [2^k <= m < 2^(k+1)]: [k] up to [log2f_flat k] binary32 steps above
    [2^k], and [k + 1] beyond. *)
Definition rgbeExponent (m : Q) (k : Z) : Z :=
  if Qle_bool m (2 ^ k * (1 + inject_Z (F32.log2f_flat k) / 8388608)) then k
  else k + 1.

(** The amended encoder: each channel times the factor in single
    precision, the fraction dropped; then the biased exponent. *)
Definition rgbeTruncated (p : rgba32f) (e : Z) : bytes :=
  [Qfloor (value (F32.mul (px0 p) (rgbeScale e)));
   Qfloor (value (F32.mul (px1 p) (rgbeScale e)));
   Qfloor (value (F32.mul (px2 p) (rgbeScale e)));
   e + 128].

(** The specification's encoder, over exact numbers.  [specCeilLog2 m] is
    the least integer [e] with [m <= 2^e], for [m > 0]. *)
Definition specCeilLog2 (m : Q) : Z :=
  let k := Z.log2_up (Qnum m) - Z.log2 (Zpos (Qden m)) in
  if Qle_bool m (2 ^ (k - 1)) then k - 1 else k.

Definition specRound (q : Q) : Z := Qfloor (q + (1 # 2)).

Definition specMax (a b : Q) : Q := if Qle_bool a b then b else a.

Definition specRgbe (r g b : Q) : bytes :=
  let m := specMax r (specMax g b) in
  if Qle_bool m 0 then [0; 0; 0; 0]
  else
    let e := specCeilLog2 m in
    let scale := (255 / 2 ^ e)%Q in
    [specRound (r * scale); specRound (g * scale); specRound (b * scale); e + 128].

(** A pixel whose green and blue land on 63.75 after scaling. *)
Definition rgbeEighths : rgba32f :=
  Rgba (F32.literal 1 2) (F32.literal 1 8) (F32.literal 1 8) F32.one.

(** A pixel whose red is the binary32 number after 16, [0x41800001]. *)
Definition rgbeAbove16 : rgba32f :=
  Rgba (F32.of_bits 1098907649) F32.zero F32.zero F32.one.

(** ** The sampling coordinates of [imageResize] *)

(** [float(int32_t(srcSize)) / float(int32_t(dstSize))] and
    [uint32_t(float(x) * ratio)], as [imageResize] computes them. *)
Definition resizeRatio (srcSize dstSize : Z) : F32.float :=
  F32.div (F32.of_Z (i32 srcSize)) (F32.of_Z (i32 dstSize)).

Definition resizeCoord (srcSize dstSize x : Z) : option Z :=
  F32.to_u32 (F32.mul (F32.of_Z x) (resizeRatio srcSize dstSize)).

(** The pixel [imageResize] writes for one sample of weight one: the
    three channels of the 12 source bytes [px] as [(0.0f + v) * 1.0f],
    and alpha 1. *)
Definition resampled (px : bytes) : bytes :=
  storePixel (Rgba (plusZero (f32_at px 0)) (plusZero (f32_at px 1))
                   (plusZero (f32_at px 2)) F32.one).

(** Where pixel [(x, y)] of face [f] lies in the base level of an
    RGBA32F image, and in the single level of the resized image. *)
Definition basePixel (img : Image) (f y x : Z) : Z :=
  f * chainBytes img + (y * m_width img + x) * 16.

Definition resizedPixel (W H f y x : Z) : Z := ((f * H + y) * W + x) * 16.

(** The pixels of one face, over all its levels. *)
Definition chainPixels (img : Image) : Z :=
  sumUpto (fun m => mipDim (m_width img) m * mipDim (m_height img) m) (m_numMips img).

(** The same two places for an image of any format [fmt]. *)
Definition pixelAt (img : Image) (f y x : Z) : Z :=
  f * chainBytes img + (y * m_width img + x) * bpp (m_format img).


(** What [imageResize] makes of one source pixel [px] of format [fmt]
    that it samples once: an RGBA32F pixel is resampled as it is; a
    pixel of another format is decoded by [imageToRgba32f] and stored,
    resampled, and encoded again by [imageFromRgba32f]. *)
Definition resizedFrom (fmt : TextureFormat.Enum) (px : bytes) : outcome bytes :=
  if TextureFormat.eqb TextureFormat.RGBA32F fmt
  then Done (resampled (slice px 0 12))
  else
    p <- toRgba32f fmt px ;;
    fromRgba32f fmt (rgba32fToRgba32f (resampled (slice (storePixel p) 0 12))).





(** ** [imageSaveTga] *)

Definition TGA_HEADER_SIZE : Z := 18.
Definition TGA_FOOTER_SIZE : Z := 26.

(** ['T','R','U','E','V','I','S','I','O','N','-','X','F','I','L','E','.','\0']. *)
Definition TGA_ID : bytes :=
  [84; 82; 85; 69; 86; 73; 83; 73; 79; 78; 45; 88; 70; 73; 76; 69; 46; 0].

Record TgaHeader : Type := {
  tga_idLength : Z; tga_colorMapType : Z; tga_imageType : Z;
  tga_colorMapOrigin : Z; tga_colorMapLength : Z; tga_colorMapDepth : Z;
  tga_xOrigin : Z; tga_yOrigin : Z; tga_width : Z; tga_height : Z;
  tga_bitsPerPixel : Z; tga_imageDescriptor : Z
}.

(** [tgaHeaderFromImage]; [m_width] and [m_height] are [uint16_t],
    [m_bitsPerPixel] is [uint8_t]. *)
Definition tgaHeaderFromImage (_image : Image) : TgaHeader :=
  {| tga_idLength := 0;
     tga_colorMapType := 0;
     tga_imageType := TGA_IT_RGB;
     tga_colorMapOrigin := 0;
     tga_colorMapLength := 0;
     tga_colorMapDepth := 0;
     tga_xOrigin := 0;
     tga_yOrigin := 0;
     tga_width := u16 (m_width _image);
     tga_height := u16 (m_height _image);
     tga_bitsPerPixel := u8 (bpp (m_format _image) * 8);
     tga_imageDescriptor :=
       if negb (m_hasAlpha (getImageDataInfo (m_format _image)) =? 0)
       then 8 else 0 |}.

(** [imageSaveTga(_fileName, _image, _yflip)]: the bytes written to the
    file (which the model takes to open). *)
Definition imageSaveTga (_image : Image) (_yflip : bool) : outcome bytes :=
  let tgaHeader := tgaHeaderFromImage _image in
  let header :=
    le_encode 1 (tga_idLength tgaHeader)
    ++ le_encode 1 (tga_colorMapType tgaHeader)
    ++ le_encode 1 (tga_imageType tgaHeader)
    ++ le_encode 2 (tga_colorMapOrigin tgaHeader)
    ++ le_encode 2 (tga_colorMapLength tgaHeader)
    ++ le_encode 1 (tga_colorMapDepth tgaHeader)
    ++ le_encode 2 (tga_xOrigin tgaHeader)
    ++ le_encode 2 (tga_yOrigin tgaHeader)
    ++ le_encode 2 (tga_width tgaHeader)
    ++ le_encode 2 (tga_height tgaHeader)
    ++ le_encode 1 (tga_bitsPerPixel tgaHeader)
    ++ le_encode 1 (tga_imageDescriptor tgaHeader) in
  let pitch := u32 (m_width _image * bpp (m_format _image)) in
  '(out, _) <-
    (if _yflip then
       for_upto (m_height _image)
         (fun yy '(out, src) =>
            let src := src - pitch in
            b <- peek (m_data _image) src pitch ;;
            Done (out ++ b, src))
         (header, u32 (m_height _image * pitch))
     else
       for_upto (m_height _image)
         (fun yy '(out, src) =>
            b <- peek (m_data _image) src pitch ;;
            Done (out ++ b, src + pitch))
         (header, 0)) ;;
  Done (out ++ fwrite_u32 0 ++ fwrite_u32 0 ++ TGA_ID).

(** ** [imageSaveHdr] *)

(** The decimal digits of [n], the last one first, put in front of
    [acc]. *)
Fixpoint decimal (fuel : nat) (n : Z) (acc : bytes) : bytes :=
  match fuel with
  | O => acc
  | Datatypes.S fuel' =>
      let acc := (48 + n mod 10) :: acc in
      if n / 10 =? 0 then acc else decimal fuel' (n / 10) acc
  end.

(** The [%d] directive of [sprintf] on an [int]. *)
Definition printInt (v : Z) : bytes :=
  if v <? 0 then 45 :: decimal 10 (- v) [] else decimal 10 v [].

(** ["# Output from cmft.\n"], ["FORMAT=32-bit_rle_rgbe\n"] and what
    [sprintf(exposure, "EXPOSURE=%g\n", 1.0f)] gives, ["EXPOSURE=1\n"]:
    [hdrHeaderFromImage] sets [m_exposure] to [1.0f] for every image. *)
Definition hdrComment : bytes :=
  [35; 32; 79; 117; 116; 112; 117; 116; 32; 102; 114; 111; 109; 32; 99; 109; 102; 116; 46; 10].
Definition hdrFormat : bytes :=
  [70; 79; 82; 77; 65; 84; 61; 51; 50; 45; 98; 105; 116; 95; 114; 108; 101; 95; 114; 103; 98; 101; 10].
Definition hdrExposure : bytes :=
  [69; 88; 80; 79; 83; 85; 82; 69; 61; 49; 10].

(** [sprintf(imageSize, "-Y %d +X %d\n", m_height, m_width)]; the two
    [uint32_t] are printed as [int]. *)
Definition hdrImageSize (height width : Z) : bytes :=
  [45; 89; 32] ++ printInt (i32 height) ++ [32; 43; 88; 32]
  ++ printInt (i32 width) ++ [10].

(** [imageSaveHdr(_fileName, _image)]: the bytes written to the file
    (which the model takes to open). *)
Definition imageSaveHdr (junk : Z -> Z) (_image : Image) : outcome bytes :=
  '(imageIsRef, imageRgbe) <- imageRefOrConvert junk TextureFormat.RGBE _image ;;
  let header :=
    (HDR_MAGIC_FULL ++ [10]) ++ hdrComment ++ hdrFormat ++ hdrExposure ++ [10]
    ++ hdrImageSize (m_height imageRgbe) (m_width imageRgbe) in
  let pitch := u32 (m_width imageRgbe * bpp (m_format imageRgbe)) in
  '(out, _) <-
    for_upto (m_height imageRgbe)
      (fun yy '(out, srcPtr) =>
         b <- peek (m_data imageRgbe) srcPtr pitch ;;
         Done (out ++ b, srcPtr + pitch))
      (header, 0) ;;
  Done out.

(** The test by which [imageLoadHdr] takes the pixel data for
    run-length encoded scanlines. *)
Definition hdrLooksPacked (width : Z) (rgbe : bytes) : bool :=
  negb ((width <? 8) || (width >? 32767)
        || negb (byte_at rgbe 0 =? 2) || negb (byte_at rgbe 1 =? 2)
        || negb (Z.land (byte_at rgbe 2) 128 =? 0)).

(** ** Further definitions, for the properties beyond the claims *)

(** The formats whose channels are single bytes. *)
Definition eightBit (f : TextureFormat.Enum) : bool :=
  match f with
  | TextureFormat.BGR8 | TextureFormat.RGB8
  | TextureFormat.BGRA8 | TextureFormat.RGBA8 => true
  | _ => false
  end.

(** Every element is a [uint8_t]. *)
Definition allBytes (b : bytes) : Prop := Forall (fun x => 0 <= x <= 255) b.

(** A pixel decoded and encoded again. *)
Definition recode (from to : TextureFormat.Enum) (px : bytes) : outcome bytes :=
  p <- toRgba32f from px ;; fromRgba32f to p.


(** One RGB16F pixel, (1.0, 1.0, 1.0). *)
Definition halfTexel : Image :=
  Build_Image [0; 60; 0; 60; 0; 60] 1 1 6 TextureFormat.RGB16F 1 1.

Definition channelSurvives (b : Z) : bool :=
  match floatToU8 (u8ToFloat b) with
  | Some c => c =? b
  | None => false
  end.

(** The number of levels of a chain that stops at the first level with
    a side of one texel, or at [limit] levels. *)
Definition chainLevels (w h limit : Z) : Z :=
  Z.min limit (1 + Z.min (Z.log2 w) (Z.log2 h)).

(** The counter in the state of [mipChainLoop]. *)
Definition loopCount (st : Z * Z * Z * Z * list Z) : Z :=
  let '(mipCount, _, _, _, _) := st in mipCount.

(** The 31 words of a DDS header and the 5 of its DX10 extension, in
    file order. *)
Definition ddsHeaderWords (h : DdsHeader) : list Z :=
  let pf := dds_pixelFormat h in
  [dds_size h; dds_flags h; dds_height h; dds_width h;
   dds_pitchOrLinearSize h; dds_depth h; dds_mipMapCount h]
  ++ dds_reserved1 h
  ++ [pf_size pf; pf_flags pf; pf_fourcc pf; pf_rgbBitCount pf;
      pf_rBitMask pf; pf_gBitMask pf; pf_bBitMask pf; pf_aBitMask pf;
      dds_caps h; dds_caps2 h; dds_caps3 h; dds_caps4 h; dds_reserved2 h].

Definition ddsDxt10Words (d : DdsHeaderDxt10) : list Z :=
  [dxt10_dxgiFormat d; dxt10_resourceDimension d; dxt10_miscFlags d;
   dxt10_arraySize d; dxt10_miscFlags2 d].

(** Two RGBE pixels side by side: (1/2, 1/2, 1/2) and (1/4, 1/4, 1/4). *)
Definition rgbePair : Image :=
  Build_Image [128; 128; 128; 128; 64; 64; 64; 128] 2 1 8 TextureFormat.RGBE 1 1.

(** A 2x2 BGRA8 image: one face, one level, the bytes 0 .. 15. *)
Definition bgraQuad : Image :=
  Build_Image (upto 16) 2 2 16 TextureFormat.BGRA8 1 1.

(** The row that row [y] of [h] holds after [k] swaps. *)
Definition flippedRow (h k y : Z) : Z :=
  if (y <? k) || (h - 1 - k <? y) then h - 1 - y else y.

(** [IMAGE_OP_FLIP_X] on one face, as an argument of [imageTransform]. *)
Definition flipXOp (face : Z) : transformOp :=
  Build_transformOp face false false false true false.

(** The image that [imageFaceListFromCubemap] makes of face [face] of
    the cube map [c]. *)
Definition faceImage (c : Image) (face : Z) : Image :=
  Build_Image (slice (m_data c) (face * chainBytes c) (chainBytes c))
              (m_width c) (m_height c) (chainBytes c) (m_format c) (m_numMips c) 1.

(** The same through memory: the float is stored and loaded in between. *)
Definition storedChannelSurvives (b : Z) : bool :=
  match floatToU8 (F32.load (F32.store (u8ToFloat b))) with
  | Some c => c =? b
  | None => false
  end.

(** The formats of KTX whose pixels are a multiple of four bytes long:
    their rows, faces and levels need no padding. *)
Definition ktxUnpadded (f : TextureFormat.Enum) : bool :=
  match f with
  | TextureFormat.RGB32F | TextureFormat.RGBA8 | TextureFormat.RGBA16
  | TextureFormat.RGBA16F | TextureFormat.RGBA32F => true
  | _ => false
  end.

(** The bytes of level [m] of face [f]; one level of a KTX file, the
    face size followed by the level of every face; the first [n] levels. *)
Definition ktxBlock (img : Image) (m f : Z) : bytes :=
  slice (m_data img) (cubeRow img f m 0) (levelBytes img m).

Definition ktxMip (img : Image) (m : Z) : bytes :=
  fwrite_u32 (levelBytes img m) ++ flat_map (ktxBlock img m) (upto (m_numFaces img)).

Definition ktxBody (img : Image) (n : Z) : bytes := flat_map (ktxMip img) (upto n).

Definition ktxHeaderWords (h : KtxHeader) : list Z :=
  [ktx_endianness h; ktx_glType h; ktx_glTypeSize h; ktx_glFormat h;
   ktx_glInternalFormat h; ktx_glBaseInternalFormat h; ktx_pixelWidth h;
   ktx_pixelHeight h; ktx_pixelDepth h; ktx_numArrayElements h; ktx_numFaces h;
   ktx_numMips h; ktx_bytesKeyValue h].

(* ===================================================================== *)
(** * Part II. Lemmas and theorems                                         *)
(* ===================================================================== *)

(** ** Evaluation by reflection *)

Lemma bytes_beq_eq (a : bytes) : forall b, bytes_beq a b = true -> a = b.
Proof.
  induction a as [|x a IH]; destruct b as [|y b]; simpl; try discriminate; auto.
  intros H. apply andb_true_iff in H. destruct H as [Hx Hr].
  apply Z.eqb_eq in Hx. subst y. f_equal. auto.
Qed.

Lemma format_eqb_eq (a b : TextureFormat.Enum) :
  TextureFormat.eqb a b = true -> a = b.
Proof. destruct a, b; simpl; congruence. Qed.

Lemma format_eqb_refl (a : TextureFormat.Enum) : TextureFormat.eqb a a = true.
Proof. destruct a; reflexivity. Qed.

Lemma image_beq_eq (a b : Image) : image_beq a b = true -> a = b.
Proof.
  unfold image_beq. intros H.
  repeat (apply andb_true_iff in H; destruct H as [H ?]).
  destruct a, b; simpl in *.
  apply bytes_beq_eq in H.
  match goal with H : TextureFormat.eqb _ _ = true |- _ => apply format_eqb_eq in H end.
  repeat match goal with H : (_ =? _) = true |- _ => apply Z.eqb_eq in H end.
  subst. reflexivity.
Qed.

Lemma loaded_beq_eq (o : outcome (bool * Image)) (flag : bool) (img : Image) :
  loaded_beq o flag img = true -> o = Done (flag, img).
Proof.
  destruct o as [[f i]|]; simpl; try discriminate.
  intros H. apply andb_true_iff in H. destruct H as [Hf Hi].
  apply eqb_prop in Hf. apply image_beq_eq in Hi. subst. reflexivity.
Qed.

(** ** Buffers, index by index *)

Lemma len_nonneg (b : bytes) : 0 <= len b.
Proof. unfold len. lia. Qed.

Lemma len_app (a b : bytes) : len (a ++ b) = len a + len b.
Proof. unfold len. rewrite length_app. lia. Qed.

Lemma len_firstn (b : bytes) (n : Z) :
  0 <= n <= len b -> len (firstn (Z.to_nat n) b) = n.
Proof. unfold len. intros H. rewrite length_firstn. lia. Qed.

Lemma len_skipn (b : bytes) (n : Z) :
  0 <= n <= len b -> len (skipn (Z.to_nat n) b) = len b - n.
Proof. unfold len. intros H. rewrite length_skipn. lia. Qed.

Lemma len_slice (b : bytes) (off n : Z) :
  0 <= off -> 0 <= n -> off + n <= len b -> len (slice b off n) = n.
Proof.
  intros Ho Hn Hb. unfold slice. apply len_firstn.
  rewrite len_skipn by (pose proof (len_nonneg b); lia). lia.
Qed.

Lemma byte_at_slice (b : bytes) (off n j : Z) :
  0 <= off -> 0 <= j < n -> off + n <= len b ->
  byte_at (slice b off n) j = byte_at b (off + j).
Proof.
  intros Ho Hj Hb. unfold byte_at, slice.
  rewrite nth_firstn.
  replace (Z.to_nat j <? Z.to_nat n)%nat with true
    by (symmetry; apply Nat.ltb_lt; lia).
  rewrite nth_skipn. f_equal. lia.
Qed.

Lemma peek_Done (b : bytes) (off n : Z) :
  0 <= off -> 0 <= n -> off + n <= len b -> peek b off n = Done (slice b off n).
Proof.
  intros Ho Hn Hb. unfold peek.
  replace (0 <=? off) with true by (symmetry; apply Z.leb_le; lia).
  replace (0 <=? n) with true by (symmetry; apply Z.leb_le; lia).
  replace (off + n <=? len b) with true by (symmetry; apply Z.leb_le; lia).
  reflexivity.
Qed.

(** What [poke] leaves in the buffer. *)
Lemma poke_spec (buf : bytes) (off : Z) (src : bytes) :
  0 <= off -> off + len src <= len buf ->
  exists buf',
    poke buf off src = Done buf'
    /\ len buf' = len buf
    /\ (forall i, off <= i < off + len src -> byte_at buf' i = byte_at src (i - off))
    /\ (forall i, 0 <= i < off \/ off + len src <= i -> byte_at buf' i = byte_at buf i).
Proof.
  intros Ho Hb. pose proof (len_nonneg src) as Hs.
  unfold poke.
  replace (0 <=? off) with true by (symmetry; apply Z.leb_le; lia).
  replace (off + len src <=? len buf) with true by (symmetry; apply Z.leb_le; lia).
  eexists. split; [reflexivity|]. split; [|split].
  - rewrite !len_app, len_firstn, len_skipn by lia. lia.
  - intros i Hi. unfold byte_at.
    rewrite app_nth2; rewrite length_firstn; [|unfold len in *; lia].
    rewrite app_nth1 by (unfold len in *; lia).
    f_equal. unfold len in *. lia.
  - intros i [Hi|Hi]; unfold byte_at.
    + rewrite app_nth1 by (rewrite length_firstn; unfold len in *; lia).
      rewrite nth_firstn.
      replace (Z.to_nat i <? Z.to_nat off)%nat with true
        by (symmetry; apply Nat.ltb_lt; lia).
      reflexivity.
    + rewrite app_nth2 by (rewrite length_firstn; unfold len in *; lia).
      rewrite app_nth2 by (rewrite length_firstn; unfold len in *; lia).
      rewrite nth_skipn. f_equal. rewrite length_firstn. unfold len in *. lia.
Qed.

(** What [memcpy] leaves in the destination. *)
Lemma memcpy_spec (dst : bytes) (d : Z) (src : bytes) (s n : Z) :
  0 <= d -> 0 <= s -> 0 <= n -> s + n <= len src -> d + n <= len dst ->
  exists dst',
    memcpy dst d src s n = Done dst'
    /\ len dst' = len dst
    /\ (forall j, 0 <= j < n -> byte_at dst' (d + j) = byte_at src (s + j))
    /\ (forall i, 0 <= i < d \/ d + n <= i -> byte_at dst' i = byte_at dst i).
Proof.
  intros Hd Hs Hn Hsrc Hdst. unfold memcpy.
  rewrite peek_Done by lia. cbn [bind].
  pose proof (len_slice src s n Hs Hn Hsrc) as Hl.
  destruct (poke_spec dst d (slice src s n) Hd) as (dst' & E & L & Hin & Hout);
    [lia|].
  exists dst'. split; [exact E|]. split; [exact L|]. split.
  - intros j Hj. rewrite Hin by lia.
    replace (d + j - d) with j by lia. apply byte_at_slice; lia.
  - intros i Hi. apply Hout. lia.
Qed.

(** Two buffers of the same length that agree byte by byte are equal. *)
Lemma bytes_ext (a b : bytes) :
  len a = len b -> (forall i, 0 <= i < len a -> byte_at a i = byte_at b i) -> a = b.
Proof.
  intros Hl H. apply (nth_ext a b 0 0).
  - unfold len in Hl. lia.
  - intros n Hn. specialize (H (Z.of_nat n)). unfold byte_at in H.
    rewrite Nat2Z.id in H. apply H. unfold len. lia.
Qed.

(** ** Loops *)

(** A loop whose body keeps an invariant runs to completion and
    establishes it at the final index. *)
Lemma loop_invariant {S : Type} (P : Z -> S -> Prop) (body : Z -> S -> outcome S) :
  forall (n : nat) (i0 : Z) (s0 : S),
    P i0 s0 ->
    (forall i s, i0 <= i < i0 + Z.of_nat n -> P i s ->
                 exists s', body i s = Done s' /\ P (i + 1) s') ->
    exists s', loop n i0 body s0 = Done s' /\ P (i0 + Z.of_nat n) s'.
Proof.
  induction n as [|n IH]; intros i0 s0 H0 Hstep.
  - exists s0. split; [reflexivity|]. replace (i0 + Z.of_nat 0) with i0 by lia. exact H0.
  - destruct (Hstep i0 s0) as (s1 & E1 & H1); [lia|exact H0|].
    destruct (IH (i0 + 1) s1 H1) as (s' & E' & H').
    + intros i s Hi Hp. apply Hstep; [lia|exact Hp].
    + exists s'. split.
      * cbn [loop]. rewrite E1. cbn [bind]. exact E'.
      * replace (i0 + Z.of_nat (Datatypes.S n)) with (i0 + 1 + Z.of_nat n) by lia.
        exact H'.
Qed.

Lemma for_upto_invariant {S : Type} (P : Z -> S -> Prop)
    (body : Z -> S -> outcome S) (count : Z) (s0 : S) :
  0 <= count ->
  P 0 s0 ->
  (forall i s, 0 <= i < count -> P i s ->
               exists s', body i s = Done s' /\ P (i + 1) s') ->
  exists s', for_upto count body s0 = Done s' /\ P count s'.
Proof.
  intros Hc H0 Hstep. unfold for_upto.
  destruct (loop_invariant P body (Z.to_nat count) 0 s0 H0) as (s' & E & H').
  - intros i s Hi. apply Hstep. lia.
  - exists s'. split; [exact E|]. replace count with (0 + Z.of_nat (Z.to_nat count)) by lia.
    exact H'.
Qed.

(** ** Offsets without wrap-around *)

Lemma u32_small (x : Z) : 0 <= x < 4294967296 -> u32 x = x.
Proof. intros H. unfold u32. apply Z.mod_small. exact H. Qed.

Lemma upto_nil (n : Z) : n <= 0 -> upto n = [].
Proof. intros H. unfold upto. replace (Z.to_nat n) with 0%nat by lia. reflexivity. Qed.

Lemma upto_succ (n : Z) : 0 <= n -> upto (n + 1) = upto n ++ [n].
Proof.
  intros H. unfold upto.
  replace (Z.to_nat (n + 1)) with (Datatypes.S (Z.to_nat n)) by lia.
  rewrite seq_S, map_app. simpl. rewrite Z2Nat.id by lia. reflexivity.
Qed.

Lemma in_upto (n k : Z) : In k (upto n) <-> 0 <= k < n.
Proof.
  unfold upto. rewrite in_map_iff. split.
  - intros (x & <- & Hx). apply in_seq in Hx. lia.
  - intros H. exists (Z.to_nat k). split; [lia|]. apply in_seq. lia.
Qed.

Lemma sumUpto_0 (g : Z -> Z) (n : Z) : n <= 0 -> sumUpto g n = 0.
Proof. intros H. unfold sumUpto. rewrite upto_nil by exact H. reflexivity. Qed.

Lemma sumUpto_succ (g : Z -> Z) (n : Z) :
  0 <= n -> sumUpto g (n + 1) = sumUpto g n + g n.
Proof.
  intros H. unfold sumUpto. rewrite upto_succ by exact H.
  rewrite fold_left_app. reflexivity.
Qed.

Lemma sumUpto_nonneg (g : Z -> Z) (n : Z) :
  (forall k, 0 <= k < n -> 0 <= g k) -> 0 <= sumUpto g n.
Proof.
  destruct (Z_le_gt_dec n 0) as [Hn|Hn]; [rewrite sumUpto_0 by lia; lia|].
  intros Hg. revert Hg. pattern n. apply natlike_ind; [| |lia].
  - intros _. rewrite sumUpto_0 by lia. lia.
  - intros x Hx IH Hg. replace (Z.succ x) with (x + 1) in * by lia.
    rewrite sumUpto_succ by lia.
    assert (0 <= sumUpto g x) by (apply IH; intros; apply Hg; lia).
    assert (0 <= g x) by (apply Hg; lia). lia.
Qed.

Lemma sumUpto_mono (g : Z -> Z) (m n : Z) :
  (forall k, 0 <= k < n -> 0 <= g k) -> 0 <= m <= n -> sumUpto g m <= sumUpto g n.
Proof.
  intros Hg [Hm Hmn]. assert (Hn : 0 <= n) by lia. revert Hg Hmn. pattern n.
  apply natlike_ind; [| |exact Hn].
  - intros. replace m with 0 by lia. lia.
  - intros x Hx IH Hg Hmn. replace (Z.succ x) with (x + 1) in * by lia.
    destruct (Z.eq_dec m (x + 1)) as [->|Hne]; [lia|].
    rewrite sumUpto_succ by lia.
    assert (sumUpto g m <= sumUpto g x) by (apply IH; [intros; apply Hg|]; lia).
    assert (0 <= g x) by (apply Hg; lia). lia.
Qed.

Lemma sumUpto_ext (g g' : Z -> Z) (n : Z) :
  (forall k, 0 <= k < n -> g k = g' k) -> sumUpto g n = sumUpto g' n.
Proof.
  destruct (Z_le_gt_dec n 0) as [Hn|Hn]; [intros; rewrite !sumUpto_0 by lia; lia|].
  pattern n. apply natlike_ind; [| |lia].
  - intros _. rewrite !sumUpto_0 by lia. lia.
  - intros x Hx IH Hg. replace (Z.succ x) with (x + 1) in * by lia.
    rewrite !sumUpto_succ by lia. rewrite IH by (intros; apply Hg; lia).
    rewrite Hg by lia. reflexivity.
Qed.

(** Every level below a running sum's bound is found by its prefix. *)
Lemma sumUpto_locate (g : Z -> Z) (n r : Z) :
  (forall k, 0 <= k < n -> 0 <= g k) ->
  0 <= r < sumUpto g n ->
  exists m, 0 <= m < n /\ sumUpto g m <= r < sumUpto g (m + 1).
Proof.
  destruct (Z_le_gt_dec n 0) as [Hn|Hn];
    [intros _ H; rewrite sumUpto_0 in H by lia; lia|].
  pattern n. apply natlike_ind; [| |lia].
  - intros _ H. rewrite sumUpto_0 in H by lia. lia.
  - intros x Hx IH Hg Hr. replace (Z.succ x) with (x + 1) in * by lia.
    rewrite sumUpto_succ in Hr by lia.
    destruct (Z_lt_ge_dec r (sumUpto g x)) as [Hlt|Hge].
    + destruct IH as (m & Hm & Hs); [intros; apply Hg; lia|lia|].
      exists m. split; [lia|exact Hs].
    + exists x. split; [lia|]. rewrite sumUpto_succ by lia. lia.
Qed.

(** A running [uint32_t] sum that stays below [2^32] is the plain sum. *)
Lemma wrapped_sum (gc g : Z -> Z) (n a : Z) :
  (forall k, 0 <= k < n -> gc k = g k /\ 0 <= g k) ->
  0 <= a -> a + sumUpto g n < 4294967296 ->
  fold_left (fun acc k => u32 (acc + gc k)) (upto n) a = a + sumUpto g n.
Proof.
  destruct (Z_le_gt_dec n 0) as [Hn|Hn].
  { intros. rewrite upto_nil, sumUpto_0 by lia. simpl. lia. }
  pattern n. apply natlike_ind; [| |lia].
  - intros. rewrite upto_nil, sumUpto_0 by lia. simpl. lia.
  - intros x Hx IH Hg Ha Hb. replace (Z.succ x) with (x + 1) in * by lia.
    rewrite sumUpto_succ in * by lia.
    destruct (Hg x) as [Eg Pg]; [lia|].
    assert (0 <= sumUpto g x) by (apply sumUpto_nonneg; intros; apply Hg; lia).
    rewrite upto_succ, fold_left_app by lia. simpl.
    rewrite IH; [|intros; apply Hg; lia|lia|lia].
    rewrite Eg. rewrite u32_small by lia. lia.
Qed.

Section ImageLayout.

Variable img : Image.

Lemma specMipChainBytes_sum (n : Z) :
  specMipChainBytes img n = sumUpto (levelBytes img) n.
Proof. reflexivity. Qed.

Lemma mipDim_pos (size m : Z) : 1 <= mipDim size m.
Proof. unfold mipDim, max. destruct (1 >? Z.shiftr size m) eqn:E; lia. Qed.

Lemma bpp_nonneg (f : TextureFormat.Enum) : 0 <= bpp f.
Proof. destruct f; cbv; discriminate. Qed.

Lemma levelBytes_nonneg (m : Z) : 0 <= levelBytes img m.
Proof.
  unfold levelBytes. pose proof (mipDim_pos (m_width img) m).
  pose proof (mipDim_pos (m_height img) m). pose proof (bpp_nonneg (m_format img)).
  apply Z.mul_nonneg_nonneg; [apply Z.mul_nonneg_nonneg|]; lia.
Qed.

Lemma mipBytes_level (m : Z) :
  levelBytes img m < 4294967296 ->
  mipBytes (m_width img) (m_height img) (bpp (m_format img)) m = levelBytes img m.
Proof.
  intros H. unfold mipBytes, u32.
  rewrite Z.mul_mod_idemp_l by lia.
  apply Z.mod_small. fold (levelBytes img m). pose proof (levelBytes_nonneg m). lia.
Qed.

Lemma chainBytes_nonneg : 0 <= chainBytes img.
Proof. apply sumUpto_nonneg. intros. apply levelBytes_nonneg. Qed.

Lemma prefix_le_chain (n : Z) :
  n <= m_numMips img -> sumUpto (levelBytes img) n <= chainBytes img.
Proof.
  intros Hn. destruct (Z_le_gt_dec n 0) as [H0|H0].
  - rewrite sumUpto_0 by exact H0. apply chainBytes_nonneg.
  - apply sumUpto_mono; [intros; apply levelBytes_nonneg|lia].
Qed.

Lemma prefix_nonneg (n : Z) : 0 <= sumUpto (levelBytes img) n.
Proof. apply sumUpto_nonneg. intros. apply levelBytes_nonneg. Qed.

Lemma level_inside_chain (m : Z) :
  0 <= m < m_numMips img ->
  sumUpto (levelBytes img) m + levelBytes img m <= chainBytes img.
Proof.
  intros Hm. rewrite <- sumUpto_succ by lia. apply prefix_le_chain. lia.
Qed.

Lemma level_le_chain (m : Z) :
  0 <= m < m_numMips img -> levelBytes img m <= chainBytes img.
Proof.
  intros Hm. pose proof (level_inside_chain m Hm). pose proof (prefix_nonneg m). lia.
Qed.

(** The inner loop of the offset tables, started at [a]. *)
Lemma mip_fold (a n : Z) :
  n <= m_numMips img -> 0 <= a -> a + chainBytes img < 4294967296 ->
  fold_left
    (fun offset mip =>
       u32 (offset + mipBytes (m_width img) (m_height img) (bpp (m_format img)) mip))
    (upto n) a
  = a + sumUpto (levelBytes img) n.
Proof.
  intros Hn Ha Hb. pose proof chainBytes_nonneg as Hc.
  pose proof (prefix_le_chain n Hn) as Hle.
  apply wrapped_sum; [|lia|lia].
  intros k Hk. split; [|apply levelBytes_nonneg].
  apply mipBytes_level. pose proof (level_le_chain k). lia.
Qed.

Lemma mipOffsetAfter_faces (faces : Z) :
  0 <= faces -> faces * chainBytes img < 4294967296 ->
  mipOffsetAfter img faces = faces * chainBytes img.
Proof.
  intros Hf. pose proof chainBytes_nonneg as Hc. unfold mipOffsetAfter.
  pattern faces. apply natlike_ind; [| |exact Hf].
  - intros _. reflexivity.
  - intros x Hx IH Hb. replace (Z.succ x) with (x + 1) in * by lia.
    rewrite upto_succ, fold_left_app by lia. simpl.
    rewrite IH by nia. rewrite mip_fold by nia. fold (chainBytes img). lia.
Qed.

Lemma imageGetMipOffsets_eq (face mip : Z) :
  0 <= face -> mip <= m_numMips img ->
  (face + 1) * chainBytes img < 4294967296 ->
  imageGetMipOffsets img face mip
  = face * chainBytes img + sumUpto (levelBytes img) mip.
Proof.
  intros Hf Hm Hb. pose proof chainBytes_nonneg as Hc. unfold imageGetMipOffsets.
  rewrite mipOffsetAfter_faces by nia. apply mip_fold; nia.
Qed.

Lemma mipOffsets_eq (n : Z) :
  n <= m_numMips img -> chainBytes img < 4294967296 ->
  mipOffsets (m_width img) (m_height img) (bpp (m_format img)) n
  = sumUpto (levelBytes img) n.
Proof.
  intros Hn Hb. unfold mipOffsets.
  rewrite (mip_fold 0 n) by (pose proof chainBytes_nonneg; lia). lia.
Qed.

End ImageLayout.

(** ** Nests of loops that fill a buffer *)

Section FillNest.

Variables n1 n2 : Z.
Variable n3 : Z -> Z.
Variable gen : Z -> Z -> Z -> outcome bytes.
Variable blk : Z -> Z -> Z -> bytes.
Variable D : Z -> Z -> Z -> Z.
Variable L : Z.

Hypothesis gen_defined :
  forall f m y, validCell n1 n2 n3 f m y -> gen f m y = Done (blk f m y).
Hypothesis cell_inside :
  forall f m y, validCell n1 n2 n3 f m y ->
                0 <= D f m y /\ D f m y + len (blk f m y) <= L.
Hypothesis cell_disjoint :
  forall f m y f' m' y',
    validCell n1 n2 n3 f m y -> validCell n1 n2 n3 f' m' y' ->
    (f, m, y) <> (f', m', y') ->
    D f m y + len (blk f m y) <= D f' m' y'
    \/ D f' m' y' + len (blk f' m' y') <= D f m y.

Lemma fill_cell (f m y : Z) (dst : bytes) :
  validCell n1 n2 n3 f m y -> filled n1 n2 n3 blk D L f m y dst ->
  exists dst',
    (b <- gen f m y ;; poke dst (D f m y) b) = Done dst'
    /\ filled n1 n2 n3 blk D L f m (y + 1) dst'.
Proof using All.
  intros Hv [Hl Hc]. rewrite (gen_defined f m y Hv). cbn [bind].
  destruct (cell_inside f m y Hv) as [Hd0 Hd1].
  destruct (poke_spec dst (D f m y) (blk f m y) Hd0) as (dst' & E & Hl' & Hin & Hout);
    [lia|].
  exists dst'. split; [exact E|]. split; [lia|].
  intros f' m' y' Hv' Hb j Hj.
  assert (Hold : (f, m, y) <> (f', m', y') ->
                 byte_at dst' (D f' m' y' + j) = byte_at (blk f' m' y') j).
  { intros Hne. destruct (cell_inside f' m' y' Hv') as [Hd0' Hd1'].
    rewrite Hout.
    - apply Hc; [exact Hv'| |exact Hj].
      unfold cellBefore in *.
      destruct (Z.eq_dec f' f) as [->|Nf]; [|lia].
      destruct (Z.eq_dec m' m) as [->|Nm]; [|lia].
      destruct (Z.eq_dec y' y) as [->|Ny]; [congruence|lia].
    - destruct (cell_disjoint f m y f' m' y' Hv Hv' Hne); lia. }
  destruct (Z.eq_dec f' f) as [Ef|Nf]; [|apply Hold; congruence].
  destruct (Z.eq_dec m' m) as [Em|Nm]; [|apply Hold; congruence].
  destruct (Z.eq_dec y' y) as [Ey|Ny]; [|apply Hold; congruence].
  subst. rewrite Hin by lia. f_equal. lia.
Qed.

Hypothesis n1_nonneg : 0 <= n1.
Hypothesis n2_nonneg : 0 <= n2.
Hypothesis n3_nonneg : forall m, 0 <= m < n2 -> 0 <= n3 m.

Lemma fill_row (f m : Z) (dst : bytes) :
  0 <= f < n1 -> 0 <= m < n2 -> filled n1 n2 n3 blk D L f m 0 dst ->
  exists dst',
    for_upto (n3 m) (fun y dst => b <- gen f m y ;; poke dst (D f m y) b) dst
    = Done dst'
    /\ filled n1 n2 n3 blk D L f (m + 1) 0 dst'.
Proof using All.
  intros Hf Hm H0.
  destruct (for_upto_invariant (fun y dst => filled n1 n2 n3 blk D L f m y dst)
              (fun y dst => b <- gen f m y ;; poke dst (D f m y) b)
              (n3 m) dst (n3_nonneg m Hm) H0) as (dst' & E & H').
  - intros y s Hy Hs. apply fill_cell; [|exact Hs]. unfold validCell. lia.
  - exists dst'. split; [exact E|]. destruct H' as [Hl Hc]. split; [exact Hl|].
    intros f' m' y' Hv' Hb. apply Hc; [exact Hv'|].
    unfold cellBefore, validCell in *.
    destruct (Z.eq_dec m' m) as [->|Nm]; lia.
Qed.

Lemma fill_face (f : Z) (dst : bytes) :
  0 <= f < n1 -> filled n1 n2 n3 blk D L f 0 0 dst ->
  exists dst',
    for_upto n2
      (fun m dst =>
         for_upto (n3 m) (fun y dst => b <- gen f m y ;; poke dst (D f m y) b) dst)
      dst = Done dst'
    /\ filled n1 n2 n3 blk D L (f + 1) 0 0 dst'.
Proof using All.
  intros Hf H0.
  destruct (for_upto_invariant (fun m dst => filled n1 n2 n3 blk D L f m 0 dst)
              (fun m dst =>
                 for_upto (n3 m)
                   (fun y dst => b <- gen f m y ;; poke dst (D f m y) b) dst)
              n2 dst n2_nonneg H0) as (dst' & E & H').
  - intros m s Hm Hs. apply fill_row; auto.
  - exists dst'. split; [exact E|]. destruct H' as [Hl Hc]. split; [exact Hl|].
    intros f' m' y' Hv' Hb. apply Hc; [exact Hv'|].
    unfold cellBefore, validCell in *. lia.
Qed.

(** The nest runs to completion, and every cell of the destination then
    holds its block. *)
Lemma fillNest_spec (dst0 : bytes) :
  len dst0 = L ->
  exists dst',
    fillNest n1 n2 n3 gen D dst0 = Done dst'
    /\ len dst' = L
    /\ forall f m y,
         validCell n1 n2 n3 f m y ->
         forall j, 0 <= j < len (blk f m y) ->
                   byte_at dst' (D f m y + j) = byte_at (blk f m y) j.
Proof using All.
  intros Hl. unfold fillNest.
  destruct (for_upto_invariant (fun f dst => filled n1 n2 n3 blk D L f 0 0 dst)
              (fun f dst =>
                 for_upto n2
                   (fun m dst =>
                      for_upto (n3 m)
                        (fun y dst => b <- gen f m y ;; poke dst (D f m y) b) dst)
                   dst)
              n1 dst0 n1_nonneg) as (dst' & E & [Hl' Hc]).
  - split; [exact Hl|]. intros f' m' y' Hv' Hb.
    unfold cellBefore, validCell in *. lia.
  - intros f s Hf Hs. apply fill_face; auto.
  - exists dst'. split; [exact E|]. split; [exact Hl'|].
    intros f m y Hv. apply Hc; [exact Hv|]. unfold cellBefore, validCell in *. lia.
Qed.

End FillNest.

(** The nest of row copies of the strip and cube remaps. *)
Lemma copyNest_spec (src : bytes) (mips : Z) (rows pitch : Z -> Z)
    (D S : Z -> Z -> Z -> Z) (L : Z) :
  (forall m, 0 <= m < mips -> 0 <= pitch m) ->
  (forall f m y, validRow mips rows f m y ->
                 0 <= S f m y /\ S f m y + pitch m <= len src) ->
  (forall f m y, validRow mips rows f m y ->
                 0 <= D f m y /\ D f m y + pitch m <= L) ->
  (forall f m y f' m' y',
      validRow mips rows f m y -> validRow mips rows f' m' y' ->
      (f, m, y) <> (f', m', y') ->
      D f m y + pitch m <= D f' m' y' \/ D f' m' y' + pitch m' <= D f m y) ->
  0 <= mips ->
  (forall m, 0 <= m < mips -> 0 <= rows m) ->
  forall dst0 : bytes,
    len dst0 = L ->
    exists dst',
      copyNest src mips rows pitch D S dst0 = Done dst'
      /\ len dst' = L
      /\ forall f m y,
           validRow mips rows f m y ->
           forall j, 0 <= j < pitch m ->
                     byte_at dst' (D f m y + j) = byte_at src (S f m y + j).
Proof.
  intros Hp Hs Hd Hdis Hm Hr dst0 Hl.
  assert (Hlen : forall f m y, validRow mips rows f m y ->
                               len (slice src (S f m y) (pitch m)) = pitch m).
  { intros f m y Hv. destruct (Hs f m y Hv). apply len_slice; [lia| |lia].
    apply Hp, Hv. }
  destruct (fillNest_spec 6 mips rows
              (fun f m y => peek src (S f m y) (pitch m))
              (fun f m y => slice src (S f m y) (pitch m)) D L)
    with (dst0 := dst0) as (dst' & E & Hl' & Hc).
  - intros f m y Hv. destruct (Hs f m y Hv). apply peek_Done; [lia| |lia].
    apply Hp, Hv.
  - intros f m y Hv. rewrite (Hlen f m y Hv). apply Hd, Hv.
  - intros f m y f' m' y' Hv Hv' Hne.
    rewrite (Hlen f m y Hv), (Hlen f' m' y' Hv'). apply Hdis; assumption.
  - lia.
  - exact Hm.
  - exact Hr.
  - exact Hl.
  - exists dst'. split; [exact E|]. split; [exact Hl'|].
    intros f m y Hv j Hj. destruct (Hs f m y Hv).
    rewrite (Hc f m y Hv j) by (rewrite (Hlen f m y Hv); exact Hj).
    apply byte_at_slice; lia.
Qed.

(** ** The strip and cube layouts *)

Lemma len_malloc (junk : Z -> Z) (n : Z) : 0 <= n -> len (malloc junk n) = n.
Proof.
  intros H. unfold len, malloc, upto. rewrite !length_map, length_seq. lia.
Qed.

Lemma loop_ext {S : Type} (f g : Z -> S -> outcome S) :
  forall (n : nat) (i0 : Z) (s : S),
    (forall i s, i0 <= i < i0 + Z.of_nat n -> f i s = g i s) ->
    loop n i0 f s = loop n i0 g s.
Proof.
  induction n as [|n IH]; intros i0 s H; [reflexivity|].
  cbn [loop]. rewrite H by lia. destruct (g i0 s) as [s'|e]; [|reflexivity].
  cbn [bind]. apply IH. intros. apply H. lia.
Qed.

Lemma for_upto_ext {S : Type} (f g : Z -> S -> outcome S) (count : Z) (s : S) :
  (forall i s, 0 <= i < count -> f i s = g i s) ->
  for_upto count f s = for_upto count g s.
Proof. intros H. apply loop_ext. intros. apply H. lia. Qed.

Lemma copyNest_ext (src : bytes) (mips : Z) (rows pitch pitch' : Z -> Z)
    (D D' S S' : Z -> Z -> Z -> Z) (dst0 : bytes) :
  (forall f m y, validRow mips rows f m y ->
                 pitch m = pitch' m /\ D f m y = D' f m y /\ S f m y = S' f m y) ->
  copyNest src mips rows pitch D S dst0 = copyNest src mips rows pitch' D' S' dst0.
Proof.
  intros H. unfold copyNest.
  apply for_upto_ext. intros f s Hf.
  apply for_upto_ext. intros m s' Hm.
  apply for_upto_ext. intros y s'' Hy.
  destruct (H f m y) as (-> & -> & ->); [unfold validRow; lia|reflexivity].
Qed.

Lemma imageHStripFromCubemap_nest (junk : Z -> Z) (dst src : Image) :
  imageIsCubemap src = true ->
  imageHStripFromCubemap junk dst src
  = (let b := bpp (m_format src) in
     let offs := mipOffsets (u32 (m_width src * 6)) (m_width src) b in
     data <- copyNest (m_data src) (m_numMips src) (mipDim (m_width src))
               (fun m => u32 (mipDim (m_width src) m * b))
               (fun f m y =>
                  offs m + u32 (u32 (mipDim (m_width src) m * b) * f)
                  + u32 (y * u32 (u32 (mipDim (m_width src) m * b) * 6)))
               (fun f m y =>
                  imageGetMipOffsets src f m
                  + u32 (y * u32 (mipDim (m_width src) m * b)))
               (malloc junk (offs (m_numMips src))) ;;
     Done (true,
           Build_Image data (u32 (m_width src * 6)) (m_width src)
                       (offs (m_numMips src)) (m_format src) (m_numMips src) 1)).
Proof. intros H. unfold imageHStripFromCubemap. rewrite H. reflexivity. Qed.

Lemma imageCubemapFromHStrip_nest (junk : Z -> Z) (dst src : Image) :
  imageIsHStrip src = true ->
  imageCubemapFromHStrip junk dst src
  = (let b := bpp (m_format src) in
     let size := m_height src in
     let shape := Build_Image [] size size 0 (m_format src) (m_numMips src) 6 in
     data <- copyNest (m_data src) (m_numMips src) (mipDim size)
               (fun m => u32 (mipDim size m * b))
               (fun f m y =>
                  imageGetMipOffsets shape f m + u32 (y * u32 (mipDim size m * b)))
               (fun f m y =>
                  imageGetMipOffsets src 0 m + u32 (u32 (mipDim size m * b) * f)
                  + u32 (y * u32 (u32 (mipDim size m * b) * 6)))
               (malloc junk (mipOffsetAfter shape 6)) ;;
     Done (true,
           Build_Image data size size (mipOffsetAfter shape 6) (m_format src)
                       (m_numMips src) 6)).
Proof. intros H. unfold imageCubemapFromHStrip. rewrite H. reflexivity. Qed.

Section StripLayout.

Variable c : Image.

Hypothesis square : m_height c = m_width c.
Hypothesis width_nonneg : 0 <= m_width c.
Hypothesis levels_nonneg : 0 <= m_numMips c.
Hypothesis chain_inside : 2 ^ (m_numMips c - 1) <= m_width c.

Lemma level_cube (m : Z) : levelBytes c m = mipDim (m_width c) m * rowPitch c m.
Proof using All. unfold levelBytes, rowPitch. rewrite square. ring. Qed.

Lemma level_strip (m : Z) :
  levelBytes (stripShape c) m = mipDim (6 * m_width c) m * rowPitch c m.
Proof using All. unfold levelBytes, rowPitch, stripShape. simpl. ring. Qed.

Lemma rowPitch_nonneg (m : Z) : 0 <= rowPitch c m.
Proof using All.
  unfold rowPitch. pose proof (mipDim_pos (m_width c) m).
  pose proof (bpp_nonneg (m_format c)). apply Z.mul_nonneg_nonneg; lia.
Qed.

Lemma six_rows (m : Z) :
  0 <= m < m_numMips c -> 6 * mipDim (m_width c) m <= mipDim (6 * m_width c) m.
Proof using All.
  intros Hm. unfold mipDim. rewrite !Z.shiftr_div_pow2 by lia.
  assert (H2 : 0 < 2 ^ m) by (apply Z.pow_pos_nonneg; lia).
  assert (Hle : 2 ^ m <= 2 ^ (m_numMips c - 1)) by (apply Z.pow_le_mono_r; lia).
  assert (H1 : 1 <= m_width c / 2 ^ m) by (apply Z.div_le_lower_bound; lia).
  assert (H6 : 6 * (m_width c / 2 ^ m) <= (6 * m_width c) / 2 ^ m).
  { apply Z.div_le_lower_bound; [lia|].
    pose proof (Z.mul_div_le (m_width c) (2 ^ m) H2). lia. }
  unfold max.
  destruct (1 >? m_width c / 2 ^ m) eqn:E1;
    destruct (1 >? 6 * m_width c / 2 ^ m) eqn:E2; lia.
Qed.

Lemma six_row_pitches (m : Z) :
  0 <= m < m_numMips c ->
  6 * mipDim (m_width c) m * rowPitch c m <= levelBytes (stripShape c) m.
Proof using All.
  intros Hm. rewrite level_strip. apply Z.mul_le_mono_nonneg_r.
  - apply rowPitch_nonneg.
  - apply six_rows. exact Hm.
Qed.

Lemma six_levels (m : Z) :
  0 <= m < m_numMips c -> 6 * levelBytes c m <= levelBytes (stripShape c) m.
Proof using All.
  intros Hm. pose proof (six_row_pitches m Hm) as H. rewrite level_cube.
  pose proof (mipDim_pos (m_width c) m) as Hs. pose proof (rowPitch_nonneg m) as Hp.
  assert (mipDim (m_width c) m * rowPitch c m
          <= mipDim (m_width c) m * (mipDim (m_width c) m * rowPitch c m)) by nia.
  lia.
Qed.

Lemma six_prefix (n : Z) :
  0 <= n <= m_numMips c ->
  6 * sumUpto (levelBytes c) n <= sumUpto (levelBytes (stripShape c)) n.
Proof using All.
  intros [Hn Hle]. revert Hle. pattern n. apply natlike_ind; [| |exact Hn].
  - intros _. rewrite !sumUpto_0 by lia. lia.
  - intros x Hx IH Hle. replace (Z.succ x) with (x + 1) in * by lia.
    rewrite !sumUpto_succ by lia. pose proof (six_levels x). lia.
Qed.

Lemma six_chains : 6 * chainBytes c <= chainBytes (stripShape c).
Proof using All. apply six_prefix. lia. Qed.

Lemma strip_level_inside (m : Z) :
  0 <= m < m_numMips c ->
  sumUpto (levelBytes (stripShape c)) m + levelBytes (stripShape c) m
  <= chainBytes (stripShape c).
Proof using All. intros Hm. apply (level_inside_chain (stripShape c)). exact Hm. Qed.

Lemma stripRow_inside (f m y : Z) :
  validRow (m_numMips c) (mipDim (m_width c)) f m y ->
  sumUpto (levelBytes (stripShape c)) m <= stripRow c f m y
  /\ stripRow c f m y + rowPitch c m
     <= sumUpto (levelBytes (stripShape c)) (m + 1).
Proof using All.
  intros (Hf & Hm & Hy). unfold stripRow.
  pose proof (rowPitch_nonneg m) as Hp. pose proof (six_row_pitches m Hm) as H6.
  rewrite sumUpto_succ by lia.
  assert (0 <= (6 * y + f) * rowPitch c m) by (apply Z.mul_nonneg_nonneg; lia).
  assert ((6 * y + f + 1) * rowPitch c m <= 6 * mipDim (m_width c) m * rowPitch c m)
    by (apply Z.mul_le_mono_nonneg_r; lia).
  lia.
Qed.

Lemma stripRow_disjoint (f m y f' m' y' : Z) :
  validRow (m_numMips c) (mipDim (m_width c)) f m y ->
  validRow (m_numMips c) (mipDim (m_width c)) f' m' y' ->
  (f, m, y) <> (f', m', y') ->
  stripRow c f m y + rowPitch c m <= stripRow c f' m' y'
  \/ stripRow c f' m' y' + rowPitch c m' <= stripRow c f m y.
Proof using All.
  intros Hv Hv' Hne.
  pose proof (stripRow_inside f m y Hv) as [Ha Hb].
  pose proof (stripRow_inside f' m' y' Hv') as [Ha' Hb'].
  destruct Hv as (Hf & Hm & Hy). destruct Hv' as (Hf' & Hm' & Hy').
  assert (Hg : forall k, 0 <= k < m_numMips c -> 0 <= levelBytes (stripShape c) k)
    by (intros; apply levelBytes_nonneg).
  destruct (Z.lt_trichotomy m m') as [Hlt|[Heq|Hgt]].
  - left. pose proof (sumUpto_mono (levelBytes (stripShape c)) (m + 1) m'). 
    assert (sumUpto (levelBytes (stripShape c)) (m + 1)
            <= sumUpto (levelBytes (stripShape c)) m')
      by (apply sumUpto_mono; [intros; apply levelBytes_nonneg|lia]).
    lia.
  - subst m'. unfold stripRow. pose proof (rowPitch_nonneg m) as Hp.
    assert (Hk : 6 * y + f <> 6 * y' + f').
    { intros E. apply Hne. assert (y = y') by lia. assert (f = f') by lia.
      congruence. }
    destruct (Z_lt_ge_dec (6 * y + f) (6 * y' + f')) as [Hl|Hg'].
    + left.
      assert ((6 * y + f + 1) * rowPitch c m <= (6 * y' + f') * rowPitch c m)
        by (apply Z.mul_le_mono_nonneg_r; lia).
      lia.
    + right.
      assert ((6 * y' + f' + 1) * rowPitch c m <= (6 * y + f) * rowPitch c m)
        by (apply Z.mul_le_mono_nonneg_r; lia).
      lia.
  - right.
    assert (sumUpto (levelBytes (stripShape c)) (m' + 1)
            <= sumUpto (levelBytes (stripShape c)) m)
      by (apply sumUpto_mono; [intros; apply levelBytes_nonneg|lia]).
    lia.
Qed.

Lemma cubeRow_inside (f m y : Z) :
  validRow (m_numMips c) (mipDim (m_width c)) f m y ->
  f * chainBytes c + sumUpto (levelBytes c) m <= cubeRow c f m y
  /\ cubeRow c f m y + rowPitch c m
     <= f * chainBytes c + sumUpto (levelBytes c) (m + 1).
Proof using All.
  intros (Hf & Hm & Hy). unfold cubeRow.
  pose proof (rowPitch_nonneg m) as Hp.
  rewrite sumUpto_succ by lia. rewrite level_cube.
  assert (0 <= y * rowPitch c m) by (apply Z.mul_nonneg_nonneg; lia).
  assert ((y + 1) * rowPitch c m <= mipDim (m_width c) m * rowPitch c m)
    by (apply Z.mul_le_mono_nonneg_r; lia).
  lia.
Qed.

Lemma cube_face_bounds (f m : Z) :
  0 <= f < 6 -> 0 <= m <= m_numMips c ->
  f * chainBytes c <= f * chainBytes c + sumUpto (levelBytes c) m
  /\ f * chainBytes c + sumUpto (levelBytes c) m <= (f + 1) * chainBytes c.
Proof using All.
  intros Hf Hm. pose proof (prefix_nonneg c m).
  pose proof (prefix_le_chain c m (proj2 Hm)). lia.
Qed.

Lemma cubeRow_disjoint (f m y f' m' y' : Z) :
  validRow (m_numMips c) (mipDim (m_width c)) f m y ->
  validRow (m_numMips c) (mipDim (m_width c)) f' m' y' ->
  (f, m, y) <> (f', m', y') ->
  cubeRow c f m y + rowPitch c m <= cubeRow c f' m' y'
  \/ cubeRow c f' m' y' + rowPitch c m' <= cubeRow c f m y.
Proof using All.
  intros Hv Hv' Hne.
  pose proof (cubeRow_inside f m y Hv) as [Ha Hb].
  pose proof (cubeRow_inside f' m' y' Hv') as [Ha' Hb'].
  destruct Hv as (Hf & Hm & Hy). destruct Hv' as (Hf' & Hm' & Hy').
  pose proof (chainBytes_nonneg c) as Hc.
  pose proof (cube_face_bounds f (m + 1) Hf) as [_ H1]; [lia|].
  pose proof (cube_face_bounds f' (m' + 1) Hf') as [_ H1']; [lia|].
  pose proof (cube_face_bounds f m Hf) as [H0 _]; [lia|].
  pose proof (cube_face_bounds f' m' Hf') as [H0' _]; [lia|].
  destruct (Z.lt_trichotomy f f') as [Hlt|[Heq|Hgt]].
  - left. assert ((f + 1) * chainBytes c <= f' * chainBytes c)
      by (apply Z.mul_le_mono_nonneg_r; lia).
    lia.
  - subst f'. destruct (Z.lt_trichotomy m m') as [Hlt|[Heq|Hgt]].
    + left.
      assert (sumUpto (levelBytes c) (m + 1) <= sumUpto (levelBytes c) m')
        by (apply sumUpto_mono; [intros; apply levelBytes_nonneg|lia]).
      lia.
    + subst m'. unfold cubeRow. pose proof (rowPitch_nonneg m) as Hp.
      assert (Hk : y <> y') by congruence.
      destruct (Z_lt_ge_dec y y') as [Hl|Hg'].
      * left. assert ((y + 1) * rowPitch c m <= y' * rowPitch c m)
          by (apply Z.mul_le_mono_nonneg_r; lia).
        lia.
      * right. assert ((y' + 1) * rowPitch c m <= y * rowPitch c m)
          by (apply Z.mul_le_mono_nonneg_r; lia).
        lia.
    + right.
      assert (sumUpto (levelBytes c) (m' + 1) <= sumUpto (levelBytes c) m)
        by (apply sumUpto_mono; [intros; apply levelBytes_nonneg|lia]).
      lia.
  - right. assert ((f' + 1) * chainBytes c <= f * chainBytes c)
      by (apply Z.mul_le_mono_nonneg_r; lia).
    lia.
Qed.

(** Every byte of the cube lies in exactly one row of one mip of one face. *)
Lemma cubeRow_cover (i : Z) :
  0 <= i < 6 * chainBytes c ->
  exists f m y j,
    validRow (m_numMips c) (mipDim (m_width c)) f m y
    /\ 0 <= j < rowPitch c m /\ i = cubeRow c f m y + j.
Proof using All.
  intros Hi. assert (HC : 0 < chainBytes c) by lia.
  pose proof (Z.div_mod i (chainBytes c)) as Hdm.
  pose proof (Z.mod_pos_bound i (chainBytes c) HC) as Hr.
  assert (Hf : 0 <= i / chainBytes c < 6).
  { split; [apply Z.div_pos; lia|apply Z.div_lt_upper_bound; lia]. }
  destruct (sumUpto_locate (levelBytes c) (m_numMips c) (i mod chainBytes c))
    as (m & Hm & Hlo & Hhi).
  { intros. apply levelBytes_nonneg. }
  { exact Hr. }
  rewrite sumUpto_succ in Hhi by lia. rewrite level_cube in Hhi.
  pose proof (rowPitch_nonneg m) as Hp.
  pose proof (mipDim_pos (m_width c) m) as Hs.
  set (r := i mod chainBytes c - sumUpto (levelBytes c) m) in *.
  assert (Hr' : 0 <= r < mipDim (m_width c) m * rowPitch c m) by (unfold r; lia).
  assert (Hp' : 0 < rowPitch c m).
  { destruct (Z.eq_dec (rowPitch c m) 0) as [E|E]; [rewrite E in Hr'; lia|lia]. }
  pose proof (Z.div_mod r (rowPitch c m)) as Hdm'.
  pose proof (Z.mod_pos_bound r (rowPitch c m) Hp') as Hj.
  assert (Hy : 0 <= r / rowPitch c m < mipDim (m_width c) m).
  { split; [apply Z.div_pos; lia|apply Z.div_lt_upper_bound; lia]. }
  exists (i / chainBytes c), m, (r / rowPitch c m), (r mod rowPitch c m).
  split; [unfold validRow; lia|]. split; [exact Hj|].
  unfold cubeRow. unfold r in *. lia.
Qed.

Hypothesis strip_width : 6 * m_width c < 4294967296.
Hypothesis strip_small : chainBytes (stripShape c) < 4294967296.

Lemma rowPitch_small (m : Z) :
  0 <= m < m_numMips c -> 6 * mipDim (m_width c) m * rowPitch c m < 4294967296.
Proof using All.
  intros Hm. pose proof (six_row_pitches m Hm).
  pose proof (level_le_chain (stripShape c) m Hm). lia.
Qed.

Lemma code_pitch (m : Z) :
  0 <= m < m_numMips c ->
  u32 (mipDim (m_width c) m * bpp (m_format c)) = rowPitch c m.
Proof using All.
  intros Hm. fold (rowPitch c m). apply u32_small.
  pose proof (rowPitch_small m Hm). pose proof (rowPitch_nonneg m).
  pose proof (mipDim_pos (m_width c) m). nia.
Qed.

Lemma strip_mipOffsets (n : Z) :
  0 <= n <= m_numMips c ->
  mipOffsets (u32 (m_width c * 6)) (m_width c) (bpp (m_format c)) n
  = sumUpto (levelBytes (stripShape c)) n.
Proof using All.
  intros Hn. rewrite u32_small by lia. replace (m_width c * 6) with (6 * m_width c) by lia.
  apply (mipOffsets_eq (stripShape c)); simpl; [lia|assumption].
Qed.

Lemma code_stripRow (base f m y : Z) :
  validRow (m_numMips c) (mipDim (m_width c)) f m y ->
  base = sumUpto (levelBytes (stripShape c)) m ->
  base + u32 (u32 (mipDim (m_width c) m * bpp (m_format c)) * f)
  + u32 (y * u32 (u32 (mipDim (m_width c) m * bpp (m_format c)) * 6))
  = stripRow c f m y.
Proof using All.
  intros (Hf & Hm & Hy) ->. rewrite code_pitch by exact Hm.
  pose proof (rowPitch_small m Hm) as Hs. pose proof (rowPitch_nonneg m) as Hp.
  pose proof (mipDim_pos (m_width c) m) as H1.
  assert (Hsp : rowPitch c m <= mipDim (m_width c) m * rowPitch c m) by nia.
  assert (Hfp : 0 <= rowPitch c m * f <= 5 * rowPitch c m) by nia.
  assert (Hyp : 0 <= y * (rowPitch c m * 6)
                <= 6 * mipDim (m_width c) m * rowPitch c m) by nia.
  rewrite (u32_small (rowPitch c m * f)) by lia.
  rewrite (u32_small (rowPitch c m * 6)) by lia.
  rewrite (u32_small (y * (rowPitch c m * 6))) by lia.
  unfold stripRow. ring.
Qed.

Lemma code_cubeRow (f m y : Z) :
  validRow (m_numMips c) (mipDim (m_width c)) f m y ->
  imageGetMipOffsets c f m + u32 (y * u32 (mipDim (m_width c) m * bpp (m_format c)))
  = cubeRow c f m y.
Proof using All.
  intros (Hf & Hm & Hy). rewrite code_pitch by exact Hm.
  pose proof (rowPitch_small m Hm) as Hs. pose proof (rowPitch_nonneg m) as Hp.
  pose proof six_chains as H6. pose proof (chainBytes_nonneg c) as Hc.
  assert (Hyp : 0 <= y * rowPitch c m <= 6 * mipDim (m_width c) m * rowPitch c m) by nia.
  rewrite (u32_small (y * rowPitch c m)) by lia.
  rewrite imageGetMipOffsets_eq by nia. reflexivity.
Qed.

Hypothesis six_faces : m_numFaces c = 6.
Hypothesis data_len : len (m_data c) = 6 * chainBytes c.

Lemma cube_is_cubemap : imageIsCubemap c = true.
Proof using All.
  unfold imageIsCubemap. rewrite six_faces, square, !Z.eqb_refl. reflexivity.
Qed.

Lemma cube_shape_offsets (d : bytes) (z n f m : Z) :
  imageGetMipOffsets
    (Build_Image d (m_width c) (m_width c) z (m_format c) (m_numMips c) n) f m
  = imageGetMipOffsets c f m.
Proof using All.
  unfold imageGetMipOffsets, mipOffsetAfter. simpl. rewrite square. reflexivity.
Qed.

Lemma cube_shape_size (d : bytes) (z n : Z) :
  mipOffsetAfter
    (Build_Image d (m_width c) (m_width c) z (m_format c) (m_numMips c) n) 6
  = 6 * chainBytes c.
Proof using All.
  transitivity (mipOffsetAfter c 6).
  - unfold mipOffsetAfter. simpl. rewrite square. reflexivity.
  - pose proof six_chains. apply mipOffsetAfter_faces; lia.
Qed.

Lemma strip_offsets (d : bytes) (z n m : Z) :
  m <= m_numMips c ->
  imageGetMipOffsets
    (Build_Image d (6 * m_width c) (m_width c) z (m_format c) (m_numMips c) n) 0 m
  = sumUpto (levelBytes (stripShape c)) m.
Proof using All.
  intros Hm. transitivity (imageGetMipOffsets (stripShape c) 0 m); [reflexivity|].
  rewrite imageGetMipOffsets_eq; [lia|lia|exact Hm|lia].
Qed.

Lemma cube_rows_inside (f m y : Z) :
  validRow (m_numMips c) (mipDim (m_width c)) f m y ->
  0 <= cubeRow c f m y /\ cubeRow c f m y + rowPitch c m <= 6 * chainBytes c.
Proof using All.
  intros Hv. pose proof (cubeRow_inside f m y Hv) as [Ha Hb].
  destruct Hv as (Hf & Hm & Hy). pose proof (chainBytes_nonneg c) as Hc.
  pose proof (cube_face_bounds f (m + 1) Hf) as [_ H1]; [lia|].
  pose proof (cube_face_bounds f m Hf) as [H0 _]; [lia|].
  assert (0 <= f * chainBytes c) by (apply Z.mul_nonneg_nonneg; lia).
  assert ((f + 1) * chainBytes c <= 6 * chainBytes c)
    by (apply Z.mul_le_mono_nonneg_r; lia).
  lia.
Qed.

Lemma strip_rows_inside (f m y : Z) :
  validRow (m_numMips c) (mipDim (m_width c)) f m y ->
  0 <= stripRow c f m y
  /\ stripRow c f m y + rowPitch c m <= chainBytes (stripShape c).
Proof using All.
  intros Hv. pose proof (stripRow_inside f m y Hv) as [Ha Hb].
  destruct Hv as (Hf & Hm & Hy).
  pose proof (prefix_nonneg (stripShape c) m).
  pose proof (prefix_le_chain (stripShape c) (m + 1)) as Hle.
  simpl in Hle. specialize (Hle ltac:(lia)). lia.
Qed.

(** [imageHStripFromCubemap] runs to completion: the strip has the
    layout of [stripShape], and each of its rows is the cube's row. *)
Lemma hstrip_runs (junk : Z -> Z) (dst : Image) :
  exists data,
    imageHStripFromCubemap junk dst c
    = Done (true,
            Build_Image data (6 * m_width c) (m_width c) (chainBytes (stripShape c))
                        (m_format c) (m_numMips c) 1)
    /\ len data = chainBytes (stripShape c)
    /\ forall f m y,
         validRow (m_numMips c) (mipDim (m_width c)) f m y ->
         forall j, 0 <= j < rowPitch c m ->
                   byte_at data (stripRow c f m y + j)
                   = byte_at (m_data c) (cubeRow c f m y + j).
Proof using All.
  rewrite imageHStripFromCubemap_nest by apply cube_is_cubemap. cbv zeta.
  rewrite (copyNest_ext (m_data c) (m_numMips c) (mipDim (m_width c)) _
             (rowPitch c) _ (stripRow c) _ (cubeRow c)).
  2:{ intros f m y Hv. split; [apply code_pitch; apply Hv|].
      split; [|apply code_cubeRow; exact Hv].
      apply code_stripRow; [exact Hv|]. apply strip_mipOffsets.
      destruct Hv as (_ & ? & _). lia. }
  rewrite strip_mipOffsets by lia.
  pose proof (chainBytes_nonneg (stripShape c)) as HT.
  destruct (copyNest_spec (m_data c) (m_numMips c) (mipDim (m_width c))
              (rowPitch c) (stripRow c) (cubeRow c) (chainBytes (stripShape c)))
    with (dst0 := malloc junk (chainBytes (stripShape c)))
    as (data & E & Hl & Hrows).
  - intros. apply rowPitch_nonneg.
  - intros f m y Hv. rewrite data_len. apply cube_rows_inside. exact Hv.
  - apply strip_rows_inside.
  - apply stripRow_disjoint.
  - exact levels_nonneg.
  - intros m _. pose proof (mipDim_pos (m_width c) m). lia.
  - apply len_malloc. exact HT.
  - exists data.
    change (sumUpto (levelBytes (stripShape c)) (m_numMips c))
      with (chainBytes (stripShape c)).
    rewrite E. cbn [bind]. rewrite u32_small by lia. replace (m_width c * 6) with (6 * m_width c) by lia.
    split; [reflexivity|]. split; [exact Hl|exact Hrows].
Qed.

(** [imageCubemapFromHStrip] on a strip of that layout runs to completion:
    each row of the cube it builds is the strip's row. *)
Lemma cube_runs (junk : Z -> Z) (dst : Image) (data : bytes) :
  len data = chainBytes (stripShape c) ->
  exists data',
    imageCubemapFromHStrip junk dst
      (Build_Image data (6 * m_width c) (m_width c) (chainBytes (stripShape c))
                   (m_format c) (m_numMips c) 1)
    = Done (true,
            Build_Image data' (m_width c) (m_width c) (6 * chainBytes c)
                        (m_format c) (m_numMips c) 6)
    /\ len data' = 6 * chainBytes c
    /\ forall f m y,
         validRow (m_numMips c) (mipDim (m_width c)) f m y ->
         forall j, 0 <= j < rowPitch c m ->
                   byte_at data' (cubeRow c f m y + j)
                   = byte_at data (stripRow c f m y + j).
Proof using All.
  intros Hlen.
  rewrite imageCubemapFromHStrip_nest
    by (unfold imageIsHStrip; cbn [m_width m_height];
        rewrite u32_small by lia; apply Z.eqb_refl).
  cbv zeta. cbn [m_height m_width m_format m_numMips m_data].
  rewrite cube_shape_size.
  rewrite (copyNest_ext data (m_numMips c) (mipDim (m_width c)) _
             (rowPitch c) _ (cubeRow c) _ (stripRow c)).
  2:{ intros f m y Hv. split; [apply code_pitch; apply Hv|].
      split; [rewrite cube_shape_offsets; apply code_cubeRow; exact Hv|].
      apply code_stripRow; [exact Hv|]. apply strip_offsets.
      destruct Hv as (_ & ? & _). lia. }
  pose proof (chainBytes_nonneg c) as HC.
  destruct (copyNest_spec data (m_numMips c) (mipDim (m_width c))
              (rowPitch c) (cubeRow c) (stripRow c) (6 * chainBytes c))
    with (dst0 := malloc junk (6 * chainBytes c))
    as (data' & E & Hl & Hrows).
  - intros. apply rowPitch_nonneg.
  - intros f m y Hv. rewrite Hlen. apply strip_rows_inside. exact Hv.
  - apply cube_rows_inside.
  - apply cubeRow_disjoint.
  - exact levels_nonneg.
  - intros m _. pose proof (mipDim_pos (m_width c) m). lia.
  - apply len_malloc. lia.
  - exists data'. rewrite E. cbn [bind].
    split; [reflexivity|]. split; [exact Hl|exact Hrows].
Qed.

(** The two remaps compose to the identity on the cube's bytes. *)
Lemma strip_then_cube (junk1 junk2 : Z -> Z) (dst1 dst2 : Image) :
  exists strip,
    imageHStripFromCubemap junk1 dst1 c = Done (true, strip)
    /\ imageCubemapFromHStrip junk2 dst2 strip
       = Done (true,
               Build_Image (m_data c) (m_width c) (m_width c) (6 * chainBytes c)
                           (m_format c) (m_numMips c) 6).
Proof using All.
  destruct (hstrip_runs junk1 dst1) as (data & E1 & Hl1 & Hr1).
  destruct (cube_runs junk2 dst2 data Hl1) as (data' & E2 & Hl2 & Hr2).
  eexists. split; [exact E1|]. rewrite E2.
  replace data' with (m_data c); [reflexivity|].
  symmetry. apply bytes_ext; [lia|].
  intros i Hi. rewrite Hl2 in Hi.
  destruct (cubeRow_cover i Hi) as (f & m & y & j & Hv & Hj & ->).
  rewrite Hr2 by assumption. apply Hr1; assumption.
Qed.

End StripLayout.

(** ** Rounding to binary32 *)

Lemma digits2_pos_bounds (p : positive) :
  2 ^ (Zpos (digits2_pos p) - 1) <= Zpos p < 2 ^ Zpos (digits2_pos p).
Proof.
  induction p as [p IH|p IH|]; cbn [digits2_pos]; rewrite ?Pos2Z.inj_succ.
  - replace (Z.succ (Zpos (digits2_pos p)) - 1) with (Z.succ (Zpos (digits2_pos p) - 1)) by lia.
    rewrite !Z.pow_succ_r by lia. lia.
  - replace (Z.succ (Zpos (digits2_pos p)) - 1) with (Z.succ (Zpos (digits2_pos p) - 1)) by lia.
    rewrite !Z.pow_succ_r by lia. lia.
  - cbn. lia.
Qed.

Lemma Zdigits2_bounds (x : Z) :
  0 < x -> 2 ^ (Zdigits2 x - 1) <= x < 2 ^ Zdigits2 x.
Proof.
  destruct x as [|p|p]; try lia. intros _. apply digits2_pos_bounds.
Qed.

Lemma Zdigits2_unique (x d : Z) :
  0 < x -> 2 ^ (d - 1) <= x < 2 ^ d -> Zdigits2 x = d.
Proof.
  intros Hx [Hlo Hhi]. pose proof (Zdigits2_bounds x Hx) as [Hlo' Hhi'].
  destruct (Z.lt_trichotomy (Zdigits2 x) d) as [H|[H|H]]; [|exact H|].
  - assert (2 ^ Zdigits2 x <= 2 ^ (d - 1)) by (apply Z.pow_le_mono_r; lia). lia.
  - assert (2 ^ d <= 2 ^ (Zdigits2 x - 1)) by (apply Z.pow_le_mono_r; lia). lia.
Qed.

Lemma Zdigits2_nonneg (x : Z) : 0 <= Zdigits2 x.
Proof. destruct x; simpl; lia. Qed.

Lemma locates_eq (N B B' : Z) (r : shr_record) :
  B = B' -> locates N B r -> locates N B' r.
Proof. intros <-. exact (fun H => H). Qed.

Lemma shr_1_locates (N B : Z) (r : shr_record) :
  locates N B r -> locates N (B * 2) (shr_1 r).
Proof.
  intros (HB & HN & Hm & Hr & Hs).
  assert (Hdiv : N / (B * 2) = N / B / 2) by (rewrite Z.div_div by lia; reflexivity).
  assert (Hmod : N mod (B * 2) = N mod B + B * ((N / B) mod 2))
    by (apply Z.rem_mul_r; lia).
  pose proof (Z.mod_pos_bound N B HB) as Hrho.
  pose proof (Z.div_pos N B HN HB) as Hq.
  destruct r as [m r s]. cbn [shr_m shr_r shr_s] in *.
  assert (Hor : orb r s = true <-> N mod B <> 0).
  { rewrite orb_true_iff, Hr, Hs. lia. }
  unfold locates. rewrite Hdiv, Hmod, <- Hm.
  split; [lia|]. split; [lia|].
  destruct m as [|[p|p|]|p]; cbn [shr_1 shr_m shr_r shr_s]; try lia.
  - change (0 mod 2) with 0. change (0 / 2) with 0.
    split; [reflexivity|]. rewrite Hor. split; [split; [discriminate|lia]|].
    split; [lia|lia].
  - rewrite Pos2Z.inj_xI.
    replace ((2 * Z.pos p + 1) / 2) with (Z.pos p)
      by (apply Z.div_unique with 1; lia).
    replace ((2 * Z.pos p + 1) mod 2) with 1
      by (apply Z.mod_unique with (Z.pos p); lia).
    split; [reflexivity|]. rewrite Hor. split; [split; [lia|reflexivity]|lia].
  - rewrite Pos2Z.inj_xO.
    replace ((2 * Z.pos p) / 2) with (Z.pos p)
      by (apply Z.div_unique with 0; lia).
    replace ((2 * Z.pos p) mod 2) with 0
      by (apply Z.mod_unique with (Z.pos p); lia).
    split; [reflexivity|]. rewrite Hor. split; [split; [discriminate|lia]|lia].
  - change (1 / 2) with 0. change (1 mod 2) with 1.
    split; [reflexivity|]. rewrite Hor. split; [split; [lia|reflexivity]|lia].
Qed.

Lemma iter_shr_1_locates (p : positive) :
  forall (N B : Z) (r : shr_record),
    locates N B r -> locates N (B * 2 ^ Zpos p) (SpecFloat.iter_pos shr_1 p r).
Proof.
  induction p as [p IH|p IH|]; intros N B r H; cbn [SpecFloat.iter_pos].
  - apply locates_eq with (B * 2 * 2 ^ Zpos p * 2 ^ Zpos p).
    + assert (E : 2 ^ Z.pos p~1 = 2 * (2 ^ Z.pos p * 2 ^ Z.pos p)).
      { rewrite <- Z.pow_add_r by lia. rewrite <- Z.pow_succ_r by lia.
        f_equal. lia. }
      rewrite E. ring.
    + apply IH, IH, shr_1_locates, H.
  - apply locates_eq with (B * 2 ^ Zpos p * 2 ^ Zpos p).
    + assert (E : 2 ^ Z.pos p~0 = 2 ^ Z.pos p * 2 ^ Z.pos p).
      { rewrite <- Z.pow_add_r by lia. f_equal. lia. }
      rewrite E. ring.
    + apply IH, IH, H.
  - change (2 ^ 1) with 2. apply shr_1_locates, H.
Qed.

Lemma shr_locates (N B e n : Z) (r : shr_record) :
  locates N B r ->
  locates N (B * 2 ^ Z.max 0 n) (fst (shr r e n)) /\ snd (shr r e n) = e + Z.max 0 n.
Proof.
  intros H. destruct n as [|p|p]; cbn [shr fst snd].
  - split; [|lia]. apply locates_eq with B; [cbn; lia|exact H].
  - replace (Z.max 0 (Z.pos p)) with (Z.pos p) by lia.
    split; [|reflexivity]. apply iter_shr_1_locates, H.
  - replace (Z.max 0 (Z.neg p)) with 0 by lia.
    split; [|lia]. apply locates_eq with B; [cbn; lia|exact H].
Qed.

Lemma round_nearest_even_locates (N B : Z) (r : shr_record) :
  locates N B r ->
  nearest N B (round_nearest_even (shr_m r) (loc_of_shr_record r)).
Proof.
  intros (HB & HN & Hm & Hr & Hs). unfold nearest.
  pose proof (Z.mod_pos_bound N B HB) as Hrho.
  destruct r as [m [|] [|]]; cbn [shr_m shr_r shr_s loc_of_shr_record round_nearest_even] in *.
  - right. split; [lia|]. apply Hr. reflexivity.
  - assert (2 * (N mod B) = B).
    { destruct (Z.eq_dec (2 * (N mod B)) B) as [E|E]; [exact E|].
      assert (B <= 2 * (N mod B)) by (apply Hr; reflexivity).
      assert (false = true) by (apply Hs; lia). discriminate. }
    destruct (Z.even m); [left|right]; lia.
  - left. split; [lia|].
    destruct (Z_le_gt_dec B (2 * (N mod B))) as [H|H]; [|lia].
    assert (false = true) by (apply Hr; exact H). discriminate.
  - left. split; [lia|].
    destruct (Z.eq_dec (N mod B) 0) as [E|E]; [lia|].
    destruct (Z.eq_dec (2 * (N mod B)) B) as [E'|E'].
    + assert (false = true) by (apply Hr; lia). discriminate.
    + assert (false = true) by (apply Hs; lia). discriminate.
Qed.

Lemma fexp32 (z : Z) : fexp 24 128 z = Z.max (z - 24) (-149).
Proof. reflexivity. Qed.

Lemma shr_nonpos (r : shr_record) (e n : Z) : n <= 0 -> shr r e n = (r, e).
Proof. destruct n; try lia; reflexivity. Qed.

Lemma shr_m_of_loc (q : Z) (loc : location) : shr_m (shr_record_of_loc q loc) = q.
Proof. destruct loc as [|[| |]]; reflexivity. Qed.

Lemma exact_locates (q : Z) : 0 <= q -> locates q 1 (shr_record_of_loc q loc_Exact).
Proof.
  intros H. unfold locates. cbn [shr_record_of_loc shr_m shr_r shr_s].
  rewrite Z.div_1_r, Z.mod_1_r. split; [lia|]. split; [lia|]. split; [reflexivity|].
  split; split; try discriminate; lia.
Qed.

(** The second normalisation of [binary_round_aux]: a rounded mantissa of
    at most 25 bits is packed without further loss. *)
Lemma finish_round (s : bool) (m e : Z) :
  0 <= m <= 16777216 -> -149 <= e ->
  (let '(mrs, e') := shr_fexp 24 128 m e loc_Exact in
   match shr_m mrs with
   | 0 => S754_zero s
   | Zpos p => if e' <=? 128 - 24 then S754_finite s p e' else S754_infinity s
   | Zneg _ => S754_nan
   end) = packed s m e.
Proof.
  intros Hm He. unfold shr_fexp. rewrite fexp32.
  destruct (Z.eq_dec m 16777216) as [->|Hne].
  - change (Zdigits2 16777216) with 25.
    replace (Z.max (25 + e - 24) (-149) - e) with 1 by lia.
    cbn [shr shr_record_of_loc SpecFloat.iter_pos shr_1 shr_m packed Z.eqb Pos.eqb].
    reflexivity.
  - destruct m as [|p|p]; try lia.
    + change (Zdigits2 0) with 0. rewrite shr_nonpos by lia. reflexivity.
    + assert (Hd : Zdigits2 (Z.pos p) <= 24).
      { pose proof (Zdigits2_bounds (Z.pos p) ltac:(lia)) as [Hlo _].
        destruct (Z_le_gt_dec (Zdigits2 (Z.pos p)) 24) as [H|H]; [exact H|].
        assert (2 ^ 24 <= 2 ^ (Zdigits2 (Z.pos p) - 1))
          by (apply Z.pow_le_mono_r; lia).
        change (2 ^ 24) with 16777216 in *. lia. }
      rewrite shr_nonpos by lia.
      cbn [shr_record_of_loc shr_m packed].
      replace (Z.pos p =? 16777216) with false by (symmetry; apply Z.eqb_neq; exact Hne).
      reflexivity.
Qed.

(** What [binary_round_aux] returns: the quotient [N / D] at exponent [E] is brought to the exponent
    [E + sh] of the format, rounded to a nearest mantissa and packed. *)
Lemma binary_round_aux_spec (s : bool) (N D q E : Z) (loc : location) :
  locates N D (shr_record_of_loc q loc) ->
  exists m1,
    nearest N (D * 2 ^ Z.max 0 (fexp 24 128 (Zdigits2 q + E) - E)) m1
    /\ 0 <= m1 <= 16777216
    /\ -149 <= E + Z.max 0 (fexp 24 128 (Zdigits2 q + E) - E)
    /\ binary_round_aux 24 128 s q E loc
       = packed s m1 (E + Z.max 0 (fexp 24 128 (Zdigits2 q + E) - E)).
Proof.
  intros Hloc.
  set (n := fexp 24 128 (Zdigits2 q + E) - E) in *.
  set (sh := Z.max 0 n) in *.
  assert (Hq : q = N / D) by (rewrite <- (shr_m_of_loc q loc); apply Hloc).
  destruct Hloc as (HD & HN & Hloc'). 
  assert (Hloc : locates N D (shr_record_of_loc q loc)) by (split; [exact HD|split; [exact HN|exact Hloc']]).
  clear Hloc'.
  pose proof (Z.div_pos N D HN HD) as Hq0. rewrite <- Hq in Hq0.
  pose proof (shr_locates N D E n _ Hloc) as [H1 H2]. fold sh in H1, H2.
  pose proof (round_nearest_even_locates _ _ _ H1) as Hnear.
  assert (Hsh : 0 <= sh) by (unfold sh; lia).
  assert (H2sh : 0 < 2 ^ sh) by (apply Z.pow_pos_nonneg; lia).
  assert (Hexp : -149 <= E + sh) by (unfold sh, n; rewrite fexp32; lia).
  assert (Hdig : Zdigits2 q <= 24 + sh) by (unfold sh, n; rewrite fexp32; lia).
  assert (HQ : N / (D * 2 ^ sh) < 16777216).
  { rewrite <- Z.div_div by lia. rewrite <- Hq.
    apply Z.div_lt_upper_bound; [lia|].
    destruct (Z.eq_dec q 0) as [->|Hq1]; [lia|].
    pose proof (Zdigits2_bounds q ltac:(lia)) as [_ Hhi].
    assert (2 ^ Zdigits2 q <= 2 ^ (24 + sh)) by (apply Z.pow_le_mono_r; lia).
    rewrite Z.pow_add_r in H by lia. change (2 ^ 24) with 16777216 in H. lia. }
  assert (HQ0 : 0 <= N / (D * 2 ^ sh)) by (apply Z.div_pos; nia).
  exists (round_nearest_even (shr_m (fst (shr (shr_record_of_loc q loc) E n)))
            (loc_of_shr_record (fst (shr (shr_record_of_loc q loc) E n)))).
  split; [exact Hnear|].
  assert (Hm1 : 0 <= round_nearest_even (shr_m (fst (shr (shr_record_of_loc q loc) E n)))
                       (loc_of_shr_record (fst (shr (shr_record_of_loc q loc) E n)))
                <= 16777216)
    by (destruct Hnear as [[-> _]|[-> _]]; lia).
  split; [exact Hm1|]. split; [exact Hexp|].
  unfold binary_round_aux. unfold shr_fexp at 1. fold n.
  destruct (shr (shr_record_of_loc q loc) E n) as [mrs' e'] eqn:Eshr.
  cbn [fst snd] in *. subst e'.
  apply finish_round; [exact Hm1|lia].
Qed.

(** ** Values *)

Lemma pow2_pos (e : Z) : (0 < 2 ^ e)%Q.
Proof. apply Qpower_0_lt. reflexivity. Qed.

Lemma pow2_add (a b : Z) : (2 ^ (a + b) == 2 ^ a * 2 ^ b)%Q.
Proof. apply Qpower_plus. discriminate. Qed.

Lemma pow2_Z (k : Z) : 0 <= k -> (inject_Z (2 ^ k) == 2 ^ k)%Q.
Proof. intros H. apply (Zpower_Qpower 2 k H). Qed.

Lemma pow2_le (a b : Z) : a <= b -> (2 ^ a <= 2 ^ b)%Q.
Proof.
  intros H. replace b with (a + (b - a)) by lia. rewrite pow2_add.
  rewrite <- (pow2_Z (b - a)) by lia.
  assert (1 <= 2 ^ (b - a)) by (pose proof (Z.pow_pos_nonneg 2 (b - a)); lia).
  assert (H1 : (1 <= inject_Z (2 ^ (b - a)))%Q)
    by (change (inject_Z 1 <= inject_Z (2 ^ (b - a)))%Q; rewrite <- Zle_Qle; exact H0).
  pose proof (pow2_pos a). nra.
Qed.

Lemma packed_cases (s : bool) (m e : Z) :
  0 <= m -> e <= 103 ->
  (m = 0 /\ packed s m e = S754_zero s)
  \/ (exists p e', packed s m e = S754_finite s p e'
                   /\ e <= e' <= e + 1 /\ Z.pos p * 2 ^ (e' - e) = m).
Proof.
  intros Hm He. unfold packed. destruct m as [|p|p]; try lia.
  - left. split; reflexivity.
  - right. destruct (Z.eqb_spec (Z.pos p) 16777216) as [E|E].
    + replace (e + 1 <=? 104) with true by (symmetry; apply Z.leb_le; lia).
      exists 8388608%positive, (e + 1). split; [reflexivity|]. split; [lia|].
      replace (e + 1 - e) with 1 by lia. rewrite E. reflexivity.
    + replace (e <=? 104) with true by (symmetry; apply Z.leb_le; lia).
      exists p, e. split; [reflexivity|]. split; [lia|].
      rewrite Z.sub_diag. cbn. lia.
Qed.

Lemma value_packed (m e : Z) :
  0 <= m -> e <= 103 -> (value (packed false m e) == inject_Z m * 2 ^ e)%Q.
Proof.
  intros Hm He.
  destruct (packed_cases false m e Hm He) as [[-> ->]|(p & e' & -> & He' & <-)].
  - cbn [value]. unfold inject_Z. lra.
  - cbn [value]. rewrite inject_Z_mult, pow2_Z by lia.
    replace e' with (e' - e + e) at 1 by lia. rewrite pow2_add. ring.
Qed.

(** A mantissa within half a unit of [N / B] is within [2^(E+sh-1)] of the
    value [N / D * 2^E], where [B = D * 2^sh]. *)
Lemma nearest_error (N D m1 sh E : Z) :
  0 < D -> 0 <= N -> 0 <= sh -> nearest N (D * 2 ^ sh) m1 ->
  (inject_Z N / inject_Z D * 2 ^ E - 2 ^ (E + sh - 1)
   <= inject_Z m1 * 2 ^ (E + sh)
   <= inject_Z N / inject_Z D * 2 ^ E + 2 ^ (E + sh - 1))%Q.
Proof.
  intros HD HN Hsh Hnear.
  assert (H2 : 0 < 2 ^ sh) by (apply Z.pow_pos_nonneg; lia).
  assert (HB : 0 < D * 2 ^ sh) by nia.
  pose proof (Z.div_mod N (D * 2 ^ sh) ltac:(lia)) as Hdm.
  pose proof (Z.mod_pos_bound N (D * 2 ^ sh) HB) as Hrho.
  assert (Hz : 2 * N <= 2 * (m1 * (D * 2 ^ sh)) + D * 2 ^ sh
               /\ 2 * (m1 * (D * 2 ^ sh)) <= 2 * N + D * 2 ^ sh).
  { destruct Hnear as [[-> Hr]|[-> Hr]]; nia. }
  destruct Hz as [Hlo Hhi].
  rewrite Zle_Qle in Hlo, Hhi.
  repeat rewrite ?inject_Z_plus, ?inject_Z_mult in Hlo, Hhi.
  rewrite pow2_Z in Hlo, Hhi by lia.
  replace (E + sh - 1) with (E + sh + - 1) by lia.
  rewrite !pow2_add. change (2 ^ (-1))%Q with (1 # 2)%Q.
  assert (HDq : (0 < inject_Z D)%Q)
    by (change (inject_Z 0 < inject_Z D)%Q; rewrite <- Zlt_Qlt; exact HD).
  pose proof (pow2_pos E) as HE. pose proof (pow2_pos sh) as HS.
  set (X := (2 ^ E)%Q) in *. set (S := (2 ^ sh)%Q) in *.
  set (n := inject_Z N) in *. set (d := inject_Z D) in *. set (m := inject_Z m1) in *.
  change (inject_Z 2) with 2%Q in *.
  assert (Hn : (n / d * d == n)%Q) by (field; lra).
  set (v := (n / d)%Q) in *.
  assert (Hlo' : (2 * v * d <= 2 * (m * (d * S)) + d * S)%Q) by nra.
  assert (Hhi' : (2 * (m * (d * S)) <= 2 * v * d + d * S)%Q) by nra.
  assert (Hlo2 : (2 * v <= 2 * (m * S) + S)%Q) by nra.
  assert (Hhi2 : (2 * (m * S) <= 2 * v + S)%Q) by nra.
  split; nra.
Qed.

Lemma inject_Z_nonneg (z : Z) : 0 <= z -> (0 <= inject_Z z)%Q.
Proof. intros H. change (inject_Z 0 <= inject_Z z)%Q. rewrite <- Zle_Qle. exact H. Qed.

Lemma inject_Z_pos (z : Z) : 0 < z -> (0 < inject_Z z)%Q.
Proof. intros H. change (inject_Z 0 < inject_Z z)%Q. rewrite <- Zlt_Qlt. exact H. Qed.

(** The standard model of rounding: the result of [binary_round_aux] is
    within a relative [2^-24] and an absolute [2^-150] of the value it is
    given, as long as the first shift does not go left (or the value is
    exact) and the result does not overflow. *)
Lemma round_value (N D q E : Z) (loc : location) :
  locates N D (shr_record_of_loc q loc) ->
  Zdigits2 q + E <= 127 -> E <= 103 ->
  E <= fexp 24 128 (Zdigits2 q + E) \/ N mod D = 0 ->
  exists m1,
    binary_round_aux 24 128 false q E loc = packed false m1 (roundedExponent q E)
    /\ 0 <= m1 <= 16777216 /\ -149 <= roundedExponent q E <= 103
    /\ (inject_Z N / inject_Z D * 2 ^ E * (1 - unitRoundoff) - halfSubnormal
        <= inject_Z m1 * 2 ^ roundedExponent q E
        <= inject_Z N / inject_Z D * 2 ^ E * (1 + unitRoundoff) + halfSubnormal)%Q.
Proof.
  intros Hloc Hdig HE Hcase.
  assert (Hq : q = N / D) by (rewrite <- (shr_m_of_loc q loc); apply Hloc).
  assert (HD : 0 < D) by apply Hloc. assert (HN : 0 <= N) by apply Hloc.
  pose proof (Z.div_pos N D HN HD) as Hq0. rewrite <- Hq in Hq0.
  set (sh := Z.max 0 (fexp 24 128 (Zdigits2 q + E) - E)).
  destruct (binary_round_aux_spec false N D q E loc Hloc) as (m1 & Hnear & Hm1 & Hexp & Hres).
  fold sh in Hnear, Hexp, Hres.
  exists m1. unfold roundedExponent. fold sh.
  split; [exact Hres|]. split; [exact Hm1|].
  split; [unfold sh; rewrite fexp32; lia|].
  assert (Hsh : 0 <= sh) by (unfold sh; lia).
  pose proof (nearest_error N D m1 sh E HD HN Hsh Hnear) as [Hlo Hhi].
  pose proof (inject_Z_pos D HD) as HDq. pose proof (inject_Z_nonneg N HN) as HNq.
  pose proof (pow2_pos E) as HEq.
  assert (Hv : (0 <= inject_Z N / inject_Z D * 2 ^ E)%Q).
  { assert (0 <= inject_Z N / inject_Z D)%Q by (apply Qle_shift_div_l; [exact HDq|lra]).
    nra. }
  set (v := (inject_Z N / inject_Z D * 2 ^ E)%Q) in *.
  unfold unitRoundoff, halfSubnormal.
  pose proof (pow2_pos (-24)) as Hu. pose proof (pow2_pos (-150)) as Heta.
  destruct (Z_le_gt_dec E (fexp 24 128 (Zdigits2 q + E))) as [Hn|Hn].
  - (* the shift goes right: half a unit in the last place *)
    assert (Hsum : E + sh = fexp 24 128 (Zdigits2 q + E)) by (unfold sh; lia).
    rewrite fexp32 in Hsum.
    destruct (Z_le_gt_dec (Zdigits2 q + E - 24) (-149)) as [Hsub|Hnorm].
    + replace (E + sh - 1) with (-150) in Hlo, Hhi by lia.
      set (U := (2 ^ (-24))%Q) in *. set (H := (2 ^ (-150))%Q) in *.
      split; nra.
    + assert (Hshq : sh = Zdigits2 q - 24) by lia.
      assert (Hqpos : 0 < q).
      { destruct (Z.eq_dec q 0) as [E0|E0]; [|lia]. rewrite E0 in Hshq. cbn in Hshq. lia. }
      pose proof (Zdigits2_bounds q Hqpos) as [Hqlo _].
      assert (Hd1 : 0 <= Zdigits2 q - 1) by lia.
      assert (Hqv : (inject_Z (2 ^ (Zdigits2 q - 1)) * 2 ^ E <= v)%Q).
      { assert (H1 : (inject_Z (2 ^ (Zdigits2 q - 1)) <= inject_Z q)%Q)
          by (rewrite <- Zle_Qle; exact Hqlo).
        assert (H2 : (inject_Z q <= inject_Z N / inject_Z D)%Q).
        { apply Qle_shift_div_l; [exact HDq|]. rewrite <- inject_Z_mult, <- Zle_Qle.
          rewrite Hq. pose proof (Z.mul_div_le N D HD). lia. }
        unfold v. nra. }
      rewrite pow2_Z in Hqv by exact Hd1.
      replace (E + sh - 1) with ((Zdigits2 q - 1) + E + -24) in Hlo, Hhi by lia.
      rewrite !pow2_add in Hlo, Hhi. rewrite (pow2_add E sh).
      set (P := (2 ^ (Zdigits2 q - 1) * 2 ^ E)%Q) in *.
      set (T := (inject_Z m1 * (2 ^ E * 2 ^ sh))%Q) in *.
      set (U := (2 ^ (-24))%Q) in *. set (H := (2 ^ (-150))%Q) in *.
      split; nra.
  - (* no shift, exact value *)
    destruct Hcase as [Hc|Hexact]; [lia|].
    assert (Hsh0 : sh = 0) by (unfold sh; lia).
    rewrite Hsh0 in *. change (2 ^ 0) with 1 in Hnear. rewrite Z.mul_1_r in Hnear.
    assert (Hm : m1 * D = N).
    { pose proof (Z.div_mod N D ltac:(lia)) as Hdm.
      destruct Hnear as [[-> _]|[_ Hbad]]; [|lia]. lia. }
    assert (Hmq : (inject_Z m1 == inject_Z N / inject_Z D)%Q).
    { rewrite <- Hm, inject_Z_mult. field. lra. }
    rewrite Z.add_0_r. rewrite Hmq. fold v.
    set (U := (2 ^ (-24))%Q) in *. set (H := (2 ^ (-150))%Q) in *.
    assert (HU1 : (U <= 1)%Q) by (unfold U; apply (pow2_le (-24) 0); lia).
    split; nra.
Qed.

Lemma pow2_lt (a b : Z) : a < b -> (2 ^ a < 2 ^ b)%Q.
Proof.
  intros H. pose proof (pow2_le (a + 1) b ltac:(lia)) as Hle.
  rewrite pow2_add in Hle. change (2 ^ 1)%Q with 2%Q in Hle.
  pose proof (pow2_pos a). lra.
Qed.

Lemma pow2_le_inv (a b : Z) : (2 ^ a <= 2 ^ b)%Q -> a <= b.
Proof.
  intros H. destruct (Z_le_gt_dec a b) as [Hle|Hgt]; [exact Hle|].
  pose proof (pow2_lt b a ltac:(lia)). lra.
Qed.

Lemma pow2_lt_inv (a b : Z) : (2 ^ a < 2 ^ b)%Q -> a < b.
Proof.
  intros H. destruct (Z_lt_ge_dec a b) as [Hlt|Hge]; [exact Hlt|].
  pose proof (pow2_le b a ltac:(lia)). lra.
Qed.

Lemma pow2_neg (e : Z) : e <= 0 -> (2 ^ e == 1 / inject_Z (2 ^ (- e)))%Q.
Proof.
  intros H. rewrite pow2_Z by lia. replace e with (- - e) at 1 by lia.
  rewrite Qpower_opp. field. pose proof (pow2_pos (- e)). lra.
Qed.

Lemma finite_nonneg_packed (m e : Z) :
  0 <= m -> e <= 103 -> finite_nonneg (packed false m e).
Proof.
  intros Hm He.
  destruct (packed_cases false m e Hm He) as [[_ ->]|(p & e' & -> & _)]; exact I.
Qed.

Lemma value_nonneg (x : spec_float) : finite_nonneg x -> (0 <= value x)%Q.
Proof.
  destruct x as [s|s| |[|] m e]; cbn; try lra; try contradiction.
  intros _. pose proof (pow2_pos e). pose proof (inject_Z_pos (Z.pos m) ltac:(lia)).
  nra.
Qed.

(** Truncation is the floor of the value. *)
Lemma trunc_value (x : spec_float) :
  finite_nonneg x -> F32.trunc x = Some (Qfloor (value x)).
Proof.
  destruct x as [s|s| |[|] m e]; cbn [finite_nonneg]; try contradiction; intros _.
  - reflexivity.
  - unfold F32.trunc, value. f_equal. destruct (Z.leb_spec 0 e) as [He|He].
    + rewrite <- pow2_Z by exact He. rewrite <- inject_Z_mult. symmetry. apply Qfloor_Z.
    + rewrite Zdiv_Qdiv. apply Qfloor_comp. rewrite (pow2_neg e) by lia.
      unfold Qdiv. ring.
Qed.

Lemma to_unsigned_value (bits : Z) (x : spec_float) :
  finite_nonneg x -> (value x < inject_Z (2 ^ bits))%Q ->
  F32.to_unsigned bits x = Some (Qfloor (value x))
  /\ 0 <= Qfloor (value x) < 2 ^ bits.
Proof.
  intros Hx Hlt. unfold F32.to_unsigned. rewrite trunc_value by exact Hx.
  assert (H0 : 0 <= Qfloor (value x)).
  { change 0 with (Qfloor 0). apply Qfloor_resp_le, value_nonneg, Hx. }
  assert (H1 : Qfloor (value x) < 2 ^ bits).
  { rewrite Zlt_Qlt. pose proof (Qfloor_le (value x)). lra. }
  replace (0 <=? Qfloor (value x)) with true by (symmetry; apply Z.leb_le; exact H0).
  replace (Qfloor (value x) <? 2 ^ bits) with true by (symmetry; apply Z.ltb_lt; exact H1).
  split; [reflexivity|lia].
Qed.

Lemma Zdigits2_le (x d : Z) : 0 <= x < 2 ^ d -> Zdigits2 x <= d.
Proof.
  intros [H0 H1]. destruct (Z.eq_dec x 0) as [->|Hx].
  - cbn. destruct (Z_le_gt_dec 0 d) as [H|H]; [exact H|].
    rewrite Z.pow_neg_r in H1 by lia. lia.
  - pose proof (Zdigits2_bounds x ltac:(lia)) as [Hlo _].
    destruct (Z_le_gt_dec (Zdigits2 x) d) as [H|H]; [exact H|].
    assert (2 ^ d <= 2 ^ (Zdigits2 x - 1)) by (apply Z.pow_le_mono_r; lia). lia.
Qed.

(** The product of two positive floats: [SFmul] rounds the exact product. *)
Lemma mul_value (mx my : positive) (ex ey : Z) :
  Zdigits2 (Z.pos (mx * my)) + (ex + ey) <= 127 -> ex + ey <= 103 ->
  exists m1 e1,
    F32.mul (S754_finite false mx ex) (S754_finite false my ey) = packed false m1 e1
    /\ 0 <= m1 <= 16777216 /\ -149 <= e1 <= 103 /\ ex + ey <= e1
    /\ (value (S754_finite false mx ex) * value (S754_finite false my ey)
          * (1 - unitRoundoff) - halfSubnormal
        <= value (packed false m1 e1)
        <= value (S754_finite false mx ex) * value (S754_finite false my ey)
             * (1 + unitRoundoff) + halfSubnormal)%Q.
Proof.
  intros Hdig HE.
  destruct (round_value (Z.pos (mx * my)) 1 (Z.pos (mx * my)) (ex + ey) loc_Exact)
    as (m1 & Hres & Hm1 & He1 & Hlo & Hhi).
  - apply exact_locates. lia.
  - exact Hdig.
  - exact HE.
  - right. apply Z.mod_1_r.
  - set (e1 := roundedExponent (Z.pos (mx * my)) (ex + ey)) in *.
    exists m1, e1. split; [exact Hres|]. split; [exact Hm1|]. split; [exact He1|].
    split; [unfold e1, roundedExponent; lia|].
    rewrite value_packed by lia. cbn [value].
    assert (Hv : (inject_Z (Z.pos (mx * my)) / inject_Z 1 * 2 ^ (ex + ey)
                  == inject_Z (Z.pos mx) * 2 ^ ex * (inject_Z (Z.pos my) * 2 ^ ey))%Q).
    { rewrite Pos2Z.inj_mul, inject_Z_mult, pow2_add. field. }
    set (v := (inject_Z (Z.pos (mx * my)) / inject_Z 1 * 2 ^ (ex + ey))%Q) in *.
    set (w := (inject_Z (Z.pos mx) * 2 ^ ex * (inject_Z (Z.pos my) * 2 ^ ey))%Q) in *.
    set (t := (inject_Z m1 * 2 ^ e1)%Q) in *.
    unfold unitRoundoff, halfSubnormal in *.
    set (U := (2 ^ (-24))%Q) in *. set (H := (2 ^ (-150))%Q) in *.
    split; nra.
Qed.

(** ** Order and maximum of binary32 values *)

Lemma bounded32 (m : positive) (e : Z) :
  bounded 24 128 m e = true ->
  -149 <= e <= 104 /\ Zdigits2 (Z.pos m) <= 24
  /\ (-149 < e -> Zdigits2 (Z.pos m) = 24).
Proof.
  unfold bounded, canonical_mantissa. rewrite andb_true_iff, Z.eqb_eq, Z.leb_le, fexp32.
  cbn [Zdigits2]. lia.
Qed.

Lemma mantissa_bounds (m : positive) (e : Z) :
  bounded 24 128 m e = true ->
  Z.pos m < 16777216 /\ (-149 < e -> 8388608 <= Z.pos m).
Proof.
  intros H. destruct (bounded32 m e H) as (_ & Hd & Hn).
  pose proof (Zdigits2_bounds (Z.pos m) ltac:(lia)) as [Hlo Hhi]. split.
  - assert (2 ^ Zdigits2 (Z.pos m) <= 2 ^ 24) by (apply Z.pow_le_mono_r; lia).
    change (2 ^ 24) with 16777216 in *. lia.
  - intros He. rewrite (Hn He) in Hlo. exact Hlo.
Qed.

Lemma canonical_lt (m1 m2 : positive) (e1 e2 : Z) :
  bounded 24 128 m1 e1 = true -> bounded 24 128 m2 e2 = true -> e1 < e2 ->
  (inject_Z (Z.pos m1) * 2 ^ e1 < inject_Z (Z.pos m2) * 2 ^ e2)%Q.
Proof.
  intros H1 H2 He.
  destruct (mantissa_bounds m1 e1 H1) as [Hhi1 _].
  destruct (mantissa_bounds m2 e2 H2) as [_ Hlo2].
  destruct (bounded32 m1 e1 H1) as (He1 & _). specialize (Hlo2 ltac:(lia)).
  rewrite Zlt_Qlt in Hhi1. rewrite Zle_Qle in Hlo2.
  pose proof (pow2_le (e1 + 1) e2 ltac:(lia)) as Hp. rewrite pow2_add in Hp.
  change (2 ^ 1)%Q with 2%Q in Hp. pose proof (pow2_pos e1) as Hp1.
  change (inject_Z 16777216) with 16777216%Q in Hhi1.
  change (inject_Z 8388608) with 8388608%Q in Hlo2.
  set (a := inject_Z (Z.pos m1)) in *. set (b := inject_Z (Z.pos m2)) in *.
  set (X := (2 ^ e1)%Q) in *. set (Y := (2 ^ e2)%Q) in *.
  assert (a * X < 16777216 * X)%Q by nra.
  assert (8388608 * Y <= b * Y)%Q by nra.
  nra.
Qed.

Lemma ltb_value (x y : spec_float) :
  binary32_nonneg x = true -> binary32_nonneg y = true ->
  (SFltb x y = true <-> (value x < value y)%Q).
Proof.
  destruct x as [sx|sx| |[|] mx ex]; cbn [binary32_nonneg]; try discriminate;
    destruct y as [sy|sy| |[|] my ey]; cbn [binary32_nonneg]; try discriminate;
    intros Hx Hy.
  - cbn. split; [discriminate|lra].
  - cbn. split; [|reflexivity]. intros _.
    pose proof (pow2_pos ey). pose proof (inject_Z_pos (Z.pos my) ltac:(lia)). nra.
  - cbn. split; [discriminate|]. intros H.
    pose proof (pow2_pos ex). pose proof (inject_Z_pos (Z.pos mx) ltac:(lia)). nra.
  - unfold SFltb, SFcompare. cbn [value].
    destruct (Z.compare_spec ex ey) as [E|E|E].
    + subst ey. change (Pos.compare_cont Eq mx my) with (Pos.compare mx my).
      pose proof (pow2_pos ex) as Hp.
      destruct (Pos.compare_spec mx my) as [C|C|C].
      * subst my. split; [discriminate|lra].
      * split; [intros _|reflexivity].
        assert (inject_Z (Z.pos mx) < inject_Z (Z.pos my))%Q
          by (rewrite <- Zlt_Qlt; lia).
        nra.
      * split; [discriminate|]. intros H.
        assert (inject_Z (Z.pos my) < inject_Z (Z.pos mx))%Q
          by (rewrite <- Zlt_Qlt; lia).
        nra.
    + split; [intros _|reflexivity]. apply canonical_lt; assumption.
    + split; [discriminate|]. intros H.
      pose proof (canonical_lt my mx ey ex Hy Hx E). lra.
Qed.

Lemma max_value (a b : spec_float) :
  binary32_nonneg a = true -> binary32_nonneg b = true ->
  binary32_nonneg (F32.max a b) = true
  /\ (value a <= value (F32.max a b))%Q /\ (value b <= value (F32.max a b))%Q.
Proof.
  intros Ha Hb. unfold F32.max, F32.gtb.
  pose proof (ltb_value b a Hb Ha) as H.
  destruct (SFltb b a).
  - split; [exact Ha|]. assert (value b < value a)%Q by (apply H; reflexivity). lra.
  - split; [exact Hb|].
    assert (~ (value b < value a)%Q) by (intros C; apply H in C; discriminate). lra.
Qed.

(** ** The exponent of the RGBE encoder *)

Lemma floor_log2_value (m : positive) (x : Z) :
  (2 ^ F32.floor_log2 m x <= inject_Z (Z.pos m) * 2 ^ x
   < 2 ^ (F32.floor_log2 m x + 1))%Q.
Proof.
  unfold F32.floor_log2. pose proof (digits2_pos_bounds m) as [Hlo Hhi].
  set (d := Z.pos (digits2_pos m)) in *.
  assert (Hd : 0 <= d - 1) by (unfold d; lia).
  pose proof (pow2_pos x) as Hx.
  rewrite Zle_Qle in Hlo. rewrite Zlt_Qlt in Hhi.
  rewrite pow2_Z in Hlo by exact Hd. rewrite pow2_Z in Hhi by (unfold d; lia).
  replace (d - 1 + x + 1) with (d + x) by lia. rewrite !pow2_add.
  set (a := inject_Z (Z.pos m)) in *. split; nra.
Qed.

Lemma floor_log2_unique (v : Q) (a b : Z) :
  (2 ^ a <= v < 2 ^ (a + 1))%Q -> (2 ^ b <= v < 2 ^ (b + 1))%Q -> a = b.
Proof.
  intros [Ha1 Ha2] [Hb1 Hb2].
  assert (a < b + 1) by (apply pow2_lt_inv; lra).
  assert (b < a + 1) by (apply pow2_lt_inv; lra).
  lia.
Qed.

Lemma log2f_flat_range (k : Z) : 0 <= F32.log2f_flat k <= 44.
Proof.
  unfold F32.log2f_flat.
  repeat match goal with
         | |- context [if ?b then _ else _] => destruct b
         end; lia.
Qed.

(** The integer test of [F32.ceil_log2f] is the comparison of the number
    with [2^k * (1 + log2f_flat k / 2^23)]. *)
Lemma ceil_log2f_exponent (m : positive) (x : Z) :
  F32.ceil_log2f m x
  = rgbeExponent (inject_Z (Z.pos m) * 2 ^ x) (F32.floor_log2 m x).
Proof.
  unfold F32.ceil_log2f, rgbeExponent. cbv zeta.
  set (k := F32.floor_log2 m x). set (J := F32.log2f_flat k).
  pose proof (digits2_pos_bounds m) as [Hlo Hhi].
  set (d := Z.pos (digits2_pos m)) in *.
  assert (Hd : 0 <= d - 1) by (unfold d; lia).
  assert (Ek : k = d - 1 + x) by reflexivity.
  pose proof (pow2_pos x) as Hx. pose proof (pow2_pos (d - 1)) as HL.
  assert (EL : (inject_Z (2 ^ (d - 1)) == 2 ^ (d - 1))%Q) by (apply pow2_Z; exact Hd).
  assert (Epow : (2 ^ k == 2 ^ (d - 1) * 2 ^ x)%Q) by (rewrite Ek; apply pow2_add).
  destruct (Z.leb_spec ((Z.pos m - 2 ^ (d - 1)) * 8388608) (J * 2 ^ (d - 1))) as [H|H].
  - replace (Qle_bool _ _) with true; [reflexivity|].
    symmetry. apply Qle_bool_iff. rewrite Epow.
    assert (H' : Z.pos m * 8388608 <= J * 2 ^ (d - 1) + 2 ^ (d - 1) * 8388608) by lia.
    clear H. rename H' into H.
    rewrite Zle_Qle in H. rewrite inject_Z_plus, !inject_Z_mult, EL in H.
    change (inject_Z 8388608) with 8388608%Q in *.
    set (a := inject_Z (Z.pos m)) in *. set (L := (2 ^ (d - 1))%Q) in *.
    set (j := inject_Z J) in *. set (X := (2 ^ x)%Q) in *.
    assert (E : (L * X * (1 + j / 8388608) - a * X
                 == X * ((j * L + L * 8388608 - a * 8388608) / 8388608))%Q) by field.
    assert (0 <= (j * L + L * 8388608 - a * 8388608) / 8388608)%Q
      by (apply Qle_shift_div_l; lra).
    nra.
  - replace (Qle_bool _ _) with false; [reflexivity|].
    symmetry. apply not_true_iff_false. rewrite Qle_bool_iff. rewrite Epow.
    assert (H' : J * 2 ^ (d - 1) + 2 ^ (d - 1) * 8388608 < Z.pos m * 8388608) by lia.
    clear H. rename H' into H.
    rewrite Zlt_Qlt in H. rewrite inject_Z_plus, !inject_Z_mult, EL in H.
    change (inject_Z 8388608) with 8388608%Q in *.
    set (a := inject_Z (Z.pos m)) in *. set (L := (2 ^ (d - 1))%Q) in *.
    set (j := inject_Z J) in *. set (X := (2 ^ x)%Q) in *.
    assert (E : (a * X - L * X * (1 + j / 8388608)
                 == X * ((a * 8388608 - (j * L + L * 8388608)) / 8388608))%Q) by field.
    assert (0 < (a * 8388608 - (j * L + L * 8388608)) / 8388608)%Q
      by (apply Qlt_shift_div_l; lra).
    nra.
Qed.

Lemma float_eqb_eq (x y : spec_float) : float_eqb x y = true -> x = y.
Proof.
  destruct x as [s|s| |s m e], y as [t|t| |t n f]; cbn; try discriminate.
  - intros H. apply Bool.eqb_prop in H. congruence.
  - intros H. apply Bool.eqb_prop in H. congruence.
  - reflexivity.
  - rewrite !andb_true_iff. intros [[H1 H2] H3].
    apply Bool.eqb_prop in H1. apply Pos.eqb_eq in H2. apply Z.eqb_eq in H3.
    congruence.
Qed.

Lemma forallb_upto (f : Z -> bool) (n : Z) :
  forallb f (upto n) = true -> forall i, 0 <= i < n -> f i = true.
Proof.
  intros H i Hi. rewrite forallb_forall in H. apply H, in_upto. exact Hi.
Qed.

Lemma rgbeExponentOk_range (e : Z) : -120 <= e <= 127 -> rgbeExponentOk e = true.
Proof.
  intros He.
  assert (H : forallb (fun i => rgbeExponentOk (i - 120)) (upto 248) = true)
    by (vm_compute; reflexivity).
  pose proof (forallb_upto _ _ H (e + 120) ltac:(lia)) as Hk. cbv beta in Hk.
  replace (e + 120 - 120) with e in Hk by lia. exact Hk.
Qed.

Lemma rgbeExponent_steps (e : Z) :
  -120 <= e <= 127 ->
  F32.to_int (F32.of_Z e) = Some e
  /\ F32.to_u8 (F32.add (F32.of_Z e) (F32.of_Z 128)) = Some (e + 128)
  /\ F32.div (F32.mul (F32.of_Z 255) F32.one) (F32.ldexp F32.one e) = rgbeScale e.
Proof.
  intros He. pose proof (rgbeExponentOk_range e He) as H. unfold rgbeExponentOk in H.
  destruct (F32.to_int (F32.of_Z e)) as [z|]; [|discriminate].
  destruct (F32.to_u8 (F32.add (F32.of_Z e) (F32.of_Z 128))) as [b|]; [|discriminate].
  rewrite !andb_true_iff in H. destruct H as [[Hz Hb] Hs].
  apply Z.eqb_eq in Hz. apply Z.eqb_eq in Hb. apply float_eqb_eq in Hs.
  subst. auto.
Qed.

Lemma rgbeScale_value (e : Z) : (value (rgbeScale e) == 255 / 2 ^ e)%Q.
Proof.
  unfold rgbeScale. cbn [value].
  replace (- e - 16) with (- e + -16) by lia. rewrite pow2_add, Qpower_opp.
  change (2 ^ (-16))%Q with (1 # 65536)%Q.
  change (inject_Z 16711680) with (255 * 65536)%Q.
  field. pose proof (pow2_pos e). lra.
Qed.

(** One channel: the product with the factor stays below 256, so the
    conversion to [uint8_t] is defined and is the floor of the product. *)
Lemma rgbe_channel (c : spec_float) (e : Z) :
  binary32_nonneg c = true -> (value c <= 2 ^ e * (1 + (1 # 131072)))%Q ->
  -120 <= e <= 127 ->
  F32.to_u8 (F32.mul c (rgbeScale e))
  = Some (Qfloor (value (F32.mul c (rgbeScale e))))
  /\ 0 <= Qfloor (value (F32.mul c (rgbeScale e))) <= 255.
Proof.
  intros Hc Hv He.
  assert (Hgoal : finite_nonneg (F32.mul c (rgbeScale e))
                  /\ (value (F32.mul c (rgbeScale e)) < inject_Z (2 ^ 8))%Q).
  { destruct c as [s|s| |[|] m x]; cbn [binary32_nonneg] in Hc; try discriminate.
    - split; [exact I|]. cbn. reflexivity.
    - destruct (mantissa_bounds m x Hc) as [Hm _].
      pose proof (pow2_pos x) as Hx. pose proof (pow2_pos e) as Hpe.
      cbn [value] in Hv.
      assert (Hxe : x <= e).
      { assert (x < e + 1); [|lia]. apply pow2_lt_inv.
        rewrite (pow2_add e 1). change (2 ^ 1)%Q with 2%Q.
        assert (1 <= inject_Z (Z.pos m))%Q
          by (change (inject_Z 1 <= inject_Z (Z.pos m))%Q; rewrite <- Zle_Qle; lia).
        nra. }
      destruct (mul_value m 16711680 x (- e - 16)) as (m1 & e1 & Hres & Hm1 & He1 & _ & _ & Hhi).
      + assert (Zdigits2 (Z.pos (m * 16711680)) <= 48); [|lia].
        apply Zdigits2_le. change (2 ^ 48) with (16777216 * 16777216). lia.
      + lia.
      + unfold rgbeScale. rewrite Hres. split; [apply finite_nonneg_packed; lia|].
        fold (rgbeScale e) in Hhi. rewrite rgbeScale_value in Hhi. cbn [value] in Hhi.
        unfold unitRoundoff, halfSubnormal in Hhi.
        pose proof (pow2_le (-150) (-24) ltac:(lia)) as Heta.
        change (2 ^ (-24))%Q with (1 # 16777216)%Q in *.
        set (H := (2 ^ (-150))%Q) in *. pose proof (pow2_pos (-150)) as HH. fold H in HH.
        change (inject_Z (2 ^ 8)) with 256%Q.
        set (t := value (packed false m1 e1)) in *.
        set (a := (inject_Z (Z.pos m) * 2 ^ x)%Q) in *.
        assert (Ha : (a * (255 / 2 ^ e) <= 255 * (1 + (1 # 131072)))%Q).
        { assert (a / 2 ^ e <= 1 + (1 # 131072))%Q by (apply Qle_shift_div_r; lra).
          assert (a * (255 / 2 ^ e) == 255 * (a / 2 ^ e))%Q by (field; lra).
          lra. }
        set (v := (a * (255 / 2 ^ e))%Q) in *.
        assert (0 <= a)%Q by (unfold a; pose proof (inject_Z_pos (Z.pos m) ltac:(lia)); nra).
        nra. }
  destruct Hgoal as [Hf Hlt].
  destruct (to_unsigned_value 8 _ Hf Hlt) as [E R].
  split; [exact E|]. change (2 ^ 8) with 256 in R. lia.
Qed.

(** ** Exact results *)

Lemma nearest_exact (N B m : Z) : 0 < B -> N mod B = 0 -> nearest N B m -> m = N / B.
Proof. intros HB Hr [[-> _]|[_ H]]; [reflexivity|lia]. Qed.

(** A number of the format, written with [k] more bits, rounds to itself. *)
Lemma round_representable (s : bool) (m : positive) (e k : Z) :
  bounded 24 128 m e = true -> 0 <= k ->
  binary_round_aux 24 128 s (Z.pos m * 2 ^ k) (e - k) loc_Exact = S754_finite s m e.
Proof.
  intros Hb Hk. destruct (bounded32 m e Hb) as (He & Hd & _).
  destruct (mantissa_bounds m e Hb) as [Hm _].
  assert (H2k : 0 < 2 ^ k) by (apply Z.pow_pos_nonneg; lia).
  assert (Hdig : Zdigits2 (Z.pos m * 2 ^ k) = Zdigits2 (Z.pos m) + k).
  { pose proof (Zdigits2_bounds (Z.pos m) ltac:(lia)) as [Hlo Hhi].
    apply Zdigits2_unique; [nia|].
    replace (Zdigits2 (Z.pos m) + k - 1) with (Zdigits2 (Z.pos m) - 1 + k) by lia.
    rewrite !Z.pow_add_r by (cbn [Zdigits2] in *; lia). nia. }
  assert (Hcan : fexp 24 128 (Zdigits2 (Z.pos m) + e) = e).
  { unfold bounded, canonical_mantissa in Hb. apply andb_true_iff in Hb as [Hc _].
    apply Z.eqb_eq in Hc. exact Hc. }
  destruct (binary_round_aux_spec s (Z.pos m * 2 ^ k) 1 (Z.pos m * 2 ^ k) (e - k) loc_Exact)
    as (m1 & Hnear & _ & _ & Hres).
  { apply exact_locates. nia. }
  rewrite Hres. rewrite Hdig in *.
  replace (Zdigits2 (Z.pos m) + k + (e - k)) with (Zdigits2 (Z.pos m) + e) in * by lia.
  rewrite Hcan in *. replace (Z.max 0 (e - (e - k))) with k in * by lia.
  rewrite Z.mul_1_l in Hnear.
  apply nearest_exact in Hnear; [|exact H2k|apply Z.mod_mul; lia].
  rewrite Z.div_mul in Hnear by lia. subst m1.
  replace (e - k + k) with e by lia. unfold packed.
  replace (Z.pos m =? 16777216) with false by (symmetry; apply Z.eqb_neq; lia).
  replace (e <=? 104) with true by (symmetry; apply Z.leb_le; lia).
  reflexivity.
Qed.

Lemma iter_xO (p k : positive) : Z.pos (Pos.iter xO p k) = Z.pos p * 2 ^ Z.pos k.
Proof.
  induction k as [|k IH] using Pos.peano_ind.
  - cbn. lia.
  - rewrite Pos.iter_succ, Pos2Z.inj_xO, IH, Pos2Z.inj_succ, Z.pow_succ_r by lia. ring.
Qed.

(** [float(z)] is exact up to 24 bits: a full mantissa and the value [z]. *)
Lemma of_Z_exact (z : Z) :
  0 < z < 16777216 ->
  exists m e,
    F32.of_Z z = S754_finite false m e
    /\ -23 <= e <= 0 /\ 8388608 <= Z.pos m < 16777216 /\ Z.pos m = z * 2 ^ (- e).
Proof.
  intros Hz. destruct z as [|p|p]; try lia.
  pose proof (digits2_pos_bounds p) as [Hlo Hhi].
  assert (Hd : Z.pos (digits2_pos p) <= 24)
    by (apply (Zdigits2_le (Z.pos p)); change (2 ^ 24) with 16777216; lia).
  set (d := Z.pos (digits2_pos p)) in *.
  assert (Hd1 : 1 <= d) by (unfold d; lia).
  assert (Hm : 8388608 <= Z.pos p * 2 ^ (24 - d) < 16777216).
  { assert (E1 : 2 ^ (d - 1) * 2 ^ (24 - d) = 8388608)
      by (rewrite <- Z.pow_add_r by lia; replace (d - 1 + (24 - d)) with 23 by lia;
          reflexivity).
    assert (E2 : 2 ^ d * 2 ^ (24 - d) = 16777216)
      by (rewrite <- Z.pow_add_r by lia; replace (d + (24 - d)) with 24 by lia;
          reflexivity).
    assert (0 < 2 ^ (24 - d)) by (apply Z.pow_pos_nonneg; lia). nia. }
  assert (Hb : forall mz, Z.pos mz = Z.pos p * 2 ^ (24 - d) ->
                          bounded 24 128 mz (d - 24) = true).
  { intros mz E. unfold bounded, canonical_mantissa.
    assert (Hdz : Z.pos (digits2_pos mz) = 24).
    { apply (Zdigits2_unique (Z.pos mz)); [lia|].
      change (2 ^ (24 - 1)) with 8388608. change (2 ^ 24) with 16777216. lia. }
    rewrite Hdz, fexp32. apply andb_true_iff. split; [apply Z.eqb_eq|apply Z.leb_le]; lia. }
  unfold F32.of_Z, binary_normalize, binary_round. fold d. rewrite fexp32.
  replace (Z.max (d + 0 - 24) (-149)) with (d - 24) by lia.
  unfold shl_align. destruct (d - 24 - 0) as [|k|k] eqn:Ek; try lia.
  - assert (d = 24) by lia. replace (24 - d) with 0 in * by lia.
    rewrite Z.pow_0_r, Z.mul_1_r in *.
    pose proof (round_representable false p 0 0) as R.
    rewrite Z.pow_0_r, Z.mul_1_r, Z.sub_0_r in R.
    rewrite R; [|replace 0 with (d - 24) by lia; apply Hb; lia|lia].
    exists p, 0. split; [reflexivity|]. split; [lia|]. split; [lia|]. cbn. lia.
  - assert (Hk : Z.pos k = 24 - d) by lia.
    pose proof (iter_xO p k) as Hi. rewrite Hk in Hi.
    pose proof (round_representable false (Pos.iter xO p k) (d - 24) 0) as R.
    rewrite Z.pow_0_r, Z.mul_1_r, Z.sub_0_r in R.
    rewrite R; [|apply Hb; exact Hi|lia].
    exists (Pos.iter xO p k), (d - 24). split; [reflexivity|]. split; [lia|].
    split; [lia|]. rewrite Hi. f_equal. f_equal. lia.
Qed.

Lemma of_Z_value (z : Z) : 0 < z < 16777216 -> (value (F32.of_Z z) == inject_Z z)%Q.
Proof.
  intros Hz. destruct (of_Z_exact z Hz) as (m & e & -> & He & _ & Hm).
  cbn [value]. rewrite Hm, inject_Z_mult, pow2_Z by lia. rewrite <- Qmult_assoc.
  rewrite <- pow2_add. replace (- e + e) with 0 by lia. change (2 ^ 0)%Q with 1%Q. ring.
Qed.

(** [x * 1.0f] is [x]. *)
Lemma mul_one (x : spec_float) :
  valid_binary 24 128 x = true -> F32.mul x F32.one = x.
Proof.
  destruct x as [s|s| |s m e]; cbn [valid_binary]; intros Hb.
  - cbn. destruct s; reflexivity.
  - cbn. destruct s; reflexivity.
  - reflexivity.
  - unfold F32.mul, F32.one, SFmul.
    replace (xorb s false) with s by (destruct s; reflexivity).
    pose proof (round_representable s m e 23 Hb ltac:(lia)) as R.
    change (2 ^ 23) with 8388608 in R. rewrite <- Pos2Z.inj_mul in R.
    replace (e + -23) with (e - 23) by lia. exact R.
Qed.

Lemma add_zero (x : spec_float) : F32.add F32.zero x = plusZero x.
Proof. destruct x as [[|]|s| |s m e]; reflexivity. Qed.

Lemma plusZero_valid (x : spec_float) :
  valid_binary 24 128 x = true -> valid_binary 24 128 (plusZero x) = true.
Proof. destruct x; cbn; auto. Qed.

(** One sample with weight one: [(0.0f + x) * (1.0f / float(1))]. *)
Lemma resample_channel (x : spec_float) :
  valid_binary 24 128 x = true ->
  F32.mul (F32.add F32.zero x) (F32.div F32.one (F32.of_Z (max 1 1))) = plusZero x.
Proof.
  intros Hx. rewrite add_zero.
  replace (F32.div F32.one (F32.of_Z (max 1 1))) with F32.one by (vm_compute; reflexivity).
  apply mul_one, plusZero_valid, Hx.
Qed.

(** Every 32-bit pattern loads as a number of the format. *)
Lemma of_bits_valid (w : Z) : valid_binary 24 128 (F32.of_bits w) = true.
Proof.
  unfold F32.of_bits.
  assert (He : 0 <= Z.land (Z.shiftr w 23) 255 < 256).
  { change 255 with (Z.ones 8). rewrite Z.land_ones by lia.
    change (2 ^ 8) with 256. apply Z.mod_pos_bound. lia. }
  assert (Hf : 0 <= Z.land w 8388607 < 8388608).
  { change 8388607 with (Z.ones 23). rewrite Z.land_ones by lia.
    change (2 ^ 23) with 8388608. apply Z.mod_pos_bound. lia. }
  set (e := Z.land (Z.shiftr w 23) 255) in *. set (f := Z.land w 8388607) in *.
  destruct (Z.eqb_spec e 0) as [E0|E0].
  - destruct f as [|p|p] eqn:Ef; try reflexivity. cbn [valid_binary].
    unfold bounded, canonical_mantissa. rewrite fexp32.
    assert (Z.pos (digits2_pos p) <= 23)
      by (apply (Zdigits2_le (Z.pos p)); change (2 ^ 23) with 8388608; lia).
    apply andb_true_iff. split; [apply Z.eqb_eq|apply Z.leb_le]; lia.
  - destruct (Z.eqb_spec e 255) as [E1|E1].
    + destruct (f =? 0); reflexivity.
    + cbn [valid_binary]. unfold bounded, canonical_mantissa. rewrite fexp32.
      assert (Hd : Z.pos (digits2_pos (Z.to_pos (f + 8388608))) = 24).
      { apply (Zdigits2_unique (Z.pos (Z.to_pos (f + 8388608)))); [lia|].
        rewrite Z2Pos.id by lia.
        change (2 ^ (24 - 1)) with 8388608. change (2 ^ 24) with 16777216. lia. }
      rewrite Hd. apply andb_true_iff. split; [apply Z.eqb_eq|apply Z.leb_le]; lia.
Qed.

(** ** Division *)

Lemma new_location_locates (N D : Z) :
  0 < D -> 0 <= N ->
  locates N D (shr_record_of_loc (N / D) (new_location D (N mod D))).
Proof.
  intros HD HN. pose proof (Z.mod_pos_bound N D HD) as Hr.
  unfold locates. rewrite shr_m_of_loc.
  split; [exact HD|]. split; [exact HN|]. split; [reflexivity|].
  unfold new_location, new_location_even, new_location_odd.
  destruct (Z.even D) eqn:Ev.
  - destruct (Z.eqb_spec (N mod D) 0) as [E|E].
    + cbn [shr_record_of_loc shr_r shr_s]. rewrite E. split; split; try discriminate; lia.
    + destruct (Z.compare_spec (2 * (N mod D)) D) as [C|C|C]; cbn [shr_record_of_loc shr_r shr_s];
        split; split; try discriminate; try reflexivity; lia.
  - assert (Hodd : forall k, D <> 2 * k).
    { intros k Hk. rewrite Hk, Z.even_mul in Ev. discriminate. }
    destruct (Z.eqb_spec (N mod D) 0) as [E|E].
    + cbn [shr_record_of_loc shr_r shr_s]. rewrite E. split; split; try discriminate; lia.
    + pose proof (Hodd (N mod D)).
      destruct (Z.compare_spec (2 * (N mod D) + 1) D) as [C|C|C]; cbn [shr_record_of_loc shr_r shr_s];
        split; split; try discriminate; try reflexivity; lia.
Qed.

(** The quotient of two positive floats with full mantissas: [SFdiv]
    rounds the exact quotient. *)
Lemma div_value (mx my : positive) (ex ey : Z) :
  8388608 <= Z.pos mx < 16777216 -> 8388608 <= Z.pos my < 16777216 ->
  -100 <= ex - ey <= 100 ->
  exists m1 e1,
    F32.div (S754_finite false mx ex) (S754_finite false my ey) = packed false m1 e1
    /\ 0 <= m1 <= 16777216 /\ ex - ey - 24 <= e1 <= ex - ey - 23
    /\ (value (S754_finite false mx ex) / value (S754_finite false my ey)
          * (1 - unitRoundoff) - halfSubnormal
        <= value (packed false m1 e1)
        <= value (S754_finite false mx ex) / value (S754_finite false my ey)
             * (1 + unitRoundoff) + halfSubnormal)%Q.
Proof.
  intros Hx Hy He.
  assert (Hdx : Zdigits2 (Z.pos mx) = 24)
    by (apply Zdigits2_unique; [lia|];
        change (2 ^ (24 - 1)) with 8388608; change (2 ^ 24) with 16777216; lia).
  assert (Hdy : Zdigits2 (Z.pos my) = 24)
    by (apply Zdigits2_unique; [lia|];
        change (2 ^ (24 - 1)) with 8388608; change (2 ^ 24) with 16777216; lia).
  unfold F32.div, SFdiv, SFdiv_core_binary. rewrite Hdx, Hdy, fexp32.
  replace (Z.min (Z.max (24 + ex - (24 + ey) - 24) (-149)) (ex - ey))
    with (ex - ey - 24) by lia.
  replace (ex - ey - (ex - ey - 24)) with 24 by lia.
  rewrite Z.shiftl_mul_pow2 by lia. change (2 ^ 24) with 16777216.
  set (N := Z.pos mx * 16777216).
  assert (Hqr : Z.div_eucl N (Z.pos my) = (N / Z.pos my, N mod Z.pos my))
    by (unfold Z.div, Z.modulo; destruct (Z.div_eucl N (Z.pos my)); reflexivity).
  rewrite Hqr. cbn [xorb].
  assert (HN : 0 <= N) by (unfold N; lia).
  assert (Hq : 8388608 <= N / Z.pos my < 33554432).
  { split.
    - apply Z.div_le_lower_bound; unfold N; lia.
    - apply Z.div_lt_upper_bound; unfold N; lia. }
  assert (Hdq : 24 <= Zdigits2 (N / Z.pos my) <= 25).
  { split.
    - pose proof (Zdigits2_bounds (N / Z.pos my) ltac:(lia)) as [_ Hhi].
      destruct (Z_le_gt_dec 24 (Zdigits2 (N / Z.pos my))) as [H|H]; [exact H|].
      assert (2 ^ Zdigits2 (N / Z.pos my) <= 2 ^ 23) by (apply Z.pow_le_mono_r; lia).
      change (2 ^ 23) with 8388608 in *. lia.
    - apply Zdigits2_le. change (2 ^ 25) with 33554432. lia. }
  destruct (round_value N (Z.pos my) (N / Z.pos my) (ex - ey - 24)
              (new_location (Z.pos my) (N mod Z.pos my)))
    as (m1 & Hres & Hm1 & He1 & Hlo & Hhi).
  - apply new_location_locates; lia.
  - lia.
  - lia.
  - left. rewrite fexp32. lia.
  - set (e1 := roundedExponent (N / Z.pos my) (ex - ey - 24)) in *.
    exists m1, e1. split; [exact Hres|]. split; [exact Hm1|].
    split; [unfold e1, roundedExponent; rewrite fexp32; lia|].
    rewrite value_packed by lia. cbn [value].
    assert (Hv : (inject_Z N / inject_Z (Z.pos my) * 2 ^ (ex - ey - 24)
                  == inject_Z (Z.pos mx) * 2 ^ ex / (inject_Z (Z.pos my) * 2 ^ ey))%Q).
    { unfold N. rewrite inject_Z_mult.
      replace (ex - ey - 24) with (ex + (- ey + -24)) by lia.
      rewrite !pow2_add, Qpower_opp. change (2 ^ (-24))%Q with (1 # 16777216)%Q.
      change (inject_Z 16777216) with 16777216%Q.
      pose proof (pow2_pos ey). pose proof (inject_Z_pos (Z.pos my) ltac:(lia)).
      field. split; lra. }
    set (v := (inject_Z N / inject_Z (Z.pos my) * 2 ^ (ex - ey - 24))%Q) in *.
    set (w := (inject_Z (Z.pos mx) * 2 ^ ex / (inject_Z (Z.pos my) * 2 ^ ey))%Q) in *.
    set (t := (inject_Z m1 * 2 ^ e1)%Q) in *.
    unfold unitRoundoff, halfSubnormal in *.
    set (U := (2 ^ (-24))%Q) in *. set (H := (2 ^ (-150))%Q) in *.
    split; nra.
Qed.

(** ** The sampling coordinates of an upscale *)

Lemma i32_small (z : Z) : 0 <= z < 2147483648 -> i32 z = z.
Proof.
  intros H. unfold i32. rewrite u32_small by lia.
  replace (z <? 2147483648) with true by (symmetry; apply Z.ltb_lt; lia). reflexivity.
Qed.

Lemma tiny_halfSubnormal : (0 < halfSubnormal <= 1 # 1152921504606846976)%Q.
Proof.
  unfold halfSubnormal. split; [apply pow2_pos|].
  change (1 # 1152921504606846976)%Q with (2 ^ (-60))%Q. apply pow2_le. lia.
Qed.

Lemma injected_bounds (a b c : Z) :
  a <= b <= c -> (inject_Z a <= inject_Z b <= inject_Z c)%Q.
Proof. intros [H1 H2]. rewrite <- !Zle_Qle. split; assumption. Qed.

(** The ratio of an upscale is a positive float close to [w / W]. *)
Lemma resizeRatio_value (w W : Z) :
  1 <= w <= W -> W <= 4194304 ->
  exists p e,
    resizeRatio w W = S754_finite false p e
    /\ Z.pos p <= 16777216 /\ -47 <= e <= 1
    /\ (inject_Z w / inject_Z W * (1 - unitRoundoff) - halfSubnormal
        <= value (S754_finite false p e)
        <= inject_Z w / inject_Z W * (1 + unitRoundoff) + halfSubnormal)%Q.
Proof.
  intros Hw HW. unfold resizeRatio. rewrite !i32_small by lia.
  destruct (of_Z_exact w ltac:(lia)) as (mw & ew & Ew & Hew & Hmw & _).
  destruct (of_Z_exact W ltac:(lia)) as (mW & eW & EW & HeW & HmW & _).
  pose proof (of_Z_value w ltac:(lia)) as Vw. pose proof (of_Z_value W ltac:(lia)) as VW.
  rewrite Ew in *. rewrite EW in *.
  destruct (div_value mw mW ew eW Hmw HmW ltac:(lia))
    as (m1 & e1 & Hres & Hm1 & He1 & Hlo & Hhi).
  rewrite Hres.
  assert (Hwq : (1 <= inject_Z w)%Q) by (apply (injected_bounds 1 w w); lia).
  assert (HWq : (inject_Z w <= inject_Z W <= 4194304)%Q)
    by (apply (injected_bounds w W 4194304); lia).
  set (vw := value (S754_finite false mw ew)) in *.
  set (vW := value (S754_finite false mW eW)) in *.
  assert (Hrho : (vw / vW == inject_Z w / inject_Z W)%Q) by (rewrite Vw, VW; reflexivity).
  assert (Hrho0 : (1 # 4194304 <= inject_Z w / inject_Z W)%Q).
  { apply Qle_shift_div_l; lra. }
  pose proof tiny_halfSubnormal as [Heta0 Heta].
  unfold unitRoundoff in *. change (2 ^ (-24))%Q with (1 # 16777216)%Q in *.
  set (rho := (inject_Z w / inject_Z W)%Q) in *. set (q := (vw / vW)%Q) in *.
  set (H := halfSubnormal) in *.
  destruct (packed_cases false m1 e1 ltac:(lia) ltac:(lia))
    as [[Hz Hp]|(p & e' & Hp & He' & Hpm)].
  - rewrite Hp in Hlo. cbn [value] in Hlo. nra.
  - rewrite Hp in *. exists p, e'. split; [reflexivity|].
    assert (0 < 2 ^ (e' - e1)) by (apply Z.pow_pos_nonneg; lia).
    split; [nia|]. split; [lia|]. split; nra.
Qed.

Lemma resizeRatio_weight (w W : Z) :
  1 <= w <= W -> W <= 4194304 ->
  exists k, F32.to_u32 (resizeRatio w W) = Some k /\ max 1 k = 1.
Proof.
  intros Hw HW. destruct (resizeRatio_value w W Hw HW) as (p & e & -> & _ & _ & _ & Hhi).
  assert (Hwq : (1 <= inject_Z w)%Q) by (apply (injected_bounds 1 w w); lia).
  assert (HWq : (inject_Z w <= inject_Z W <= 4194304)%Q)
    by (apply (injected_bounds w W 4194304); lia).
  assert (Hrho : (inject_Z w / inject_Z W <= 1)%Q) by (apply Qle_shift_div_r; lra).
  pose proof tiny_halfSubnormal as [Heta0 Heta].
  unfold unitRoundoff in *. change (2 ^ (-24))%Q with (1 # 16777216)%Q in *.
  set (v := value (S754_finite false p e)) in *.
  destruct (to_unsigned_value 32 (S754_finite false p e) I) as [E R].
  { fold v. change (inject_Z (2 ^ 32)) with 4294967296%Q. lra. }
  exists (Qfloor v). split; [exact E|].
  assert (Qfloor v < 2).
  { rewrite Zlt_Qlt. pose proof (Qfloor_le v). change (inject_Z 2) with 2%Q. lra. }
  unfold max. destruct (1 >? Qfloor v) eqn:C; lia.
Qed.

(** The sample of an upscale lies inside the source. *)
Lemma resizeCoord_inside (w W x : Z) :
  1 <= w <= W -> W <= 4194304 -> 0 <= x < W ->
  exists xs, resizeCoord w W x = Some xs /\ 0 <= xs < w.
Proof.
  intros Hw HW Hx. unfold resizeCoord.
  destruct (resizeRatio_value w W Hw HW) as (p & e & -> & Hp & He & Hlo & Hhi).
  destruct (Z.eq_dec x 0) as [->|Hx0].
  - exists 0. split; [reflexivity|lia].
  - destruct (of_Z_exact x ltac:(lia)) as (mx & ex & Ex & Hex & Hmx & _).
    pose proof (of_Z_value x ltac:(lia)) as Vx. rewrite Ex in *.
    destruct (mul_value mx p ex e) as (m2 & e2 & Hres & Hm2 & He2 & _ & _ & Hmul).
    { assert (Zdigits2 (Z.pos (mx * p)) <= 48); [|lia].
      apply Zdigits2_le. change (2 ^ 48) with (16777216 * 16777216). nia. }
    { lia. }
    rewrite Hres.
    assert (Hwq : (1 <= inject_Z w)%Q) by (apply (injected_bounds 1 w w); lia).
    assert (HWq : (inject_Z w <= inject_Z W <= 4194304)%Q)
      by (apply (injected_bounds w W 4194304); lia).
    assert (Hxq : (0 <= inject_Z x <= inject_Z W - 1)%Q).
    { replace (inject_Z W - 1)%Q with (inject_Z (W - 1)).
      - apply (injected_bounds 0 x (W - 1)); lia.
      - unfold Z.sub. rewrite inject_Z_plus. reflexivity. }
    pose proof tiny_halfSubnormal as [Heta0 Heta].
    unfold unitRoundoff in *. change (2 ^ (-24))%Q with (1 # 16777216)%Q in *.
    set (H := halfSubnormal) in *.
    set (vx := value (S754_finite false mx ex)) in *.
    set (r := value (S754_finite false p e)) in *.
    set (t := value (packed false m2 e2)) in *.
    set (wq := inject_Z w) in *. set (Wq := inject_Z W) in *. set (xq := inject_Z x) in *.
    assert (HrW : (wq / Wq * Wq == wq)%Q) by (field; lra).
    set (rho := (wq / Wq)%Q) in *.
    assert (Hrho0 : (0 <= rho)%Q) by nra.
    assert (Hrho1 : (wq <= rho * 4194304)%Q) by nra.
    assert (Hxr : (xq * rho <= wq - rho)%Q) by nra.
    assert (Hr0 : (0 <= r)%Q) by nra.
    assert (Hxr1 : (vx * r <= (wq - rho) * (1 + (1 # 16777216)) + 4194304 * H)%Q).
    { assert (vx * r <= xq * (rho * (1 + (1 # 16777216)) + H))%Q by nra.
      assert (xq * H <= 4194304 * H)%Q by nra.
      nra. }
    assert (Ht : (t < wq)%Q).
    { assert (0 <= vx * r)%Q by nra.
      assert (t <= ((wq - rho) * (1 + (1 # 16777216)) + 4194304 * H)
                   * (1 + (1 # 16777216)) + H)%Q by nra.
      nra. }
    destruct (to_unsigned_value 32 (packed false m2 e2)) as [E R].
    { apply finite_nonneg_packed; lia. }
    { fold t. change (inject_Z (2 ^ 32)) with 4294967296%Q. lra. }
    fold t in E, R. exists (Qfloor t). split; [exact E|]. split; [lia|].
    rewrite Zlt_Qlt. pose proof (Qfloor_le t). fold wq. lra.
Qed.

(** ** [imageResize] on an upscale *)

Lemma for_range_one {S : Type} (start : Z) (body : Z -> S -> outcome S) (s r : S) :
  body start s = Done r -> for_range start (start + 1) body s = Done r.
Proof.
  intros H. unfold for_range. replace (start + 1 - start) with 1 by lia.
  change (Z.to_nat 1) with 1%nat. cbn [loop]. rewrite H. reflexivity.
Qed.

Lemma slice_ext (a b : bytes) (off n : Z) :
  0 <= off -> 0 <= n -> off + n <= len a -> len b = n ->
  (forall j, 0 <= j < n -> byte_at a (off + j) = byte_at b j) ->
  slice a off n = b.
Proof.
  intros Ho Hn Ha Hb H. apply bytes_ext.
  - rewrite len_slice by lia. lia.
  - intros i Hi. rewrite len_slice in Hi by lia.
    rewrite byte_at_slice by lia. apply H. exact Hi.
Qed.

Lemma f32_at_valid (px : bytes) (i : Z) : valid_binary 24 128 (f32_at px i) = true.
Proof. unfold f32_at, F32.load. apply of_bits_valid. Qed.

Lemma len_store (x : F32.float) : len (F32.store x) = 4.
Proof. reflexivity. Qed.

Lemma len_storePixel (p : rgba32f) : len (storePixel p) = 16.
Proof. reflexivity. Qed.

(** One destination pixel of an upscale: one sample, taken at the
    coordinates [resizeCoord] gives. *)
Lemma resizePixel_upscale (srcData : bytes) (srcFaceOffset srcPitch : Z)
    (w W h H x y xs ys kx ky : Z) :
  resizeCoord w W x = Some xs -> resizeCoord h H y = Some ys ->
  F32.to_u32 (resizeRatio w W) = Some kx -> max 1 kx = 1 ->
  F32.to_u32 (resizeRatio h H) = Some ky -> max 1 ky = 1 ->
  0 <= xs < 4294967295 -> 0 <= ys < 4294967295 ->
  0 <= srcFaceOffset + u32 (ys * srcPitch) + u32 (xs * 16) ->
  srcFaceOffset + u32 (ys * srcPitch) + u32 (xs * 16) + 12 <= len srcData ->
  resizePixel srcData srcFaceOffset srcPitch (resizeRatio w W) (resizeRatio h H) x y
  = Done (resampled
            (slice srcData (srcFaceOffset + u32 (ys * srcPitch) + u32 (xs * 16)) 12)).
Proof.
  intros Hx Hy Hkx Hmx Hky Hmy Hxs Hys Hlo Hhi.
  unfold resizeCoord in Hx, Hy. unfold resizePixel.
  rewrite Hy, Hky. cbn [defined bind]. rewrite Hmy, (u32_small (ys + 1)) by lia.
  erewrite for_range_one.
  2:{ rewrite Hx, Hkx. cbn [defined bind]. rewrite Hmx, (u32_small (xs + 1)) by lia.
      apply for_range_one. rewrite peek_Done by lia. cbn [bind]. reflexivity. }
  cbn [bind accumulate]. unfold resampled.
  set (px := slice srcData (srcFaceOffset + u32 (ys * srcPitch) + u32 (xs * 16)) 12).
  change (u32 (0 + 1)) with 1.
  rewrite !resample_channel by apply f32_at_valid. reflexivity.
Qed.

Lemma resizeData_nest (junk : Z -> Z) (img : Image) (W H : Z) :
  resizeData junk img W H
  = fillNest (m_numFaces img) H (fun _ => W)
      (fun f y x =>
         resizePixel (m_data img) (imageGetFaceOffsets img f) (u32 (m_width img * 16))
                     (resizeRatio (m_width img) W) (resizeRatio (m_height img) H) x y)
      (fun f y x =>
         u32 (f * u32 (u32 (W * 16) * H)) + u32 (y * u32 (W * 16)) + u32 (x * 16))
      (malloc junk (u32 (u32 (u32 (W * 16) * H) * m_numFaces img))).
Proof. reflexivity. Qed.

Section Upscale.

Variable img : Image.
Variables W H : Z.

Hypothesis width_range : 1 <= m_width img <= W.
Hypothesis height_range : 1 <= m_height img <= H.
Hypothesis W_small : W <= 4194304.
Hypothesis H_small : H <= 4194304.
Hypothesis is_rgba32f : m_format img = TextureFormat.RGBA32F.
Hypothesis has_base : 1 <= m_numMips img.
Hypothesis faces_nonneg : 0 <= m_numFaces img.
Hypothesis src_len : len (m_data img) = m_numFaces img * chainBytes img.
Hypothesis src_small : m_numFaces img * chainBytes img < 4294967296.
Hypothesis dst_small : 16 * W * H * m_numFaces img < 4294967296.

Lemma base_level : levelBytes img 0 = m_width img * m_height img * 16.
Proof using All.
  unfold levelBytes, mipDim. rewrite is_rgba32f, !Z.shiftr_0_r.
  unfold max.
  destruct (1 >? m_width img) eqn:E1; destruct (1 >? m_height img) eqn:E2;
    try lia; reflexivity.
Qed.

Lemma base_inside_chain : m_width img * m_height img * 16 <= chainBytes img.
Proof using All.
  rewrite <- base_level. apply level_le_chain. lia.
Qed.

Lemma src_pixel (f ys xs : Z) :
  0 <= f < m_numFaces img -> 0 <= ys < m_height img -> 0 <= xs < m_width img ->
  imageGetFaceOffsets img f + u32 (ys * u32 (m_width img * 16)) + u32 (xs * 16)
  = basePixel img f ys xs
  /\ 0 <= basePixel img f ys xs
  /\ basePixel img f ys xs + 16 <= len (m_data img).
Proof using All.
  intros Hf Hy Hx. pose proof base_inside_chain as Hb.
  pose proof (chainBytes_nonneg img) as Hc.
  assert (Hrow : 0 <= ys * m_width img + xs < m_width img * m_height img) by nia.
  assert (Hface : f * chainBytes img + chainBytes img <= m_numFaces img * chainBytes img)
    by nia.
  assert (0 <= f * chainBytes img) by nia.
  assert (0 <= ys * (m_width img * 16) <= m_width img * m_height img * 16) by nia.
  unfold imageGetFaceOffsets. rewrite mipOffsetAfter_faces by nia.
  rewrite (u32_small (m_width img * 16)) by nia.
  rewrite (u32_small (ys * (m_width img * 16))) by nia.
  rewrite (u32_small (xs * 16)) by nia.
  unfold basePixel. rewrite src_len. split; [ring|]. split; nia.
Qed.

Lemma dst_pixel (f y x : Z) :
  0 <= f < m_numFaces img -> 0 <= y < H -> 0 <= x < W ->
  u32 (f * u32 (u32 (W * 16) * H)) + u32 (y * u32 (W * 16)) + u32 (x * 16)
  = resizedPixel W H f y x
  /\ 0 <= resizedPixel W H f y x
  /\ resizedPixel W H f y x + 16 <= 16 * W * H * m_numFaces img.
Proof using All.
  intros Hf Hy Hx.
  assert (HWH : 0 < W * H) by nia.
  assert (Hrow : 0 <= y * W + x < W * H) by nia.
  assert (Hcell : 0 <= (f * H + y) * W + x < W * H * m_numFaces img).
  { assert ((f * H + y) * W + x = f * (W * H) + (y * W + x)) by ring.
    assert (f * (W * H) + W * H <= m_numFaces img * (W * H)) by nia.
    assert (0 <= f * (W * H)) by nia. nia. }
  assert (HW16 : 0 <= W * 16 < 4294967296) by nia.
  assert (HWH16 : 0 <= W * 16 * H < 4294967296) by nia.
  assert (Hf16 : 0 <= f * (W * 16 * H) < 4294967296) by nia.
  assert (Hy16 : 0 <= y * (W * 16) < 4294967296) by nia.
  rewrite (u32_small (W * 16)) by exact HW16.
  rewrite (u32_small (W * 16 * H)) by exact HWH16.
  rewrite (u32_small (f * (W * 16 * H))) by exact Hf16.
  rewrite (u32_small (y * (W * 16))) by exact Hy16.
  rewrite (u32_small (x * 16)) by nia.
  unfold resizedPixel. split; [ring|]. split; nia.
Qed.

Lemma resizedPixel_disjoint (f y x f' y' x' : Z) :
  0 <= y < H -> 0 <= x < W -> 0 <= y' < H -> 0 <= x' < W ->
  0 <= f -> 0 <= f' ->
  (f, y, x) <> (f', y', x') ->
  resizedPixel W H f y x + 16 <= resizedPixel W H f' y' x'
  \/ resizedPixel W H f' y' x' + 16 <= resizedPixel W H f y x.
Proof using All.
  intros Hy Hx Hy' Hx' Hf Hf' Hne. unfold resizedPixel.
  assert (Hk : (f * H + y) * W + x <> (f' * H + y') * W + x').
  { intros E. apply Hne.
    assert (E1 : f * H + y = f' * H + y') by nia.
    assert (E2 : x = x') by nia.
    assert (E3 : f = f') by nia.
    assert (E4 : y = y') by nia.
    congruence. }
  lia.
Qed.

Lemma resized_size :
  u32 (u32 (u32 (W * 16) * H) * m_numFaces img) = 16 * W * H * m_numFaces img.
Proof using All.
  assert (0 < W * H) by nia.
  destruct (Z.eq_dec (m_numFaces img) 0) as [E|E].
  - rewrite E, !Z.mul_0_r. reflexivity.
  - assert (0 <= W * 16 * H < 4294967296) by nia.
    rewrite (u32_small (W * 16)) by nia.
    rewrite (u32_small (W * 16 * H)) by lia.
    rewrite u32_small by nia. ring.
Qed.

(** The buffer [imageResize] fills: every destination pixel is the
    resampled source pixel at the coordinates [resizeCoord] gives, and
    those lie inside the source. *)
Lemma resizeData_upscale (junk : Z -> Z) :
  exists data,
    resizeData junk img W H = Done data
    /\ len data = 16 * W * H * m_numFaces img
    /\ forall f y x,
         0 <= f < m_numFaces img -> 0 <= y < H -> 0 <= x < W ->
         exists xs ys,
           resizeCoord (m_width img) W x = Some xs /\ 0 <= xs < m_width img
           /\ resizeCoord (m_height img) H y = Some ys /\ 0 <= ys < m_height img
           /\ slice data (resizedPixel W H f y x) 16
              = resampled (slice (m_data img) (basePixel img f ys xs) 12).
Proof using All.
  destruct (resizeRatio_weight (m_width img) W width_range W_small) as (kx & Hkx & Hmx).
  destruct (resizeRatio_weight (m_height img) H height_range H_small) as (ky & Hky & Hmy).
  assert (Hcoord : forall y x, 0 <= y < H -> 0 <= x < W ->
            exists xs ys,
              resizeCoord (m_width img) W x = Some xs /\ 0 <= xs < m_width img
              /\ resizeCoord (m_height img) H y = Some ys /\ 0 <= ys < m_height img).
  { intros y x Hy Hx.
    destruct (resizeCoord_inside (m_width img) W x width_range W_small Hx) as (xs & E1 & R1).
    destruct (resizeCoord_inside (m_height img) H y height_range H_small Hy) as (ys & E2 & R2).
    exists xs, ys. auto. }
  set (blk := fun f y x : Z =>
         match resizeCoord (m_width img) W x, resizeCoord (m_height img) H y with
         | Some xs, Some ys => resampled (slice (m_data img) (basePixel img f ys xs) 12)
         | _, _ => []
         end).
  assert (Hblk : forall f y x, len (blk f y x) = 16 \/ len (blk f y x) = 0).
  { intros f y x. unfold blk.
    destruct (resizeCoord (m_width img) W x); [|right; reflexivity].
    destruct (resizeCoord (m_height img) H y); [left|right]; reflexivity. }
  assert (Hblk16 : forall f y x, 0 <= y < H -> 0 <= x < W -> len (blk f y x) = 16).
  { intros f y x Hy Hx. unfold blk.
    destruct (Hcoord y x Hy Hx) as (xs & ys & -> & _ & -> & _). reflexivity. }
  pose proof resized_size as Hsize.
  rewrite resizeData_nest.
  destruct (fillNest_spec (m_numFaces img) H (fun _ => W)
              (fun f y x =>
                 resizePixel (m_data img) (imageGetFaceOffsets img f)
                   (u32 (m_width img * 16))
                   (resizeRatio (m_width img) W) (resizeRatio (m_height img) H) x y)
              blk
              (fun f y x =>
                 u32 (f * u32 (u32 (W * 16) * H)) + u32 (y * u32 (W * 16)) + u32 (x * 16))
              (16 * W * H * m_numFaces img))
    with (dst0 := malloc junk (u32 (u32 (u32 (W * 16) * H) * m_numFaces img)))
    as (data & E & Hl & Hc).
  - intros f y x (Hf & Hy & Hx). unfold blk.
    destruct (Hcoord y x Hy Hx) as (xs & ys & E1 & R1 & E2 & R2). rewrite E1, E2.
    destruct (src_pixel f ys xs Hf R2 R1) as (Ea & Ha0 & Ha1).
    rewrite <- Ea. eapply resizePixel_upscale; eauto; try lia.
  - intros f y x (Hf & Hy & Hx). rewrite (Hblk16 f y x Hy Hx).
    destruct (dst_pixel f y x Hf Hy Hx) as (-> & H0 & H1). lia.
  - intros f y x f' y' x' (Hf & Hy & Hx) (Hf' & Hy' & Hx') Hne.
    rewrite (Hblk16 f y x Hy Hx), (Hblk16 f' y' x' Hy' Hx').
    destruct (dst_pixel f y x Hf Hy Hx) as (-> & _).
    destruct (dst_pixel f' y' x' Hf' Hy' Hx') as (-> & _).
    apply resizedPixel_disjoint; try assumption; lia.
  - exact faces_nonneg.
  - lia.
  - intros _ _. lia.
  - rewrite Hsize. apply len_malloc.
    apply Z.mul_nonneg_nonneg; [|exact faces_nonneg].
    assert (0 < W * H) by nia. lia.
  - exists data. split; [exact E|]. split; [exact Hl|].
    intros f y x Hf Hy Hx.
    destruct (Hcoord y x Hy Hx) as (xs & ys & E1 & R1 & E2 & R2).
    exists xs, ys. split; [exact E1|]. split; [exact R1|]. split; [exact E2|].
    split; [exact R2|].
    destruct (dst_pixel f y x Hf Hy Hx) as (Ed & Hd0 & Hd1).
    specialize (Hc f y x (conj Hf (conj Hy Hx))). cbv beta in Hc. rewrite Ed in Hc.
    assert (Eb : blk f y x
                 = resampled (slice (m_data img) (basePixel img f ys xs) 12))
      by (unfold blk; rewrite E1, E2; reflexivity).
    rewrite <- Eb. apply slice_ext; try lia.
    + apply Hblk16; assumption.
    + intros j Hj. apply Hc. rewrite (Hblk16 f y x Hy Hx). exact Hj.
Qed.

End Upscale.

(** ** C1: [imageGetPixel] *)

(** With [_mip = 0] the inner loop of [imageGetPixel] never runs, so the
    faces before [_face] add nothing to the offset. *)
Lemma getPixelOffset_mip0 (_face : Z) (_image : Image) :
  getPixelOffset 0 _face _image = 0.
Proof.
  unfold getPixelOffset. change (upto 0) with (@nil Z). simpl.
  induction (upto _face) as [|f l IH]; simpl; auto.
Qed.

(** With [_face = 0] the outer loop never runs: the mips before [_mip]
    add nothing either. *)
Lemma getPixelOffset_face0 (_mip : Z) (_image : Image) :
  getPixelOffset _mip 0 _image = 0.
Proof. reflexivity. Qed.

(** C1 (the code departs from the claim).  On six 1x1 RGBA8 faces the
    claim puts pixel (0,0) of mip 0 of face 1 at byte offset 4, where
    the bytes 4,5,6,7 are stored; [imageGetPixel] reads at offset 0 and
    returns the bytes 0,1,2,3 of face 0. *)
Theorem imageGetPixel_reads_face0_for_face1 :
  specPixelOffset sixTexels 0 0 0 1 = 4
  /\ specGetPixelSameFormat sixTexels 0 0 0 1 = Done [4; 5; 6; 7]
  /\ getPixelOffset 0 1 sixTexels = 0
  /\ imageGetPixel TextureFormat.RGBA8 0 0 0 1 sixTexels = Done [0; 1; 2; 3].
Proof. repeat split; vm_compute; reflexivity. Qed.

(** ** C2: [imageCubemapFromCross] *)

(** C2 (the code departs from the claim).  A 4:3 source is refused: both
    [isVertical] and [isHorizontal] compare the aspect with 3/4, so a
    4x3 image fails the shape test and the destination is returned
    untouched, whatever the pixels are. *)
Theorem imageCubemapFromCross_refuses_4x3 :
  forall (junk : Z -> Z) (dst : Image) (data : bytes) (size : Z)
         (format : TextureFormat.Enum) (mips faces : Z),
    imageCubemapFromCross junk dst (Build_Image data 4 3 size format mips faces)
    = Done (false, dst).
Proof. intros. reflexivity. Qed.

(** The vertical half of the claim holds on the smallest cross: a 3x4
    source gives six faces of size [ceil(3/3) = 1]. *)
Lemma imageCubemapFromCross_accepts_3x4 :
  exists cube,
    imageCubemapFromCross noJunk emptyImage
      (Build_Image (upto 48) 3 4 48 TextureFormat.RGBA8 1 1) = Done (true, cube)
    /\ m_width cube = 1 /\ m_height cube = 1 /\ m_numFaces cube = 6.
Proof. eexists. split; [vm_compute; reflexivity | repeat split]. Qed.

(** ** C3: DDS round trip of scenario E1 *)

(** C3.  Saving the E1 image as DDS and loading the written bytes gives
    back the image: the same payload bytes, a cube map with six faces,
    one mip, format RGBA16F. *)
Theorem dds_roundtrip_e1 :
  exists loaded,
    ddsRoundTrip emptyImage e1Image = Done (true, loaded)
    /\ m_data loaded = m_data e1Image
    /\ imageIsCubemap loaded = true
    /\ m_numFaces loaded = 6
    /\ m_numMips loaded = 1
    /\ m_format loaded = TextureFormat.RGBA16F.
Proof.
  exists e1Image. split.
  - apply loaded_beq_eq. vm_compute. reflexivity.
  - repeat split.
Qed.

(** ** C4: KTX of a 3x1 RGB8 image *)

(** C4 (the code departs from the claim).  For every payload of nine
    bytes, [imageSaveKtx] writes after the magic and the 52-byte header
    a face size of 9 (not 12), the nine payload bytes, and nine zero
    bytes: three of row rounding, three of face rounding and three of
    mip rounding.  Loading the file gives the nine bytes back. *)
Theorem imageSaveKtx_3x1_rgb8 :
  forall b0 b1 b2 b3 b4 b5 b6 b7 b8 : Z,
    let payload := [b0; b1; b2; b3; b4; b5; b6; b7; b8] in
    len e6Header = 52
    /\ imageSaveKtx (e6Image payload)
       = Done (KTX_MAGIC ++ e6Header ++ fwrite_u32 9 ++ payload ++ repeat 0 9)
    /\ imageLoadKtx noJunk emptyImage
         (fopen (KTX_MAGIC ++ e6Header ++ fwrite_u32 9 ++ payload ++ repeat 0 9))
       = Done (true, e6Image payload).
Proof. intros. repeat split; vm_compute; reflexivity. Qed.

(** ** C5: [imageGenerateMipMapChain] *)

(** C5 (the code departs from the claim).  For an 8x2 image and sixteen
    requested levels the claim gives [min(16, 16, 4) = 4] levels; the
    sizing loop stops as soon as one of the two dimensions reaches 1 and
    the result has 2. *)
Theorem imageGenerateMipMapChain_8x2 :
  specMipCount 16 8 2 = 4
  /\ exists chain,
       imageGenerateMipMapChain noJunk wide8x2 16 = Done chain
       /\ m_numMips chain = 2.
Proof.
  split; [reflexivity|]. eexists. split; [vm_compute; reflexivity | reflexivity].
Qed.

(** ** C6: [imageConvert] to the image's own format *)

(** C6 (the code departs from the claim).  Converting the RGBE pixel
    (128,128,128,128) to RGBE goes through RGBA32F and comes back as
    (255,255,255,127). *)
Theorem imageConvert_rgbe_to_rgbe_changes_bytes :
  forall junk : Z -> Z,
    imageConvert junk TextureFormat.RGBE rgbeHalf
    = Done (Build_Image [255; 255; 255; 127] 1 1 4 TextureFormat.RGBE 1 1).
Proof. intros. vm_compute. reflexivity. Qed.

(** ** C7: the RGBE encoder *)

(** C7 fails as it is written.  For the pixel (1/2, 1/8, 1/8) the factor
    is 510 and green and blue scale to 63.75: the specification rounds
    them to 64, [rgbeFromRgba32f] converts with [uint8_t(...)] and stores
    63. *)
Lemma rgbe_rounds_down_where_spec_rounds :
  rgbeFromRgba32f rgbeEighths = Some [255; 63; 63; 127]
  /\ specRgbe (value (px0 rgbeEighths)) (value (px1 rgbeEighths))
              (value (px2 rgbeEighths)) = [255; 64; 64; 127]
  /\ rgbeFromRgba32f rgbeEighths
     <> Some (specRgbe (value (px0 rgbeEighths)) (value (px1 rgbeEighths))
                       (value (px2 rgbeEighths))).
Proof.
  split; [vm_compute; reflexivity|]. split; [vm_compute; reflexivity|].
  vm_compute. discriminate.
Qed.

(** Just above a power of two the exponent is not the ceiling of the
    logarithm either: for red [0x41800001], the binary32 number after
    16, [log2f] gives 4 and the encoder stores exponent 4 and red 255,
    where the specification has exponent 5 and red 128. *)
Lemma rgbe_exponent_above_power_of_two :
  rgbeFromRgba32f rgbeAbove16 = Some [255; 0; 0; 132]
  /\ specRgbe (value (px0 rgbeAbove16)) (value (px1 rgbeAbove16))
              (value (px2 rgbeAbove16)) = [128; 0; 0; 133].
Proof. split; vm_compute; reflexivity. Qed.

(** C7, amended: for channels that are zero or positive binary32 numbers
    with a positive maximum [m], [2^k <= m < 2^(k+1)], the encoder's
    exponent [e = ceilf(log2f(m))] is [k] up to [log2f_flat k] binary32
    steps above [2^k] and [k + 1] beyond: it is the ceiling of the
    logarithm unless [m] exceeds [2^e] by at most 44 parts in [2^23].
    For [e] between -120 and 127 the encoder stores, for each channel,
    the whole part of the single-precision product of the channel and
    [255 / 2^e], and then [e + 128]; every byte is in range. *)
Theorem rgbeFromRgba32f_truncates (p : rgba32f) (k : Z) :
  binary32_nonneg (px0 p) = true ->
  binary32_nonneg (px1 p) = true ->
  binary32_nonneg (px2 p) = true ->
  (2 ^ k <= value (F32.max (px0 p) (F32.max (px1 p) (px2 p))) < 2 ^ (k + 1))%Q ->
  -120 <= rgbeExponent (value (F32.max (px0 p) (F32.max (px1 p) (px2 p)))) k <= 127 ->
  let m := value (F32.max (px0 p) (F32.max (px1 p) (px2 p))) in
  let e := rgbeExponent m k in
  rgbeFromRgba32f p = Some (rgbeTruncated p e)
  /\ Forall (fun b => 0 <= b <= 255) (rgbeTruncated p e)
  /\ ((2 ^ (e - 1) < m <= 2 ^ e)%Q
      \/ (2 ^ e < m <= 2 ^ e * (1 + (44 # 8388608)))%Q).
Proof.
  intros H0 H1 H2 Hm He m e. change (-120 <= e <= 127) in He.
  destruct (max_value (px1 p) (px2 p) H1 H2) as (H12 & Hv1 & Hv2).
  destruct (max_value (px0 p) _ H0 H12) as (Hmax & Hv0 & Hv12).
  set (maxVal := F32.max (px0 p) (F32.max (px1 p) (px2 p))) in *.
  pose proof (pow2_pos k) as Hpos. pose proof (log2f_flat_range k) as [J0 J44].
  assert (Hexp : F32.ceilf_log2f maxVal = F32.of_Z e).
  { destruct maxVal as [s|s| |[|] mm x] eqn:Emax; cbn [binary32_nonneg] in Hmax;
      try discriminate; cbn [value] in Hm; [lra|].
    cbn [F32.ceilf_log2f]. f_equal. rewrite ceil_log2f_exponent.
    unfold e, m. cbn [value].
    rewrite (floor_log2_unique (inject_Z (Z.pos mm) * 2 ^ x) (F32.floor_log2 mm x) k);
      [reflexivity|apply floor_log2_value|exact Hm]. }
  assert (Hcase : (e = k /\ (m <= 2 ^ k * (1 + inject_Z (F32.log2f_flat k) / 8388608))%Q)
                  \/ (e = k + 1
                      /\ ~ (m <= 2 ^ k * (1 + inject_Z (F32.log2f_flat k) / 8388608))%Q)).
  { unfold e, rgbeExponent.
    destruct (Qle_bool m _) eqn:B.
    - left. split; [reflexivity|]. apply Qle_bool_iff. exact B.
    - right. split; [reflexivity|]. rewrite <- Qle_bool_iff, B. discriminate. }
  assert (Hj : (0 <= inject_Z (F32.log2f_flat k) <= 44)%Q).
  { split.
    - change (inject_Z 0 <= inject_Z (F32.log2f_flat k))%Q. rewrite <- Zle_Qle. exact J0.
    - change (inject_Z (F32.log2f_flat k) <= inject_Z 44)%Q. rewrite <- Zle_Qle.
      exact J44. }
  set (j := inject_Z (F32.log2f_flat k)) in *.
  assert (Hje : (j / 8388608 <= 44 # 8388608)%Q).
  { apply Qle_shift_div_r; [reflexivity|].
    assert ((44 # 8388608) * 8388608 == 44)%Q by reflexivity. lra. }
  assert (Hj0 : (0 <= j / 8388608)%Q) by (apply Qle_shift_div_l; lra).
  assert (Hbound : (m <= 2 ^ e * (1 + (1 # 131072)))%Q
                   /\ ((2 ^ (e - 1) < m <= 2 ^ e)%Q
                       \/ (2 ^ e < m <= 2 ^ e * (1 + (44 # 8388608)))%Q)).
  { fold m in Hm. destruct Hcase as [[-> Hz] | [-> Hz]].
    - assert (Hup : (m <= 2 ^ k * (1 + (44 # 8388608)))%Q) by nra.
      split; [nra|].
      destruct (Qlt_le_dec (2 ^ k) m) as [G|G].
      + right. split; [exact G|exact Hup].
      + left. split; [|exact G].
        pose proof (pow2_lt (k - 1) k ltac:(lia)). lra.
    - replace (k + 1 - 1) with k by lia. pose proof (pow2_pos (k + 1)).
      split; [nra|]. left. split; [|lra].
      apply Qnot_le_lt in Hz. nra. }
  destruct Hbound as [Hb Hclass].
  destruct (rgbeExponent_steps e He) as (Hint & Hb3 & Hscale).
  pose proof (pow2_pos e) as Hpe. fold m in Hv0, Hv12.
  assert (Hc0 : (value (px0 p) <= 2 ^ e * (1 + (1 # 131072)))%Q)
    by (eapply Qle_trans; [exact Hv0|exact Hb]).
  assert (Hc1 : (value (px1 p) <= 2 ^ e * (1 + (1 # 131072)))%Q)
    by (eapply Qle_trans; [exact Hv1|]; eapply Qle_trans; [exact Hv12|exact Hb]).
  assert (Hc2 : (value (px2 p) <= 2 ^ e * (1 + (1 # 131072)))%Q)
    by (eapply Qle_trans; [exact Hv2|]; eapply Qle_trans; [exact Hv12|exact Hb]).
  destruct (rgbe_channel (px0 p) e H0 Hc0 He) as [E0 R0].
  destruct (rgbe_channel (px1 p) e H1 Hc1 He) as [E1 R1].
  destruct (rgbe_channel (px2 p) e H2 Hc2 He) as [E2 R2].
  split; [|split; [|exact Hclass]].
  - unfold rgbeFromRgba32f. fold maxVal. rewrite Hexp, Hint.
    cbn [opt_bind]. rewrite Hscale, E0. cbn [opt_bind]. rewrite E1. cbn [opt_bind].
    rewrite E2. cbn [opt_bind]. rewrite Hb3. reflexivity.
  - unfold rgbeTruncated. repeat constructor; lia.
Qed.

(** The pixel (1/2, 1/8, 1/8) meets the hypotheses with [k = -1], and
    its exponent is -1. *)
Lemma rgbeFromRgba32f_truncates_witness :
  let m := value (F32.max (px0 rgbeEighths)
                          (F32.max (px1 rgbeEighths) (px2 rgbeEighths))) in
  let e := rgbeExponent m (-1) in
  rgbeFromRgba32f rgbeEighths = Some (rgbeTruncated rgbeEighths e)
  /\ Forall (fun b => 0 <= b <= 255) (rgbeTruncated rgbeEighths e)
  /\ ((2 ^ (e - 1) < m <= 2 ^ e)%Q
      \/ (2 ^ e < m <= 2 ^ e * (1 + (44 # 8388608)))%Q).
Proof.
  apply (rgbeFromRgba32f_truncates rgbeEighths (-1)).
  - reflexivity.
  - reflexivity.
  - reflexivity.
  - vm_compute. split; [discriminate|reflexivity].
  - vm_compute. split; discriminate.
Defined.

(** ** C8: cube map to horizontal strip and back *)

(** C8 fails as it is written.  A strip is an image like any other: its
    level [m] is [max 1 (6w >> m)] texels wide.  Once [w >> m] is 0 that
    is fewer than the six texels the faces need, and
    [imageHStripFromCubemap], which has no guard for it, writes six rows
    of [max 1 (w >> m)] texels all the same.  On a well-formed 1x1 cube
    map that carries two mip levels the second level gets 3 texels and
    receives 6: the copy of face 3 runs past the end of the destination
    buffer, whatever the allocation held and whatever the destination
    was. *)
Lemma imageHStripFromCubemap_overruns_strip :
  imageIsCubemap tinyCubeTwoMips = true
  /\ len (m_data tinyCubeTwoMips) = m_dataSize tinyCubeTwoMips
  /\ m_dataSize tinyCubeTwoMips
     = 6 * specMipChainBytes tinyCubeTwoMips (m_numMips tinyCubeTwoMips)
  /\ forall (junk : Z -> Z) (dst : Image),
       imageHStripFromCubemap junk dst tinyCubeTwoMips = Stuck OutOfBounds.
Proof.
  split; [reflexivity|]. split; [reflexivity|]. split; [reflexivity|].
  intros junk dst. vm_compute. reflexivity.
Qed.

(** C8, amended: for every well-formed cube map whose levels are all true
    halvings of the face ([2^(mips-1) <= width], at most 16 levels) and
    whose strip fits 32 bits, [imageHStripFromCubemap] builds the strip
    and [imageCubemapFromHStrip] gives back the cube map, bit for bit and
    field for field, whatever the allocations held and whatever the
    destinations were. *)
Theorem cube_strip_roundtrip (junk1 junk2 : Z -> Z) (dst1 dst2 c : Image) :
  imageIsCubemap c = true ->
  0 <= m_numMips c <= MAX_MIP_NUM ->
  2 ^ (m_numMips c - 1) <= m_width c ->
  6 * m_width c < 4294967296 ->
  specMipChainBytes (stripShape c) (m_numMips c) < 4294967296 ->
  m_dataSize c = 6 * specMipChainBytes c (m_numMips c) ->
  len (m_data c) = m_dataSize c ->
  exists strip,
    imageHStripFromCubemap junk1 dst1 c = Done (true, strip)
    /\ imageCubemapFromHStrip junk2 dst2 strip = Done (true, c).
Proof.
  intros Hcube HM Hpow H6 HT Hsize Hlen.
  unfold imageIsCubemap in Hcube. apply andb_prop in Hcube as [Hf Hsq].
  apply Z.eqb_eq in Hf. apply Z.eqb_eq in Hsq.
  assert (Hw : 0 <= m_width c)
    by (pose proof (Z.pow_nonneg 2 (m_numMips c - 1)); lia).
  assert (Hd : len (m_data c) = 6 * chainBytes c)
    by (rewrite Hlen, Hsize; reflexivity).
  destruct (strip_then_cube c (eq_sym Hsq) Hw (proj1 HM) Hpow H6 HT (eq_sym Hf) Hd
              junk1 junk2 dst1 dst2) as (strip & E1 & E2).
  exists strip. split; [exact E1|]. rewrite E2.
  destruct c as [data w h size fmt mips faces].
  cbn [m_data m_width m_height m_dataSize m_format m_numMips m_numFaces] in *.
  subst h faces. do 3 f_equal. symmetry. exact Hsize.
Qed.

(** A 2x2 RGBA8 cube map with two levels meets the hypotheses. *)
Lemma cube_strip_roundtrip_witness :
  exists strip,
    imageHStripFromCubemap noJunk emptyImage
      (Build_Image (upto 120) 2 2 120 TextureFormat.RGBA8 2 6) = Done (true, strip)
    /\ imageCubemapFromHStrip noJunk emptyImage strip
       = Done (true, Build_Image (upto 120) 2 2 120 TextureFormat.RGBA8 2 6).
Proof.
  apply cube_strip_roundtrip; vm_compute; try reflexivity;
    try (split; discriminate); discriminate.
Defined.

(** ** C9: a reported failure leaves the destination untouched *)

(** Walk down the head of a run known to end in [Done (false, _)]. *)
Ltac walk H :=
  repeat
    (cbn beta iota in H;
     lazymatch type of H with
     | Done _ = Done _ => inversion H; clear H; subst
     | Stuck _ = Done _ => discriminate H
     | bind ?c _ = Done _ =>
         let E := fresh "E" in destruct c eqn:E; cbn [bind] in H
     | (match ?x with _ => _ end) = Done _ =>
         let E := fresh "E" in destruct x eqn:E
     end).

Lemma imageLoadDds_failure (dst : Image) (fp : FILE) (d : Image) :
  imageLoadDds dst fp = Done (false, d) -> d = dst.
Proof. unfold imageLoadDds. intros H. walk H; reflexivity. Qed.

Lemma imageLoadKtx_failure (junk : Z -> Z) (dst : Image) (fp : FILE) (d : Image) :
  imageLoadKtx junk dst fp = Done (false, d) -> d = dst.
Proof. unfold imageLoadKtx. intros H. walk H; reflexivity. Qed.

Lemma imageLoadHdr_failure (junk : Z -> Z) (dst : Image) (fp : FILE) (d : Image) :
  imageLoadHdr junk dst fp = Done (false, d) -> d = dst.
Proof. unfold imageLoadHdr. intros H. walk H; reflexivity. Qed.

Lemma imageLoadTga_failure (junk : Z -> Z) (dst : Image) (fp : FILE) (d : Image) :
  imageLoadTga junk dst fp = Done (false, d) -> d = dst.
Proof. unfold imageLoadTga. intros H. walk H; reflexivity. Qed.

(** The dispatcher fails only when the file cannot be opened, when no
    loader claims it, or when the chosen loader failed; a conversion
    happens after a successful load only. *)
Lemma imageLoad_failure (junk : Z -> Z) (dst : Image) (file : option bytes)
    (convertTo : TextureFormat.Enum) (d : Image) :
  imageLoad junk dst file convertTo = Done (false, d) -> d = dst.
Proof.
  unfold imageLoad. intros H. destruct file as [b|]; [|walk H; reflexivity].
  cbn beta iota in H.
  destruct (fread_u32 (fopen b)) as [[magic fp]|] eqn:Em; cbn [bind] in H;
    [|discriminate].
  cbn beta iota in H.
  match type of H with
  | bind ?c _ = _ => destruct c as [[loaded img]|] eqn:El; cbn [bind] in H;
                     [|discriminate]
  end.
  cbn beta iota in H. destruct loaded; cbn [negb] in H.
  - walk H.
  - inversion H; subst; clear H.
    destruct (DDS_MAGIC =? magic); [eapply imageLoadDds_failure; eassumption|].
    destruct (HDR_MAGIC =? magic); [eapply imageLoadHdr_failure; eassumption|].
    destruct (KTX_MAGIC_SHORT =? magic); [eapply imageLoadKtx_failure; eassumption|].
    destruct (isTga magic); [eapply imageLoadTga_failure; eassumption|].
    inversion El; reflexivity.
Qed.

(** The face-list split writes six destinations; it too fails before
    touching any of them. *)
Lemma imageFaceListFromCubemap_failure (junk : Z -> Z) (dsts : list Image)
    (cubemap : Image) (d : list Image) :
  imageFaceListFromCubemap junk dsts cubemap = Done (false, d) -> d = dsts.
Proof. unfold imageFaceListFromCubemap. intros H. walk H; reflexivity. Qed.

(** C9.  Whenever a loader, the dispatching load or a cube remap
    returns [false], the destination image is the one passed in. *)
Theorem failure_leaves_destination (op : outputOp) (dst d : Image) :
  runOp op dst = Done (false, d) -> d = dst.
Proof.
  destruct op; cbn [runOp]; intros H.
  - eapply imageLoadDds_failure; eassumption.
  - eapply imageLoadKtx_failure; eassumption.
  - eapply imageLoadHdr_failure; eassumption.
  - eapply imageLoadTga_failure; eassumption.
  - eapply imageLoad_failure; eassumption.
  - unfold imageCubemapFromCross in H. walk H; reflexivity.
  - unfold imageCubemapFromLatLong in H. walk H; reflexivity.
  - unfold imageLatLongFromCubemap in H. walk H; reflexivity.
  - unfold imageHStripFromCubemap in H. walk H; reflexivity.
  - unfold imageCubemapFromHStrip in H. walk H; reflexivity.
  - unfold imageCubemapFromFaceList in H. walk H; reflexivity.
  - unfold imageCrossFromCubemap in H. walk H; reflexivity.
Qed.

(** A DDS load of a file with a wrong magic fails and hands back the
    destination: the hypothesis of the theorem is met there. *)
Lemma failure_leaves_destination_witness :
  runOp (LoadDds (fopen [0; 0; 0; 0])) sixTexels = Done (false, sixTexels)
  /\ sixTexels = sixTexels.
Proof.
  split; [reflexivity|].
  apply (failure_leaves_destination (LoadDds (fopen [0; 0; 0; 0])) sixTexels sixTexels).
  reflexivity.
Defined.

(* ===================================================================== *)
(** * Part III. Further properties of the code                             *)
(* ===================================================================== *)

(** Closed comparisons and equations, by evaluation. *)
Ltac ground :=
  vm_compute; repeat split; try reflexivity;
  try (let C := fresh "C" in intros C; discriminate C).

(** ** base/utils.h: [align] *)

Lemma land_high_mask (x k : Z) :
  0 <= k <= 32 -> 0 <= x < 4294967296 ->
  Z.land x (u32 (Z.lnot (2 ^ k - 1))) = x - x mod 2 ^ k.
Proof.
  intros Hk Hx.
  assert (E : u32 (Z.lnot (2 ^ k - 1)) = Z.land (Z.lnot (Z.ones k)) (Z.ones 32)).
  { unfold u32. change 4294967296 with (2 ^ 32). rewrite <- Z.land_ones by lia.
    replace (2 ^ k - 1) with (Z.ones k) by (rewrite Z.ones_equiv; lia).
    reflexivity. }
  rewrite E.
  rewrite (Z.land_comm (Z.lnot _)), Z.land_assoc.
  rewrite (Z.land_ones x 32) by lia. change (2 ^ 32) with 4294967296.
  rewrite Z.mod_small by lia.
  rewrite <- Z.ldiff_land. rewrite Z.ldiff_ones_r by lia.
  rewrite Z.shiftl_mul_pow2, Z.shiftr_div_pow2 by lia.
  pose proof (Z.div_mod x (2 ^ k)). assert (0 < 2 ^ k) by (apply Z.pow_pos_nonneg; lia).
  lia.
Qed.

(** X1.  [align(val, 2^k)] is the least multiple of [2^k] that is not
    below [val], as long as it fits 32 bits: it is a multiple of [2^k],
    at least [val] and less than [val + 2^k]. *)
Theorem align_rounds_up (val k : Z) :
  0 <= k < 32 -> 0 <= val -> val + 2 ^ k <= 4294967296 ->
  align val (2 ^ k) mod 2 ^ k = 0
  /\ val <= align val (2 ^ k) < val + 2 ^ k.
Proof.
  intros Hk Hv Hb.
  assert (Hp : 0 < 2 ^ k) by (apply Z.pow_pos_nonneg; lia).
  assert (Hm : u32 (2 ^ k - 1) = 2 ^ k - 1) by (apply u32_small; lia).
  unfold align. cbv zeta. rewrite Hm.
  rewrite (u32_small (val + (2 ^ k - 1))) by lia.
  rewrite land_high_mask by lia.
  set (x := val + (2 ^ k - 1)).
  pose proof (Z.mod_pos_bound x (2 ^ k) Hp) as Hr.
  pose proof (Z.div_mod x (2 ^ k)) as Hd.
  split.
  - replace (x - x mod 2 ^ k) with ((x / 2 ^ k) * 2 ^ k) by lia.
    apply Z.mod_mul. lia.
  - assert (Hq : x - x mod 2 ^ k = 2 ^ k * (x / 2 ^ k)) by lia.
    split; [|unfold x in *; lia].
    (* val <= 2^k * (x / 2^k): otherwise x/2^k*2^k < val, then x mod > 2^k - 1 *)
    unfold x in *. lia.
Qed.

Lemma align_rounds_up_witness :
  (0 <= 2 < 32 /\ 0 <= 13 /\ 13 + 2 ^ 2 <= 4294967296)
  /\ align 13 (2 ^ 2) mod 2 ^ 2 = 0
  /\ 13 <= align 13 (2 ^ 2) < 13 + 2 ^ 2.
Proof.
  split; [lia|]. apply (align_rounds_up 13 2); lia.
Defined.

(** ** base/utils.h: [cmft_swap] *)

Lemma slice_bytes (a b : bytes) (off off' n : Z) :
  0 <= off -> 0 <= off' -> 0 <= n -> off + n <= len a -> off' + n <= len b ->
  (forall j, 0 <= j < n -> byte_at a (off + j) = byte_at b (off' + j)) ->
  slice a off n = slice b off' n.
Proof.
  intros Ho Ho' Hn Ha Hb H. apply bytes_ext.
  - rewrite !len_slice by lia. reflexivity.
  - intros i Hi. rewrite len_slice in Hi by lia.
    rewrite !byte_at_slice by lia. apply H. lia.
Qed.

(** What [cmft_swap] leaves in the buffer when the two regions do not
    overlap. *)
Lemma cmft_swap_spec (buf : bytes) (a b n : Z) :
  0 <= a -> 0 <= b -> 0 <= n -> a + n <= len buf -> b + n <= len buf ->
  a + n <= b \/ b + n <= a ->
  exists buf',
    cmft_swap buf a b n = Done buf'
    /\ len buf' = len buf
    /\ slice buf' a n = slice buf b n
    /\ slice buf' b n = slice buf a n
    /\ forall i, 0 <= i -> ~ (a <= i < a + n) -> ~ (b <= i < b + n) ->
                 byte_at buf' i = byte_at buf i.
Proof.
  intros Ha Hb Hn Hal Hbl Hdis. unfold cmft_swap.
  rewrite peek_Done by lia. cbn [bind].
  destruct (memcpy_spec buf a buf b n) as (buf1 & E1 & L1 & In1 & Out1); try lia.
  rewrite E1. cbn [bind].
  pose proof (len_slice buf a n Ha Hn Hal) as Ls.
  destruct (poke_spec buf1 b (slice buf a n) Hb) as (buf2 & E2 & L2 & In2 & Out2);
    [lia|].
  exists buf2. split; [exact E2|]. split; [lia|].
  split; [|split].
  - apply slice_bytes; try lia. intros j Hj.
    rewrite Out2 by lia. apply In1. exact Hj.
  - apply slice_bytes; try lia. intros j Hj.
    rewrite In2 by lia. replace (b + j - b) with j by lia.
    apply byte_at_slice; lia.
  - intros i Hi Na Nb. rewrite Out2 by lia. apply Out1. lia.
Qed.

(** X2.  [cmft_swap] exchanges two regions of a buffer that do not
    overlap and lie inside it: the length is kept, each region holds what
    the other held, every byte outside the two is untouched, and the same
    call again gives the buffer back. *)
Theorem cmft_swap_exchanges (buf : bytes) (a b n : Z) :
  0 <= a -> 0 <= b -> 0 <= n -> a + n <= len buf -> b + n <= len buf ->
  a + n <= b \/ b + n <= a ->
  exists buf',
    cmft_swap buf a b n = Done buf'
    /\ len buf' = len buf
    /\ slice buf' a n = slice buf b n
    /\ slice buf' b n = slice buf a n
    /\ (forall i, 0 <= i -> ~ (a <= i < a + n) -> ~ (b <= i < b + n) ->
                  byte_at buf' i = byte_at buf i)
    /\ cmft_swap buf' a b n = Done buf.
Proof.
  intros Ha Hb Hn Hal Hbl Hdis.
  destruct (cmft_swap_spec buf a b n Ha Hb Hn Hal Hbl Hdis)
    as (b1 & E1 & L1 & A1 & B1 & R1).
  destruct (cmft_swap_spec b1 a b n Ha Hb Hn) as (b2 & E2 & L2 & A2 & B2 & R2);
    [lia|lia|exact Hdis|].
  exists b1. repeat split; try assumption.
  rewrite E2. f_equal. apply bytes_ext; [lia|]. intros i Hi. rewrite L2, L1 in Hi.
  destruct (Z_lt_ge_dec i a) as [La|Ga]; [|destruct (Z_lt_ge_dec i (a + n)) as [Ia|Oa]].
  - destruct (Z_lt_ge_dec i b) as [Lb|Gb]; [|destruct (Z_lt_ge_dec i (b + n)) as [Ib|Ob]].
    + rewrite R2, R1 by lia. reflexivity.
    + replace i with (b + (i - b)) by lia.
      rewrite <- (byte_at_slice b2 b n) by lia.
      rewrite <- (byte_at_slice buf b n) by lia.
      rewrite B2, A1. reflexivity.
    + rewrite R2, R1 by lia. reflexivity.
  - replace i with (a + (i - a)) by lia.
    rewrite <- (byte_at_slice b2 a n) by lia.
    rewrite <- (byte_at_slice buf a n) by lia.
    rewrite A2, B1. reflexivity.
  - destruct (Z_lt_ge_dec i b) as [Lb|Gb]; [|destruct (Z_lt_ge_dec i (b + n)) as [Ib|Ob]].
    + rewrite R2, R1 by lia. reflexivity.
    + replace i with (b + (i - b)) by lia.
      rewrite <- (byte_at_slice b2 b n) by lia.
      rewrite <- (byte_at_slice buf b n) by lia.
      rewrite B2, A1. reflexivity.
    + rewrite R2, R1 by lia. reflexivity.
Qed.

Lemma cmft_swap_exchanges_witness :
  exists buf',
    cmft_swap [1; 2; 3; 4; 5] 0 3 2 = Done buf'
    /\ len buf' = len [1; 2; 3; 4; 5]
    /\ slice buf' 0 2 = slice [1; 2; 3; 4; 5] 3 2
    /\ slice buf' 3 2 = slice [1; 2; 3; 4; 5] 0 2
    /\ (forall i, 0 <= i -> ~ (0 <= i < 0 + 2) -> ~ (3 <= i < 3 + 2) ->
                  byte_at buf' i = byte_at [1; 2; 3; 4; 5] i)
    /\ cmft_swap buf' 0 3 2 = Done [1; 2; 3; 4; 5].
Proof.
  apply (cmft_swap_exchanges [1; 2; 3; 4; 5] 0 3 2); vm_compute; try discriminate.
  left. discriminate.
Defined.

(** ** KTX row padding *)

Lemma ktxRounding_eq (size : Z) : ktxRounding size = 3 - (size + 3) mod 4.
Proof.
  unfold ktxRounding, KTX_UNPACK_ALIGNMENT.
  replace (4 - 1) with (Z.ones 2) by reflexivity.
  rewrite Z.land_ones by lia. change (2 ^ 2) with 4. change (Z.ones 2) with 3.
  replace (u32 (size + 4 - 1) mod 4) with ((size + 3) mod 4).
  2:{ replace (size + 4 - 1) with (size + 3) by lia. unfold u32.
      symmetry. apply Z.mod_mod_divide. exists 1073741824. reflexivity. }
  pose proof (Z.mod_pos_bound (size + 3) 4 ltac:(lia)) as Hr.
  apply u32_small. lia.
Qed.

(** X3.  The KTX rounding of a size is between 0 and 3 and brings the
    size to a multiple of four, for every size (wrapped to 32 bits). *)
Theorem ktxRounding_pads (size : Z) :
  0 <= ktxRounding size <= 3 /\ (size + ktxRounding size) mod 4 = 0.
Proof.
  rewrite ktxRounding_eq.
  pose proof (Z.mod_pos_bound (size + 3) 4 ltac:(lia)) as Hr.
  split; [lia|].
  pose proof (Z.div_mod (size + 3) 4 ltac:(lia)) as Hd.
  replace (size + (3 - (size + 3) mod 4)) with (4 * ((size + 3) / 4)) by lia.
  rewrite Z.mul_comm. apply Z.mod_mul. lia.
Qed.

(** ** The 8-bit pixel codecs *)

Lemma channel_roundtrip (b : Z) :
  0 <= b <= 255 -> floatToU8 (u8ToFloat b) = Some b.
Proof.
  intros Hb.
  assert (H : forallb channelSurvives (upto 256) = true) by (vm_compute; reflexivity).
  pose proof (forallb_upto _ _ H b ltac:(lia)) as Hc.
  unfold channelSurvives in Hc.
  destruct (floatToU8 (u8ToFloat b)) as [c|]; [|discriminate].
  apply Z.eqb_eq in Hc. subst. reflexivity.
Qed.

Lemma opaque_alpha : floatToU8 F32.one = Some 255.
Proof. vm_compute. reflexivity. Qed.

Lemma allBytes_at (px : bytes) (i : Z) :
  allBytes px -> 0 <= i < len px -> 0 <= byte_at px i <= 255.
Proof.
  intros H Hi. unfold allBytes in H. rewrite Forall_forall in H.
  apply H. unfold byte_at. apply nth_In. unfold len in Hi. lia.
Qed.

Ltac pixel px Hl :=
  unfold len in Hl; cbv [bpp getImageDataInfo m_bytesPerPixel] in Hl;
  apply (f_equal Z.to_nat) in Hl; rewrite Nat2Z.id in Hl;
  cbv [Z.to_nat Pos.to_nat Pos.iter_op Nat.add] in Hl;
  repeat (destruct px as [|? px]; cbn [length] in Hl; try discriminate Hl).

Ltac channels :=
  repeat match goal with
         | H : Forall _ (_ :: _) |- _ => inversion H; clear H; subst
         end;
  cbv [recode toRgba32f fromRgba32f bind defined
       bgr8ToRgba32f rgb8ToRgba32f bgra8ToRgba32f rgba8ToRgba32f
       bgr8FromRgba32f rgb8FromRgba32f bgra8FromRgba32f rgba8FromRgba32f
       px0 px1 px2 px3];
  change (byte_at (?a :: _) 0) with a;
  change (byte_at (_ :: ?a :: _) 1) with a;
  change (byte_at (_ :: _ :: ?a :: _) 2) with a;
  change (byte_at (_ :: _ :: _ :: ?a :: _) 3) with a;
  rewrite ?opaque_alpha, ?channel_roundtrip by assumption;
  cbn [opt_bind]; rewrite ?opaque_alpha, ?channel_roundtrip by assumption;
  cbn [opt_bind]; rewrite ?opaque_alpha, ?channel_roundtrip by assumption;
  cbn [opt_bind]; rewrite ?opaque_alpha, ?channel_roundtrip by assumption;
  cbn [opt_bind]; try reflexivity.

(** X4.  In the four formats of 8-bit channels (BGR8, RGB8, BGRA8,
    RGBA8) a pixel decoded by [toRgba32f] and encoded by [fromRgba32f]
    in the same format comes back byte for byte. *)
Theorem eight_bit_pixel_roundtrip (f : TextureFormat.Enum) (px : bytes) :
  eightBit f = true -> len px = bpp f -> allBytes px ->
  recode f f px = Done px.
Proof.
  intros Hf Hl Hb. unfold allBytes in Hb.
  destruct f; try discriminate Hf; pixel px Hl; channels.
Qed.

Lemma eight_bit_pixel_roundtrip_witness :
  recode TextureFormat.BGRA8 TextureFormat.BGRA8 [0; 127; 128; 255]
  = Done [0; 127; 128; 255].
Proof.
  apply eight_bit_pixel_roundtrip.
  - reflexivity.
  - reflexivity.
  - repeat constructor; lia.
Defined.

(** X5.  Between the formats of 8-bit channels the codecs only reorder
    the channels: RGBA8 and BGRA8 swap red and blue, a missing alpha is
    filled in as 255, an alpha that the target lacks is dropped, and the
    colour bytes are kept exactly. *)
Theorem eight_bit_pixel_reorder (r g b a : Z) :
  allBytes [r; g; b; a] ->
  recode TextureFormat.RGBA8 TextureFormat.BGRA8 [r; g; b; a] = Done [b; g; r; a]
  /\ recode TextureFormat.BGRA8 TextureFormat.RGBA8 [b; g; r; a] = Done [r; g; b; a]
  /\ recode TextureFormat.RGBA8 TextureFormat.RGB8 [r; g; b; a] = Done [r; g; b]
  /\ recode TextureFormat.RGB8 TextureFormat.RGBA8 [r; g; b] = Done [r; g; b; 255]
  /\ recode TextureFormat.BGR8 TextureFormat.RGBA8 [b; g; r] = Done [r; g; b; 255]
  /\ recode TextureFormat.RGB8 TextureFormat.BGR8 [r; g; b] = Done [b; g; r].
Proof.
  intros Hb. unfold allBytes in Hb. repeat split; channels.
Qed.

Lemma eight_bit_pixel_reorder_witness :
  recode TextureFormat.RGBA8 TextureFormat.BGRA8 [1; 2; 3; 4] = Done [3; 2; 1; 4]
  /\ recode TextureFormat.BGRA8 TextureFormat.RGBA8 [3; 2; 1; 4] = Done [1; 2; 3; 4]
  /\ recode TextureFormat.RGBA8 TextureFormat.RGB8 [1; 2; 3; 4] = Done [1; 2; 3]
  /\ recode TextureFormat.RGB8 TextureFormat.RGBA8 [1; 2; 3] = Done [1; 2; 3; 255]
  /\ recode TextureFormat.BGR8 TextureFormat.RGBA8 [3; 2; 1] = Done [1; 2; 3; 255]
  /\ recode TextureFormat.RGB8 TextureFormat.BGR8 [1; 2; 3] = Done [3; 2; 1].
Proof.
  apply (eight_bit_pixel_reorder 1 2 3 4). repeat constructor; lia.
Defined.

(** ** Offset tables *)

(** X6.  For an image of at most six faces and sixteen levels, the
    entries that [imageGetMipOffsets] and [imageGetFaceOffsets] fill in
    are, without wrap-around, the packed layout: level [mip] of face
    [face] starts at [face] whole chains plus the levels before [mip],
    and the face starts at [face] whole chains. *)
Theorem imageGetMipOffsets_layout (img : Image) (face mip : Z) :
  0 <= face < m_numFaces img -> m_numFaces img <= CUBE_FACE_NUM ->
  0 <= mip < m_numMips img -> m_numMips img <= MAX_MIP_NUM ->
  (face + 1) * chainBytes img < 4294967296 ->
  imageGetMipOffsets img face mip
  = face * chainBytes img + sumUpto (levelBytes img) mip
  /\ imageGetFaceOffsets img face = face * chainBytes img.
Proof.
  intros Hf Hfaces Hm Hmips Hb. pose proof (chainBytes_nonneg img) as Hc.
  assert (E1 : imageGetMipOffsets img face mip
               = face * chainBytes img + sumUpto (levelBytes img) mip)
    by (apply imageGetMipOffsets_eq; lia).
  split; [exact E1|].
  unfold imageGetFaceOffsets. apply mipOffsetAfter_faces; nia.
Qed.

Lemma imageGetMipOffsets_layout_witness :
  imageGetMipOffsets tinyCubeTwoMips 3 1
  = 3 * chainBytes tinyCubeTwoMips + sumUpto (levelBytes tinyCubeTwoMips) 1
  /\ imageGetFaceOffsets tinyCubeTwoMips 3 = 3 * chainBytes tinyCubeTwoMips.
Proof.
  apply (imageGetMipOffsets_layout tinyCubeTwoMips 3 1); ground.
Defined.

(** ** [imageGetPixel] *)

Lemma getPixelOffset_eq (img : Image) (mip face : Z) :
  0 <= face -> face * sumUpto (levelBytes img) mip < 4294967296 ->
  getPixelOffset mip face img = face * sumUpto (levelBytes img) mip.
Proof.
  intros Hf. unfold getPixelOffset.
  pose proof (prefix_nonneg img mip) as Hp.
  pattern face. apply natlike_ind; [| |exact Hf].
  - intros _. reflexivity.
  - intros x Hx IH Hb. replace (Z.succ x) with (x + 1) in * by lia.
    rewrite upto_succ, fold_left_app by lia. cbn [fold_left].
    rewrite IH by nia.
    rewrite (wrapped_sum _ (levelBytes img)); [lia| |nia|nia].
    intros k Hk. split; [|apply levelBytes_nonneg].
    apply mipBytes_level.
    assert (levelBytes img k <= sumUpto (levelBytes img) mip).
    { assert (sumUpto (levelBytes img) (k + 1) <= sumUpto (levelBytes img) mip).
      { destruct (Z.eq_dec (k + 1) mip) as [->|N]; [lia|].
        apply sumUpto_mono; [intros; apply levelBytes_nonneg|lia]. }
      rewrite sumUpto_succ in H by lia. pose proof (prefix_nonneg img k). lia. }
    nia.
Qed.

(** X7.  For an image of at most sixteen levels, coordinates in range
    and the image's own format, [imageGetPixel] reads one pixel at
    [face] times the bytes of the levels before [mip], plus the row and
    column laid out with the pitch of level 0. *)
Theorem imageGetPixel_reads (img : Image) (x y mip face : Z) :
  0 <= x < m_width img -> 0 <= y < m_height img ->
  0 <= face < m_numFaces img -> 0 <= mip < m_numMips img ->
  m_numMips img <= MAX_MIP_NUM ->
  m_width img * m_height img * bpp (m_format img) < 4294967296 ->
  face * sumUpto (levelBytes img) mip < 4294967296 ->
  imageGetPixel (m_format img) x y mip face img
  = peek (m_data img)
         (face * sumUpto (levelBytes img) mip
          + (y * m_width img + x) * bpp (m_format img))
         (bpp (m_format img)).
Proof.
  intros Hx Hy Hf Hm Hmips Hs Hb. unfold imageGetPixel.
  replace (x <? m_width img) with true by (symmetry; apply Z.ltb_lt; lia).
  replace (y <? m_height img) with true by (symmetry; apply Z.ltb_lt; lia).
  replace (face <? m_numFaces img) with true by (symmetry; apply Z.ltb_lt; lia).
  replace (mip <? m_numMips img) with true by (symmetry; apply Z.ltb_lt; lia).
  cbn [ensure bind]. rewrite format_eqb_refl.
  rewrite getPixelOffset_eq by lia.
  pose proof (bpp_nonneg (m_format img)) as Hbpp.
  set (b := bpp (m_format img)) in *.
  assert (Hwb : 0 <= m_width img * b < 4294967296) by nia.
  rewrite (u32_small (m_width img * b)) by lia.
  rewrite (u32_small (y * (m_width img * b))) by nia.
  rewrite (u32_small (x * b)) by nia.
  f_equal. lia.
Qed.

Lemma imageGetPixel_reads_witness :
  imageGetPixel (m_format tinyCubeTwoMips) 0 0 1 2 tinyCubeTwoMips
  = peek (m_data tinyCubeTwoMips)
         (2 * sumUpto (levelBytes tinyCubeTwoMips) 1
          + (0 * m_width tinyCubeTwoMips + 0) * bpp (m_format tinyCubeTwoMips))
         (bpp (m_format tinyCubeTwoMips)).
Proof.
  apply (imageGetPixel_reads tinyCubeTwoMips 0 0 1 2); ground.
Defined.

(** ** The sizing loop of [imageGenerateMipMapChain] *)

Lemma mipDim_one (size k : Z) :
  0 <= size -> 0 <= k -> (mipDim size k = 1 <-> Z.log2 size <= k).
Proof.
  intros Hs Hk. unfold mipDim, max. rewrite Z.shiftr_div_pow2 by lia.
  assert (Hp : 0 < 2 ^ k) by (apply Z.pow_pos_nonneg; lia).
  assert (Hq : 0 <= size / 2 ^ k) by (apply Z.div_pos; lia).
  assert (E : size / 2 ^ k <= 1 <-> Z.log2 size <= k).
  { destruct (Z.eq_dec size 0) as [->|N].
    - rewrite Z.div_0_l by lia. change (Z.log2 0) with 0. lia.
    - assert (Hlt : size < 2 ^ (k + 1) <-> Z.log2 size < k + 1)
        by (apply Z.log2_lt_pow2; lia).
      rewrite Z.pow_add_r in Hlt by lia. change (2 ^ 1) with 2 in Hlt.
      assert (size / 2 ^ k < 2 <-> size < 2 ^ k * 2).
      { split; intros H.
        - destruct (Z_lt_dec size (2 ^ k * 2)) as [L|L]; [exact L|].
          assert (2 <= size / 2 ^ k) by (apply Z.div_le_lower_bound; lia). lia.
        - apply Z.div_lt_upper_bound; lia. }
      lia. }
  destruct (1 >? size / 2 ^ k) eqn:G.
  - apply Z.gtb_lt in G. lia.
  - assert (~ size / 2 ^ k < 1) by (intros C; apply Z.gtb_lt in C; congruence).
    lia.
Qed.

Lemma mipChainLoop_from (w h limit : Z) :
  0 <= w -> 0 <= h -> limit <= 255 ->
  forall (fuel : nat) (j size : Z) (offs : list Z),
    1 <= j <= limit -> j <= 1 + Z.min (Z.log2 w) (Z.log2 h) ->
    limit - j <= Z.of_nat fuel ->
    loopCount (mipChainLoop fuel w h limit
                 (j, mipDim w (j - 1), mipDim h (j - 1), size, offs))
    = chainLevels w h limit.
Proof.
  intros Hw Hh Hl. unfold chainLevels.
  pose proof (Z.log2_nonneg w) as Lw. pose proof (Z.log2_nonneg h) as Lh.
  induction fuel as [|fuel IH]; intros j size offs Hj Hle Hfuel.
  - cbn [mipChainLoop loopCount]. lia.
  - cbn [mipChainLoop].
    destruct (Z.eq_dec j limit) as [->|Nj].
    { rewrite Z.ltb_irrefl. cbn [andb loopCount]. lia. }
    replace (j <? limit) with true by (symmetry; apply Z.ltb_lt; lia).
    cbn [andb].
    destruct (Z.eq_dec j (1 + Z.min (Z.log2 w) (Z.log2 h))) as [Ej|Nl].
    + assert (Hone : mipDim w (j - 1) = 1 \/ mipDim h (j - 1) = 1).
      { destruct (Z.min_spec (Z.log2 w) (Z.log2 h)) as [[_ Em]|[_ Em]].
        - left. apply mipDim_one; lia.
        - right. apply mipDim_one; lia. }
      assert (G : negb (mipDim w (j - 1) =? 1) && negb (mipDim h (j - 1) =? 1) = false).
      { destruct Hone as [-> | ->]; [reflexivity|].
        rewrite Z.eqb_refl. apply andb_false_r. }
      rewrite G. cbn [loopCount]. lia.
    + assert (Hw1 : mipDim w (j - 1) <> 1) by (rewrite mipDim_one by lia; lia).
      assert (Hh1 : mipDim h (j - 1) <> 1) by (rewrite mipDim_one by lia; lia).
      apply Z.eqb_neq in Hw1, Hh1. rewrite Hw1, Hh1. cbn [negb andb].
      unfold u8. rewrite (Z.mod_small (j + 1)) by lia.
      replace j with (j + 1 - 1) at 2 3 by lia.
      apply IH; lia.
Qed.

Lemma mipChainLoop_levels (w h limit size : Z) :
  0 <= w -> 0 <= h -> 0 <= limit <= 255 ->
  loopCount (mipChainLoop (Z.to_nat limit) w h limit (0, 0, 0, size, []))
  = chainLevels w h limit.
Proof.
  intros Hw Hh Hl.
  pose proof (Z.log2_nonneg w) as Lw. pose proof (Z.log2_nonneg h) as Lh.
  destruct (Z.eq_dec limit 0) as [->|N].
  - cbn [Z.to_nat mipChainLoop loopCount]. unfold chainLevels. lia.
  - destruct (Z.to_nat limit) as [|fuel] eqn:F; [lia|].
    cbn [mipChainLoop].
    replace (0 <? limit) with true by (symmetry; apply Z.ltb_lt; lia).
    cbn [andb negb Z.eqb]. change (u8 (0 + 1)) with 1.
    change (mipDim w 0) with (mipDim w (1 - 1)).
    change (mipDim h 0) with (mipDim h (1 - 1)).
    apply mipChainLoop_from; lia.
Qed.

(** X8.  On an image of one to six faces, the sizing loop of
    [imageGenerateMipMapChain] gives
    [min(numMips, 16, 1 + min(log2 width, log2 height))] levels: the
    chain ends at the first level that has a side of one texel. *)
Theorem mipChainLayout_levels (img : Image) (numMips : Z) :
  1 <= m_numFaces img <= CUBE_FACE_NUM -> 0 <= m_width img -> 0 <= m_height img ->
  0 <= numMips <= 255 ->
  fst (fst (mipChainLayout img numMips))
  = chainLevels (m_width img) (m_height img) (Z.min numMips 16).
Proof.
  intros [Hf Hfaces] Hw Hh Hn. unfold mipChainLayout.
  assert (Em : min numMips (u8 MAX_MIP_NUM) = Z.min numMips 16).
  { unfold min. change (u8 MAX_MIP_NUM) with 16.
    destruct (numMips >? 16) eqn:G.
    - apply Z.gtb_lt in G. lia.
    - assert (~ 16 < numMips) by (intros C; apply Z.gtb_lt in C; congruence). lia. }
  rewrite Em. set (limit := Z.min numMips 16).
  replace (m_numFaces img) with ((m_numFaces img - 1) + 1) by lia.
  rewrite upto_succ, fold_left_app by lia. cbn [fold_left].
  destruct (fold_left _ (upto (m_numFaces img - 1)) (0, 0, [])) as [[c0 size0] offs0].
  pose proof (mipChainLoop_levels (m_width img) (m_height img) limit size0 Hw Hh) as H.
  destruct (mipChainLoop (Z.to_nat limit) (m_width img) (m_height img) limit
              (0, 0, 0, size0, [])) as [[[[c wv] hv] sz] offs].
  cbn [loopCount fst] in *. apply H. unfold limit. lia.
Qed.

Lemma mipChainLayout_levels_witness :
  fst (fst (mipChainLayout wide8x2 16))
  = chainLevels (m_width wide8x2) (m_height wide8x2) (Z.min 16 16).
Proof.
  apply (mipChainLayout_levels wide8x2 16); ground.
Defined.

(** ** Reading back what was written *)

Lemma le_decode_encode (n : nat) (x : Z) :
  le_decode (le_encode n x) = x mod 256 ^ Z.of_nat n.
Proof.
  revert x. induction n as [|n IH]; intros x.
  - cbn [le_encode le_decode]. change (256 ^ Z.of_nat 0) with 1.
    rewrite Z.mod_1_r. reflexivity.
  - cbn [le_encode le_decode]. rewrite IH.
    replace (Z.of_nat (Datatypes.S n)) with (1 + Z.of_nat n) by lia.
    rewrite Z.pow_add_r by lia. change (256 ^ 1) with 256.
    assert (0 < 256 ^ Z.of_nat n) by (apply Z.pow_pos_nonneg; lia).
    rewrite Z.rem_mul_r by lia. reflexivity.
Qed.

Lemma len_le_encode (n : nat) (x : Z) : len (le_encode n x) = Z.of_nat n.
Proof.
  unfold len. f_equal. revert x. induction n as [|n IH]; intros x; cbn [le_encode length].
  - reflexivity.
  - rewrite IH. reflexivity.
Qed.

Lemma slice_middle (pre mid post : bytes) :
  slice (pre ++ mid ++ post) (len pre) (len mid) = mid.
Proof.
  unfold slice, len. rewrite !Nat2Z.id.
  rewrite skipn_app, skipn_all, Nat.sub_diag. cbn [skipn app].
  rewrite firstn_app, firstn_all, Nat.sub_diag. cbn [firstn]. apply app_nil_r.
Qed.

Lemma peek_middle (pre mid post : bytes) (off n : Z) :
  off = len pre -> n = len mid -> peek (pre ++ mid ++ post) off n = Done mid.
Proof.
  intros -> ->. pose proof (len_nonneg pre). pose proof (len_nonneg mid).
  pose proof (len_nonneg post).
  rewrite peek_Done by (rewrite ?len_app; lia). f_equal. apply slice_middle.
Qed.

(** A word written by [fwrite_u32] is read back by [fread_u32]. *)
Lemma fread_u32_written (pre post : bytes) (w : Z) (fp : FILE) :
  content fp = pre ++ fwrite_u32 w ++ post -> pos fp = len pre ->
  fread_u32 fp = Done (u32 w, {| content := content fp; pos := pos fp + 4 |}).
Proof.
  intros Hc Hp. unfold fread_u32, fread. rewrite Hc.
  rewrite (peek_middle pre (fwrite_u32 w) post)
    by (try exact Hp; unfold fwrite_u32; rewrite len_le_encode; reflexivity).
  cbn [bind]. unfold fwrite_u32. rewrite le_decode_encode. reflexivity.
Qed.

Lemma fread_words_written (ws : list Z) :
  forall (pre post : bytes) (fp : FILE),
    content fp = pre ++ flat_map fwrite_u32 ws ++ post -> pos fp = len pre ->
    fread_words (length ws) fp
    = Done (map u32 ws,
            {| content := content fp; pos := pos fp + 4 * Z.of_nat (length ws) |}).
Proof.
  induction ws as [|w ws IH]; intros pre post fp Hc Hp.
  - cbn [length fread_words map]. destruct fp as [c p]. cbn [content pos].
    do 2 f_equal. f_equal. lia.
  - cbn [length fread_words map flat_map] in *.
    rewrite <- app_assoc in Hc.
    rewrite (fread_u32_written pre _ w fp Hc Hp). cbn [bind].
    rewrite (IH (pre ++ fwrite_u32 w) post).
    + cbn [bind content pos]. do 2 f_equal. f_equal. lia.
    + cbn [content]. rewrite Hc, <- app_assoc. reflexivity.
    + cbn [pos]. rewrite len_app. unfold fwrite_u32. rewrite len_le_encode. lia.
Qed.

Lemma map_u32_small (ws : list Z) :
  Forall (fun w => 0 <= w < 4294967296) ws -> map u32 ws = ws.
Proof.
  induction 1 as [|w ws Hw _ IH]; cbn [map]; [reflexivity|].
  rewrite IH, u32_small by exact Hw. reflexivity.
Qed.

Lemma len_flat_words (ws : list Z) :
  len (flat_map fwrite_u32 ws) = 4 * Z.of_nat (length ws).
Proof.
  induction ws as [|w ws IH]; [reflexivity|].
  cbn [flat_map length]. rewrite len_app, IH. unfold fwrite_u32.
  rewrite len_le_encode. lia.
Qed.

(** ** DDS: what [imageSaveDds] writes *)

Lemma imageSaveDds_words (img : Image) :
  imageSaveDds img
  = ('(h, d) <- ddsHeaderFromImage img ;;
     data <- peek (m_data img) 0 (m_dataSize img) ;;
     Done (flat_map fwrite_u32
             (DDS_MAGIC :: ddsHeaderWords h
              ++ (if DDS_DX10 =? pf_fourcc (dds_pixelFormat h)
                  then ddsDxt10Words d else []))
           ++ data)).
Proof.
  unfold imageSaveDds. destruct (ddsHeaderFromImage img) as [[h d]|e]; [|reflexivity].
  cbn [bind]. destruct (peek (m_data img) 0 (m_dataSize img)) as [data|e]; [|reflexivity].
  cbn [bind]. f_equal. unfold ddsHeaderWords. cbv zeta.
  cbn [flat_map]. rewrite !flat_map_app. cbn [flat_map].
  rewrite <- !app_assoc. cbn [app].
  repeat (f_equal; []).
  destruct (DDS_DX10 =? pf_fourcc (dds_pixelFormat h)); cbn [ddsDxt10Words flat_map app];
    rewrite ?app_nil_r, <- ?app_assoc; reflexivity.
Qed.

Lemma peek_all (b : bytes) : peek b 0 (len b) = Done b.
Proof.
  pose proof (len_nonneg b). rewrite peek_Done by lia. f_equal.
  unfold slice, len. rewrite Nat2Z.id. cbn [Z.to_nat skipn]. apply firstn_all.
Qed.

Lemma mipOffsetAfter_shape (a b : Image) (faces : Z) :
  m_width a = m_width b -> m_height a = m_height b -> m_format a = m_format b ->
  m_numMips a = m_numMips b -> mipOffsetAfter a faces = mipOffsetAfter b faces.
Proof. intros H1 H2 H3 H4. unfold mipOffsetAfter. rewrite H1, H2, H3, H4. reflexivity. Qed.

Lemma mipOffsetAfter_nonneg (img : Image) (faces : Z) : 0 <= mipOffsetAfter img faces.
Proof.
  unfold mipOffsetAfter.
  assert (G : forall l a, 0 <= a ->
            0 <= fold_left
                   (fun offset mip =>
                      u32 (offset + mipBytes (m_width img) (m_height img)
                                             (bpp (m_format img)) mip)) l a).
  { induction l as [|x l IH]; intros a Ha; cbn [fold_left]; [exact Ha|].
    apply IH. unfold u32. apply Z.mod_pos_bound. lia. }
  assert (G2 : forall l a, 0 <= a ->
            0 <= fold_left
                   (fun offset (_ : Z) =>
                      fold_left
                        (fun offset mip =>
                           u32 (offset + mipBytes (m_width img) (m_height img)
                                                  (bpp (m_format img)) mip))
                        (upto (m_numMips img)) offset) l a).
  { induction l as [|x l IH]; intros a Ha; cbn [fold_left]; [exact Ha|].
    apply IH. apply G. exact Ha. }
  apply G2. lia.
Qed.

Ltac inrange :=
  first [ assumption | lia | vm_compute; split; [discriminate | reflexivity] ].

(** Evaluate the tests whose operands contain none of [vars]. *)
Ltac mentions t vars :=
  lazymatch vars with
  | (?rest, ?x) =>
      first [ lazymatch t with context [x] => idtac end | mentions t rest ]
  | ?x => lazymatch t with context [x] => idtac end
  end.

Ltac decide_tests vars :=
  repeat
    match goal with
    | |- context [Z.eqb ?a ?b] =>
        tryif mentions (a, b) vars then fail else
        let v := eval vm_compute in (Z.eqb a b) in
        lazymatch v with
        | true => change (Z.eqb a b) with true
        | false => change (Z.eqb a b) with false
        end
    end.

(** The reads at the head of [imageLoadDds], on a file that starts with
    the magic and 31 header words. *)
Lemma dds_file_reads (ws dx : list Z) (data : bytes) :
  length ws = 31%nat ->
  Forall (fun w => 0 <= w < 4294967296) ws ->
  Forall (fun w => 0 <= w < 4294967296) dx ->
  let file := flat_map fwrite_u32 (DDS_MAGIC :: ws ++ dx) ++ data in
  fread_u32 (fopen file) = Done (DDS_MAGIC, {| content := file; pos := 4 |})
  /\ fread_words 31 {| content := file; pos := 4 |}
     = Done (ws, {| content := file; pos := 128 |})
  /\ (length dx = 5%nat ->
      fread_words 5 {| content := file; pos := 128 |}
      = Done (dx, {| content := file; pos := 148 |}))
  /\ len file = 128 + 4 * Z.of_nat (length dx) + len data
  /\ peek file (128 + 4 * Z.of_nat (length dx)) (len data) = Done data.
Proof.
  intros Hl Hws Hdx file.
  assert (Ef : file = [] ++ fwrite_u32 DDS_MAGIC
                         ++ (flat_map fwrite_u32 ws ++ flat_map fwrite_u32 dx ++ data)).
  { unfold file. cbn [flat_map app]. rewrite flat_map_app, <- !app_assoc. reflexivity. }
  assert (Ef2 : file = fwrite_u32 DDS_MAGIC ++ flat_map fwrite_u32 ws
                       ++ (flat_map fwrite_u32 dx ++ data)).
  { rewrite Ef. reflexivity. }
  assert (Ef3 : file = (fwrite_u32 DDS_MAGIC ++ flat_map fwrite_u32 ws)
                       ++ flat_map fwrite_u32 dx ++ data).
  { rewrite Ef2, <- app_assoc. reflexivity. }
  assert (L1 : len (fwrite_u32 DDS_MAGIC) = 4) by reflexivity.
  assert (L2 : len (flat_map fwrite_u32 ws) = 124) by (rewrite len_flat_words, Hl; reflexivity).
  split; [|split; [|split; [|split]]].
  - rewrite (fread_u32_written [] _ DDS_MAGIC (fopen file) Ef) by reflexivity.
    reflexivity.
  - rewrite <- Hl.
    rewrite (fread_words_written ws (fwrite_u32 DDS_MAGIC) _ {| content := file; pos := 4 |} Ef2) by reflexivity.
    rewrite map_u32_small by exact Hws. cbn [content pos]. rewrite Hl. reflexivity.
  - intros Hd. rewrite <- Hd.
    rewrite (fread_words_written dx _ _ {| content := file; pos := 128 |} Ef3)
      by (cbn [pos]; rewrite len_app, L1, L2; reflexivity).
    rewrite map_u32_small by exact Hdx. cbn [content pos]. rewrite Hd. reflexivity.
  - rewrite Ef3, !len_app, L1, L2, len_flat_words. lia.
  - replace file with ((fwrite_u32 DDS_MAGIC ++ flat_map fwrite_u32 ws
                        ++ flat_map fwrite_u32 dx) ++ data ++ [])
      by (rewrite Ef2, app_nil_r, <- !app_assoc; reflexivity).
    apply peek_middle; [|reflexivity].
    rewrite !len_app, L1, L2, len_flat_words. lia.
Qed.

Lemma dds_save_load (dst img : Image) :
  checkValidInternalFormat ImageFileType.DDS (m_format img) = true ->
  m_numFaces img = 1 \/ m_numFaces img = 6 ->
  1 <= m_numMips img <= 255 ->
  0 <= m_width img < 4294967296 -> 0 <= m_height img < 4294967296 ->
  m_dataSize img = mipOffsetAfter img (m_numFaces img) ->
  len (m_data img) = m_dataSize img ->
  ddsRoundTrip dst img = Done (true, img).
Proof.
  intros Hfmt Hfaces Hmips Hw Hh Hsize Hlen.
  unfold ddsRoundTrip. rewrite imageSaveDds_words.
  destruct img as [data w h size f mips faces].
  cbn [m_data m_width m_height m_dataSize m_format m_numMips m_numFaces] in *.
  assert (Hpeek : peek data 0 size = Done data).
  { rewrite <- Hlen. apply peek_all. }
  assert (Hpitch : 0 <= u32 (w * bpp f) < 4294967296)
    by (unfold u32; apply Z.mod_pos_bound; lia).
  unfold ddsHeaderFromImage.
  cbn [m_data m_width m_height m_dataSize m_format m_numMips m_numFaces].
  unfold getDdsPixelFormat. rewrite Hfmt. cbn [ensure bind].
  set (pitch := u32 (w * bpp f)) in *. clearbody pitch.
  rewrite Hpeek.
  destruct (mips >? 1) eqn:Emips;
  destruct Hfaces as [-> | ->];
  destruct f; try discriminate Hfmt.
  all: unfold ddsDxt10Words.
  all: decide_tests (w, h, pitch, mips, data, size).
  all: cbn [ensure bind pf_fourcc negb getDdsDxgiFormat orb dds_pixelFormat
            ddsHeaderWords app repeat
            dds_size dds_flags dds_height dds_width dds_pitchOrLinearSize dds_depth
            dds_mipMapCount dds_reserved1 pf_size pf_flags pf_rgbBitCount pf_rBitMask
            pf_gBitMask pf_bBitMask pf_aBitMask dds_caps dds_caps2 dds_caps3 dds_caps4
            dds_reserved2 dxt10_dxgiFormat dxt10_resourceDimension dxt10_miscFlags
            dxt10_arraySize dxt10_miscFlags2].
  all: decide_tests (w, h, pitch, mips, data, size).
  all: cbn [ensure bind pf_fourcc negb getDdsDxgiFormat orb dds_pixelFormat
            ddsHeaderWords app repeat
            dds_size dds_flags dds_height dds_width dds_pitchOrLinearSize dds_depth
            dds_mipMapCount dds_reserved1 pf_size pf_flags pf_rgbBitCount pf_rBitMask
            pf_gBitMask pf_bBitMask pf_aBitMask dds_caps dds_caps2 dds_caps3 dds_caps4
            dds_reserved2 dxt10_dxgiFormat dxt10_resourceDimension dxt10_miscFlags
            dxt10_arraySize dxt10_miscFlags2].
  all: match goal with
       | |- imageLoadDds _ (fopen (flat_map fwrite_u32 (DDS_MAGIC :: ?l) ++ ?d)) = _ =>
           let ws := eval cbv [firstn] in (firstn 31 l) in
           let dx := eval cbv [skipn] in (skipn 31 l) in
           let H1 := fresh "H" in
           let H2 := fresh "H" in
           let H3 := fresh "H" in
           assert (H1 : length ws = 31%nat) by reflexivity;
           assert (H2 : Forall (fun w => 0 <= w < 4294967296) ws)
             by (repeat (apply Forall_cons; [inrange|]); apply Forall_nil);
           assert (H3 : Forall (fun w => 0 <= w < 4294967296) dx)
             by (repeat (apply Forall_cons; [inrange|]); apply Forall_nil);
           pose proof (dds_file_reads ws dx d H1 H2 H3) as R;
           cbv zeta in R; cbn [app length] in R;
           destruct R as (R1 & R2 & R3 & R4 & R5); clear H1 H2 H3
       end.
  all: unfold imageLoadDds; rewrite R1; cbn [bind]; rewrite Z.eqb_refl; cbn [negb];
       rewrite R2; cbn [bind word nth].
  all: decide_tests (w, h, pitch, mips, data, size); cbn [andb negb].
  all: try (rewrite R3 by reflexivity).
  all: cbn [bind word nth repeat]; decide_tests (w, h, pitch, mips, data, size); cbn [andb negb].
  all: repeat match goal with
              | |- context [lookup ?k ?t ?d] =>
                  let v := eval vm_compute in (lookup k t d) in
                  change (lookup k t d) with v
              end.
  all: cbn [TextureFormat.eqb bind].
  all: replace (0 =? mips) with false by (symmetry; apply Z.eqb_neq; lia).
  all: unfold counted;
       replace (mips <=? 255) with true by (symmetry; apply Z.leb_le; lia);
       cbn [bind].
  all: match goal with
       | |- context [mipOffsetAfter ?s ?n] =>
           match type of Hsize with
           | _ = mipOffsetAfter ?i _ =>
               rewrite (mipOffsetAfter_shape s i n) by reflexivity
           end
       end; rewrite <- Hsize.
  all: cbn [length Z.of_nat] in R4, R5;
       match type of R4 with
       | len ?file = _ => set (F := file) in *
       end.
  all: cbn [content ftell pos fseek_set]; rewrite R4, Hlen.
  all: match goal with
       | |- context [?a =? ?s - DDS_DX10_HEADER_SIZE] =>
           replace (a =? s - DDS_DX10_HEADER_SIZE) with false
             by (symmetry; apply Z.eqb_neq; unfold DDS_DX10_HEADER_SIZE; lia)
       end.
  all: unfold fread; cbn [content pos fseek_set]; rewrite <- Hlen.
  all: match type of R5 with
       | peek _ ?p _ = _ =>
           let p' := eval vm_compute in p in change p with p' in R5
       end;
       match goal with
       | |- context [peek _ ?q (len _)] =>
           let q' := eval vm_compute in q in change q with q'
       end.
  all: rewrite R5; cbn [bind].
  all: unfold imageMove, u8; rewrite (Z.mod_small mips) by lia; rewrite Hlen.
  all: reflexivity.
Qed.

Lemma imageSaveDds_magic (img : Image) (file : bytes) :
  imageSaveDds img = Done file -> exists rest, file = fwrite_u32 DDS_MAGIC ++ rest.
Proof.
  rewrite imageSaveDds_words.
  destruct (ddsHeaderFromImage img) as [[h d]|e]; [|discriminate]. cbn [bind].
  destruct (peek (m_data img) 0 (m_dataSize img)) as [data|e]; [|discriminate].
  cbn [bind flat_map]. intros H. inversion H. rewrite <- app_assoc.
  eexists. reflexivity.
Qed.

(** [imageLoad] without conversion, on a file that one of the loaders
    accepts and that starts with the magic number [magic]. *)
Lemma imageLoad_dispatch (junk : Z -> Z) (dst img : Image) (file : bytes) (magic : Z)
    (loader : Image -> FILE -> outcome (bool * Image)) :
  fread_u32 (fopen file) = Done (magic, {| content := file; pos := 4 |}) ->
  (if DDS_MAGIC =? magic then imageLoadDds
   else if HDR_MAGIC =? magic then imageLoadHdr junk
   else if KTX_MAGIC_SHORT =? magic then imageLoadKtx junk
   else if isTga magic then imageLoadTga junk
   else fun _image _ => Done (false, _image)) = loader ->
  loader dst (fopen file) = Done (true, img) ->
  imageLoad junk dst (Some file) TextureFormat.Unknown = Done (true, img).
Proof.
  intros Hmagic Hloader Hload. unfold imageLoad. rewrite Hmagic. cbn [bind].
  change (fseek_set {| content := file; pos := 4 |} 0) with (fopen file).
  subst loader.
  destruct (DDS_MAGIC =? magic); [rewrite Hload; reflexivity|].
  destruct (HDR_MAGIC =? magic); [rewrite Hload; reflexivity|].
  destruct (KTX_MAGIC_SHORT =? magic); [rewrite Hload; reflexivity|].
  destruct (isTga magic); [rewrite Hload; reflexivity|].
  discriminate Hload.
Qed.

(** X9.  An image in one of the DDS formats, with one or six faces, one
    to sixteen levels and data of the packed size, written by
    [imageSaveDds] is loaded back unchanged by [imageLoadDds], and by
    [imageLoad] which finds the loader from the magic. *)
Theorem dds_roundtrip (junk : Z -> Z) (dst img : Image) :
  checkValidInternalFormat ImageFileType.DDS (m_format img) = true ->
  m_numFaces img = 1 \/ m_numFaces img = 6 ->
  1 <= m_numMips img <= 16 ->
  0 <= m_width img < 4294967296 -> 0 <= m_height img < 4294967296 ->
  m_dataSize img = mipOffsetAfter img (m_numFaces img) ->
  len (m_data img) = m_dataSize img ->
  exists file,
    imageSaveDds img = Done file
    /\ imageLoadDds dst (fopen file) = Done (true, img)
    /\ imageLoad junk dst (Some file) TextureFormat.Unknown = Done (true, img).
Proof.
  intros Hfmt Hfaces Hmips Hw Hh Hsize Hlen.
  pose proof (dds_save_load dst img Hfmt Hfaces ltac:(lia) Hw Hh Hsize Hlen) as H.
  unfold ddsRoundTrip in H.
  destruct (imageSaveDds img) as [file|e] eqn:Esave; [|discriminate H].
  cbn [bind] in H. exists file. split; [reflexivity|]. split; [exact H|].
  destruct (imageSaveDds_magic img file Esave) as (rest & ->).
  apply (imageLoad_dispatch junk dst img _ DDS_MAGIC imageLoadDds).
  - rewrite (fread_u32_written [] rest DDS_MAGIC) by reflexivity. reflexivity.
  - reflexivity.
  - exact H.
Qed.

Lemma dds_roundtrip_witness :
  exists file,
    imageSaveDds bgraQuad = Done file
    /\ imageLoadDds emptyImage (fopen file) = Done (true, bgraQuad)
    /\ imageLoad noJunk emptyImage (Some file) TextureFormat.Unknown
       = Done (true, bgraQuad).
Proof.
  apply (dds_roundtrip noJunk emptyImage bgraQuad).
  - reflexivity.
  - left. reflexivity.
  - vm_compute. split; discriminate.
  - vm_compute. split; [discriminate|reflexivity].
  - vm_compute. split; [discriminate|reflexivity].
  - reflexivity.
  - reflexivity.
Defined.

(** ** Flipping the rows of one level *)

Lemma flip_rows (base h pitch : Z) (data : bytes) :
  0 <= base -> 0 <= h -> 0 <= pitch -> base + h * pitch <= len data ->
  exists data',
    for_upto (h / 2)
      (fun yy d => cmft_swap d (base + pitch * yy) (base + pitch * (h - 1 - yy)) pitch)
      data = Done data'
    /\ len data' = len data
    /\ (forall y, 0 <= y < h ->
          slice data' (base + pitch * y) pitch
          = slice data (base + pitch * (h - 1 - y)) pitch)
    /\ (forall i, 0 <= i -> i < base \/ base + h * pitch <= i ->
          byte_at data' i = byte_at data i).
Proof.
  intros Hb Hh Hp Hl.
  assert (Hhalf : 0 <= h / 2) by (apply Z.div_pos; lia).
  assert (H2 : 2 * (h / 2) <= h) by (apply Z.mul_div_le; lia).
  assert (H3 : h < 2 * (h / 2) + 2)
    by (pose proof (Z.mod_pos_bound h 2 ltac:(lia)); pose proof (Z.div_mod h 2 ltac:(lia)); lia).
  destruct (for_upto_invariant
              (fun k d =>
                 len d = len data
                 /\ (forall y, 0 <= y < h ->
                       slice d (base + pitch * y) pitch
                       = slice data (base + pitch * flippedRow h k y) pitch)
                 /\ (forall i, 0 <= i -> i < base \/ base + h * pitch <= i ->
                       byte_at d i = byte_at data i))
              (fun yy d =>
                 cmft_swap d (base + pitch * yy) (base + pitch * (h - 1 - yy)) pitch)
              (h / 2) data Hhalf) as (data' & E & Hlen & Hrows & Hout).
  - split; [reflexivity|]. split; [|auto].
    intros y Hy. unfold flippedRow.
    replace (y <? 0) with false by (symmetry; apply Z.ltb_ge; lia).
    replace (h - 1 - 0 <? y) with false by (symmetry; apply Z.ltb_ge; lia).
    reflexivity.
  - intros k d Hk (Hlen & Hrows & Hout).
    assert (Ra : forall y, 0 <= y < h ->
                           0 <= base + pitch * y /\ base + pitch * y + pitch <= len data)
      by (intros y Hy; nia).
    destruct (Ra k ltac:(lia)) as [Ra1 Ra2].
    destruct (Ra (h - 1 - k) ltac:(lia)) as [Rb1 Rb2].
    destruct (cmft_swap_spec d (base + pitch * k) (base + pitch * (h - 1 - k)) pitch)
      as (d' & E' & L' & Sa & Sb & Rest); [lia|lia|lia|lia|lia|left; nia|].
    exists d'. split; [exact E'|]. split; [lia|]. split.
    + intros y Hy. unfold flippedRow.
      destruct (Z.eq_dec y k) as [->|Nk].
      { rewrite Sa, Hrows by lia. unfold flippedRow.
        replace (h - 1 - k <? k) with false by (symmetry; apply Z.ltb_ge; lia).
        replace (h - 1 - k <? h - 1 - k) with false by (symmetry; apply Z.ltb_ge; lia).
        replace (k <? k + 1) with true by (symmetry; apply Z.ltb_lt; lia).
        cbn [orb]. reflexivity. }
      destruct (Z.eq_dec y (h - 1 - k)) as [->|Nk'].
      { rewrite Sb, Hrows by lia. unfold flippedRow.
        replace (k <? k) with false by (symmetry; apply Z.ltb_ge; lia).
        replace (h - 1 - k <? k) with false by (symmetry; apply Z.ltb_ge; lia).
        replace (h - 1 - (k + 1) <? h - 1 - k) with true by (symmetry; apply Z.ltb_lt; lia).
        rewrite orb_true_r. cbn [orb]. f_equal. lia. }
      assert (Eq : slice d' (base + pitch * y) pitch = slice d (base + pitch * y) pitch).
      { destruct (Ra y Hy). apply slice_bytes; try lia.
        intros j Hj. apply Rest; [lia| |].
        - assert (y < k \/ k < y) as [C|C] by lia; nia.
        - assert (y < h - 1 - k \/ h - 1 - k < y) as [C|C] by lia; nia. }
      rewrite Eq, Hrows by lia. unfold flippedRow.
      replace ((y <? k + 1) || (h - 1 - (k + 1) <? y))
        with ((y <? k) || (h - 1 - k <? y)); [reflexivity|].
      destruct (Z.ltb_spec y k), (Z.ltb_spec y (k + 1)),
               (Z.ltb_spec (h - 1 - k) y), (Z.ltb_spec (h - 1 - (k + 1)) y);
        try reflexivity; lia.
    + intros i Hi Ho. rewrite Rest; [apply Hout; assumption|lia| |]; nia.
  - exists data'. split; [exact E|]. split; [exact Hlen|]. split; [|exact Hout].
    intros y Hy. rewrite Hrows by lia. unfold flippedRow.
    destruct (Z.ltb_spec y (h / 2)), (Z.ltb_spec (h - 1 - h / 2) y); cbn [orb];
      try reflexivity.
    f_equal. f_equal. f_equal. lia.
Qed.

(** ** [transformFlipX] *)

Lemma level_rows (img : Image) (m : Z) :
  levelBytes img m = mipDim (m_height img) m * rowPitch img m.
Proof. unfold levelBytes, rowPitch. ring. Qed.

Lemma rowPitch_nonneg' (img : Image) (m : Z) : 0 <= rowPitch img m.
Proof.
  unfold rowPitch. pose proof (mipDim_pos (m_width img) m).
  pose proof (bpp_nonneg (m_format img)). apply Z.mul_nonneg_nonneg; lia.
Qed.

Lemma rowPitch_le_level (img : Image) (m : Z) : rowPitch img m <= levelBytes img m.
Proof.
  rewrite level_rows. pose proof (mipDim_pos (m_height img) m).
  pose proof (rowPitch_nonneg' img m). nia.
Qed.

(** One level of [transformFlipX], with the offsets written out. *)
Lemma flipX_level (img : Image) (face m : Z) (d : bytes) :
  0 <= face -> 0 <= m < m_numMips img ->
  (face + 1) * chainBytes img < 4294967296 ->
  (let bytesPerPixel := bpp (m_format img) in
   let width := mipDim (m_width img) m in
   let height := mipDim (m_height img) m in
   let pitch := u32 (width * bytesPerPixel) in
   let facePtr := imageGetMipOffsets img face m in
   for_upto (height / 2)
     (fun yy data =>
        let yyEnd := height - 1 - yy in
        cmft_swap data (facePtr + u32 (pitch * yy))
                       (facePtr + u32 (pitch * yyEnd)) pitch)
     d)
  = for_upto (mipDim (m_height img) m / 2)
      (fun yy data =>
         cmft_swap data
           (cubeRow img face m 0 + rowPitch img m * yy)
           (cubeRow img face m 0
            + rowPitch img m * (mipDim (m_height img) m - 1 - yy))
           (rowPitch img m))
      d.
Proof.
  intros Hf Hm Hb. cbv zeta.
  pose proof (chainBytes_nonneg img) as Hc.
  pose proof (level_le_chain img m Hm) as Hlv.
  pose proof (rowPitch_le_level img m) as Hpl.
  pose proof (rowPitch_nonneg' img m) as Hp.
  pose proof (mipDim_pos (m_height img) m) as Hh.
  assert (Hsmall : chainBytes img < 4294967296) by nia.
  fold (rowPitch img m). rewrite (u32_small (rowPitch img m)) by lia.
  rewrite imageGetMipOffsets_eq by lia.
  assert (Hhalf : 2 * (mipDim (m_height img) m / 2) <= mipDim (m_height img) m)
    by (apply Z.mul_div_le; lia).
  apply for_upto_ext. intros yy s Hy.
  pose proof (level_rows img m) as Hlr.
  rewrite !u32_small by nia.
  unfold cubeRow. f_equal; lia.
Qed.

Lemma transformFlipX_spec (img : Image) (face : Z) (data : bytes) :
  0 <= face -> 0 <= m_numMips img ->
  (face + 1) * chainBytes img < 4294967296 ->
  (face + 1) * chainBytes img <= len data ->
  exists data',
    transformFlipX img face data = Done data'
    /\ len data' = len data
    /\ (forall m y, 0 <= m < m_numMips img -> 0 <= y < mipDim (m_height img) m ->
          slice data' (cubeRow img face m y) (rowPitch img m)
          = slice data (cubeRow img face m (mipDim (m_height img) m - 1 - y))
                  (rowPitch img m))
    /\ (forall i, 0 <= i ->
          i < face * chainBytes img \/ (face + 1) * chainBytes img <= i ->
          byte_at data' i = byte_at data i).
Proof.
  intros Hf Hn Hb Hl. unfold transformFlipX, forEachMip.
  pose proof (chainBytes_nonneg img) as Hc.
  set (base := face * chainBytes img).
  destruct (for_upto_invariant
              (fun k d =>
                 len d = len data
                 /\ (forall m y, 0 <= m < k -> 0 <= y < mipDim (m_height img) m ->
                       slice d (cubeRow img face m y) (rowPitch img m)
                       = slice data
                           (cubeRow img face m (mipDim (m_height img) m - 1 - y))
                           (rowPitch img m))
                 /\ (forall i, 0 <= i ->
                       i < base \/ base + sumUpto (levelBytes img) k <= i ->
                       byte_at d i = byte_at data i))
              (fun mip data =>
                 for_upto (mipDim (m_height img) mip / 2)
                   (fun yy data0 =>
                      cmft_swap data0
                        (imageGetMipOffsets img face mip
                         + u32 (u32 (mipDim (m_width img) mip * bpp (m_format img)) * yy))
                        (imageGetMipOffsets img face mip
                         + u32 (u32 (mipDim (m_width img) mip * bpp (m_format img))
                                * (mipDim (m_height img) mip - 1 - yy)))
                        (u32 (mipDim (m_width img) mip * bpp (m_format img))))
                   data)
              (m_numMips img) data Hn) as (data' & E & Hlen & Hrows & Hout).
  - split; [reflexivity|]. split; [intros; lia|]. intros; reflexivity.
  - intros k d Hk (Hlen & Hrows & Hout).
    pose proof (flipX_level img face k d Hf Hk Hb) as Hlevel. cbv zeta in Hlevel.
    rewrite Hlevel. clear Hlevel.
    pose proof (level_inside_chain img k Hk) as Hin.
    pose proof (prefix_nonneg img k) as Hpre.
    pose proof (rowPitch_nonneg' img k) as Hp.
    pose proof (mipDim_pos (m_height img) k) as Hh.
    pose proof (level_rows img k) as Hlr.
    assert (Hrow0 : cubeRow img face k 0 = base + sumUpto (levelBytes img) k)
      by (unfold cubeRow, base; lia).
    destruct (flip_rows (cubeRow img face k 0) (mipDim (m_height img) k)
                (rowPitch img k) d) as (d' & E' & L' & Rows' & Out').
    { rewrite Hrow0. unfold base. nia. }
    { lia. }
    { lia. }
    { rewrite Hlen, Hrow0. unfold base. nia. }
    exists d'. split; [exact E'|]. split; [lia|]. split.
    + intros m y Hm Hy.
      assert (Hrow : forall y', cubeRow img face k 0 + rowPitch img k * y'
                                = cubeRow img face k y')
        by (intros; unfold cubeRow; lia).
      destruct (Z.eq_dec m k) as [->|Nm].
      * rewrite <- (Hrow y), Rows' by lia. rewrite Hrow.
        (* the level was untouched so far *)
        apply slice_bytes.
        -- unfold cubeRow. nia.
        -- unfold cubeRow. nia.
        -- lia.
        -- rewrite Hlen. unfold cubeRow. unfold base in *. nia.
        -- unfold cubeRow. unfold base in *. nia.
        -- intros j Hj. apply Hout; [unfold cubeRow; nia|].
           right. unfold cubeRow. unfold base. nia.
      * rewrite <- Hrows by lia.
        pose proof (level_inside_chain img m ltac:(lia)) as Hinm.
        pose proof (prefix_nonneg img m) as Hprem.
        pose proof (rowPitch_nonneg' img m) as Hpm.
        pose proof (level_rows img m) as Hlrm.
        assert (Hmono : sumUpto (levelBytes img) (m + 1) <= sumUpto (levelBytes img) k).
        { destruct (Z.eq_dec (m + 1) k) as [->|N]; [lia|].
          apply sumUpto_mono; [intros; apply levelBytes_nonneg|lia]. }
        rewrite sumUpto_succ in Hmono by lia.
        apply slice_bytes.
        -- unfold cubeRow. nia.
        -- unfold cubeRow. nia.
        -- lia.
        -- rewrite L', Hlen. unfold cubeRow. unfold base in *. nia.
        -- rewrite Hlen. unfold cubeRow. unfold base in *. nia.
        -- intros j Hj. apply Out'; [unfold cubeRow; nia|].
           left. rewrite Hrow0. unfold cubeRow. unfold base. nia.
    + intros i Hi Ho. rewrite sumUpto_succ in Ho by lia.
      rewrite Out'; [apply Hout; [exact Hi|lia]|exact Hi|].
      rewrite Hrow0. nia.
  - exists data'. split; [exact E|]. split; [exact Hlen|]. split.
    + intros m y Hm Hy. apply Hrows; lia.
    + intros i Hi Ho. apply Hout; [exact Hi|].
      fold (chainBytes img). unfold base. lia.
Qed.

(** Every byte of a face's chain lies in one row of one level. *)
Lemma chain_cover (img : Image) (r : Z) :
  0 <= r < chainBytes img ->
  exists m y j,
    0 <= m < m_numMips img /\ 0 <= y < mipDim (m_height img) m
    /\ 0 <= j < rowPitch img m
    /\ r = sumUpto (levelBytes img) m + y * rowPitch img m + j.
Proof.
  intros Hr.
  destruct (sumUpto_locate (levelBytes img) (m_numMips img) r)
    as (m & Hm & Hlo & Hhi).
  { intros. apply levelBytes_nonneg. }
  { exact Hr. }
  rewrite sumUpto_succ in Hhi by lia. rewrite level_rows in Hhi.
  pose proof (rowPitch_nonneg' img m) as Hp.
  set (q := r - sumUpto (levelBytes img) m) in *.
  assert (Hq : 0 <= q < mipDim (m_height img) m * rowPitch img m) by (unfold q; lia).
  assert (Hp' : 0 < rowPitch img m).
  { destruct (Z.eq_dec (rowPitch img m) 0) as [E|E]; [rewrite E in Hq; lia|lia]. }
  pose proof (Z.div_mod q (rowPitch img m)) as Hdm.
  pose proof (Z.mod_pos_bound q (rowPitch img m) Hp') as Hj.
  assert (Hy : 0 <= q / rowPitch img m < mipDim (m_height img) m).
  { split; [apply Z.div_pos; lia|apply Z.div_lt_upper_bound; lia]. }
  exists m, (q / rowPitch img m), (q mod rowPitch img m).
  split; [exact Hm|]. split; [exact Hy|]. split; [exact Hj|].
  unfold q in *. lia.
Qed.

Lemma cubeRow_inside_face (img : Image) (face m y : Z) :
  0 <= face -> 0 <= m < m_numMips img -> 0 <= y < mipDim (m_height img) m ->
  face * chainBytes img <= cubeRow img face m y
  /\ cubeRow img face m y + rowPitch img m <= (face + 1) * chainBytes img.
Proof.
  intros Hf Hm Hy.
  pose proof (level_inside_chain img m Hm) as Hin.
  pose proof (prefix_nonneg img m) as Hpre.
  pose proof (rowPitch_nonneg' img m) as Hp.
  pose proof (level_rows img m) as Hlr.
  unfold cubeRow. nia.
Qed.

(** Two buffers that agree on every row of one face and on every byte
    outside that face are equal. *)
Lemma rows_ext (img : Image) (face : Z) (a b : bytes) :
  0 <= face -> len a = len b -> (face + 1) * chainBytes img <= len a ->
  (forall m y, 0 <= m < m_numMips img -> 0 <= y < mipDim (m_height img) m ->
     slice a (cubeRow img face m y) (rowPitch img m)
     = slice b (cubeRow img face m y) (rowPitch img m)) ->
  (forall i, 0 <= i ->
     i < face * chainBytes img \/ (face + 1) * chainBytes img <= i ->
     byte_at a i = byte_at b i) ->
  a = b.
Proof.
  intros Hf Hl Hin Hrows Hout. apply bytes_ext; [exact Hl|].
  intros i Hi. pose proof (chainBytes_nonneg img) as Hc.
  destruct (Z_lt_ge_dec i (face * chainBytes img)) as [Lo|Lo]; [apply Hout; lia|].
  destruct (Z_lt_ge_dec i ((face + 1) * chainBytes img)) as [Hi'|Hi']; [|apply Hout; lia].
  destruct (chain_cover img (i - face * chainBytes img)) as (m & y & j & Hm & Hy & Hj & E);
    [lia|].
  assert (Ei : i = cubeRow img face m y + j) by (unfold cubeRow; lia).
  destruct (cubeRow_inside_face img face m y Hf Hm Hy) as [R1 R2].
  rewrite Ei.
  rewrite <- (byte_at_slice a _ (rowPitch img m)) by lia.
  rewrite <- (byte_at_slice b _ (rowPitch img m)) by lia.
  rewrite Hrows by assumption. reflexivity.
Qed.

Lemma imageTransform_flipXOp (img : Image) (face : Z) :
  0 <= face < m_numFaces img ->
  imageTransform img [flipXOp face]
  = (data <- transformFlipX img face (m_data img) ;;
     Done (Build_Image data (m_width img) (m_height img) (m_dataSize img)
                       (m_format img) (m_numMips img) (m_numFaces img))).
Proof.
  intros Hf. unfold imageTransform, transformStep, flipXOp.
  cbn [fold_left bind imageFace opRot90 opRot180 opRot270 opFlipX opFlipY andb orb when].
  replace (0 <=? face) with true by (symmetry; apply Z.leb_le; lia).
  replace (face <? m_numFaces img) with true by (symmetry; apply Z.ltb_lt; lia).
  cbn [andb bind when].
  destruct (transformFlipX img face (m_data img)); reflexivity.
Qed.

(** X10.  On an image of at most six faces and sixteen levels,
    [imageTransform] with [IMAGE_OP_FLIP_X] on one face reverses the
    order of the rows in every level of that face, keeps the header and
    the length, and leaves the bytes of the other faces alone. *)
Theorem imageTransform_flipX_rows (img : Image) (face : Z) :
  0 <= face < m_numFaces img -> m_numFaces img <= CUBE_FACE_NUM ->
  0 <= m_numMips img <= MAX_MIP_NUM ->
  m_numFaces img * chainBytes img < 4294967296 ->
  m_numFaces img * chainBytes img <= len (m_data img) ->
  exists data',
    imageTransform img [flipXOp face]
    = Done (Build_Image data' (m_width img) (m_height img) (m_dataSize img)
                        (m_format img) (m_numMips img) (m_numFaces img))
    /\ len data' = len (m_data img)
    /\ (forall m y, 0 <= m < m_numMips img -> 0 <= y < mipDim (m_height img) m ->
          slice data' (cubeRow img face m y) (rowPitch img m)
          = slice (m_data img)
                  (cubeRow img face m (mipDim (m_height img) m - 1 - y))
                  (rowPitch img m))
    /\ (forall i, 0 <= i ->
          i < face * chainBytes img \/ (face + 1) * chainBytes img <= i ->
          byte_at data' i = byte_at (m_data img) i).
Proof.
  intros Hf Hfaces [Hn Hmips] Hb Hl. pose proof (chainBytes_nonneg img) as Hc.
  destruct (transformFlipX_spec img face (m_data img)) as (data' & E & R);
    [lia|lia|nia|nia|].
  exists data'. rewrite imageTransform_flipXOp by lia. rewrite E. cbn [bind].
  split; [reflexivity|exact R].
Qed.

Lemma imageTransform_flipX_rows_witness :
  exists data',
    imageTransform bgraQuad [flipXOp 0]
    = Done (Build_Image data' (m_width bgraQuad) (m_height bgraQuad)
                        (m_dataSize bgraQuad) (m_format bgraQuad)
                        (m_numMips bgraQuad) (m_numFaces bgraQuad))
    /\ len data' = len (m_data bgraQuad)
    /\ (forall m y, 0 <= m < m_numMips bgraQuad ->
                    0 <= y < mipDim (m_height bgraQuad) m ->
          slice data' (cubeRow bgraQuad 0 m y) (rowPitch bgraQuad m)
          = slice (m_data bgraQuad)
                  (cubeRow bgraQuad 0 m (mipDim (m_height bgraQuad) m - 1 - y))
                  (rowPitch bgraQuad m))
    /\ (forall i, 0 <= i ->
          i < 0 * chainBytes bgraQuad \/ (0 + 1) * chainBytes bgraQuad <= i ->
          byte_at data' i = byte_at (m_data bgraQuad) i).
Proof.
  apply (imageTransform_flipX_rows bgraQuad 0); ground.
Defined.

(** X11.  On an image of at most six faces and sixteen levels,
    [IMAGE_OP_FLIP_X] on the same face twice gives the image back. *)
Theorem imageTransform_flipX_twice (img : Image) (face : Z) :
  0 <= face < m_numFaces img -> m_numFaces img <= CUBE_FACE_NUM ->
  0 <= m_numMips img <= MAX_MIP_NUM ->
  m_numFaces img * chainBytes img < 4294967296 ->
  m_numFaces img * chainBytes img <= len (m_data img) ->
  exists once,
    imageTransform img [flipXOp face] = Done once
    /\ imageTransform once [flipXOp face] = Done img.
Proof.
  intros Hf Hfaces [Hn Hmips] Hb Hl. pose proof (chainBytes_nonneg img) as Hc.
  assert (Hb' : (face + 1) * chainBytes img < 4294967296) by nia.
  assert (Hl' : (face + 1) * chainBytes img <= len (m_data img)) by nia.
  destruct (transformFlipX_spec img face (m_data img))
    as (d1 & E1 & L1 & Rows1 & Out1); [lia|lia|exact Hb'|exact Hl'|].
  destruct (transformFlipX_spec img face d1)
    as (d2 & E2 & L2 & Rows2 & Out2); [lia|lia|exact Hb'|lia|].
  eexists. split.
  - rewrite imageTransform_flipXOp by lia. rewrite E1. cbn [bind]. reflexivity.
  - rewrite imageTransform_flipXOp by (cbn [m_numFaces]; lia).
    cbn [m_data m_width m_height m_dataSize m_format m_numMips m_numFaces].
    assert (Ed : transformFlipX
                   (Build_Image d1 (m_width img) (m_height img) (m_dataSize img)
                                (m_format img) (m_numMips img) (m_numFaces img))
                   face d1 = transformFlipX img face d1) by reflexivity.
    rewrite Ed, E2. cbn [bind].
    assert (E : d2 = m_data img).
    { apply (rows_ext img face); [lia|lia|lia| |].
      - intros m y Hm Hy. rewrite Rows2 by assumption.
        rewrite Rows1 by (try assumption; pose proof (mipDim_pos (m_height img) m); lia).
        f_equal. f_equal. lia.
      - intros i Hi Ho. rewrite Out2, Out1 by assumption. reflexivity. }
    rewrite E. destruct img; reflexivity.
Qed.

Lemma imageTransform_flipX_twice_witness :
  exists once,
    imageTransform bgraQuad [flipXOp 0] = Done once
    /\ imageTransform once [flipXOp 0] = Done bgraQuad.
Proof.
  apply (imageTransform_flipX_twice bgraQuad 0); ground.
Defined.

(** ** TGA: save, then load *)

Lemma slice_app_l (a b : bytes) (off n : Z) :
  0 <= off -> 0 <= n -> off + n <= len a -> slice (a ++ b) off n = slice a off n.
Proof.
  intros Ho Hn Hl. unfold slice, len in *.
  rewrite skipn_app, firstn_app, length_skipn.
  replace (Z.to_nat n - (length a - Z.to_nat off))%nat with 0%nat by lia.
  cbn [firstn]. apply app_nil_r.
Qed.

Lemma slice_app_r (a b : bytes) (off n : Z) :
  0 <= off -> 0 <= n -> slice (a ++ b) (len a + off) n = slice b off n.
Proof.
  intros Ho Hn. unfold slice, len.
  rewrite skipn_app.
  rewrite skipn_all2 by lia. cbn [app].
  do 2 f_equal. lia.
Qed.

Lemma slice_all (d : bytes) : slice d 0 (len d) = d.
Proof. unfold slice, len. rewrite Nat2Z.id. cbn [Z.to_nat skipn]. apply firstn_all. Qed.

Lemma fread_in_prefix (hdr rest : bytes) (fp : FILE) (n : Z) :
  content fp = hdr ++ rest -> 0 <= pos fp -> 0 <= n -> pos fp + n <= len hdr ->
  fread fp n
  = Done (slice hdr (pos fp) n, {| content := content fp; pos := pos fp + n |}).
Proof.
  intros Hc Hp Hn Hl. unfold fread. rewrite Hc.
  pose proof (len_nonneg rest).
  rewrite peek_Done by (rewrite ?len_app; lia). cbn [bind].
  rewrite slice_app_l by lia. reflexivity.
Qed.

Lemma poke_all (buf src : bytes) : len src = len buf -> poke buf 0 src = Done src.
Proof.
  intros Hl. unfold poke. pose proof (len_nonneg src).
  replace (0 <=? 0) with true by reflexivity.
  replace (0 + len src <=? len buf) with true by (symmetry; apply Z.leb_le; lia).
  cbn [andb Z.to_nat firstn app].
  rewrite skipn_all2 by (unfold len in *; lia). rewrite app_nil_r. reflexivity.
Qed.

(** The rows that [imageSaveTga] writes with [_yflip]: the image's rows,
    last row first. *)
Lemma tga_rows (data header : bytes) (h pitch : Z) :
  0 <= h -> 0 <= pitch -> h * pitch <= len data ->
  exists B,
    for_upto h
      (fun (yy : Z) '(out, src) =>
         let src := src - pitch in
         b <- peek data src pitch ;;
         Done (out ++ b, src))
      (header, h * pitch)
    = Done (header ++ B, 0)
    /\ len B = h * pitch
    /\ forall j, 0 <= j < h ->
         slice B (pitch * j) pitch = slice data (pitch * (h - 1 - j)) pitch.
Proof.
  intros Hh Hp Hl.
  destruct (for_upto_invariant
              (fun k (st : bytes * Z) =>
                 snd st = h * pitch - k * pitch
                 /\ exists B,
                      fst st = header ++ B /\ len B = k * pitch
                      /\ forall j, 0 <= j < k ->
                           slice B (pitch * j) pitch
                           = slice data (pitch * (h - 1 - j)) pitch)
              (fun (yy : Z) '(out, src) =>
                 let src := src - pitch in
                 b <- peek data src pitch ;;
                 Done (out ++ b, src))
              h (header, h * pitch) Hh) as ([out src] & E & Hsrc & B & Hout & HB & Hrows).
  - cbn [fst snd]. split; [lia|]. exists []. rewrite app_nil_r.
    split; [reflexivity|]. split; [reflexivity|]. intros; lia.
  - intros k [out src] Hk (Hsrc & B & Hout & HB & Hrows). cbn [fst snd] in *.
    subst src out. cbv zeta.
    assert (Hoff : 0 <= h * pitch - k * pitch - pitch
                   /\ h * pitch - k * pitch - pitch + pitch <= len data) by nia.
    rewrite peek_Done by lia. cbn [bind]. eexists. split; [reflexivity|].
    cbn [fst snd]. split; [lia|].
    exists (B ++ slice data (h * pitch - k * pitch - pitch) pitch).
    split; [rewrite app_assoc; reflexivity|].
    split; [rewrite len_app, len_slice by lia; lia|].
    intros j Hj. destruct (Z.eq_dec j k) as [->|Nj].
    + replace (pitch * k) with (len B + 0) by lia.
      rewrite slice_app_r by lia.
      unfold slice at 1. cbn [Z.to_nat skipn].
      rewrite firstn_all2
        by (pose proof (len_slice data (h * pitch - k * pitch - pitch) pitch);
            unfold len in *; lia).
      f_equal. lia.
    + rewrite slice_app_l by nia. apply Hrows. lia.
  - cbn [fst snd] in *. exists B. subst out. split; [|split; [lia|exact Hrows]].
    replace 0 with src by lia. exact E.
Qed.

Lemma mipDim_0 (size : Z) : 1 <= size -> mipDim size 0 = size.
Proof.
  intros H. unfold mipDim, max. rewrite Z.shiftr_0_r.
  destruct (1 >? size) eqn:E; [|reflexivity].
  apply Z.gtb_lt in E. lia.
Qed.

(** X12.  A one-face, one-level image in a TGA format, at most 65535
    texels wide and high, is written by [imageSaveTga] with the vertical
    flip as a file of 18 + data size + 26 bytes: the 18-byte header
    (image type 2, width, height, bits per pixel, alpha bits), the rows
    of the image from the last to the first, and the footer of two zero
    words and the signature.  [imageLoadTga] loads the file back
    unchanged, and so does [imageLoad], which finds the loader from the
    header. *)
Theorem tga_roundtrip (junk : Z -> Z) (dst img : Image) :
  checkValidInternalFormat ImageFileType.TGA (m_format img) = true ->
  1 <= m_width img < 65536 -> 1 <= m_height img < 65536 ->
  m_numMips img = 1 -> m_numFaces img = 1 ->
  m_width img * m_height img * bpp (m_format img) < 4294967296 ->
  m_dataSize img = m_width img * m_height img * bpp (m_format img) ->
  len (m_data img) = m_dataSize img ->
  exists file,
    imageSaveTga img true = Done file
    /\ len file = TGA_HEADER_SIZE + m_dataSize img + TGA_FOOTER_SIZE
    /\ slice file 0 TGA_HEADER_SIZE
       = [0; 0; 2; 0; 0; 0; 0; 0; 0; 0; 0; 0]
         ++ le_encode 2 (m_width img) ++ le_encode 2 (m_height img)
         ++ [bpp (m_format img) * 8;
             if TextureFormat.eqb (m_format img) TextureFormat.BGRA8 then 8 else 0]
    /\ (forall y, 0 <= y < m_height img ->
          slice file (TGA_HEADER_SIZE + y * (m_width img * bpp (m_format img)))
                (m_width img * bpp (m_format img))
          = slice (m_data img)
                  ((m_height img - 1 - y) * (m_width img * bpp (m_format img)))
                  (m_width img * bpp (m_format img)))
    /\ slice file (TGA_HEADER_SIZE + m_dataSize img) TGA_FOOTER_SIZE
       = fwrite_u32 0 ++ fwrite_u32 0 ++ TGA_ID
    /\ imageLoadTga junk dst (fopen file) = Done (true, img)
    /\ imageLoad junk dst (Some file) TextureFormat.Unknown = Done (true, img).
Proof.
  intros Hfmt Hw Hh Hmips Hfaces Hsmall Hsize Hlen.
  destruct img as [data w h size f mips faces].
  cbn [m_data m_width m_height m_dataSize m_format m_numMips m_numFaces] in *.
  subst mips faces.
  assert (Hbpp : bpp f = 3 \/ bpp f = 4) by (destruct f; try discriminate Hfmt; auto).
  assert (Hpitch : u32 (w * bpp f) = w * bpp f) by (apply u32_small; nia).
  unfold imageSaveTga.
  cbn [m_data m_width m_height m_dataSize m_format m_numMips m_numFaces].
  rewrite Hpitch. rewrite (u32_small (h * (w * bpp f))) by nia.
  set (hdr := le_encode 1 _ ++ _).
  destruct (tga_rows data hdr h (w * bpp f)) as (B & E & LB & Rows); [lia|nia|nia|].
  match goal with
  | |- context [for_upto h ?body ?init] =>
      replace (for_upto h body init) with (Done (hdr ++ B, 0))
        by (symmetry; exact E)
  end.
  cbn [bind].
  assert (Lh : len hdr = 18) by reflexivity.
  set (rest := B ++ fwrite_u32 0 ++ fwrite_u32 0 ++ TGA_ID).
  assert (Hfile : (hdr ++ B) ++ fwrite_u32 0 ++ fwrite_u32 0 ++ TGA_ID = hdr ++ rest)
    by (unfold rest; rewrite <- app_assoc; reflexivity).
  rewrite Hfile. exists (hdr ++ rest). split; [reflexivity|].
  assert (Lfoot : len (fwrite_u32 0 ++ fwrite_u32 0 ++ TGA_ID) = 26) by reflexivity.
  assert (Lrest : len rest = size + 26)
    by (unfold rest; rewrite len_app, LB, Lfoot; lia).
  change TGA_HEADER_SIZE with 18. change TGA_FOOTER_SIZE with 26.
  split; [rewrite len_app, Lh, Lrest; lia|].
  split.
  { rewrite slice_app_l by lia. rewrite <- Lh, slice_all. unfold hdr, tgaHeaderFromImage.
    cbn [tga_idLength tga_colorMapType tga_imageType tga_colorMapOrigin
         tga_colorMapLength tga_colorMapDepth tga_xOrigin tga_yOrigin tga_width
         tga_height tga_bitsPerPixel tga_imageDescriptor m_width m_height m_format].
    unfold u16. rewrite (Z.mod_small w), (Z.mod_small h) by lia.
    destruct f; try discriminate Hfmt; reflexivity. }
  split.
  { intros y Hy. replace (18 + y * (w * bpp f)) with (len hdr + y * (w * bpp f)) by lia.
    rewrite slice_app_r by nia. unfold rest. rewrite slice_app_l by nia.
    replace (y * (w * bpp f)) with (w * bpp f * y) by lia.
    rewrite Rows by lia. f_equal. lia. }
  split.
  { replace (18 + size) with (len hdr + size) by lia.
    rewrite slice_app_r by lia. unfold rest.
    replace size with (len B + 0) by lia. rewrite slice_app_r by lia.
    rewrite <- Lfoot. apply slice_all. }
  assert (Hmagic : fread_u32 (fopen (hdr ++ rest))
                   = Done (131072, {| content := hdr ++ rest; pos := 4 |})).
  { unfold fread_u32, fopen.
    rewrite (fread_in_prefix hdr rest)
      by (cbn [content pos]; first [reflexivity | rewrite Lh; lia | lia]).
    reflexivity. }
  assert (Hload : imageLoadTga junk dst (fopen (hdr ++ rest))
                  = Done (true, Build_Image data w h size f 1 1));
    [|split; [exact Hload|];
      apply (imageLoad_dispatch junk dst _ _ 131072 (imageLoadTga junk));
      [exact Hmagic|reflexivity|exact Hload]].
  unfold imageLoadTga, fread_u8, fread_u16, fopen.
  do 12 (rewrite (fread_in_prefix hdr rest)
           by (cbn [content pos]; first [reflexivity | rewrite Lh; lia | lia]);
         cbn [bind pos content]).
  change (le_decode (slice hdr (0 + 1 + 1 + 1 + 2 + 2 + 1 + 2 + 2) 2))
    with (le_decode (le_encode 2 (u16 w))).
  change (le_decode (slice hdr (0 + 1 + 1 + 1 + 2 + 2 + 1 + 2 + 2 + 2) 2))
    with (le_decode (le_encode 2 (u16 h))).
  rewrite !le_decode_encode. change (256 ^ Z.of_nat 2) with 65536.
  unfold u16. rewrite !Z.mod_mod by lia.
  rewrite (Z.mod_small w), (Z.mod_small h) by lia.
  assert (Hvalid : f = TextureFormat.BGR8 \/ f = TextureFormat.BGRA8)
    by (destruct f; try discriminate Hfmt; auto).
  destruct Hvalid as [-> | ->].
  all: repeat match goal with
              | |- context [le_decode (slice ?x ?p ?n)] =>
                  let v := eval lazy in (le_decode (slice x p n)) in
                  change (le_decode (slice x p n)) with v
              end.
  all: decide_tests (w, h, data, B, size); cbn [negb orb andb ensure bind].
  all: change (24 / 8) with 3; change (32 / 8) with 4;
       change (bpp TextureFormat.BGR8) with 3 in *;
       change (bpp TextureFormat.BGRA8) with 4 in *.
  all: unfold fseek_cur; cbn [pos content];
       change (u32 (0 + Z.land 0 1 * i16 0)) with 0;
       change (0 + 1 + 1 + 1 + 2 + 2 + 1 + 2 + 2 + 2 + 2 + 1 + 1 + 0) with 18;
       change (0 <=? 18) with true; cbn [ensure bind].
  all: replace (w * h <? 2147483648) with true by (symmetry; apply Z.ltb_lt; nia);
       cbn [bind].
  all: rewrite (u32_small (w * h)) by nia;
       first [ rewrite (u32_small (w * h * 3)) by lia
             | rewrite (u32_small (w * h * 4)) by lia ].
  all: unfold fread_item;
       replace (w * h * 3 =? 0) with false by (symmetry; apply Z.eqb_neq; nia);
       replace (w * h * 4 =? 0) with false by (symmetry; apply Z.eqb_neq; nia);
       cbn [negb ensure bind].
  all: unfold fread; cbn [content pos]; unfold rest;
       rewrite (peek_middle hdr B) by (rewrite ?Lh, ?LB; lia);
       cbn [bind].
  all: rewrite poke_all by (rewrite len_malloc, LB by nia; lia); cbn [bind].
  all: match goal with
       | |- context [imageTransform ?i _] => set (img1 := i)
       end;
       change (Build_transformOp 0 false false false true false) with (flipXOp 0);
       rewrite (imageTransform_flipXOp img1 0) by (cbn; lia);
       assert (Hchain : chainBytes img1 = len B)
         by (unfold chainBytes; change (m_numMips img1) with (0 + 1);
             rewrite sumUpto_succ, sumUpto_0 by lia;
             unfold levelBytes; cbn [img1 m_width m_height m_format];
             rewrite !mipDim_0 by lia; rewrite LB; cbn; lia);
       assert (Hpitch1 : rowPitch img1 0 = w * bpp (m_format img1))
         by (unfold rowPitch; cbn [img1 m_width]; rewrite mipDim_0 by lia; reflexivity);
       destruct (transformFlipX_spec img1 0 (m_data img1))
         as (d' & E' & L' & Rows' & Out');
       [lia | cbn [img1 m_numMips]; lia | rewrite Hchain, LB; nia
       | rewrite Hchain; cbn [img1 m_data]; lia |].
  all: rewrite E'; cbn [bind]; unfold imageMove; cbn [img1 m_width m_height m_dataSize m_format m_numMips m_numFaces].
  all: assert (Ed : d' = data);
       [ apply (rows_ext img1 0);
         [ lia
         | cbn [img1 m_data] in L'; lia
         | rewrite Hchain; cbn [img1 m_data] in L'; lia
         |
         | ]
       | rewrite Ed, Hsize; do 3 f_equal; lia ].
  all: try (intros m y Hm Hy;
            assert (m = 0) by (cbn [img1 m_numMips] in Hm; lia); subst m;
            cbn [img1 m_height] in Hy; rewrite mipDim_0 in Hy by lia;
            rewrite Rows' by (cbn [img1 m_numMips m_height]; rewrite ?mipDim_0 by lia; lia);
            cbn [img1 m_height m_data]; rewrite mipDim_0 by lia;
            unfold cubeRow; rewrite sumUpto_0 by lia; rewrite Hpitch1;
            cbn [img1 m_format];
            change (bpp TextureFormat.BGR8) with 3;
            change (bpp TextureFormat.BGRA8) with 4;
            match goal with
            | |- slice _ (_ + _ + ?j * ?p) _ = slice _ (_ + _ + ?k * ?p) _ =>
                replace (0 * chainBytes img1 + 0 + j * p) with (p * j) by lia;
                replace (0 * chainBytes img1 + 0 + k * p) with (p * (h - 1 - j)) by lia
            end;
            apply Rows; lia).
  all: intros i Hi Ho; rewrite Hchain in Ho;
       unfold byte_at; rewrite !nth_overflow;
       [reflexivity | unfold len in *; lia | cbn [img1 m_data] in L'; unfold len in *; lia].
Qed.

Lemma tga_roundtrip_witness :
  exists file,
    imageSaveTga bgraQuad true = Done file
    /\ len file = TGA_HEADER_SIZE + m_dataSize bgraQuad + TGA_FOOTER_SIZE
    /\ slice file 0 TGA_HEADER_SIZE
       = [0; 0; 2; 0; 0; 0; 0; 0; 0; 0; 0; 0]
         ++ le_encode 2 (m_width bgraQuad) ++ le_encode 2 (m_height bgraQuad)
         ++ [bpp (m_format bgraQuad) * 8;
             if TextureFormat.eqb (m_format bgraQuad) TextureFormat.BGRA8
             then 8 else 0]
    /\ (forall y, 0 <= y < m_height bgraQuad ->
          slice file
                (TGA_HEADER_SIZE + y * (m_width bgraQuad * bpp (m_format bgraQuad)))
                (m_width bgraQuad * bpp (m_format bgraQuad))
          = slice (m_data bgraQuad)
                  ((m_height bgraQuad - 1 - y)
                   * (m_width bgraQuad * bpp (m_format bgraQuad)))
                  (m_width bgraQuad * bpp (m_format bgraQuad)))
    /\ slice file (TGA_HEADER_SIZE + m_dataSize bgraQuad) TGA_FOOTER_SIZE
       = fwrite_u32 0 ++ fwrite_u32 0 ++ TGA_ID
    /\ imageLoadTga noJunk emptyImage (fopen file) = Done (true, bgraQuad)
    /\ imageLoad noJunk emptyImage (Some file) TextureFormat.Unknown
       = Done (true, bgraQuad).
Proof.
  apply (tga_roundtrip noJunk emptyImage bgraQuad); ground.
Defined.

(** ** Face lists *)

(** A run of [n] row copies between two contiguous blocks. *)
Lemma copy_rows (src dst0 : bytes) (D0 S0 n p : Z) :
  0 <= D0 -> 0 <= S0 -> 0 <= n -> 0 <= p -> n * p < 4294967296 ->
  S0 + n * p <= len src -> D0 + n * p <= len dst0 ->
  exists d',
    for_upto n
      (fun yy d => memcpy d (D0 + u32 (yy * p)) src (S0 + u32 (yy * p)) p) dst0
    = Done d'
    /\ len d' = len dst0
    /\ (forall j, 0 <= j < n * p -> byte_at d' (D0 + j) = byte_at src (S0 + j))
    /\ (forall i, 0 <= i < D0 \/ D0 + n * p <= i -> byte_at d' i = byte_at dst0 i).
Proof.
  intros HD HS Hn Hp Hsmall Hsrc Hdst.
  destruct (for_upto_invariant
              (fun k d =>
                 len d = len dst0
                 /\ (forall j, 0 <= j < k * p -> byte_at d (D0 + j) = byte_at src (S0 + j))
                 /\ (forall i, 0 <= i < D0 \/ D0 + k * p <= i ->
                               byte_at d i = byte_at dst0 i))
              (fun yy d => memcpy d (D0 + u32 (yy * p)) src (S0 + u32 (yy * p)) p)
              n dst0 Hn) as (d' & E & R).
  - split; [reflexivity|]. split; [intros; lia|]. intros; reflexivity.
  - intros k d Hk (Hlen & Hin & Hout).
    rewrite (u32_small (k * p)) by nia.
    destruct (memcpy_spec d (D0 + k * p) src (S0 + k * p) p)
      as (d1 & E1 & L1 & In1 & Out1); try nia.
    exists d1. split; [exact E1|]. split; [lia|]. split.
    + intros j Hj. destruct (Z_lt_ge_dec j (k * p)) as [Lo|Hi].
      * rewrite Out1 by lia. apply Hin. lia.
      * replace (D0 + j) with (D0 + k * p + (j - k * p)) by lia.
        rewrite In1 by lia. f_equal. lia.
    + intros i Hi. rewrite Out1 by nia. apply Hout. nia.
  - exists d'. split; [exact E|]. exact R.
Qed.

Lemma bpp_u8 (f : TextureFormat.Enum) : u8 (bpp f) = bpp f.
Proof. destruct f; reflexivity. Qed.

Lemma image_eta (a : Image) :
  a = Build_Image (m_data a) (m_width a) (m_height a) (m_dataSize a)
                  (m_format a) (m_numMips a) (m_numFaces a).
Proof. destruct a; reflexivity. Qed.

Section FaceList.

Variable c : Image.

Hypothesis square : m_height c = m_width c.
Hypothesis levels_nonneg : 0 <= m_numMips c.
Hypothesis cube_small : 6 * chainBytes c < 4294967296.
Hypothesis cube_len : len (m_data c) = 6 * chainBytes c.

Lemma level_square (m : Z) : levelBytes c m = mipDim (m_width c) m * rowPitch c m.
Proof using square. unfold levelBytes, rowPitch. rewrite square. ring. Qed.

Lemma code_rowPitch (m : Z) :
  0 <= m < m_numMips c ->
  u32 (mipDim (m_width c) m * bpp (m_format c)) = rowPitch c m.
Proof using All.
  intros Hm. apply u32_small. fold (rowPitch c m).
  pose proof (level_le_chain c m Hm). pose proof (rowPitch_le_level c m).
  pose proof (rowPitch_nonneg' c m). pose proof (chainBytes_nonneg c). lia.
Qed.

(** The two inner loops of [imageFaceListFromCubemap] copy one face's
    chain. *)
Lemma face_chain_copy (face : Z) (dst0 : bytes) :
  0 <= face < 6 -> len dst0 = chainBytes c ->
  for_upto (m_numMips c)
    (fun mip dstData =>
       let srcFaceData := imageGetMipOffsets c face mip in
       let dstFaceData :=
         mipOffsets (m_width c) (m_width c) (u8 (bpp (m_format c))) mip in
       let mipFaceSize := mipDim (m_width c) mip in
       let mipPitch := u32 (mipFaceSize * u8 (bpp (m_format c))) in
       for_upto mipFaceSize
         (fun yy dstData =>
            memcpy dstData (dstFaceData + u32 (yy * mipPitch))
                   (m_data c) (srcFaceData + u32 (yy * mipPitch)) mipPitch)
         dstData)
    dst0
  = Done (slice (m_data c) (face * chainBytes c) (chainBytes c)).
Proof using All.
  intros Hf Hl. pose proof (chainBytes_nonneg c) as Hc.
  rewrite bpp_u8. cbv zeta.
  destruct (for_upto_invariant
              (fun m d =>
                 len d = chainBytes c
                 /\ forall j, 0 <= j < sumUpto (levelBytes c) m ->
                      byte_at d j = byte_at (m_data c) (face * chainBytes c + j))
              (fun mip dstData =>
                 for_upto (mipDim (m_width c) mip)
                   (fun yy dstData0 =>
                      memcpy dstData0
                        (mipOffsets (m_width c) (m_width c) (bpp (m_format c)) mip
                         + u32 (yy * u32 (mipDim (m_width c) mip * bpp (m_format c))))
                        (m_data c)
                        (imageGetMipOffsets c face mip
                         + u32 (yy * u32 (mipDim (m_width c) mip * bpp (m_format c))))
                        (u32 (mipDim (m_width c) mip * bpp (m_format c))))
                   dstData)
              (m_numMips c) dst0 levels_nonneg) as (d' & E & Hlen & Hin).
  - split; [exact Hl|]. intros j Hj. rewrite sumUpto_0 in Hj by lia. lia.
  - intros m d Hm (Hlen & Hin).
    rewrite code_rowPitch by exact Hm.
    rewrite imageGetMipOffsets_eq by nia.
    pose proof (mipOffsets_eq c m ltac:(lia) ltac:(lia)) as Emo.
    rewrite square in Emo. rewrite Emo. clear Emo.
    pose proof (level_inside_chain c m Hm) as Hlv.
    pose proof (prefix_nonneg c m) as Hpre.
    pose proof (rowPitch_nonneg' c m) as Hp.
    pose proof (mipDim_pos (m_width c) m) as Hs.
    pose proof (level_square m) as Hsq.
    destruct (copy_rows (m_data c) d (sumUpto (levelBytes c) m)
                (face * chainBytes c + sumUpto (levelBytes c) m)
                (mipDim (m_width c) m) (rowPitch c m))
      as (d1 & E1 & L1 & In1 & Out1); try lia; try nia.
    exists d1. split; [exact E1|]. split; [lia|].
    intros j Hj. rewrite sumUpto_succ in Hj by lia.
    destruct (Z_lt_ge_dec j (sumUpto (levelBytes c) m)) as [Lo|Hi].
    + rewrite Out1 by lia. apply Hin. lia.
    + replace j with (sumUpto (levelBytes c) m + (j - sumUpto (levelBytes c) m)) at 1
        by lia.
      rewrite In1 by lia. f_equal. lia.
  - rewrite E. f_equal. apply bytes_ext.
    + rewrite len_slice by nia. exact Hlen.
    + intros i Hi. rewrite Hlen in Hi. rewrite byte_at_slice by nia.
      apply Hin. fold (chainBytes c). lia.
Qed.

Lemma face_size :
  mipOffsets (m_width c) (m_width c) (u8 (bpp (m_format c))) (m_numMips c)
  = chainBytes c.
Proof using All.
  rewrite bpp_u8. pose proof (chainBytes_nonneg c).
  pose proof (mipOffsets_eq c (m_numMips c) ltac:(lia) ltac:(lia)) as E.
  rewrite square in E. exact E.
Qed.

Lemma imageFaceListFromCubemap_faces (junk : Z -> Z) (faceList : list Image) :
  m_numFaces c = 6 ->
  imageFaceListFromCubemap junk faceList c = Done (true, map (faceImage c) (upto 6)).
Proof using All.
  intros Hfaces. unfold imageFaceListFromCubemap, imageIsCubemap.
  rewrite Hfaces, square, !Z.eqb_refl. cbn [andb negb].
  rewrite face_size. pose proof (chainBytes_nonneg c) as Hc.
  destruct (for_upto_invariant
              (fun k (faces : list Image) => faces = map (faceImage c) (upto k))
              (fun face faces =>
                 dstData <-
                   for_upto (m_numMips c)
                     (fun mip dstData =>
                        for_upto (mipDim (m_width c) mip)
                          (fun yy dstData0 =>
                             memcpy dstData0
                               (mipOffsets (m_width c) (m_width c)
                                           (u8 (bpp (m_format c))) mip
                                + u32 (yy * u32 (mipDim (m_width c) mip
                                                 * u8 (bpp (m_format c)))))
                               (m_data c)
                               (imageGetMipOffsets c face mip
                                + u32 (yy * u32 (mipDim (m_width c) mip
                                                 * u8 (bpp (m_format c)))))
                               (u32 (mipDim (m_width c) mip * u8 (bpp (m_format c)))))
                          dstData)
                     (malloc junk (chainBytes c)) ;;
                 Done (faces ++ [imageMove
                                   (Build_Image dstData (m_width c) (m_width c)
                                      (chainBytes c) (m_format c) (m_numMips c) 1)]))
              6 [] ltac:(lia)) as (faces & E & Hfs).
  - reflexivity.
  - intros k faces Hk ->.
    pose proof (face_chain_copy k (malloc junk (chainBytes c)) Hk
                  (len_malloc junk _ Hc)) as Hcopy.
    cbv zeta in Hcopy. rewrite Hcopy. cbn [bind]. eexists. split; [reflexivity|].
    rewrite upto_succ, map_app by lia. cbn [map]. unfold imageMove, faceImage.
    rewrite square. reflexivity.
  - rewrite E. cbn [bind]. rewrite Hfs. reflexivity.
Qed.

Lemma imageGetMipOffsets_shape (a b : Image) (face mip : Z) :
  m_width a = m_width b -> m_height a = m_height b -> m_format a = m_format b ->
  m_numMips a = m_numMips b ->
  imageGetMipOffsets a face mip = imageGetMipOffsets b face mip.
Proof using.
  intros H1 H2 H3 H4. unfold imageGetMipOffsets, mipOffsetAfter.
  rewrite H1, H2, H3, H4. reflexivity.
Qed.

Lemma nth_faceImage (face : Z) :
  0 <= face < 6 ->
  nth (Z.to_nat face) (map (faceImage c) (upto 6)) emptyImage = faceImage c face.
Proof using.
  intros Hf.
  assert (E : face = 0 \/ face = 1 \/ face = 2 \/ face = 3 \/ face = 4 \/ face = 5)
    by lia.
  destruct E as [->|[->|[->|[->|[->| ->]]]]]; reflexivity.
Qed.

Lemma imageCubemapFromFaceList_faces (junk : Z -> Z) (dst : Image) :
  m_numFaces c = 6 -> m_dataSize c = 6 * chainBytes c ->
  imageCubemapFromFaceList junk dst (map (faceImage c) (upto 6)) = Done (true, c).
Proof using All.
  intros Hfaces Hsize. unfold imageCubemapFromFaceList.
  pose proof (chainBytes_nonneg c) as Hc.
  assert (Hvalid : imageValidCubemapFaceList (map (faceImage c) (upto 6)) = true).
  { unfold imageValidCubemapFaceList. apply forallb_forall. intros face Hin.
    apply in_upto in Hin. rewrite nth_faceImage by exact Hin.
    change (nth 0 (map (faceImage c) (upto 6)) emptyImage) with (faceImage c 0).
    cbn [faceImage m_width m_height m_numMips].
    rewrite square, !Z.eqb_refl. reflexivity. }
  rewrite Hvalid. cbn [negb].
  change (nth 0 (map (faceImage c) (upto 6)) emptyImage) with (faceImage c 0).
  cbn [faceImage m_width m_height m_numMips m_dataSize m_format].
  rewrite (u32_small (chainBytes c * 6)) by lia.
  destruct (for_upto_invariant
              (fun f (st : bytes * Z) =>
                 snd st = f * chainBytes c
                 /\ len (fst st) = 6 * chainBytes c
                 /\ forall i, 0 <= i < f * chainBytes c ->
                              byte_at (fst st) i = byte_at (m_data c) i)
              (fun face st =>
                 for_upto (m_numMips c)
                   (fun mip '(dstData, destinationOffset) =>
                      dstData0 <-
                        for_upto (mipDim (m_width c) mip)
                          (fun yy dstData0 =>
                             memcpy dstData0
                               (destinationOffset
                                + u32 (yy * u32 (mipDim (m_width c) mip
                                                 * bpp (m_format c))))
                               (m_data (nth (Z.to_nat face)
                                            (map (faceImage c) (upto 6)) emptyImage))
                               (imageGetMipOffsets (faceImage c 0) 0 mip
                                + u32 (yy * u32 (mipDim (m_width c) mip
                                                 * bpp (m_format c))))
                               (u32 (mipDim (m_width c) mip * bpp (m_format c))))
                          dstData ;;
                      Done (dstData0,
                            u32 (destinationOffset
                                 + u32 (u32 (mipDim (m_width c) mip * bpp (m_format c))
                                        * mipDim (m_width c) mip))))
                   st)
              6 (malloc junk (chainBytes c * 6), 0) ltac:(lia))
    as ([d off] & E & Hoff & Hlen & Hin).
  - cbn [fst snd]. split; [lia|]. split; [rewrite len_malloc by lia; lia|].
    intros; lia.
  - intros f [d0 off0] Hf (Hoff & Hlen & Hin). cbn [fst snd] in *. subst off0.
    rewrite nth_faceImage by exact Hf. cbn [faceImage m_data].
    destruct (for_upto_invariant
                (fun m (st : bytes * Z) =>
                   snd st = f * chainBytes c + sumUpto (levelBytes c) m
                   /\ len (fst st) = 6 * chainBytes c
                   /\ forall i, 0 <= i < f * chainBytes c + sumUpto (levelBytes c) m ->
                                byte_at (fst st) i = byte_at (m_data c) i)
                (fun mip '(dstData, destinationOffset) =>
                   dstData0 <-
                     for_upto (mipDim (m_width c) mip)
                       (fun yy dstData0 =>
                          memcpy dstData0
                            (destinationOffset
                             + u32 (yy * u32 (mipDim (m_width c) mip
                                              * bpp (m_format c))))
                            (slice (m_data c) (f * chainBytes c) (chainBytes c))
                            (imageGetMipOffsets (faceImage c 0) 0 mip
                             + u32 (yy * u32 (mipDim (m_width c) mip
                                              * bpp (m_format c))))
                            (u32 (mipDim (m_width c) mip * bpp (m_format c))))
                       dstData ;;
                   Done (dstData0,
                         u32 (destinationOffset
                              + u32 (u32 (mipDim (m_width c) mip * bpp (m_format c))
                                     * mipDim (m_width c) mip))))
                (m_numMips c) (d0, f * chainBytes c) levels_nonneg)
      as ([d1 off1] & E1 & Hoff1 & Hlen1 & Hin1).
    + cbn [fst snd]. rewrite sumUpto_0 by lia. split; [lia|]. split; [exact Hlen|].
      intros i Hi. apply Hin. lia.
    + intros m [d2 off2] Hm (Hoff2 & Hlen2 & Hin2). cbn [fst snd] in *. subst off2.
      rewrite code_rowPitch by exact Hm.
      rewrite (imageGetMipOffsets_shape (faceImage c 0) c 0 m) by reflexivity.
      rewrite imageGetMipOffsets_eq by lia.
      pose proof (level_inside_chain c m Hm) as Hlv.
      pose proof (prefix_nonneg c m) as Hpre.
      pose proof (rowPitch_nonneg' c m) as Hp.
      pose proof (mipDim_pos (m_width c) m) as Hs.
      pose proof (level_square m) as Hsq.
      destruct (copy_rows (slice (m_data c) (f * chainBytes c) (chainBytes c)) d2
                  (f * chainBytes c + sumUpto (levelBytes c) m)
                  (0 * chainBytes c + sumUpto (levelBytes c) m)
                  (mipDim (m_width c) m) (rowPitch c m))
        as (d3 & E3 & L3 & In3 & Out3); try lia; try nia.
      { rewrite len_slice by nia. nia. }
      rewrite E3. cbn [bind]. eexists. split; [reflexivity|]. cbn [fst snd].
      rewrite (u32_small (rowPitch c m * mipDim (m_width c) m)) by nia.
      rewrite u32_small by nia.
      rewrite sumUpto_succ by lia.
      split; [lia|]. split; [lia|].
      intros i Hi.
      destruct (Z_lt_ge_dec i (f * chainBytes c + sumUpto (levelBytes c) m)) as [Lo|Hi'].
      * rewrite Out3 by lia. apply Hin2. lia.
      * replace i with (f * chainBytes c + sumUpto (levelBytes c) m
                        + (i - (f * chainBytes c + sumUpto (levelBytes c) m))) at 1
          by lia.
        rewrite In3 by lia. rewrite byte_at_slice by nia. f_equal. lia.
    + rewrite E1. eexists. split; [reflexivity|]. cbn [fst snd] in *.
      fold (chainBytes c) in Hoff1, Hin1.
      split; [lia|]. split; [exact Hlen1|]. intros i Hi. apply Hin1. lia.
  - rewrite E. cbn [bind fst snd] in *. unfold imageMove.
    assert (Ed : d = m_data c).
    { apply bytes_ext; [lia|]. intros i Hi. apply Hin. lia. }
    rewrite Ed. rewrite (image_eta c) at 7. rewrite Hsize, Hfaces.
    do 3 f_equal. lia.
Qed.

End FaceList.

(** X13.  A cube map of the packed size taken apart by
    [imageFaceListFromCubemap] gives six images, the k-th holding the
    mip chain of face k, and [imageCubemapFromFaceList] puts them
    together into the cube map it was. *)
Theorem facelist_roundtrip (junk1 junk2 : Z -> Z) (faceList : list Image)
    (dst c : Image) :
  imageIsCubemap c = true -> 0 <= m_numMips c <= MAX_MIP_NUM ->
  6 * chainBytes c < 4294967296 ->
  m_dataSize c = 6 * chainBytes c -> len (m_data c) = m_dataSize c ->
  exists faces,
    imageFaceListFromCubemap junk1 faceList c = Done (true, faces)
    /\ length faces = 6%nat
    /\ (forall k, 0 <= k < 6 ->
          m_data (nth (Z.to_nat k) faces emptyImage)
          = slice (m_data c) (k * chainBytes c) (chainBytes c))
    /\ imageCubemapFromFaceList junk2 dst faces = Done (true, c).
Proof.
  intros Hcube Hmips Hsmall Hsize Hlen.
  unfold imageIsCubemap in Hcube. apply andb_true_iff in Hcube.
  destruct Hcube as [Hf Hsq]. apply Z.eqb_eq in Hf, Hsq.
  exists (map (faceImage c) (upto 6)). split; [|split; [|split]].
  - apply imageFaceListFromCubemap_faces; lia.
  - reflexivity.
  - intros k Hk. rewrite nth_faceImage by exact Hk. reflexivity.
  - apply imageCubemapFromFaceList_faces; lia.
Qed.

Lemma facelist_roundtrip_witness :
  exists faces,
    imageFaceListFromCubemap noJunk [] tinyCubeTwoMips = Done (true, faces)
    /\ length faces = 6%nat
    /\ (forall k, 0 <= k < 6 ->
          m_data (nth (Z.to_nat k) faces emptyImage)
          = slice (m_data tinyCubeTwoMips) (k * chainBytes tinyCubeTwoMips)
                  (chainBytes tinyCubeTwoMips))
    /\ imageCubemapFromFaceList noJunk emptyImage faces = Done (true, tinyCubeTwoMips).
Proof.
  apply (facelist_roundtrip noJunk noJunk [] emptyImage tinyCubeTwoMips);
    vm_compute; try reflexivity; split; discriminate.
Defined.

(** ** Whole images of 8-bit channels, to RGBA32F and back *)

Lemma stored_channel_roundtrip (b : Z) :
  0 <= b <= 255 -> floatToU8 (F32.load (F32.store (u8ToFloat b))) = Some b.
Proof.
  intros Hb.
  assert (H : forallb storedChannelSurvives (upto 256) = true) by (vm_compute; reflexivity).
  pose proof (forallb_upto _ _ H b ltac:(lia)) as Hc.
  unfold storedChannelSurvives in Hc.
  destruct (floatToU8 (F32.load (F32.store (u8ToFloat b)))) as [c|]; [|discriminate].
  apply Z.eqb_eq in Hc. subst. reflexivity.
Qed.

Lemma stored_opaque_alpha : floatToU8 (F32.load (F32.store F32.one)) = Some 255.
Proof. vm_compute. reflexivity. Qed.

Lemma f32_at_storePixel (p : rgba32f) :
  f32_at (storePixel p) 0 = F32.load (F32.store (px0 p))
  /\ f32_at (storePixel p) 1 = F32.load (F32.store (px1 p))
  /\ f32_at (storePixel p) 2 = F32.load (F32.store (px2 p))
  /\ f32_at (storePixel p) 3 = F32.load (F32.store (px3 p)).
Proof. repeat split. Qed.

(** A pixel of an 8-bit format survives the way through a stored
    RGBA32F pixel. *)
Lemma stored_pixel_roundtrip (f : TextureFormat.Enum) (px : bytes) :
  eightBit f = true -> len px = bpp f -> allBytes px ->
  (p <- toRgba32f f px ;;
   fromRgba32f f (rgba32fToRgba32f (storePixel p))) = Done px.
Proof.
  intros Hf Hl Hb. unfold allBytes in Hb.
  destruct f; try discriminate Hf; pixel px Hl;
    repeat match goal with
           | H : Forall _ (_ :: _) |- _ => inversion H; clear H; subst
           end;
    cbv [toRgba32f bind]; unfold rgba32fToRgba32f;
    match goal with
    | |- context [storePixel ?p] =>
        destruct (f32_at_storePixel p) as (E0 & E1 & E2 & E3);
        rewrite E0, E1, E2, E3; clear E0 E1 E2 E3
    end;
    cbv [fromRgba32f defined
         bgr8ToRgba32f rgb8ToRgba32f bgra8ToRgba32f rgba8ToRgba32f
         bgr8FromRgba32f rgb8FromRgba32f bgra8FromRgba32f rgba8FromRgba32f
         px0 px1 px2 px3];
    change (byte_at (?a :: _) 0) with a;
    change (byte_at (_ :: ?a :: _) 1) with a;
    change (byte_at (_ :: _ :: ?a :: _) 2) with a;
    change (byte_at (_ :: _ :: _ :: ?a :: _) 3) with a;
    rewrite ?stored_opaque_alpha, ?stored_channel_roundtrip by assumption;
    cbn [opt_bind]; reflexivity.
Qed.

Lemma Forall_skipn' {A : Type} (P : A -> Prop) (n : nat) :
  forall l, Forall P l -> Forall P (skipn n l).
Proof.
  induction n as [|n IH]; intros l H; [exact H|].
  destruct l as [|x l]; [constructor|]. cbn [skipn]. apply IH.
  inversion H. assumption.
Qed.

Lemma Forall_firstn' {A : Type} (P : A -> Prop) (n : nat) :
  forall l, Forall P l -> Forall P (firstn n l).
Proof.
  induction n as [|n IH]; intros l H; [constructor|].
  destruct l as [|x l]; [constructor|]. cbn [firstn].
  inversion H. constructor; [assumption|apply IH; assumption].
Qed.

Lemma allBytes_slice (b : bytes) (off n : Z) : allBytes b -> allBytes (slice b off n).
Proof.
  unfold allBytes, slice. intros H. apply Forall_firstn', Forall_skipn', H.
Qed.

(** Two buffers made of the same [n] blocks of [k] bytes are equal. *)
Lemma blocks_ext (a b : bytes) (n k : Z) :
  0 <= n -> 0 <= k -> len a = n * k -> len b = n * k ->
  (forall i, 0 <= i < n -> slice a (i * k) k = slice b (i * k) k) -> a = b.
Proof.
  intros Hn Hk Ha Hb H. apply bytes_ext; [lia|]. intros j Hj.
  assert (Hk' : 0 < k) by nia.
  pose proof (Z.div_mod j k ltac:(lia)) as Hdm.
  pose proof (Z.mod_pos_bound j k Hk') as Hr.
  assert (Hq : 0 <= j / k < n).
  { split; [apply Z.div_pos; lia|apply Z.div_lt_upper_bound; nia]. }
  replace j with (j / k * k + j mod k) by lia.
  rewrite <- (byte_at_slice a _ k) by nia.
  rewrite <- (byte_at_slice b _ k) by nia.
  rewrite H by lia. reflexivity.
Qed.

(** A loop that writes block [i] at offset [i * k]. *)
Lemma fill_blocks (n k : Z) (blk : Z -> bytes) (body : Z -> bytes -> outcome bytes)
    (dst0 : bytes) :
  0 <= n -> 0 <= k -> n * k <= len dst0 ->
  (forall i, 0 <= i < n -> len (blk i) = k) ->
  (forall i d, 0 <= i < n -> body i d = poke d (i * k) (blk i)) ->
  exists d',
    for_upto n body dst0 = Done d'
    /\ len d' = len dst0
    /\ forall i, 0 <= i < n -> slice d' (i * k) k = blk i.
Proof.
  intros Hn Hk Hl Hblk Hbody.
  destruct (for_upto_invariant
              (fun j d =>
                 len d = len dst0
                 /\ forall i, 0 <= i < j -> slice d (i * k) k = blk i)
              body n dst0 Hn) as (d' & E & R).
  - split; [reflexivity|]. intros; lia.
  - intros j d Hj (Hlen & Hin). rewrite Hbody by exact Hj.
    destruct (poke_spec d (j * k) (blk j)) as (d1 & E1 & L1 & In1 & Out1);
      [nia|rewrite Hblk by lia; nia|].
    exists d1. split; [exact E1|]. split; [lia|].
    rewrite Hblk in In1, Out1 by lia.
    intros i Hi. destruct (Z.eq_dec i j) as [->|Ni].
    + apply bytes_ext.
      * rewrite len_slice by nia. symmetry. apply Hblk. lia.
      * intros x Hx. rewrite len_slice in Hx by nia.
        rewrite byte_at_slice by nia. rewrite In1 by lia. f_equal. lia.
    + rewrite <- Hin by lia.
      apply slice_bytes; try nia.
      intros x Hx. apply Out1. nia.
  - exists d'. split; [exact E|]. exact R.
Qed.

Lemma imageGetNumPixels_shape (a b : Image) :
  m_width a = m_width b -> m_height a = m_height b ->
  m_numMips a = m_numMips b -> m_numFaces a = m_numFaces b ->
  imageGetNumPixels a = imageGetNumPixels b.
Proof. intros H1 H2 H3 H4. unfold imageGetNumPixels. rewrite H1, H2, H3, H4. reflexivity. Qed.

Lemma numPixels_range (img : Image) (n : Z) :
  imageGetNumPixels img = Done n -> 0 <= n < 4294967296.
Proof.
  unfold imageGetNumPixels. destruct (ensure _); [|discriminate]. cbn [bind].
  intros H. inversion H. unfold u32. apply Z.mod_pos_bound. lia.
Qed.

Lemma eightBit_toRgba32f (f : TextureFormat.Enum) (px : bytes) :
  eightBit f = true -> exists p, toRgba32f f px = Done p.
Proof. destruct f; try discriminate; intros _; eexists; reflexivity. Qed.

Lemma eightBit_bpp (f : TextureFormat.Enum) : eightBit f = true -> 3 <= bpp f <= 4.
Proof. destruct f; try discriminate; intros _; cbv; split; discriminate. Qed.

Lemma eightBit_converted (f : TextureFormat.Enum) :
  eightBit f = true -> f <> TextureFormat.RGBA32F /\ f <> TextureFormat.Unknown.
Proof. destruct f; try discriminate; intros _; split; discriminate. Qed.

Lemma converted_bpp (f : TextureFormat.Enum) :
  f <> TextureFormat.RGBA32F -> f <> TextureFormat.Unknown -> 3 <= bpp f <= 12.
Proof. destruct f; try congruence; intros _ _; cbv; split; discriminate. Qed.

(** [imageToRgba32f] on an image of another format, pixel by pixel. *)
Lemma imageToRgba32f_pixels (junk : Z -> Z) (img : Image) (n : Z) :
  m_format img <> TextureFormat.RGBA32F -> m_format img <> TextureFormat.Unknown ->
  imageGetNumPixels img = Done n -> n * 16 < 4294967296 ->
  n * bpp (m_format img) <= len (m_data img) ->
  exists data',
    imageToRgba32f junk img
    = Done (Build_Image data' (m_width img) (m_height img) (n * 16)
                        TextureFormat.RGBA32F (m_numMips img) (m_numFaces img))
    /\ len data' = n * 16
    /\ forall i, 0 <= i < n ->
         exists p,
           toRgba32f (m_format img)
                     (slice (m_data img) (i * bpp (m_format img)) (bpp (m_format img)))
           = Done p
           /\ slice data' (i * 16) 16 = storePixel p.
Proof.
  intros Hf Hu Hn Hsmall Hl. pose proof (numPixels_range img n Hn) as Hr.
  pose proof (converted_bpp _ Hf Hu) as Hb.
  unfold imageToRgba32f. rewrite Hn. cbn [bind].
  change (bpp TextureFormat.RGBA32F) with 16.
  change (m_numChanels (getImageDataInfo TextureFormat.RGBA32F)) with 4.
  rewrite (u32_small (n * 16)) by lia. rewrite (u32_small (n * 4)) by lia.
  replace ((n * 4 + 3) / 4) with n
    by (apply Z.div_unique with (r := 3); lia).
  destruct (m_format img) as [] eqn:Ef; try congruence.
  all: match goal with
       | |- context [for_upto _ ?body ?init] =>
           match type of Hb with
           | _ <= bpp ?f <= _ =>
               destruct (fill_blocks n 16
                           (fun i =>
                              match toRgba32f f (slice (m_data img) (i * bpp f) (bpp f)) with
                              | Done p => storePixel p
                              | Stuck _ => []
                              end)
                           body init) as (d' & E & L & R);
               [ lia | lia | rewrite len_malloc by lia; lia
               | intros i Hi; reflexivity
               | intros i d Hi; rewrite peek_Done by nia; reflexivity
               | ]
           end
       end.
  all: exists d'; rewrite E; cbn [bind];
       split; [reflexivity|];
       split; [rewrite L, len_malloc by lia; reflexivity|];
       intros i Hi; eexists; split; [reflexivity|]; rewrite R by exact Hi; reflexivity.
Qed.

(** [imageFromRgba32f] into another format, pixel by pixel. *)
Lemma imageFromRgba32f_pixels (junk : Z -> Z) (f : TextureFormat.Enum)
    (mid : Image) (n : Z) (out : Z -> bytes) :
  f <> TextureFormat.RGBA32F -> f <> TextureFormat.Unknown ->
  m_format mid = TextureFormat.RGBA32F ->
  imageGetNumPixels mid = Done n -> n * 16 < 4294967296 ->
  len (m_data mid) = n * 16 ->
  (forall i, 0 <= i < n ->
     fromRgba32f f (rgba32fToRgba32f (slice (m_data mid) (i * 16) 16)) = Done (out i)
     /\ len (out i) = bpp f) ->
  exists d',
    imageFromRgba32f junk f mid
    = Done (Build_Image d' (m_width mid) (m_height mid) (n * bpp f) f
                        (m_numMips mid) (m_numFaces mid))
    /\ len d' = n * bpp f
    /\ forall i, 0 <= i < n -> slice d' (i * bpp f) (bpp f) = out i.
Proof.
  intros Hf Hu Hfmt Hn Hsmall Hl Hout. pose proof (numPixels_range mid n Hn) as Hr.
  pose proof (converted_bpp _ Hf Hu) as Hb.
  unfold imageFromRgba32f. rewrite Hfmt, Hn. cbn [TextureFormat.eqb ensure bind].
  change (m_numChanels (getImageDataInfo TextureFormat.RGBA32F)) with 4.
  rewrite (u32_small (n * bpp f)) by nia. rewrite (u32_small (n * 4)) by lia.
  replace ((n * 4 + 3) / 4) with n
    by (apply Z.div_unique with (r := 3); lia).
  destruct f; try congruence.
  all: match goal with
       | |- context [for_upto _ ?body ?init] =>
           match type of Hb with
           | _ <= ?k <= _ =>
               destruct (fill_blocks n k out body init) as (d' & E & L & R);
               [ lia | | | intros i Hi; apply (Hout i Hi) | | ]
           end
       end.
  all: try (cbn; lia).
  all: try (rewrite len_malloc by (cbn; lia); cbn; lia).
  all: try (intros i d Hi; rewrite peek_Done by lia; cbn [bind];
            destruct (Hout i Hi) as [-> _]; reflexivity).
  all: exists d'; rewrite E; cbn [bind];
       split; [reflexivity|];
       split; [rewrite L, len_malloc by (cbn; lia); reflexivity|];
       intros i Hi; rewrite <- R by exact Hi; reflexivity.
Qed.

(** X14.  An image of 8-bit channels and at most sixteen levels
    converted by [imageConvert] to RGBA32F has sixteen bytes per pixel,
    and converted back to its own format is the image it was. *)
Theorem eight_bit_image_roundtrip (junk1 junk2 : Z -> Z) (img : Image) (n : Z) :
  eightBit (m_format img) = true -> m_numMips img <= MAX_MIP_NUM ->
  imageGetNumPixels img = Done n -> n * 16 < 4294967296 ->
  m_dataSize img = n * bpp (m_format img) -> len (m_data img) = m_dataSize img ->
  allBytes (m_data img) ->
  exists mid,
    imageConvert junk1 TextureFormat.RGBA32F img = Done mid
    /\ m_format mid = TextureFormat.RGBA32F
    /\ m_dataSize mid = n * 16
    /\ imageConvert junk2 (m_format img) mid = Done img.
Proof.
  intros Hf Hmips Hn Hsmall Hsize Hlen Hbytes.
  pose proof (numPixels_range img n Hn) as Hr.
  pose proof (eightBit_bpp _ Hf) as Hb.
  destruct (eightBit_converted _ Hf) as [Hnf Hnu].
  destruct (imageToRgba32f_pixels junk1 img n Hnf Hnu Hn Hsmall ltac:(lia))
    as (d1 & E1 & L1 & R1).
  assert (Hne : TextureFormat.eqb TextureFormat.RGBA32F (m_format img) = false)
    by (destruct (m_format img); try discriminate Hf; reflexivity).
  set (mid := Build_Image d1 (m_width img) (m_height img) (n * 16)
                          TextureFormat.RGBA32F (m_numMips img) (m_numFaces img)).
  exists mid. split; [|split; [reflexivity|split; [reflexivity|]]].
  - unfold imageConvert. rewrite Hne, E1. cbn [bind TextureFormat.eqb].
    assert (Hp : peek d1 0 (n * 16) = Done d1) by (rewrite <- L1; apply peek_all).
    unfold imageCopy. cbn [m_data m_dataSize]. rewrite Hp. reflexivity.
  - unfold imageConvert.
    change (TextureFormat.eqb TextureFormat.RGBA32F (m_format mid)) with true.
    cbn [bind imageRef]. unfold imageRef. rewrite Hne.
    destruct (imageFromRgba32f_pixels junk2 (m_format img) mid n
                (fun i => slice (m_data img) (i * bpp (m_format img)) (bpp (m_format img))))
      as (d2 & E2 & L2 & R2); try assumption; try reflexivity.
    + intros i Hi. split; [|apply len_slice; nia].
      destruct (R1 i Hi) as (p & Ep & Es). cbn [mid m_data]. rewrite Es.
      pose proof (stored_pixel_roundtrip (m_format img)
                    (slice (m_data img) (i * bpp (m_format img)) (bpp (m_format img)))
                    Hf) as Hpx.
      rewrite Ep in Hpx. cbn [bind] in Hpx. apply Hpx.
      * apply len_slice; nia.
      * apply allBytes_slice, Hbytes.
    + rewrite E2. cbn [mid m_width m_height m_numMips m_numFaces].
      assert (Ed : d2 = m_data img).
      { apply (blocks_ext d2 (m_data img) n (bpp (m_format img))); try lia.
        intros i Hi. apply R2. exact Hi. }
      rewrite Ed, <- Hsize. rewrite <- image_eta. reflexivity.
Qed.

Lemma eight_bit_image_roundtrip_witness :
  exists mid,
    imageConvert noJunk TextureFormat.RGBA32F bgraQuad = Done mid
    /\ m_format mid = TextureFormat.RGBA32F
    /\ m_dataSize mid = 4 * 16
    /\ imageConvert noJunk (m_format bgraQuad) mid = Done bgraQuad.
Proof.
  apply (eight_bit_image_roundtrip noJunk noJunk bgraQuad 4).
  - reflexivity.
  - vm_compute. discriminate.
  - reflexivity.
  - reflexivity.
  - reflexivity.
  - reflexivity.
  - unfold allBytes. vm_compute. repeat constructor; discriminate.
Defined.

(** ** Radiance HDR: save, then load *)

(** Decimal digits are read back by [scanDigits]. *)
Lemma scanDigits_decimal (rest : bytes) :
  forall (fuel : nat) (n : Z) (acc : bytes),
    0 <= n < 10 ^ Z.of_nat fuel -> (0 < fuel)%nat ->
    scanDigits (decimal fuel n acc ++ rest) 0 = scanDigits (acc ++ rest) n.
Proof.
  induction fuel as [|fuel IH]; intros n acc Hn Hf; [lia|].
  cbn [decimal].
  pose proof (Z.mod_pos_bound n 10 ltac:(lia)) as Hr.
  pose proof (Z.div_mod n 10 ltac:(lia)) as Hdm.
  assert (Hd : isDigit (48 + n mod 10) = true).
  { unfold isDigit. apply andb_true_iff. split; apply Z.leb_le; lia. }
  destruct (Z.eqb_spec (n / 10) 0) as [E|E].
  - cbn [app scanDigits]. rewrite Hd. f_equal. lia.
  - assert (Hq : 0 <= n / 10 < 10 ^ Z.of_nat fuel).
    { split; [apply Z.div_pos; lia|].
      apply Z.div_lt_upper_bound; [lia|].
      replace (Z.of_nat (Datatypes.S fuel)) with (1 + Z.of_nat fuel) in Hn by lia.
      rewrite Z.pow_add_r in Hn by lia. change (10 ^ 1) with 10 in Hn. lia. }
    assert (Hf' : (0 < fuel)%nat).
    { destruct fuel; [|lia]. change (10 ^ Z.of_nat 0) with 1 in Hq. lia. }
    rewrite IH by assumption.
    cbn [app scanDigits]. rewrite Hd. f_equal. lia.
Qed.

Lemma decimal_head (fuel : nat) :
  forall (n : Z) (acc : bytes),
    0 <= n -> (0 < fuel)%nat ->
    exists c tail, decimal fuel n acc = c :: tail /\ isDigit c = true.
Proof.
  induction fuel as [|fuel IH]; intros n acc Hn Hf; [lia|].
  cbn [decimal].
  pose proof (Z.mod_pos_bound n 10 ltac:(lia)) as Hr.
  destruct (Z.eqb_spec (n / 10) 0) as [E|E].
  - eexists _, _. split; [reflexivity|].
    unfold isDigit. apply andb_true_iff. split; apply Z.leb_le; lia.
  - destruct fuel as [|fuel'].
    + cbn [decimal]. eexists _, _. split; [reflexivity|].
      unfold isDigit. apply andb_true_iff. split; apply Z.leb_le; lia.
    + apply IH; [apply Z.div_pos; lia|lia].
Qed.

(** What [%d] printed is read back by [%d], up to the next character
    that is not a digit. *)
Lemma scanInt_printInt (v : Z) (c : Z) (rest : bytes) :
  0 <= v < 2147483648 -> isDigit c = false ->
  scanInt (printInt v ++ c :: rest) = Some (v, c :: rest).
Proof.
  intros Hv Hc. unfold printInt.
  replace (v <? 0) with false by (symmetry; apply Z.ltb_ge; lia).
  destruct (decimal_head 10 v [] ltac:(lia) ltac:(lia)) as (d & tail & E & Hd).
  assert (Hd' := Hd). unfold isDigit in Hd'. apply andb_true_iff in Hd'.
  destruct Hd' as [H1 H2]. apply Z.leb_le in H1, H2.
  pose proof (scanDigits_decimal (c :: rest) 10 v []) as Hscan.
  rewrite E in Hscan. cbn [app] in Hscan.
  unfold scanInt. rewrite E. cbn [app skipSpace].
  destruct d as [|p|p]; try lia.
  do 6 (destruct p as [p|p|]; try lia).
  all: cbn [skipSpace isSpace isDigit Z.eqb Z.leb Z.compare Pos.eqb Pos.compare
            Pos.compare_cont andb orb];
       rewrite Hscan by (try lia; change (10 ^ Z.of_nat 10) with 10000000000; lia);
       cbn [scanDigits]; rewrite Hc;
       replace (-2147483648 <=? v) with true by (symmetry; apply Z.leb_le; lia);
       replace (v <=? 2147483647) with true by (symmetry; apply Z.leb_le; lia);
       reflexivity.
Qed.

Lemma takeLine_line (line rest : bytes) :
  Forall (fun x => x <> 10) line ->
  forall n : nat, (length line < n)%nat ->
  takeLine n (line ++ 10 :: rest) = line ++ [10].
Proof.
  induction 1 as [|x line Hx _ IH]; intros n Hn.
  - destruct n; [lia|]. reflexivity.
  - destruct n; [cbn [length] in Hn; lia|]. cbn [app takeLine].
    replace (x =? 10) with false by (symmetry; apply Z.eqb_neq; exact Hx).
    rewrite IH by (cbn [length] in Hn; lia). reflexivity.
Qed.

Lemma skipn_prefix (pre rest : bytes) : skipn (Z.to_nat (len pre)) (pre ++ rest) = rest.
Proof.
  unfold len. rewrite Nat2Z.id, skipn_app, skipn_all, Nat.sub_diag. reflexivity.
Qed.

(** [fgets] on a file whose next line is [line]. *)
Lemma fgets_line (pre line rest : bytes) (fp : FILE) :
  content fp = pre ++ line ++ 10 :: rest -> pos fp = len pre ->
  Forall (fun x => x <> 10) line -> (length line < 127)%nat ->
  fgets fp
  = Done (line ++ [10],
          {| content := content fp; pos := pos fp + (len line + 1) |}).
Proof.
  intros Hc Hp Hl Hn. unfold fgets. rewrite Hc, Hp, skipn_prefix.
  pose proof (len_nonneg pre). pose proof (len_nonneg line).
  replace (0 <=? len pre) with true by (symmetry; apply Z.leb_le; lia).
  cbn [ensure bind]. rewrite takeLine_line by assumption.
  rewrite len_app. change (len [10]) with 1.
  replace (len line + 1 =? 0) with false by (symmetry; apply Z.eqb_neq; lia).
  reflexivity.
Qed.

Lemma cstr_nonzero (l : bytes) : Forall (fun x => x <> 0) l -> cstr l = l.
Proof.
  induction 1 as [|x l Hx _ IH]; [reflexivity|]. cbn [cstr].
  replace (x =? 0) with false by (symmetry; apply Z.eqb_neq; exact Hx).
  rewrite IH. reflexivity.
Qed.

Lemma decimal_digits (fuel : nat) :
  forall (n : Z) (acc : bytes),
    0 <= n ->
    Forall (fun x => 48 <= x <= 57) acc ->
    Forall (fun x => 48 <= x <= 57) (decimal fuel n acc)
    /\ (length (decimal fuel n acc) <= fuel + length acc)%nat.
Proof.
  induction fuel as [|fuel IH]; intros n acc Hn Hacc; cbn [decimal].
  - split; [exact Hacc|lia].
  - pose proof (Z.mod_pos_bound n 10 ltac:(lia)) as Hr.
    assert (Hacc' : Forall (fun x => 48 <= x <= 57) ((48 + n mod 10) :: acc))
      by (constructor; [lia|exact Hacc]).
    destruct (n / 10 =? 0).
    + split; [exact Hacc'|cbn [length]; lia].
    + destruct (IH (n / 10) _ ltac:(apply Z.div_pos; lia) Hacc') as [H1 H2].
      split; [exact H1|cbn [length] in H2; lia].
Qed.

Lemma printInt_digits (v : Z) :
  0 <= v ->
  Forall (fun x => 48 <= x <= 57) (printInt v) /\ (length (printInt v) <= 10)%nat.
Proof.
  intros Hv. unfold printInt.
  replace (v <? 0) with false by (symmetry; apply Z.ltb_ge; lia).
  destruct (decimal_digits 10 v [] Hv ltac:(constructor)) as [H1 H2].
  split; [exact H1|cbn [length] in H2; lia].
Qed.

Lemma slice_cat (d : bytes) (off a b : Z) :
  0 <= off -> 0 <= a -> 0 <= b -> off + a + b <= len d ->
  slice d off a ++ slice d (off + a) b = slice d off (a + b).
Proof.
  intros Ho Ha Hb Hl. apply bytes_ext.
  - rewrite len_app, !len_slice by lia. reflexivity.
  - intros i Hi. rewrite len_app, !len_slice in Hi by lia.
    rewrite (byte_at_slice d off (a + b)) by lia.
    unfold byte_at at 1.
    destruct (Z_lt_ge_dec i a) as [Lo|Hi'].
    + rewrite app_nth1 by (pose proof (len_slice d off a); unfold len in *; lia).
      apply (byte_at_slice d off a i); lia.
    + rewrite app_nth2 by (pose proof (len_slice d off a); unfold len in *; lia).
      assert (El : Z.of_nat (length (slice d off a)) = a) by (apply len_slice; lia).
      replace (Z.to_nat i - length (slice d off a))%nat with (Z.to_nat (i - a)) by lia.
      change (byte_at (slice d (off + a) b) (i - a) = byte_at d (off + i)).
      rewrite byte_at_slice by lia. f_equal. lia.
Qed.

(** The rows that [imageSaveHdr] writes: the image's bytes in order. *)
Lemma hdr_rows (data header : bytes) (h pitch : Z) :
  0 <= h -> 0 <= pitch -> h * pitch <= len data ->
  for_upto h
    (fun (yy : Z) '(out, srcPtr) =>
       b <- peek data srcPtr pitch ;;
       Done (out ++ b, srcPtr + pitch))
    (header, 0)
  = Done (header ++ slice data 0 (h * pitch), h * pitch).
Proof.
  intros Hh Hp Hl.
  destruct (for_upto_invariant
              (fun k (st : bytes * Z) =>
                 st = (header ++ slice data 0 (k * pitch), k * pitch))
              (fun (yy : Z) '(out, srcPtr) =>
                 b <- peek data srcPtr pitch ;;
                 Done (out ++ b, srcPtr + pitch))
              h (header, 0) Hh) as (st & E & Hst).
  - cbn. rewrite app_nil_r. reflexivity.
  - intros k st Hk ->. rewrite peek_Done by nia. cbn [bind].
    eexists. split; [reflexivity|].
    rewrite <- app_assoc.
    replace (slice data 0 (k * pitch) ++ slice data (k * pitch) pitch)
      with (slice data 0 ((k + 1) * pitch)).
    + f_equal. lia.
    + replace ((k + 1) * pitch) with (k * pitch + pitch) by lia.
      symmetry. apply (slice_cat data 0 (k * pitch) pitch); nia.
  - subst st. exact E.
Qed.

Lemma skipSpace_printInt (v : Z) (rest : bytes) :
  0 <= v -> skipSpace (printInt v ++ rest) = printInt v ++ rest.
Proof.
  intros Hv. unfold printInt.
  replace (v <? 0) with false by (symmetry; apply Z.ltb_ge; lia).
  destruct (decimal_head 10 v [] Hv ltac:(lia)) as (d & tail & E & Hd).
  rewrite E. cbn [app skipSpace].
  unfold isDigit in Hd. apply andb_true_iff in Hd. destruct Hd as [H1 H2].
  apply Z.leb_le in H1, H2. unfold isSpace.
  replace (d =? 32) with false by (symmetry; apply Z.eqb_neq; lia).
  replace (d <=? 13) with false by (symmetry; apply Z.leb_gt; lia).
  rewrite andb_false_r. reflexivity.
Qed.

(** The size line that [imageSaveHdr] prints is the one [imageLoadHdr]
    scans. *)
Lemma scanSize_printed (h w : Z) :
  0 <= h < 2147483648 -> 0 <= w < 2147483648 ->
  scanSize (([45; 89; 32] ++ printInt h ++ [32; 43; 88; 32] ++ printInt w) ++ [10])
  = Some (h, w).
Proof.
  intros Hh Hw. unfold scanSize.
  destruct (printInt_digits h ltac:(lia)) as [Dh _].
  destruct (printInt_digits w ltac:(lia)) as [Dw _].
  rewrite cstr_nonzero.
  2:{ rewrite !Forall_app. repeat split.
      - repeat constructor; discriminate.
      - eapply Forall_impl; [|exact Dh]. cbn. intros; lia.
      - repeat constructor; discriminate.
      - eapply Forall_impl; [|exact Dw]. cbn. intros; lia.
      - repeat constructor; discriminate. }
  rewrite <- !app_assoc. cbn [app scanChar Z.eqb Pos.eqb opt_bind skipSpace isSpace orb andb].
  rewrite skipSpace_printInt by lia.
  rewrite scanInt_printInt by (try lia; reflexivity).
  cbn [opt_bind skipSpace isSpace Z.eqb Pos.eqb Z.leb Z.compare Pos.compare
       Pos.compare_cont orb andb scanChar].
  rewrite skipSpace_printInt by lia.
  rewrite scanInt_printInt by (try lia; reflexivity).
  reflexivity.
Qed.

Lemma fread_suffix (pre rest : bytes) (fp : FILE) (off n : Z) :
  content fp = pre ++ rest -> pos fp = len pre + off ->
  0 <= off -> 0 <= n -> off + n <= len rest ->
  fread fp n
  = Done (slice rest off n, {| content := content fp; pos := pos fp + n |}).
Proof.
  intros Hc Hp Ho Hn Hl. unfold fread. rewrite Hc, Hp.
  pose proof (len_nonneg pre).
  rewrite peek_Done by (rewrite ?len_app; lia). cbn [bind].
  rewrite slice_app_r by lia. reflexivity.
Qed.

(** A buffer written in two parts, the first four bytes and then the
    rest. *)
Lemma poke_head_rest (buf data : bytes) :
  len buf = len data -> 4 <= len data ->
  exists d1,
    poke buf 0 (slice data 0 4) = Done d1
    /\ poke d1 4 (slice data 4 (len data - 4)) = Done data.
Proof.
  intros Hl H4.
  assert (L4 : len (slice data 0 4) = 4) by (apply len_slice; lia).
  assert (Lr : len (slice data 4 (len data - 4)) = len data - 4)
    by (apply len_slice; lia).
  destruct (poke_spec buf 0 (slice data 0 4)) as (d1 & E1 & L1 & In1 & Out1);
    [lia|lia|].
  destruct (poke_spec d1 4 (slice data 4 (len data - 4)))
    as (d2 & E2 & L2 & In2 & Out2); [lia|lia|].
  exists d1. split; [exact E1|]. rewrite E2. f_equal.
  apply bytes_ext; [lia|]. intros i Hi.
  destruct (Z_lt_ge_dec i 4) as [Lo|Hi'].
  - rewrite Out2 by lia. rewrite In1 by lia. rewrite byte_at_slice by lia.
    f_equal. lia.
  - rewrite In2 by lia. rewrite byte_at_slice by lia. f_equal. lia.
Qed.

Lemma hdrSkipHeader_step (n : nat) (fp : FILE) :
  hdrSkipHeader (Datatypes.S n) fp
  = ('(buf, fp) <- fgets fp ;;
     if (byte_at buf 0 =? 0) || (byte_at buf 0 =? 10) then Done fp
     else hdrSkipHeader n fp).
Proof. reflexivity. Qed.

Ltac no_newline := repeat constructor; discriminate.

Ltac decide_if :=
  match goal with
  | |- context [if ?b then _ else _] =>
      let v := eval vm_compute in b in
      lazymatch v with
      | true => change b with true
      | false => change b with false
      end
  end; cbv iota.

(** X15.  A one-face, one-level RGBE image of at least two pixels and
    less than 2^31 bytes is written by [imageSaveHdr] as the text header
    (magic, comment, format, exposure, an empty line, the size line)
    followed by the data as it is.  [imageLoadHdr] loads the file back
    unchanged, and so does [imageLoad], provided the first bytes of the
    data do not look like the head of a run-length encoded scanline: the
    loader decides between raw and encoded rows by the first four
    bytes. *)
Theorem hdr_roundtrip (junk1 junk2 : Z -> Z) (dst img : Image) :
  m_format img = TextureFormat.RGBE ->
  m_numMips img = 1 -> m_numFaces img = 1 ->
  1 <= m_width img -> 1 <= m_height img ->
  2 <= m_width img * m_height img ->
  m_width img * m_height img * 4 < 2147483648 ->
  m_dataSize img = m_width img * m_height img * 4 ->
  len (m_data img) = m_dataSize img ->
  hdrLooksPacked (m_width img) (m_data img) = false ->
  exists file,
    imageSaveHdr junk1 img = Done file
    /\ file = ((HDR_MAGIC_FULL ++ [10]) ++ hdrComment ++ hdrFormat ++ hdrExposure
              ++ [10] ++ hdrImageSize (m_height img) (m_width img))
             ++ m_data img
    /\ imageLoadHdr junk2 dst (fopen file) = Done (true, img)
    /\ imageLoad junk2 dst (Some file) TextureFormat.Unknown = Done (true, img).
Proof.
  intros Hfmt Hmips Hfaces Hw1 Hh1 Htwo Hsmall Hsize Hlen Hraw.
  assert (Hw : 1 <= m_width img < 2147483648) by nia.
  assert (Hh : 1 <= m_height img < 2147483648) by nia.
  destruct img as [data w h size f mips faces].
  cbn [m_data m_width m_height m_dataSize m_format m_numMips m_numFaces] in *.
  subst f mips faces size.
  unfold imageSaveHdr, imageRefOrConvert, imageRef.
  cbn [m_data m_width m_height m_dataSize m_format m_numMips m_numFaces
       TextureFormat.eqb bind].
  change (bpp TextureFormat.RGBE) with 4.
  rewrite (u32_small (w * 4)) by lia.
  rewrite hdr_rows by nia. cbn [bind].
  replace (h * (w * 4)) with (len data) by lia. rewrite slice_all.
  eexists. split; [reflexivity|]. split; [reflexivity|].
  unfold hdrImageSize. rewrite !i32_small by lia.
  set (sizeBody := [45; 89; 32] ++ printInt h ++ [32; 43; 88; 32] ++ printInt w).
  set (pre5 := (HDR_MAGIC_FULL ++ [10]) ++ hdrComment ++ hdrFormat ++ hdrExposure ++ [10]).
  assert (Efile :
    ((HDR_MAGIC_FULL ++ [10]) ++ hdrComment ++ hdrFormat ++ hdrExposure ++ [10]
     ++ [45; 89; 32] ++ printInt h ++ [32; 43; 88; 32] ++ printInt w ++ [10]) ++ data
    = pre5 ++ sizeBody ++ 10 :: data).
  { unfold pre5, sizeBody. rewrite <- !app_assoc. reflexivity. }
  rewrite Efile. clear Efile.
  set (T := sizeBody ++ 10 :: data).
  assert (Dh := printInt_digits h ltac:(lia)). destruct Dh as [Dh Lh].
  assert (Dw := printInt_digits w ltac:(lia)). destruct Dw as [Dw Lw].
  assert (Hbody : Forall (fun x => x <> 10) sizeBody).
  { unfold sizeBody. rewrite !Forall_app. repeat split.
    - no_newline.
    - eapply Forall_impl; [|exact Dh]. cbn. intros; lia.
    - no_newline.
    - eapply Forall_impl; [|exact Dw]. cbn. intros; lia. }
  assert (Lbody : (length sizeBody <= 27)%nat).
  { unfold sizeBody. rewrite !length_app. cbn [length]. lia. }
  assert (Hmagic : fread_u32 (fopen (pre5 ++ T))
                   = Done (HDR_MAGIC, {| content := pre5 ++ T; pos := 4 |})).
  { unfold fread_u32, fopen.
    rewrite (fread_in_prefix pre5 T)
      by (cbn [content pos]; first [reflexivity | lia | change (len pre5) with 66; lia]).
    reflexivity. }
  assert (Hload : imageLoadHdr junk2 dst (fopen (pre5 ++ T))
                  = Done (true, Build_Image data w h (w * h * 4) TextureFormat.RGBE 1 1));
    [|split; [exact Hload|];
      apply (imageLoad_dispatch junk2 dst _ _ HDR_MAGIC (imageLoadHdr junk2));
      [exact Hmagic|reflexivity|exact Hload]].
  unfold imageLoadHdr, fopen.
  rewrite (fgets_line [] HDR_MAGIC_FULL
             (hdrComment ++ hdrFormat ++ hdrExposure ++ [10] ++ T))
    by (first [reflexivity | no_newline | cbn; lia]).
  cbn [bind]. decide_if.
  rewrite hdrSkipHeader_step.
  rewrite (fgets_line (HDR_MAGIC_FULL ++ [10]) (removelast hdrComment)
             (hdrFormat ++ hdrExposure ++ [10] ++ T))
    by (first [reflexivity | no_newline | cbn; lia]).
  cbn [bind]. decide_if.
  rewrite hdrSkipHeader_step.
  rewrite (fgets_line ((HDR_MAGIC_FULL ++ [10]) ++ hdrComment) (removelast hdrFormat)
             (hdrExposure ++ [10] ++ T))
    by (first [reflexivity | no_newline | cbn; lia]).
  cbn [bind]. decide_if.
  rewrite hdrSkipHeader_step.
  rewrite (fgets_line ((HDR_MAGIC_FULL ++ [10]) ++ hdrComment ++ hdrFormat)
             (removelast hdrExposure) ([10] ++ T))
    by (first [reflexivity | no_newline | cbn; lia]).
  cbn [bind]. decide_if.
  rewrite hdrSkipHeader_step.
  rewrite (fgets_line ((HDR_MAGIC_FULL ++ [10]) ++ hdrComment ++ hdrFormat ++ hdrExposure)
             [] T)
    by (first [reflexivity | no_newline | cbn; lia]).
  cbn [bind]. decide_if. cbn [bind content pos].
  rewrite (fgets_line pre5 sizeBody data)
    by (first [reflexivity | exact Hbody | lia]).
  cbn [bind content pos].
  pose proof (scanSize_printed h w ltac:(lia) ltac:(lia)) as Hscan.
  fold sizeBody in Hscan. rewrite Hscan. clear Hscan. cbn [bind].
  assert (Hc2 : pre5 ++ T = (pre5 ++ sizeBody ++ [10]) ++ data).
  { unfold T. rewrite <- !app_assoc. reflexivity. }
  assert (Hp2 : forall off,
             0 + (len HDR_MAGIC_FULL + 1) + (len (removelast hdrComment) + 1)
             + (len (removelast hdrFormat) + 1) + (len (removelast hdrExposure) + 1)
             + (len (@nil Z) + 1) + (len sizeBody + 1) + off
             = len (pre5 ++ sizeBody ++ [10]) + off).
  { intros off. rewrite !len_app. change (len [10]) with 1.
    change (len pre5) with 66. change (len HDR_MAGIC_FULL) with 10.
    change (len (removelast hdrComment)) with 19.
    change (len (removelast hdrFormat)) with 22.
    change (len (removelast hdrExposure)) with 10.
    change (len (@nil Z)) with 0. lia. }
  rewrite (fread_suffix (pre5 ++ sizeBody ++ [10]) data _ 0 4)
    by (cbn [content pos]; first [exact Hc2 | rewrite <- Hp2; lia | lia]).
  cbn [bind content pos].
  assert (Hcond : (w <? 8) || (w >? 32767) || negb (byte_at (slice data 0 4) 0 =? 2)
                  || negb (byte_at (slice data 0 4) 1 =? 2)
                  || negb (Z.land (byte_at (slice data 0 4) 2) 128 =? 0) = true).
  { rewrite !byte_at_slice by lia. unfold hdrLooksPacked in Hraw.
    apply negb_false_iff in Hraw. exact Hraw. }
  replace ((-2147483648 <=? w * h * 4) && (w * h * 4 <? 2147483648)) with true
    by (symmetry; apply andb_true_iff; split; [apply Z.leb_le|apply Z.ltb_lt]; lia).
  cbn [bind].
  rewrite Hcond. clear Hcond.
  rewrite (u32_small (w * h * 4)) by lia.
  rewrite (u32_small (w * h * 4 - 4)) by lia.
  destruct (poke_head_rest (malloc junk2 (w * h * 4)) data) as (d1 & E1 & E2);
    [rewrite len_malloc by lia; lia | lia |].
  rewrite E1. cbn [bind]. unfold fread_item.
  replace (w * h * 4 - 4 =? 0) with false by (symmetry; apply Z.eqb_neq; lia).
  cbn [negb ensure bind].
  rewrite (fread_suffix (pre5 ++ sizeBody ++ [10]) data _ 4 (w * h * 4 - 4))
    by (cbn [content pos]; first [exact Hc2 | apply Hp2 | lia]).
  cbn [bind]. rewrite <- Hlen, E2. cbn [bind]. unfold imageMove.
  rewrite !u32_small by lia. reflexivity.
Qed.

Lemma hdr_roundtrip_witness :
  exists file,
    imageSaveHdr noJunk rgbePair = Done file
    /\ file = ((HDR_MAGIC_FULL ++ [10]) ++ hdrComment ++ hdrFormat ++ hdrExposure
              ++ [10] ++ hdrImageSize (m_height rgbePair) (m_width rgbePair))
             ++ m_data rgbePair
    /\ imageLoadHdr noJunk emptyImage (fopen file) = Done (true, rgbePair)
    /\ imageLoad noJunk emptyImage (Some file) TextureFormat.Unknown
       = Done (true, rgbePair).
Proof.
  apply (hdr_roundtrip noJunk noJunk emptyImage rgbePair); ground.
Defined.

(** ** KTX without padding: save, then load *)

Lemma ktxRounding_aligned (size : Z) : size mod 4 = 0 -> ktxRounding size = 0.
Proof.
  intros H. rewrite ktxRounding_eq.
  rewrite <- Zplus_mod_idemp_l, H. reflexivity.
Qed.

Lemma flat_map_split (g : Z -> bytes) (k j : Z) :
  0 <= k -> 0 <= j ->
  exists rest, flat_map g (upto (k + 1 + j)) = flat_map g (upto k) ++ g k ++ rest.
Proof.
  intros Hk Hj. pattern j. apply natlike_ind; [| |exact Hj].
  - exists []. rewrite Z.add_0_r, upto_succ, flat_map_app by lia.
    cbn [flat_map]. reflexivity.
  - intros x Hx [rest IH]. exists (rest ++ g (k + 1 + x)).
    replace (k + 1 + Z.succ x) with ((k + 1 + x) + 1) by lia.
    rewrite upto_succ, flat_map_app, IH by lia. cbn [flat_map].
    rewrite app_nil_r, <- !app_assoc. reflexivity.
Qed.

Lemma flat_map_at (g : Z -> bytes) (n k : Z) :
  0 <= k < n ->
  exists rest, flat_map g (upto n) = flat_map g (upto k) ++ g k ++ rest.
Proof.
  intros H. replace n with (k + 1 + (n - k - 1)) by lia.
  apply flat_map_split; lia.
Qed.

Lemma fread_middle (pre mid post : bytes) (fp : FILE) (n : Z) :
  content fp = pre ++ mid ++ post -> pos fp = len pre -> n = len mid ->
  fread fp n = Done (mid, {| content := content fp; pos := pos fp + n |}).
Proof.
  intros Hc Hp Hn. unfold fread. rewrite Hc at 1.
  rewrite (peek_middle pre mid post) by assumption. reflexivity.
Qed.

Section Ktx.

Variable img : Image.

Hypothesis unpadded : ktxUnpadded (m_format img) = true.
Hypothesis mips_range : 1 <= m_numMips img <= 16.
Hypothesis faces_range : 1 <= m_numFaces img <= 6.
Hypothesis chain_small : m_numFaces img * chainBytes img < 4294967296.
Hypothesis data_len : len (m_data img) = m_numFaces img * chainBytes img.
Hypothesis size_eq : m_dataSize img = m_numFaces img * chainBytes img.
Hypothesis width_range : 0 <= m_width img < 4294967296.
Hypothesis height_range : 0 <= m_height img < 4294967296.

Lemma bpp_aligned : bpp (m_format img) mod 4 = 0.
Proof using All. destruct (m_format img); try discriminate unpadded; reflexivity. Qed.

Lemma level_bounds (m : Z) :
  0 <= m < m_numMips img -> 0 <= levelBytes img m < 4294967296.
Proof using All.
  intros Hm. pose proof (level_le_chain img m Hm). pose proof (levelBytes_nonneg img m).
  nia.
Qed.

Lemma ktx_pitch (m : Z) :
  0 <= m < m_numMips img ->
  u32 (mipDim (m_width img) m * bpp (m_format img)) = rowPitch img m.
Proof using All.
  intros Hm. apply u32_small. fold (rowPitch img m).
  pose proof (level_bounds m Hm). pose proof (rowPitch_le_level img m).
  pose proof (rowPitch_nonneg' img m). lia.
Qed.

Lemma ktx_faceSize (m : Z) :
  0 <= m < m_numMips img ->
  u32 (rowPitch img m * mipDim (m_height img) m) = levelBytes img m.
Proof using All.
  intros Hm. rewrite Z.mul_comm, <- level_rows. apply u32_small, level_bounds, Hm.
Qed.

Lemma rowPitch_aligned (m : Z) : rowPitch img m mod 4 = 0.
Proof using All.
  unfold rowPitch. rewrite Z.mul_mod, bpp_aligned by lia.
  rewrite Z.mul_0_r. reflexivity.
Qed.

Lemma level_aligned (m : Z) : levelBytes img m mod 4 = 0.
Proof using All.
  rewrite level_rows. rewrite Z.mul_mod, rowPitch_aligned by lia.
  rewrite Z.mul_0_r. reflexivity.
Qed.

Lemma mipSize_rounding (m : Z) :
  ktxRounding (u32 (levelBytes img m * m_numFaces img)) = 0.
Proof using All.
  apply ktxRounding_aligned. unfold u32.
  rewrite Z.mod_mod_divide by (exists 1073741824; reflexivity).
  rewrite Z.mul_mod, level_aligned by lia. reflexivity.
Qed.

Lemma block_inside (m f : Z) :
  0 <= m < m_numMips img -> 0 <= f < m_numFaces img ->
  0 <= cubeRow img f m 0
  /\ cubeRow img f m 0 + levelBytes img m <= m_numFaces img * chainBytes img.
Proof using All.
  intros Hm Hf. pose proof (level_inside_chain img m Hm).
  pose proof (prefix_nonneg img m). pose proof (chainBytes_nonneg img).
  unfold cubeRow. nia.
Qed.

Lemma block_offset (m f : Z) :
  0 <= m < m_numMips img -> 0 <= f < m_numFaces img ->
  imageGetMipOffsets img f m = cubeRow img f m 0.
Proof using All.
  intros Hm Hf. pose proof (chainBytes_nonneg img).
  rewrite imageGetMipOffsets_eq by nia. unfold cubeRow. lia.
Qed.

Lemma ktxHeader_ok :
  ktxHeaderFromImage img
  = Done {| ktx_endianness := KTX_ENDIAN_REF;
            ktx_glType := pixelDataTypeToGlType
                            (m_pixelType (getImageDataInfo (m_format img)));
            ktx_glTypeSize := m_bytesPerPixel (getImageDataInfo (m_format img))
                              / m_numChanels (getImageDataInfo (m_format img));
            ktx_glFormat := snd (getGlSizedInternalFormat (m_format img));
            ktx_glInternalFormat := fst (getGlSizedInternalFormat (m_format img));
            ktx_glBaseInternalFormat := snd (getGlSizedInternalFormat (m_format img));
            ktx_pixelWidth := m_width img;
            ktx_pixelHeight := m_height img;
            ktx_pixelDepth := 0;
            ktx_numArrayElements := 0;
            ktx_numFaces := m_numFaces img;
            ktx_numMips := m_numMips img;
            ktx_bytesKeyValue := 0 |}.
Proof using All.
  unfold ktxHeaderFromImage.
  replace (0 =? m_numMips img) with false by (symmetry; apply Z.eqb_neq; lia).
  destruct (m_format img); try discriminate unpadded; reflexivity.
Qed.

(** What [imageSaveKtx] writes: the magic, the header and the levels. *)
Lemma imageSaveKtx_file :
  exists hdr,
    ktxHeaderFromImage img = Done hdr
    /\ imageSaveKtx img
       = Done ((KTX_MAGIC ++ flat_map fwrite_u32 (ktxHeaderWords hdr))
               ++ ktxBody img (m_numMips img)).
Proof using All.
  eexists. split; [apply ktxHeader_ok|].
  unfold imageSaveKtx. rewrite ktxHeader_ok. cbn [bind].
  cbv zeta.
  match goal with
  | |- context [for_upto _ _ ?init] => set (pre := init)
  end.
  match goal with
  | |- context [for_upto ?n ?body ?init] =>
      destruct (for_upto_invariant
                  (fun k out => out = init ++ ktxBody img k) body n init ltac:(lia))
        as (out & E & Hout)
  end.
  - unfold ktxBody. rewrite upto_nil by lia. cbn [flat_map].
    rewrite app_nil_r. reflexivity.
  - intros m out Hm Eout.
    rewrite (ktx_pitch m Hm), (ktx_faceSize m Hm), mipSize_rounding.
    rewrite (ktxRounding_aligned (rowPitch img m)) by apply rowPitch_aligned.
    rewrite (ktxRounding_aligned (levelBytes img m)) by apply level_aligned.
    cbn [Z.eqb negb].
    match goal with
    | |- context [for_upto ?n ?body ?init] =>
        destruct (for_upto_invariant
                    (fun k out => out = init ++ flat_map (ktxBlock img m) (upto k))
                    body n init ltac:(lia))
          as (out' & E' & Hout')
    end.
    + rewrite upto_nil by lia. cbn [flat_map]. rewrite app_nil_r. reflexivity.
    + intros f out' Hf ->.
      rewrite (block_offset m f Hm Hf).
      destruct (block_inside m f Hm Hf) as [B1 B2].
      pose proof (level_bounds m Hm) as Hlv.
      rewrite peek_Done by lia. cbn [bind]. eexists. split; [reflexivity|].
      rewrite upto_succ, flat_map_app by lia. cbn [flat_map].
      rewrite app_nil_r, <- !app_assoc. reflexivity.
    + rewrite E'. cbn [bind]. eexists. split; [reflexivity|]. subst out' out.
      unfold ktxBody. rewrite upto_succ, flat_map_app by lia. cbn [flat_map].
      rewrite app_nil_r, <- !app_assoc. reflexivity.
  - rewrite E. cbn [bind]. subst out. reflexivity.
Qed.

Lemma len_ktxBlock (m f : Z) :
  0 <= m < m_numMips img -> 0 <= f < m_numFaces img ->
  len (ktxBlock img m f) = levelBytes img m.
Proof using All.
  intros Hm Hf. destruct (block_inside m f Hm Hf).
  pose proof (level_bounds m Hm). unfold ktxBlock. apply len_slice; lia.
Qed.

(** Two different levels of the faces do not overlap. *)
Lemma block_disjoint (m f m' f' : Z) :
  0 <= m < m_numMips img -> 0 <= f < m_numFaces img ->
  0 <= m' < m_numMips img -> 0 <= f' < m_numFaces img ->
  m <> m' \/ f <> f' ->
  cubeRow img f m 0 + levelBytes img m <= cubeRow img f' m' 0
  \/ cubeRow img f' m' 0 + levelBytes img m' <= cubeRow img f m 0.
Proof using All.
  intros Hm Hf Hm' Hf' Hne.
  pose proof (level_inside_chain img m Hm) as I1.
  pose proof (level_inside_chain img m' Hm') as I2.
  pose proof (prefix_nonneg img m) as P1. pose proof (prefix_nonneg img m') as P2.
  pose proof (chainBytes_nonneg img) as Hc.
  unfold cubeRow. rewrite !Z.mul_0_l, !Z.add_0_r.
  destruct (Z.lt_trichotomy f f') as [Hlt|[->|Hgt]].
  - left. nia.
  - assert (Hmm : m <> m') by (destruct Hne; congruence).
    destruct (Z_lt_ge_dec m m') as [L|L].
    + left. rewrite <- Z.add_assoc, <- sumUpto_succ by lia.
      apply Zplus_le_compat_l, sumUpto_mono; [intros; apply levelBytes_nonneg|lia].
    + right. rewrite <- Z.add_assoc, <- sumUpto_succ by lia.
      apply Zplus_le_compat_l, sumUpto_mono; [intros; apply levelBytes_nonneg|lia].
  - right. nia.
Qed.

(** Every byte of the faces is in some level of some face. *)
Lemma block_cover (i : Z) :
  0 <= i < m_numFaces img * chainBytes img ->
  exists m f j,
    0 <= m < m_numMips img /\ 0 <= f < m_numFaces img
    /\ 0 <= j < levelBytes img m /\ i = cubeRow img f m 0 + j.
Proof using All.
  intros Hi. pose proof (chainBytes_nonneg img) as Hc.
  assert (Hpos : 0 < chainBytes img) by nia.
  destruct (sumUpto_locate (levelBytes img) (m_numMips img) (i mod chainBytes img))
    as (m & Hm & Hr).
  - intros. apply levelBytes_nonneg.
  - apply Z.mod_pos_bound. exact Hpos.
  - rewrite sumUpto_succ in Hr by lia.
    exists m, (i / chainBytes img), (i mod chainBytes img - sumUpto (levelBytes img) m).
    pose proof (Z.div_mod i (chainBytes img) ltac:(lia)) as Hdm.
    split; [exact Hm|]. split.
    + split; [apply Z.div_pos; lia|]. apply Z.div_lt_upper_bound; [lia|]. lia.
    + split; [lia|]. unfold cubeRow. lia.
Qed.

Lemma len_ktxBlocks (m k : Z) :
  0 <= m < m_numMips img -> 0 <= k <= m_numFaces img ->
  len (flat_map (ktxBlock img m) (upto k)) = k * levelBytes img m.
Proof using All.
  intros Hm [Hk Hkf]. revert Hkf. pattern k. apply natlike_ind; [| |exact Hk].
  - intros _. reflexivity.
  - intros x Hx IH Hxf. replace (Z.succ x) with (x + 1) by lia.
    rewrite upto_succ, flat_map_app, len_app, IH by lia. cbn [flat_map].
    rewrite app_nil_r, len_ktxBlock by lia. lia.
Qed.

Lemma len_ktxBody (n : Z) :
  0 <= n <= m_numMips img ->
  len (ktxBody img n) = 4 * n + m_numFaces img * sumUpto (levelBytes img) n.
Proof using All.
  intros [Hn Hnm]. revert Hnm. pattern n. apply natlike_ind; [| |exact Hn].
  - intros _. rewrite sumUpto_0 by lia. unfold ktxBody. rewrite upto_nil by lia.
    change (len (flat_map (ktxMip img) [])) with 0. lia.
  - intros x Hx IH Hxm. replace (Z.succ x) with (x + 1) by lia.
    unfold ktxBody in *.
    rewrite upto_succ, flat_map_app, len_app, IH, sumUpto_succ by lia.
    cbn [flat_map]. rewrite app_nil_r. unfold ktxMip.
    rewrite len_app, len_ktxBlocks by lia.
    unfold fwrite_u32. rewrite len_le_encode. lia.
Qed.

Lemma ktx_format_back :
  lookup (u32 (fst (getGlSizedInternalFormat (m_format img)))) s_translateKtxFormat
         TextureFormat.Unknown = m_format img
  /\ TextureFormat.eqb TextureFormat.Unknown (m_format img) = false.
Proof using All.
  destruct (m_format img); try discriminate unpadded; split; reflexivity.
Qed.

(** [imageLoadKtx] on the file [imageSaveKtx] writes. *)
Lemma ktx_load (junk : Z -> Z) (dst : Image) (hdr : KtxHeader) :
  ktxHeaderFromImage img = Done hdr ->
  imageLoadKtx junk dst
    (fopen ((KTX_MAGIC ++ flat_map fwrite_u32 (ktxHeaderWords hdr))
            ++ ktxBody img (m_numMips img)))
  = Done (true, img).
Proof using All.
  rewrite ktxHeader_ok. intros Hh. injection Hh as <-.
  set (ws := ktxHeaderWords _).
  set (pre := KTX_MAGIC ++ flat_map fwrite_u32 ws).
  set (file := pre ++ ktxBody img (m_numMips img)).
  assert (Efile : file = pre ++ ktxBody img (m_numMips img)) by reflexivity.
  assert (Ec : file = KTX_MAGIC ++ flat_map fwrite_u32 ws ++ ktxBody img (m_numMips img)).
  { unfold file, pre. rewrite <- app_assoc. reflexivity. }
  assert (Lpre : len pre = 64).
  { unfold pre. rewrite len_app, len_flat_words. reflexivity. }
  destruct ktx_format_back as [Efmt Enot].
  unfold imageLoadKtx.
  rewrite (fread_in_prefix KTX_MAGIC _ (fopen file) KTX_MAGIC_LEN Ec)
    by (vm_compute; intros Hx; discriminate Hx).
  cbn [bind fopen pos content].
  change (slice KTX_MAGIC 0 KTX_MAGIC_LEN) with KTX_MAGIC.
  change (forallb (fun '(a, b) => a =? b) (combine KTX_MAGIC KTX_MAGIC)) with true.
  cbn [negb].
  change 13%nat with (length ws).
  rewrite (fread_words_written ws KTX_MAGIC _
             {| content := file; pos := 0 + KTX_MAGIC_LEN |} Ec) by reflexivity.
  cbn [bind content pos].
  clearbody file pre. clear Ec. subst ws.
  cbn [ktxHeaderWords length map word nth ktx_endianness ktx_glType ktx_glTypeSize
       ktx_glFormat ktx_glInternalFormat ktx_glBaseInternalFormat ktx_pixelWidth
       ktx_pixelHeight ktx_pixelDepth ktx_numArrayElements ktx_numFaces ktx_numMips
       ktx_bytesKeyValue].
  rewrite Efmt, Enot.
  rewrite !(u32_small (m_width img)), !(u32_small (m_height img)),
          !(u32_small (m_numMips img)), !(u32_small (m_numFaces img)) by lia.
  change (u32 0) with 0.
  replace (0 =? m_numMips img) with false by (symmetry; apply Z.eqb_neq; lia).
  unfold counted.
  replace (m_numFaces img <=? 255) with true by (symmetry; apply Z.leb_le; lia).
  replace (m_numMips img <=? 255) with true by (symmetry; apply Z.leb_le; lia).
  replace (m_numFaces img <=? CUBE_FACE_NUM) with true
    by (symmetry; apply Z.leb_le; unfold CUBE_FACE_NUM; lia).
  replace (m_numMips img <=? MAX_MIP_NUM) with true
    by (symmetry; apply Z.leb_le; unfold MAX_MIP_NUM; lia).
  cbn [bind andb].
  set (shape := Build_Image [] _ _ 0 _ _ _).
  rewrite (mipOffsetAfter_shape shape img) by reflexivity.
  rewrite mipOffsetAfter_faces by lia.
  pose proof (chainBytes_nonneg img) as Hchain.
  unfold fseek_cur. cbn [pos content ensure Z.leb bind].
  change (0 + KTX_MAGIC_LEN + 4 * Z.of_nat 13 + 0) with 64.
  change (0 <=? 64) with true. cbn [ensure bind].
  lazymatch goal with
  | |- context [for_upto ?n ?body ?init] =>
      destruct (for_upto_invariant
                  (fun k (s : bytes * FILE) =>
                     content (snd s) = file
                     /\ pos (snd s) = 64 + len (ktxBody img k)
                     /\ len (fst s) = m_numFaces img * chainBytes img
                     /\ (forall m f j,
                           0 <= m < k -> 0 <= f < m_numFaces img ->
                           0 <= j < levelBytes img m ->
                           byte_at (fst s) (cubeRow img f m 0 + j)
                           = byte_at (m_data img) (cubeRow img f m 0 + j)))
                  body n init ltac:(lia))
        as ([d fp] & E & Hc & Hp & Hl & Hfill)
  end.
  - cbn [fst snd content pos]. split; [reflexivity|]. split; [reflexivity|].
    split; [apply len_malloc; nia|]. intros; lia.
  - intros m [d fp] Hm (Hc & Hp & Hl & Hfill). cbn [fst snd] in Hc, Hp, Hl, Hfill.
    destruct (flat_map_at (ktxMip img) (m_numMips img) m Hm) as [restM EM].
    fold (ktxBody img (m_numMips img)) in EM. fold (ktxBody img m) in EM.
    pose proof (level_bounds m Hm) as Hlv.
    rewrite (fread_u32_written (pre ++ ktxBody img m)
               (flat_map (ktxBlock img m) (upto (m_numFaces img)) ++ restM)
               (levelBytes img m) fp)
      by (rewrite ?len_app, ?Lpre; try exact Hp;
          rewrite Hc, Efile, EM; unfold ktxMip; rewrite <- !app_assoc; reflexivity).
    rewrite (u32_small (levelBytes img m)) by exact Hlv. cbn [bind].
    rewrite (ktx_pitch m Hm), mipSize_rounding.
    rewrite (ktxRounding_aligned (rowPitch img m)) by apply rowPitch_aligned.
    rewrite (ktxRounding_aligned (levelBytes img m)) by apply level_aligned.
    cbn [Z.eqb].
    assert (Lw : forall w, len (fwrite_u32 w) = 4)
      by (intros; unfold fwrite_u32; apply len_le_encode).
    lazymatch goal with
    | |- context [for_upto ?n ?body ?init] =>
        destruct (for_upto_invariant
                    (fun k (s : bytes * FILE) =>
                       content (snd s) = file
                       /\ pos (snd s)
                          = 64 + len (ktxBody img m) + 4
                            + len (flat_map (ktxBlock img m) (upto k))
                       /\ len (fst s) = m_numFaces img * chainBytes img
                       /\ (forall m0 f0 j,
                             0 <= m0 < m_numMips img -> 0 <= f0 < m_numFaces img ->
                             m0 < m \/ (m0 = m /\ f0 < k) ->
                             0 <= j < levelBytes img m0 ->
                             byte_at (fst s) (cubeRow img f0 m0 0 + j)
                             = byte_at (m_data img) (cubeRow img f0 m0 0 + j)))
                    body n init ltac:(lia))
          as ([d' fp'] & E' & Hc' & Hp' & Hl' & Hfill')
    end.
    + cbn [fst snd content pos]. rewrite upto_nil by lia. cbn [flat_map].
      split; [exact Hc|]. split; [rewrite Hp; change (len []) with 0; lia|].
      split; [exact Hl|]. intros m0 f0 j Hm0 Hf0 Hdone Hj. apply Hfill; lia.
    + intros f [d' fp'] Hf (Hc' & Hp' & Hl' & Hfill').
      cbn [fst snd] in Hc', Hp', Hl', Hfill'.
      destruct (flat_map_at (ktxBlock img m) (m_numFaces img) f Hf) as [restF EF].
      pose proof (len_ktxBlock m f Hm Hf) as Lb.
      destruct (block_inside m f Hm Hf) as [B1 B2].
      pose proof (len_nonneg (ktxBody img m)) as Lbody.
      pose proof (len_nonneg (flat_map (ktxBlock img m) (upto f))) as Lblocks.
      rewrite (fread_middle
                 (pre ++ ktxBody img m ++ fwrite_u32 (levelBytes img m)
                      ++ flat_map (ktxBlock img m) (upto f))
                 (ktxBlock img m f) (restF ++ restM) fp');
        [ | | rewrite !len_app, Lpre, Lw, Hp'; lia | symmetry; exact Lb ].
      2: { rewrite Hc', Efile, EM. unfold ktxMip. rewrite EF, <- !app_assoc.
           reflexivity. }
      cbn [bind].
      rewrite (imageGetMipOffsets_shape shape img) by reflexivity.
      rewrite (block_offset m f Hm Hf).
      destruct (poke_spec d' (cubeRow img f m 0) (ktxBlock img m f))
        as (d2 & Ep & Ld2 & Hin & Hout); [lia|lia|].
      rewrite Ep. cbn [bind content pos].
      replace (0 <=? pos fp' + levelBytes img m + 0) with true
        by (symmetry; apply Z.leb_le; lia).
      cbn [ensure bind]. eexists. split; [reflexivity|].
      cbn [fst snd content pos].
      split; [exact Hc'|]. split.
      { rewrite upto_succ, flat_map_app, len_app by lia. cbn [flat_map].
        rewrite app_nil_r, Lb, Hp'. lia. }
      split; [lia|].
      intros m0 f0 j Hm0 Hf0 Hdone Hj.
      pose proof (block_inside m0 f0 Hm0 Hf0) as B0.
      destruct (Z.eq_dec m0 m) as [->|Hnm]; [destruct (Z.eq_dec f0 f) as [->|Hnf]|].
      * rewrite Hin by lia. unfold ktxBlock.
        rewrite byte_at_slice by lia. f_equal. lia.
      * rewrite Hout; [apply Hfill'; lia|].
        destruct (block_disjoint m f m f0 Hm Hf Hm Hf0 ltac:(right; congruence));
          lia.
      * rewrite Hout; [apply Hfill'; lia|].
        destruct (block_disjoint m f m0 f0 Hm Hf Hm0 Hf0 ltac:(left; congruence));
          lia.
    + cbn [fst snd] in Hc', Hp', Hl', Hfill'. rewrite E'. cbn [bind].
      pose proof (len_nonneg (ktxBody img m)) as Lbody.
      pose proof (len_nonneg (flat_map (ktxBlock img m) (upto (m_numFaces img))))
        as Lblocks.
      replace (0 <=? pos fp' + 0) with true by (symmetry; apply Z.leb_le; lia).
      cbn [ensure bind]. eexists. split; [reflexivity|].
      cbn [fst snd content pos].
      split; [exact Hc'|]. split.
      { unfold ktxBody. rewrite upto_succ, flat_map_app, len_app by lia.
        cbn [flat_map]. rewrite app_nil_r. unfold ktxMip at 2.
        rewrite len_app, Lw, Hp'. unfold ktxBody. lia. }
      split; [exact Hl'|].
      intros m0 f0 j Hm0 Hf0 Hj. apply Hfill'; lia.
  - cbn [fst snd] in Hc, Hp, Hl, Hfill. rewrite E. cbn [bind].
    unfold imageMove, u8.
    rewrite (Z.mod_small (m_numMips img)), (Z.mod_small (m_numFaces img)) by lia.
    rewrite <- size_eq.
    replace d with (m_data img); [rewrite <- image_eta; reflexivity|].
    apply bytes_ext; [lia|].
    intros i Hi. rewrite data_len in Hi.
    destruct (block_cover i Hi) as (m & f & j & Hm & Hf & Hj & ->).
    symmetry. apply Hfill; assumption.
Qed.

End Ktx.

Lemma ktx_short_magic (rest : bytes) :
  fread_u32 (fopen (KTX_MAGIC ++ rest))
  = Done (KTX_MAGIC_SHORT, {| content := KTX_MAGIC ++ rest; pos := 4 |}).
Proof.
  exact (fread_u32_written [] (skipn 4 KTX_MAGIC ++ rest) KTX_MAGIC_SHORT
           (fopen (KTX_MAGIC ++ rest)) eq_refl eq_refl).
Qed.

(** X16.  An image in a KTX format whose pixels are a multiple of four
    bytes long, with one to six faces, one to sixteen levels and data of
    the packed size, is written by [imageSaveKtx] as 64 bytes of magic
    and header and then, level by level, the face size and the level of
    every face; [imageLoadKtx] loads it back unchanged, and so does
    [imageLoad]. *)
Theorem ktx_roundtrip (junk : Z -> Z) (dst img : Image) :
  ktxUnpadded (m_format img) = true ->
  1 <= m_numMips img <= 16 ->
  1 <= m_numFaces img <= 6 ->
  0 <= m_width img < 4294967296 ->
  0 <= m_height img < 4294967296 ->
  m_numFaces img * chainBytes img < 4294967296 ->
  m_dataSize img = m_numFaces img * chainBytes img ->
  len (m_data img) = m_dataSize img ->
  exists file,
    imageSaveKtx img = Done file
    /\ len file = 64 + 4 * m_numMips img + m_dataSize img
    /\ imageLoadKtx junk dst (fopen file) = Done (true, img)
    /\ imageLoad junk dst (Some file) TextureFormat.Unknown = Done (true, img).
Proof.
  intros Hfmt Hmips Hfaces Hw Hh Hsmall Hsize Hlen.
  rewrite Hsize in Hlen.
  destruct (imageSaveKtx_file img Hfmt Hmips Hfaces Hsmall Hlen Hsize Hw Hh)
    as (hdr & Eh & Es).
  pose proof (ktx_load img Hfmt Hmips Hfaces Hsmall Hlen Hsize Hw Hh junk dst hdr Eh)
    as El.
  eexists. split; [exact Es|]. split; [|split; [exact El|]].
  - rewrite !len_app, len_flat_words.
    rewrite (len_ktxBody img Hfmt Hmips Hfaces Hsmall Hlen Hsize Hw Hh) by lia.
    fold (chainBytes img). rewrite Hsize.
    replace (length (ktxHeaderWords hdr)) with 13%nat by (destruct hdr; reflexivity).
    change (len KTX_MAGIC) with 12. lia.
  - eapply imageLoad_dispatch; [| |exact El].
    + rewrite <- app_assoc. apply ktx_short_magic.
    + reflexivity.
Qed.

Lemma ktx_roundtrip_witness :
  exists file,
    imageSaveKtx tinyCubeTwoMips = Done file
    /\ len file = 64 + 4 * m_numMips tinyCubeTwoMips + m_dataSize tinyCubeTwoMips
    /\ imageLoadKtx noJunk emptyImage (fopen file) = Done (true, tinyCubeTwoMips)
    /\ imageLoad noJunk emptyImage (Some file) TextureFormat.Unknown
       = Done (true, tinyCubeTwoMips).
Proof.
  apply (ktx_roundtrip noJunk emptyImage tinyCubeTwoMips);
    vm_compute; try reflexivity;
    (split; [intros Hx; discriminate Hx
            |first [reflexivity | intros Hx; discriminate Hx]]).
Defined.

(** ** Floats through memory *)









(** ** One pixel through [imageResize] *)








(** The RGBE encoder takes [int(ceilf(log2f(m)))] of the largest
    channel [m], which is not defined for [m = 0]: a black pixel does
    not come back, another one does. *)
Lemma resizedFrom_rgbe_black :
  resizedFrom TextureFormat.RGBE [0; 0; 0; 0] = Stuck Undefined
  /\ resizedFrom TextureFormat.RGBE [0; 0; 0; 128] = Stuck Undefined
  /\ resizedFrom TextureFormat.RGBE [200; 100; 50; 130] = Done [199; 99; 49; 130].
Proof. repeat split; vm_compute; reflexivity. Qed.


(** ** [imageResize] around the conversions *)

Lemma sumUpto_scale (g : Z -> Z) (c n : Z) :
  sumUpto (fun m => g m * c) n = sumUpto g n * c.
Proof.
  destruct (Z_le_gt_dec n 0) as [Hn|Hn]; [rewrite !sumUpto_0 by lia; lia|].
  pattern n. apply natlike_ind; [| |lia].
  - rewrite !sumUpto_0 by lia. lia.
  - intros k Hk IH. unfold Z.succ. rewrite !sumUpto_succ by lia. rewrite IH. ring.
Qed.

Lemma chainBytes_pixels (img : Image) :
  chainBytes img = chainPixels img * bpp (m_format img).
Proof. unfold chainBytes, chainPixels. rewrite <- sumUpto_scale. reflexivity. Qed.

Lemma levelPixels_pos (img : Image) (m : Z) :
  1 <= mipDim (m_width img) m * mipDim (m_height img) m.
Proof.
  pose proof (mipDim_pos (m_width img) m). pose proof (mipDim_pos (m_height img) m). nia.
Qed.

Lemma chainPixels_base (img : Image) :
  1 <= m_width img -> 1 <= m_height img -> 1 <= m_numMips img ->
  m_width img * m_height img <= chainPixels img.
Proof.
  intros Hw Hh Hm. unfold chainPixels.
  rewrite <- (mipDim_0 (m_width img)) at 1 by exact Hw.
  rewrite <- (mipDim_0 (m_height img)) at 1 by exact Hh.
  set (g := fun m => mipDim (m_width img) m * mipDim (m_height img) m).
  change (mipDim (m_width img) 0 * mipDim (m_height img) 0) with (g 0).
  replace (g 0) with (sumUpto g 1)
    by (change 1 with (0 + 1) at 1; rewrite sumUpto_succ, sumUpto_0 by lia; lia).
  apply sumUpto_mono; [|lia].
  intros k _. pose proof (levelPixels_pos img k). unfold g. lia.
Qed.

(** The count of [imageGetNumPixels] where it does not wrap. *)
Lemma countPixels (g : Z -> Z) (n : Z) :
  (forall k, 0 <= g k) -> sumUpto g n < 4294967296 ->
  fold_left (fun count mip => u32 (count + u32 (g mip))) (upto n) 0 = sumUpto g n.
Proof.
  intros Hg.
  destruct (Z_le_gt_dec n 0) as [Hn|Hn];
    [intros _; rewrite sumUpto_0, upto_nil by lia; reflexivity|].
  pattern n. apply natlike_ind; [| |lia].
  - intros _. reflexivity.
  - intros k Hk IH Hs. unfold Z.succ in *. rewrite sumUpto_succ in * by lia.
    pose proof (sumUpto_nonneg g k (fun j _ => Hg j)) as H0. pose proof (Hg k).
    rewrite upto_succ, fold_left_app by lia. cbn [fold_left].
    rewrite IH by lia. rewrite (u32_small (g k)) by lia. apply u32_small. lia.
Qed.

Lemma imageGetNumPixels_chain (img : Image) :
  1 <= m_numMips img -> 0 <= m_numFaces img ->
  m_numFaces img * chainPixels img < 4294967296 ->
  imageGetNumPixels img = Done (m_numFaces img * chainPixels img).
Proof.
  intros Hm Hf Hs. unfold imageGetNumPixels.
  replace (m_numMips img =? 0) with false by (symmetry; apply Z.eqb_neq; lia).
  cbn [negb ensure bind]. f_equal.
  destruct (Z.eq_dec (m_numFaces img) 0) as [E|E].
  - rewrite E, Z.mul_0_r. reflexivity.
  - assert (Hp : 0 <= chainPixels img).
    { apply sumUpto_nonneg. intros k _. pose proof (levelPixels_pos img k). lia. }
    fold (chainPixels img) in Hs.
    rewrite (countPixels (fun m => mipDim (m_width img) m * mipDim (m_height img) m))
      by (first [intros k; pose proof (levelPixels_pos img k); lia
                | fold (chainPixels img); nia]).
    fold (chainPixels img). rewrite u32_small by nia. ring.
Qed.

Lemma chainPixels_one (img : Image) :
  m_numMips img = 1 -> 1 <= m_width img -> 1 <= m_height img ->
  chainPixels img = m_width img * m_height img.
Proof.
  intros Hm Hw Hh. unfold chainPixels. rewrite Hm. change 1 with (0 + 1) at 1.
  rewrite sumUpto_succ, sumUpto_0, !mipDim_0 by lia. lia.
Qed.

Lemma slice_slice (a : bytes) (off n k : Z) :
  0 <= off -> 0 <= k <= n -> off + n <= len a ->
  slice (slice a off n) 0 k = slice a off k.
Proof.
  intros Ho Hk Hl. apply slice_bytes; try lia.
  - rewrite len_slice by lia. lia.
  - intros j Hj. rewrite byte_at_slice by lia. reflexivity.
Qed.


(** [imageResize] on an image of another format, up to the conversion
    back: the RGBA32F buffer it has filled, and what the encoder makes
    of each of its pixels. *)
Lemma imageResize_resampled (junk : Z -> Z) (img : Image) (W H : Z) :
  m_format img <> TextureFormat.RGBA32F -> m_format img <> TextureFormat.Unknown ->
  1 <= m_width img <= W -> W <= 4194304 ->
  1 <= m_height img <= H -> H <= 4194304 ->
  1 <= m_numMips img -> 0 <= m_numFaces img ->
  len (m_data img) = m_numFaces img * chainBytes img ->
  m_numFaces img * chainPixels img * 16 < 4294967296 ->
  16 * W * H * m_numFaces img < 4294967296 ->
  exists mid,
    imageResize junk W H img
    = imageFromRgba32f junk (m_format img)
        (Build_Image mid W H (16 * W * H * m_numFaces img) TextureFormat.RGBA32F 1
                     (m_numFaces img))
    /\ len mid = 16 * W * H * m_numFaces img
    /\ forall f y x,
         0 <= f < m_numFaces img -> 0 <= y < H -> 0 <= x < W ->
         exists xs ys,
           resizeCoord (m_width img) W x = Some xs /\ 0 <= xs < m_width img
           /\ resizeCoord (m_height img) H y = Some ys /\ 0 <= ys < m_height img
           /\ fromRgba32f (m_format img)
                (rgba32fToRgba32f (slice mid (resizedPixel W H f y x) 16))
              = resizedFrom (m_format img)
                  (slice (m_data img) (pixelAt img f ys xs) (bpp (m_format img))).
Proof.
  intros Hf Hu Hw HW Hh HH Hmips Hfaces Hlen Hsrc Hdst.
  pose proof (converted_bpp _ Hf Hu) as Hb.
  pose proof (chainBytes_pixels img) as Hcb.
  pose proof (chainPixels_base img ltac:(lia) ltac:(lia) Hmips) as Hbase.
  assert (Hne : TextureFormat.eqb TextureFormat.RGBA32F (m_format img) = false)
    by (destruct (m_format img); try congruence; reflexivity).
  assert (HWH : 0 < W * H) by nia.
  set (F := m_numFaces img) in *. set (P := chainPixels img) in *.
  set (b := bpp (m_format img)) in *.
  assert (HN : imageGetNumPixels img = Done (F * P))
    by (apply imageGetNumPixels_chain; fold F; fold P; lia).
  destruct (imageToRgba32f_pixels junk img (F * P) Hf Hu HN ltac:(lia)
              ltac:(fold b; rewrite Hlen, Hcb; nia))
    as (d1 & E1 & L1 & R1).
  fold b in R1.
  set (img32 := Build_Image d1 (m_width img) (m_height img) (F * P * 16)
                            TextureFormat.RGBA32F (m_numMips img) F) in *.
  assert (Hconv : imageRefOrConvert junk TextureFormat.RGBA32F img = Done (false, img32)).
  { unfold imageRefOrConvert, imageConvert. rewrite Hne, E1. cbn [bind TextureFormat.eqb].
    assert (Hp : peek d1 0 (F * P * 16) = Done d1) by (rewrite <- L1; apply peek_all).
    unfold imageCopy. cbn [img32 m_data m_dataSize]. rewrite Hp. reflexivity. }
  assert (Hc32 : chainBytes img32 = P * 16) by (rewrite chainBytes_pixels; reflexivity).
  destruct (resizeData_upscale img32 W H Hw Hh HW HH eq_refl Hmips Hfaces
              ltac:(cbn [img32 m_data m_numFaces]; rewrite Hc32, L1; ring)
              ltac:(cbn [img32 m_numFaces]; rewrite Hc32; lia)
              Hdst junk)
    as (d2 & E2 & L2 & R2).
  cbn [img32 m_numFaces m_width m_height m_data] in L2, R2.
  exists d2. split; [|split; [exact L2|]].
  - unfold imageResize. rewrite Hconv. cbn [bind]. rewrite E2. cbn [bind].
    rewrite Hne.
    rewrite (resized_size img32 W H Hw Hh HW HH eq_refl Hmips Hfaces
               ltac:(cbn [img32 m_data m_numFaces]; rewrite Hc32, L1; ring)
               ltac:(cbn [img32 m_numFaces]; rewrite Hc32; lia)
               Hdst).
    cbn [img32 m_numFaces]. unfold imageConvert.
    cbn [m_format]. change (TextureFormat.eqb TextureFormat.RGBA32F TextureFormat.RGBA32F)
      with true.
    cbn [bind]. rewrite Hne. reflexivity.
  - intros f y x Hf0 Hy Hx.
    destruct (R2 f y x Hf0 Hy Hx) as (xs & ys & C1 & C2 & C3 & C4 & Es).
    exists xs, ys. repeat (split; [assumption|]).
    assert (Hi : 0 <= f * P + (ys * m_width img + xs) < F * P) by nia.
    rewrite Es.
    replace (basePixel img32 f ys xs) with ((f * P + (ys * m_width img + xs)) * 16)
      by (unfold basePixel; rewrite Hc32; cbn [img32 m_width]; ring).
    replace (pixelAt img f ys xs) with ((f * P + (ys * m_width img + xs)) * b)
      by (unfold pixelAt; rewrite Hcb; fold b; ring).
    destruct (R1 _ Hi) as (p & Ep & Es1).
    rewrite <- (slice_slice d1 _ 16 12) by lia. rewrite Es1.
    unfold resizedFrom. rewrite Hne, Ep. reflexivity.
Qed.

Lemma resized_numPixels (mid : bytes) (W H F size : Z) (fmt : TextureFormat.Enum) :
  1 <= W -> 1 <= H -> 0 <= F -> F * (W * H) < 4294967296 ->
  imageGetNumPixels (Build_Image mid W H size fmt 1 F) = Done (F * (W * H)).
Proof.
  intros HW HH HF Hs. set (res := Build_Image mid W H size fmt 1 F).
  assert (Hcp : chainPixels res = W * H)
    by (apply (chainPixels_one res); cbn [res m_width m_height m_numMips]; lia).
  rewrite <- Hcp. apply (imageGetNumPixels_chain res).
  - cbn [res m_numMips]. lia.
  - exact HF.
  - rewrite Hcp. cbn [res m_numFaces]. exact Hs.
Qed.



Lemma loop_app {S : Type} (body : Z -> S -> outcome S) :
  forall (n m : nat) (i : Z) (s : S),
    loop (n + m) i body s = (s' <- loop n i body s ;; loop m (i + Z.of_nat n) body s').
Proof.
  induction n as [|n IH]; intros m i s.
  - cbn [loop Nat.add bind]. replace (i + Z.of_nat 0) with i by lia. reflexivity.
  - cbn [loop Nat.add]. destruct (body i s) as [s1|e]; [|reflexivity]. cbn [bind].
    rewrite IH. replace (i + 1 + Z.of_nat n) with (i + Z.of_nat (Datatypes.S n)) by lia.
    reflexivity.
Qed.

(** A loop whose last turn fails. *)
Lemma for_upto_last_fails {S : Type} (P : Z -> S -> Prop) (body : Z -> S -> outcome S)
    (count : Z) (s0 : S) (e : fault) :
  1 <= count -> P 0 s0 ->
  (forall i s, 0 <= i < count - 1 -> P i s ->
               exists s', body i s = Done s' /\ P (i + 1) s') ->
  (forall s, P (count - 1) s -> body (count - 1) s = Stuck e) ->
  for_upto count body s0 = Stuck e.
Proof.
  intros Hc H0 Hstep Hlast. unfold for_upto.
  replace (Z.to_nat count) with (Z.to_nat (count - 1) + 1)%nat by lia.
  rewrite loop_app.
  destruct (for_upto_invariant P body (count - 1) s0 ltac:(lia) H0 Hstep) as (s1 & E1 & P1).
  unfold for_upto in E1. rewrite E1. cbn [bind loop].
  rewrite Z2Nat.id by lia. replace (0 + (count - 1)) with (count - 1) by lia.
  rewrite (Hlast s1 P1). reflexivity.
Qed.

(** An RGB16F image does not come back: [rgb16fFromRgba32f] stores four
    halves at every six-byte pixel, and the last pixel's fourth half lies
    beyond the buffer. *)
Lemma imageResize_rgb16f (junk : Z -> Z) (img : Image) (W H : Z) :
  m_format img = TextureFormat.RGB16F ->
  1 <= m_width img <= W -> W <= 4194304 ->
  1 <= m_height img <= H -> H <= 4194304 ->
  1 <= m_numMips img -> 1 <= m_numFaces img ->
  len (m_data img) = m_numFaces img * chainBytes img ->
  m_numFaces img * chainPixels img * 16 < 4294967296 ->
  16 * W * H * m_numFaces img < 4294967296 ->
  imageResize junk W H img = Stuck OutOfBounds.
Proof.
  intros Hfmt Hw HW Hh HH Hmips Hfaces Hlen Hsrc Hdst.
  destruct (imageResize_resampled junk img W H
              ltac:(rewrite Hfmt; discriminate) ltac:(rewrite Hfmt; discriminate)
              Hw HW Hh HH Hmips ltac:(lia) Hlen Hsrc Hdst) as (d2 & E & L2 & _).
  rewrite E, Hfmt. clear E.
  set (F := m_numFaces img) in *.
  assert (HWH : 1 <= W * H) by nia.
  assert (Hn : 1 <= F * (W * H)) by nia.
  assert (Hl2 : len d2 = F * (W * H) * 16) by (rewrite L2; ring).
  unfold imageFromRgba32f. cbn [m_format TextureFormat.eqb ensure bind].
  rewrite resized_numPixels by nia. cbn [bind].
  change (m_numChanels (getImageDataInfo TextureFormat.RGBA32F)) with 4.
  change (bpp TextureFormat.RGB16F) with 6.
  rewrite (u32_small (F * (W * H) * 6)) by nia.
  rewrite (u32_small (F * (W * H) * 4)) by nia.
  replace ((F * (W * H) * 4 + 3) / 4) with (F * (W * H))
    by (apply Z.div_unique with (r := 3); lia).
  cbn [m_data].
  rewrite (for_upto_last_fails (fun _ d => len d = F * (W * H) * 6) _ _ _ OutOfBounds);
    [reflexivity|exact Hn|apply len_malloc; lia| |].
  - intros i d Hi Hd. rewrite peek_Done by lia. cbn [bind fromRgba32f defined].
    unfold rgb16fFromRgba32f. cbn [defined bind].
    match goal with
    | |- context [poke d ?off ?src] =>
        destruct (poke_spec d off src) as (d' & Ed & Ld & _);
        [lia|change (len src) with 8; lia|]
    end.
    exists d'. split; [exact Ed|lia].
  - intros d Hd. rewrite peek_Done by lia. cbn [bind fromRgba32f defined].
    unfold rgb16fFromRgba32f. cbn [defined bind]. unfold poke.
    match goal with
    | |- context [len (le_encode 2 ?a ++ ?r)] => change (len (le_encode 2 a ++ r)) with 8
    end.
    replace ((F * (W * H) - 1) * 6 + 8 <=? len d) with false
      by (symmetry; apply Z.leb_gt; lia).
    rewrite andb_false_r. reflexivity.
Qed.

(** A single RGB16F pixel shows it. *)
Lemma imageResize_rgb16f_texel : imageResize noJunk 2 2 halfTexel = Stuck OutOfBounds.
Proof. apply imageResize_rgb16f; ground. Qed.

(** ** C10: [imageResize] to a larger size *)



